(* ===== verification/_CoqProject ===== *)
-Q . S2P
Prelude.v
Atomic.v
ApiTypes.v
SessionStore.v
SessionStoreProofs.v
SessionSpec.v
Executor.v
Auth.v
Metrics.v
Json.v
ErrorReference.v
ApiJson.v
ApiJsonProofs.v
Streaming.v
StreamSession.v
StreamSessionProofs.v
ZooAdapter.v
ChatService.v
ChatServiceProofs.v
ToolSchema.v
CommandTools.v
ToolRun.v
ToolResources.v
Config.v
Registry.v
Server.v
ServerProofs.v
RequestLife.v
Runtime.v
Routes.v
RoutesProofs.v
Replies.v
App.v
