(* ===== verification/Prelude.v ===== *)
(** * zoo-keeper-server: a verification library

    The program is an OpenAI-style HTTP server around one [zoo::Agent]: Drogon
    handlers parse JSON requests, a chat service runs them on the agent, with or
    without a server-side session, streamed or in one piece, and the agent may call
    command-line tools.  This library models the C++ code of src/server (paths
    below are relative to src/) as executable definitions and proves what makes
    each part correct.  Proofs about a file [X.v] are in [X.v] or [XProofs.v].

    ** How effects are modelled

    A method that locks a mutex is a [prog] (Atomic.v): a sequence of critical
    sections, one per [std::lock_guard] block or atomic access, what happens
    between them being local.  [run] is the method alone; [pool_step] interleaves
    any number of methods section by section, and the invariants are proved for
    every reachable pool.  [std::expected] is [expected] (below); an exception that
    leaves a function is an [Unexpected] text.  Shared objects ([std::shared_ptr])
    live in a heap or in a list and are named by their position, so aliasing is
    visible.  Machine integers are [Z] or [N] with the wrap-around written out
    ([u64_mod], [u64_succ], [to_int32], ...); a float is a [spec_float].

    ** The parts

    - Prelude.v: [std::expected], notations, integer conversions, shared lemmas,
      tactics.
    - Atomic.v: programs of critical sections, their interleavings, [guarantees], the
      postcondition [meets].
    - ApiTypes.v (server/api_types.hpp, .cpp): messages, requests, errors, the
      single-use handle, the lease that runs once.  zoo-keeper's message functions
      are the class [ZooCore], what is relied on [ZooCoreLaws]; [ZooDemo] is an
      instance of both.
    - SessionStore.v (server/session_manager.hpp, .cpp): the table, the sessions as shared
      objects, every method; trimming of histories.  SessionSpec.v: the abstract store,
      one step per call, and the refinement.
    - Executor.v (server/executor.hpp, .cpp): the bounded pool as a step relation, with the
      condition variable.
    - Auth.v (server/auth.hpp), Metrics.v (server/metrics.hpp, route_utils.hpp, .cpp).
    - ErrorReference.v: docs/error-reference.md as tables, with the listed differences
      of the code from it.
    - Json.v, ApiJson.v (server/api_json.hpp, .cpp): the seven request parsers, the bodies,
      the error mapping.  nlohmann's [parse] and [dump] are the class [JsonLib].
    - Streaming.v (server/streaming.hpp, .cpp): escaping and server-sent events;
      StreamSession.v: [StreamingSession] of completion_controller.cpp and
      [ExtractionStreamingSession] of api_routes.cpp, one model with a [Frontend].
    - ZooAdapter.v (server/zoo_adapter.hpp, .cpp): options and responses.
    - ChatService.v (server/chat_service.hpp, .cpp): completions, extractions, agent chat,
      history, prompt, cancellation, over the session store; the agent is the log of
      the calls it gets.
    - ToolSchema.v, CommandTools.v, ToolRun.v (server/command_tools.cpp): checking a
      tool's configuration; finding its program and building its environment;
      spawning it and the poll loop, against the answers of the operating system.
      ToolResources.v: the same run with the owners of its descriptors and of the child,
      and every system call they make.
    - Config.v (server/config.hpp, .cpp): [from_json], [validate], [load_config].
    - Registry.v, Server.v, Routes.v (server/api_routes.hpp, .cpp, completion_controller.hpp, .cpp,
      runtime.hpp, .cpp, health.hpp, .cpp, metrics.cpp): the disconnect registry; [ServerState], the
      flows of a generation request up to its answer or stream and the disconnects;
      every route with its authentication, parsing, reply and counting.  Replies.v: the
      statuses of docs/openapi.yaml, and what each route sends.
      RequestLife.v: what a generation request holds, until it has given it back.
    - Runtime.v (server/runtime.cpp, chat_service.cpp): [create], with the agent as the class
      [ZooAgentLib]; [stop], the reaper thread and the executor as one step relation.
    - App.v (main.cpp, server/http_server.cpp, test_ui.cpp): [main] and [HttpServer::run] as
      their visible actions, the settings given to Drogon, CORS, the test page.

    Routes call Server's flows and ApiJson; the flows call ChatService, Metrics,
    StreamSession, Registry and the executor, each lifted into [ServerState];
    ChatService calls the session store and ZooAdapter; Config uses ToolSchema.  [main]
    composes Config, Runtime and the settings.

    ** What is proved

    Sessions: in every interleaving the table and heap agree, the capacity holds,
    histories are well formed, a session belongs to the request that took it, deleted
    sessions stay deleted, stopped stores stay empty; called in sequence the store
    refines the abstract one; a turn has exactly its effect;
    the reaper removes exactly what expired; trimming keeps the longest suffix that
    fits.  Executor: no task is lost or run twice, order and bounds, no lost wake-up,
    a drained pool.  Requests: one answer each, counted once, behind the key;
    whatever way a request ends it leaves no id, session or registry entry behind;
    every reply has a status of its route and every error is one of the reference, with
    or without its code, the listed differences apart;
    disconnects stop exactly the streams of the connection.  Runtime: when [create]
    succeeds and what it makes; [stop] ends, in order, with nothing after it.  Process:
    Drogon runs only with a sound configuration, with exactly the routes of the program.
    Chat service: the whole life of a turn, the prompt in the retained history.  JSON:
    requests and response bodies read back as what was written, accepted messages are
    what the items of the body spell, refusals are 400s.  Streams: frames in order, nothing
    after closing, chunks equal to the compact JSON.  Authentication equals string
    equality.  Metrics are exact under interleaving.  Tools: what an answer and a
    timeout mean, when a run ends, that it gives back every descriptor and child, the
    search of the path, the environment, the schema check.  Configuration: what is
    accepted, and its round trip.  Where the code does not do what it means to - a full executor, a lease that untracks the next
    request, tokens reordered around [set_metadata], a deadline that does not bound a
    run, integers that wrap - a theorem exhibits it.

    ** Bounds and fuel

    Almost nothing has fuel.  [run_prepared_command_tool] takes a number of rounds;
    [tool_run_terminates] gives a number that is enough as soon as the tool has ended
    and its pipes are closed, and [deadline_does_not_bound_run] shows that none is while
    another process holds one of them open, whatever the clock says.  The search of the
    path and the [reap] loop are on their lists or bounded by them.  The executor's drain
    bound is a measure of the pool.

    ** Not modelled

    Logging, the lines on stderr apart that [main] and [run] print themselves; response
    headers, the CORS ones apart; URL matching, which is Drogon's.  zoo-keeper,
    nlohmann::json and Drogon are not part of the repository and appear as classes,
    arguments and logs.  A task that runs in the pool is taken to end: the wait of a
    continuation for the agent's answer is not modelled, so the theorems on the drain of
    the executor and on [stop] rely on the agent answering.  [std::async] around the
    agent's handles: the result, and whether it is there at once, are arguments of the
    flows.  Runtime.v's [stop] sees
    the chat service as the event of its own [stop]; what that does to the sessions
    is in SessionStore.v.  In [ServerState] the cancel callback of a stream counts its
    calls in the session, and is not passed on to the agent's log.

    ** Left to do

    [generation_request_leaves_nothing] takes a handler and a continuation as wholes,
    with any state between them; the same section by section, with the disconnect in
    the middle of either, is left, and so is the cancel callback of a stream in the
    agent's log. *)

From Stdlib Require Export Ascii.
From stdpp Require Export base gmap strings list pretty numbers fin_maps.
From Stdlib Require Export Floats.SpecFloat.

(** ** [std::expected] *)

(** [std::expected<T, E>] of result.hpp and api_types.hpp. *)
Inductive expected (E T : Type) : Type :=
| Value (v : T)
| Unexpected (e : E).
Arguments Value {E T} v.
Arguments Unexpected {E T} e.

(** [Result<T>] of result.hpp: errors are strings. *)
Definition Result (T : Type) : Type := expected string T.

Definition has_value {E T} (r : expected E T) : bool :=
  match r with Value _ => true | Unexpected _ => false end.

Definition expected_bind {E T U} (r : expected E T) (k : T → expected E U) : expected E U :=
  match r with Value v => k v | Unexpected e => Unexpected e end.

Declare Scope server_scope.
Delimit Scope server_scope with server.

(** Early return on error: the source's [if (!r) return std::unexpected(r.error())]. *)
Notation "'try!' x ':=' c 'in' k" :=
  (expected_bind c (λ x, k)) (at level 10, x pattern, c at level 100, k at level 200,
    format "'[' try!  x  :=  c  'in' ']' '/' k") : server_scope.

(** A guard with early return: [if (b) return std::unexpected(e); k]. *)
Notation "'fail_if' b 'with' e ';;' k" :=
  (if b then Unexpected e else k) (at level 10, b at level 100, e at level 99, k at level 200,
    format "'[' fail_if  b  with  e  ;; ']' '/' k") : server_scope.

#[global] Open Scope server_scope.

(** ** Machine integers *)

Definition u64_mod : N := (2 ^ 64)%N.

(** [fetch_add(1)] on a [std::uint64_t]: the new value wraps at 2^64. *)
Definition u64_succ (n : N) : N := ((n + 1) mod u64_mod)%N.

(** [static_cast<int>] of a wider integer (two's complement, C++20). *)
Definition to_int32 (z : Z) : Z := ((z + 2 ^ 31) mod 2 ^ 32 - 2 ^ 31)%Z.

(** [static_cast<std::uint32_t>] / [unsigned int]. *)
Definition to_uint32 (z : Z) : Z := (z mod 2 ^ 32)%Z.

(** [static_cast<std::int64_t>]. *)
Definition to_int64 (z : Z) : Z := ((z + 2 ^ 63) mod 2 ^ 64 - 2 ^ 63)%Z.

Definition in_int32 (z : Z) : Prop := (- 2 ^ 31 ≤ z < 2 ^ 31)%Z.
Definition in_uint32 (z : Z) : Prop := (0 ≤ z < 2 ^ 32)%Z.
Definition in_int64 (z : Z) : Prop := (- 2 ^ 63 ≤ z < 2 ^ 63)%Z.

Lemma to_int32_id z : in_int32 z → to_int32 z = z.
Proof. unfold in_int32, to_int32. intros. rewrite Z.mod_small; lia. Qed.

Lemma to_int32_range z : in_int32 (to_int32 z).
Proof.
  unfold in_int32, to_int32.
  pose proof (Z.mod_pos_bound (z + 2 ^ 31) (2 ^ 32) ltac:(lia)). lia.
Qed.

Lemma to_uint32_range z : in_uint32 (to_uint32 z).
Proof. unfold in_uint32, to_uint32. apply Z.mod_pos_bound. lia. Qed.

Lemma u64_succ_small n : (n + 1 < u64_mod)%N → u64_succ n = (n + 1)%N.
Proof. intros. unfold u64_succ. by apply N.mod_small. Qed.

(** ** Strings *)

Definition is_empty (s : string) : bool :=
  match s with EmptyString => true | _ => false end.

Lemma is_empty_true s : is_empty s = true ↔ s = "".
Proof. by destruct s. Qed.

Lemma is_empty_false s : is_empty s = false ↔ s ≠ "".
Proof. by destruct s. Qed.

Lemma string_app_assoc (a b c : string) : (a +:+ b) +:+ c = a +:+ (b +:+ c).
Proof. induction a as [|x a IH]; [done|]. exact (f_equal (String x) IH). Qed.

Lemma string_app_nil_r (a : string) : a +:+ "" = a.
Proof. induction a as [|x a IH]; [done|]. exact (f_equal (String x) IH). Qed.

Lemma string_length_app (a b : string) :
  String.length (a +:+ b) = String.length a + String.length b.
Proof. induction a as [|x a IH]; [done|]. exact (f_equal S IH). Qed.

Lemma string_app_inj_l (p a b : string) : p +:+ a = p +:+ b → a = b.
Proof. induction p as [|x p IH]; [done|]. intros [= H]%(f_equal id). by apply IH. Qed.

Lemma string_app_cons (x : Ascii.ascii) (a b : string) :
  String x a +:+ b = String x (a +:+ b).
Proof. done. Qed.

Lemma substring_app (p s : string) : String.substring 0 (String.length p) (p +:+ s) = p.
Proof. induction p as [|c p IH]; [by destruct s|]. exact (f_equal (String c) IH). Qed.

Lemma substring_0_full (s : string) : String.substring 0 (String.length s) s = s.
Proof. induction s as [|c s IH]; [done|]. simpl. by rewrite IH. Qed.

Lemma substring_skip (p s : string) : String.substring (String.length p) (String.length s) (p +:+ s) = s.
Proof. induction p as [|c p IH]; [apply substring_0_full|exact IH]. Qed.

(** ** Options and booleans *)

Definition is_some {A} (o : option A) : bool := match o with Some _ => true | None => false end.

Lemma is_some_true {A} (o : option A) : is_some o = true ↔ is_Some o.
Proof. destruct o; split; intros; naive_solver. Qed.

Lemma is_some_false {A} (o : option A) : is_some o = false ↔ o = None.
Proof. destruct o; naive_solver. Qed.

(** ** Maps *)

Lemma map_subseteq_empty_inv {A} (m : gmap string A) : m ⊆ ∅ → m = ∅.
Proof.
  intros Hsub. apply map_empty. intros k. destruct (m !! k) eqn:Hk; [|done].
  eapply lookup_weaken in Hk; [|done]. by rewrite lookup_empty in Hk.
Qed.

#[export] Set Warnings "-clear-no-such-hyp,-register-all".

Create HintDb server discriminated.
Create Rewrite HintDb server.
#[export] Hint Resolve to_int32_range to_uint32_range : server.
#[export] Hint Rewrite string_app_assoc string_app_nil_r string_length_app : server.
#[export] Hint Rewrite @is_some_true @is_some_false is_empty_true is_empty_false : server.

(** ** Tactics *)

(** Split every boolean conjunction, disjunction and comparison of the context. *)
Ltac reflect_bools :=
  repeat match goal with
  | H : _ && _ = true |- _ => apply andb_true_iff in H as [??]
  | H : _ || _ = false |- _ => apply orb_false_iff in H as [??]
  | H : negb _ = true |- _ => apply negb_true_iff in H
  | H : negb _ = false |- _ => apply negb_false_iff in H
  | H : bool_decide _ = true |- _ => apply bool_decide_eq_true in H
  | H : bool_decide _ = false |- _ => apply bool_decide_eq_false in H
  | H : is_some ?o = true |- _ => apply is_some_true in H
  | H : is_some ?o = false |- _ => apply is_some_false in H
  end.

(** Case analysis on every test an operation makes, with the impossible branches closed. *)
Ltac step_cases :=
  repeat (case_match; simplify_eq/=; try done).
