(* ===== verification/Atomic.v ===== *)
(** * Programs made of critical sections

    The methods of the server take a mutex for part of their body
    ([std::lock_guard] in a block), release it, and take it or another one
    again.  [prog S R] is such a method over the shared state [S]: a sequence
    of atomic sections, the rest of the method being a function of what the
    section read.  [run] is the method called with nobody else running;
    [pool_step] interleaves the sections of any number of calls. *)

From S2P Require Import Prelude.

(** ** Programs *)

Inductive prog (S R : Type) : Type :=
| Ret (r : R)
| Atom {A : Type} (sec : S → S * A) (k : A → prog S R).
Arguments Ret {S R} r.
Arguments Atom {S R A} sec k.

Fixpoint prog_bind {S R R'} (p : prog S R) (f : R → prog S R') : prog S R' :=
  match p with
  | Ret r => f r
  | Atom sec k => Atom sec (λ a, prog_bind (k a) f)
  end.

(** One block under a lock (or one atomic access). *)
Definition atomically {S A} (sec : S → S * A) : prog S A := Atom sec Ret.

Notation "'do!' x ':=' p 'in' q" :=
  (prog_bind p (λ x, q)) (at level 10, x pattern, p at level 100, q at level 200,
    format "'[' do!  x  :=  p  'in' ']' '/' q") : server_scope.

(** The method run to its end from [s]. *)
Fixpoint run {S R} (p : prog S R) (s : S) : S * R :=
  match p with
  | Ret r => (s, r)
  | Atom sec k => run (k (snd (sec s))) (fst (sec s))
  end.

(** The sections of a component used inside a larger state. *)
Definition lift_section {S T A} (get : T → S) (put : S → T → T) (sec : S → S * A) (t : T) : T * A :=
  (put (fst (sec (get t))) t, snd (sec (get t))).

Fixpoint lift {S T R} (get : T → S) (put : S → T → T) (p : prog S R) : prog T R :=
  match p with
  | Ret r => Ret r
  | Atom sec k => Atom (lift_section get put sec) (λ a, lift get put (k a))
  end.

(** ** Interleaving *)

Section Pool.
Context {S R : Type}.

(** A configuration: the shared state and the calls in flight. *)
Abbreviation config := (S * list (prog S R))%type.

(** A new call arrives, or one of the calls executes its next section. *)
Inductive pool_step (ops : prog S R → Prop) : config → config → Prop :=
| pool_spawn s ps p :
    ops p → pool_step ops (s, ps) (s, ps ++ [p])
| pool_section s ps i A (sec : S → S * A) k :
    ps !! i = Some (Atom sec k) →
    pool_step ops (s, ps) (fst (sec s), <[i := k (snd (sec s))]> ps).

Abbreviation pool_steps ops := (rtc (pool_step ops)).

(** Every section the program may still execute moves the state along [G]. *)
Fixpoint guarantees (G : S → S → Prop) (p : prog S R) : Prop :=
  match p with
  | Ret _ => True
  | Atom sec k => ∀ s, G s (fst (sec s)) ∧ guarantees G (k (snd (sec s)))
  end.

Lemma pool_steps_guarantee (G : S → S → Prop) ops c c' :
  PreOrder G →
  (∀ p, ops p → guarantees G p) →
  pool_steps ops c c' →
  Forall (guarantees G) (snd c) →
  G (fst c) (fst c') ∧ Forall (guarantees G) (snd c').
Proof.
  intros HG Hops Hsteps. induction Hsteps as [c|c1 c2 c3 Hstep _ IH]; intros Hps.
  { split; [reflexivity|done]. }
  destruct Hstep as [s ps p Hp|s ps i A sec k Hi]; cbn in *.
  - apply IH. apply Forall_app; split; [done|]. constructor; [by apply Hops|constructor].
  - pose proof (Forall_lookup_1 _ _ _ _ Hps Hi) as Hg. cbn in Hg.
    destruct (Hg s) as [Hs Hk].
    destruct IH as [IH1 IH2]; [by apply Forall_insert|].
    split; [|done]. by transitivity (fst (sec s)).
Qed.

Lemma pool_steps_invariant (I : S → Prop) ops c c' :
  (∀ p, ops p → guarantees (λ s s', I s → I s') p) →
  pool_steps ops c c' →
  Forall (guarantees (λ s s', I s → I s')) (snd c) →
  I (fst c) → I (fst c').
Proof.
  intros Hops Hsteps Hps. apply (pool_steps_guarantee (λ s s', I s → I s') ops c c'); try done.
  split; [by intros ?|intros ???; naive_solver].
Qed.
End Pool.

Abbreviation pool_steps ops := (rtc (pool_step ops)).

(** The configuration after the given calls executed one section each, in that order. *)
Fixpoint run_schedule {S R} (sched : list nat) (c : S * list (prog S R)) : S * list (prog S R) :=
  match sched with
  | [] => c
  | i :: sched =>
      match snd c !! i with
      | Some (Atom sec k) =>
          run_schedule sched (fst (sec (fst c)), <[i := k (snd (sec (fst c)))]> (snd c))
      | _ => run_schedule sched c
      end
  end.

Lemma run_schedule_steps {S R} (ops : prog S R → Prop) sched : ∀ c,
  pool_steps ops c (run_schedule sched c).
Proof.
  induction sched as [|i sched IH]; intros [s ps]; simpl; [reflexivity|].
  destruct (ps !! i) as [[r|A sec k]|] eqn:Hi; [apply IH| |apply IH].
  eapply rtc_l; [by apply pool_section|]. apply IH.
Qed.

Lemma spawn_all {S R} (ops : prog S R → Prop) qs : ∀ s ps,
  Forall ops qs → pool_steps ops (s, ps) (s, ps ++ qs).
Proof.
  induction qs as [|q qs IH]; intros s ps Hqs; [by rewrite app_nil_r|].
  inversion Hqs; subst. eapply rtc_l; [by apply pool_spawn|].
  rewrite (cons_middle q ps qs), app_assoc. by apply IH.
Qed.

(** A call executed without interruption is one of the schedules. *)
Lemma run_pool_steps {S R} (ops : prog S R → Prop) p : ∀ s ps i,
  ps !! i = Some p →
  pool_steps ops (s, ps) (fst (run p s), <[i := Ret (snd (run p s))]> ps).
Proof.
  induction p as [r|A sec k IH]; intros s ps i Hi; cbn.
  - rewrite list_insert_id by done. reflexivity.
  - eapply rtc_l; [by apply pool_section|].
    set (q := k (snd (sec s))).
    assert (<[i:=q]> ps !! i = Some q) as Hq.
    { apply list_lookup_insert_eq. by eapply lookup_lt_Some. }
    pose proof (IH (snd (sec s)) (fst (sec s)) (<[i:=q]> ps) i Hq) as Hrun.
    by rewrite list_insert_insert_eq in Hrun.
Qed.

Lemma run_bind {S R R'} (p : prog S R) (f : R → prog S R') s :
  run (prog_bind p f) s = run (f (snd (run p s))) (fst (run p s)).
Proof. revert s. induction p as [r|A sec k IH]; intros s; cbn; [done|]. apply IH. Qed.

Lemma run_atomically {S A} (sec : S → S * A) s : run (atomically sec) s = sec s.
Proof. cbn. by destruct (sec s). Qed.

Lemma run_lift {S T R} (get : T → S) (put : S → T → T) (p : prog S R) t :
  (∀ s t, get (put s t) = s) →
  (∀ s s' t, put s (put s' t) = put s t) →
  (∀ t, put (get t) t = t) →
  run (lift get put p) t = (put (fst (run p (get t))) t, snd (run p (get t))).
Proof.
  intros Hgp Hpp Hpg. revert t. induction p as [r|A sec k IH]; intros t; cbn.
  - by rewrite Hpg.
  - rewrite IH. cbn. by rewrite Hgp, Hpp.
Qed.

Lemma guarantees_weaken {S R} (G G' : S → S → Prop) (p : prog S R) :
  (∀ s s', G s s' → G' s s') → guarantees G p → guarantees G' p.
Proof.
  intros HG. induction p as [r|A sec k IH]; cbn; [done|].
  intros Hp s. destruct (Hp s). auto.
Qed.

Lemma guarantees_bind {S R R'} (G : S → S → Prop) (p : prog S R) (f : R → prog S R') :
  guarantees G p → (∀ r, guarantees G (f r)) → guarantees G (prog_bind p f).
Proof.
  intros Hp Hf. induction p as [r|A sec k IH]; cbn in *; [done|].
  intros s. destruct (Hp s). auto.
Qed.

Lemma guarantees_atomically {S A} (G : S → S → Prop) (sec : S → S * A) :
  (∀ s, G s (fst (sec s))) → guarantees G (atomically sec).
Proof. intros H s. by split. Qed.

#[export] Hint Resolve guarantees_bind guarantees_atomically : server.

(** ** Postconditions *)

(** Whatever the other calls do between the sections, each section moves the state
    along [G] and a result satisfies [Q]. *)
Fixpoint meets {S R} (G : S → S → Prop) (Q : R → Prop) (p : prog S R) : Prop :=
  match p with
  | Ret r => Q r
  | Atom sec k => ∀ s, G s (fst (sec s)) ∧ meets G Q (k (snd (sec s)))
  end.

(** Only the result is of interest. *)
Definition returns {S R} (Q : R → Prop) (p : prog S R) : Prop := meets (λ _ _, True) Q p.

Lemma meets_mono {S R} (G : S → S → Prop) (Q Q' : R → Prop) (p : prog S R) :
  (∀ r, Q r → Q' r) → meets G Q p → meets G Q' p.
Proof. intros HQ. induction p as [r|A sec k IH]; cbn; [auto|]. intros Hp s. destruct (Hp s). auto. Qed.

Lemma meets_bind {S R R'} (G : S → S → Prop) (Q : R → Prop) (Q' : R' → Prop) (p : prog S R)
    (f : R → prog S R') :
  meets G Q p → (∀ r, Q r → meets G Q' (f r)) → meets G Q' (prog_bind p f).
Proof. intros Hp Hf. induction p as [r|A sec k IH]; cbn in *; [auto|]. intros s. destruct (Hp s). auto. Qed.

Lemma meets_atomically {S A} (G : S → S → Prop) (Q : A → Prop) (sec : S → S * A) :
  (∀ s, G s (fst (sec s)) ∧ Q (snd (sec s))) → meets G Q (atomically sec).
Proof. intros H s. exact (H s). Qed.

(** A component's section inside a larger state. *)
Lemma meets_lift {S T R} (get : T → S) (put : S → T → T) (G : T → T → Prop) (Q : R → Prop) (p : prog S R) :
  (∀ x t, G t (put x t)) → returns Q p → meets G Q (lift get put p).
Proof.
  intros HG. unfold returns. induction p as [r|A sec k IH]; cbn; [done|].
  intros Hp t. split; [apply HG|]. apply IH. by destruct (Hp (get t)).
Qed.

Lemma meets_guarantees {S R} (G : S → S → Prop) (Q : R → Prop) (p : prog S R) : meets G Q p → guarantees G p.
Proof. induction p as [r|A sec k IH]; cbn; [done|]. intros Hp s. destruct (Hp s). auto. Qed.

Lemma returns_any {S R} (p : prog S R) : returns (λ _, True) p.
Proof. unfold returns. induction p as [r|A sec k IH]; cbn; auto. Qed.

Lemma returns_atomically {S A} (Q : A → Prop) (sec : S → S * A) :
  (∀ s, Q (snd (sec s))) → returns Q (atomically sec).
Proof. intros H s. split; [done|apply H]. Qed.

#[export] Hint Resolve returns_any : server.
