(* ===== verification/ApiTypes.v ===== *)
(** * api_types.hpp, api_types.cpp: messages, errors, requests, handles

    The data every other component exchanges.  [zoo::Message] and
    [zoo::Role] come from the zoo-keeper submodule: the records below carry the
    members the server reads and writes, and the submodule's functions (message
    factories, role names, role-sequence validation) are the operations of the
    class [ZooCore], used by the rest of the development only through the class
    and the laws of [ZooCoreLaws]. *)

From S2P Require Import Prelude.

(** ** Messages *)

Inductive MessageRole : Type := System | User | Assistant | Tool.

#[export] Instance MessageRole_eq_dec : EqDecision MessageRole.
Proof. solve_decision. Defined.

(** [zoo::OwnedToolCall]. *)
Record OwnedToolCall : Type := {
  tc_id : string;
  tc_name : string;
  tc_arguments_json : string;
}.

#[export] Instance OwnedToolCall_eq_dec : EqDecision OwnedToolCall.
Proof. solve_decision. Defined.

Record ChatMessage : Type := {
  role : MessageRole;
  content : string;
  tool_call_id : string;
  tool_calls : list OwnedToolCall;
}.

#[export] Instance ChatMessage_eq_dec : EqDecision ChatMessage.
Proof. solve_decision. Defined.

(** ** Runtime errors: [zoo::ErrorCode], [zoo::Error] *)

Inductive RuntimeErrorCode : Type :=
| InvalidConfig | InvalidSamplingParams | InvalidModelPath | InvalidContextSize
| BackendInitFailed | ModelLoadFailed | ContextCreationFailed | InferenceFailed
| TokenizationFailed | ContextWindowExceeded | InvalidMessageSequence
| TemplateRenderFailed | AgentNotRunning | RequestCancelled | RequestTimeout
| QueueFull | ToolNotFound | ToolExecutionFailed | InvalidToolSignature
| InvalidToolSchema | ToolValidationFailed | ToolRetriesExhausted
| ToolLoopLimitReached | InvalidOutputSchema | ExtractionFailed
| GgufReadFailed | GgufMetadataNotFound | StoreCorrupted | FilesystemError
| ModelNotFound | ModelAlreadyExists | DownloadFailed | HuggingFaceApiError
| InvalidModelIdentifier | Unknown.

#[export] Instance RuntimeErrorCode_eq_dec : EqDecision RuntimeErrorCode.
Proof. solve_decision. Defined.

Record RuntimeError : Type := {
  re_code : RuntimeErrorCode;
  re_message : string;
  re_context : option string;
}.

Definition RuntimeResult (T : Type) : Type := expected RuntimeError T.

(** [RuntimeError{code, message}]: the context is absent. *)
Definition runtime_error (code : RuntimeErrorCode) (message : string) : RuntimeError :=
  {| re_code := code; re_message := message; re_context := None |}.

(** ** The zoo-keeper functions on messages *)

Class ZooCore : Type := {
  (** [ChatMessage::system], [::user], [::assistant], [::tool],
      [::assistant_with_tool_calls] *)
  msg_system : string → ChatMessage;
  msg_user : string → ChatMessage;
  msg_assistant : string → ChatMessage;
  msg_tool : string → string → ChatMessage;
  msg_assistant_with_tool_calls : string → list OwnedToolCall → ChatMessage;
  (** [zoo::role_to_string] *)
  role_to_string : MessageRole → string;
  (** [zoo::validate_role_sequence]: may a message of this role follow the history? *)
  validate_role_sequence : list ChatMessage → MessageRole → RuntimeResult unit;
}.

(** What the server relies on: each factory sets the role and the content it is named for. *)
Class ZooCoreLaws `{ZooCore} : Prop := {
  msg_system_role c : role (msg_system c) = System;
  msg_system_content c : content (msg_system c) = c;
  msg_assistant_role c : role (msg_assistant c) = Assistant;
  msg_assistant_content c : content (msg_assistant c) = c;
  msg_tool_role c i : role (msg_tool c i) = Tool;
  msg_assistant_with_tool_calls_role c l : role (msg_assistant_with_tool_calls c l) = Assistant;
}.

(** A concrete instance, for evaluating the model: the factories fill the
    members, and the role sequence follows the rules of docs/error-reference.md
    (no tool message first, no repeated non-tool role). *)
Module ZooDemo.
Definition mk (r : MessageRole) (c : string) : ChatMessage :=
  {| role := r; content := c; tool_call_id := ""; tool_calls := [] |}.

Definition validate (history : list ChatMessage) (next : MessageRole) : RuntimeResult unit :=
  match last history with
  | None =>
      if decide (next = Tool)
      then Unexpected (runtime_error InvalidMessageSequence "First message cannot be a tool message")
      else Value ()
  | Some m =>
      if decide (role m = next ∧ next ≠ Tool)
      then Unexpected (runtime_error InvalidMessageSequence "Consecutive messages share a role")
      else Value ()
  end.

#[export] Instance zoo : ZooCore := {|
  msg_system := mk System;
  msg_user := mk User;
  msg_assistant := mk Assistant;
  msg_tool c i := {| role := Tool; content := c; tool_call_id := i; tool_calls := [] |};
  msg_assistant_with_tool_calls c l :=
    {| role := Assistant; content := c; tool_call_id := ""; tool_calls := l |};
  role_to_string r :=
    match r with
    | System => "system" | User => "user" | Assistant => "assistant" | Tool => "tool"
    end;
  validate_role_sequence := validate;
|}.

#[export] Instance zoo_laws : ZooCoreLaws.
Proof. by constructor. Qed.
End ZooDemo.

(** ** API errors *)

Record ApiError : Type := {
  http_status : Z;
  message : string;
  type : string;
  param : option string;
  code : option string;
}.

Definition ApiResult (T : Type) : Type := expected ApiError T.

Definition invalid_request_error (m : string) (p c : option string) : ApiError :=
  {| http_status := 400; message := m; type := "invalid_request_error"; param := p; code := c |}.

Definition service_unavailable_error (m : string) (c : option string) : ApiError :=
  {| http_status := 503; message := m; type := "service_unavailable_error"; param := None; code := c |}.

Definition server_error (m : string) (c : option string) : ApiError :=
  {| http_status := 500; message := m; type := "server_error"; param := None; code := c |}.

Definition not_found_error (m : string) (c : option string) : ApiError :=
  {| http_status := 404; message := m; type := "not_found_error"; param := None; code := c |}.

Definition conflict_error (m : string) (c : option string) : ApiError :=
  {| http_status := 409; message := m; type := "conflict_error"; param := None; code := c |}.

Definition auth_error (m : string) (c : option string) : ApiError :=
  {| http_status := 401; message := m; type := "auth_error"; param := None; code := c |}.

(** [validate_message_sequence]: the zoo-keeper check with the error's text. *)
Definition validate_message_sequence `{ZooCore} (history : list ChatMessage)
    (next_role : MessageRole) : Result unit :=
  match validate_role_sequence history next_role with
  | Unexpected e => Unexpected (re_message e)
  | Value _ => Value ()
  end.

(** ** Completion results *)

(** [std::chrono::milliseconds] counts are 64-bit; [double] is a binary64 value. *)
Abbreviation double := spec_float.

Record CompletionUsage : Type := {
  prompt_tokens : Z;
  completion_tokens : Z;
  total_tokens : Z;
}.

Record CompletionMetrics : Type := {
  latency_ms : Z;
  time_to_first_token_ms : Z;
  tokens_per_second : double;
}.

(** [zoo::ToolInvocationStatus]: the server tells [Succeeded] from every other
    enumerator, which is kept as an opaque tag. *)
Inductive ToolInvocationStatus : Type := Succeeded | OtherStatus (tag : N).

Record ToolInvocationRecord : Type := {
  inv_id : string;
  inv_name : string;
  inv_arguments_json : string;
  inv_status : ToolInvocationStatus;
  inv_result_json : option string;
  inv_error : option RuntimeError;
}.

Record CompletionResult : Type := {
  cr_text : string;
  cr_usage : CompletionUsage;
  cr_metrics : CompletionMetrics;
  cr_tool_invocations : list ToolInvocationRecord;
}.

(** ** Requests and session records *)

(** The optional generation overrides shared by the three request types. *)
Record GenerationOverrides : Type := {
  ov_temperature : option spec_float;
  ov_top_p : option spec_float;
  ov_top_k : option Z;
  ov_repeat_penalty : option spec_float;
  ov_repeat_last_n : option Z;
  ov_max_tokens : option Z;
  ov_seed : option Z;
  ov_stop : option (list string);
  ov_record_tool_trace : option bool;
}.

Definition no_overrides : GenerationOverrides :=
  {| ov_temperature := None; ov_top_p := None; ov_top_k := None; ov_repeat_penalty := None;
     ov_repeat_last_n := None; ov_max_tokens := None; ov_seed := None; ov_stop := None;
     ov_record_tool_trace := None |}.

Record ChatCompletionRequest : Type := {
  ccr_model : string;
  ccr_messages : list ChatMessage;
  ccr_stream : bool;
  ccr_session_id : option string;
  ccr_overrides : GenerationOverrides;
}.

Record AgentChatRequest : Type := {
  acr_model : string;
  acr_message : ChatMessage;
  acr_overrides : GenerationOverrides;
}.

Record SessionCreateRequest : Type := {
  scr_model : string;
  scr_system_prompt : option string;
}.

Record SessionSummary : Type := {
  sum_id : string;
  sum_model : string;
  sum_created : Z;
  sum_last_used : Z;
  sum_expires_at : Z;
}.

Record SessionHealth : Type := {
  sh_enabled : bool;
  sh_active : nat;
  sh_max_sessions : N;
  sh_idle_ttl_seconds : Z;
}.

Record AgentHistorySnapshot : Type := {
  ahs_messages : list ChatMessage;
  ahs_estimated_tokens : Z;
  ahs_context_size : Z;
  ahs_context_exceeded : bool;
}.

(** ** [CompletionHandle]: a single-use future *)

Section Handle.
Context {T : Type}.

(** [CompletionState] / [ExtractionState]: [future] is [None] while the
    agent works, and holds the result once it is set. *)
Record CompletionState : Type := {
  future : option (RuntimeResult T);
  consumed : bool;
}.

Record CompletionHandle : Type := {
  h_id : N;
  h_state : option CompletionState;
}.

Inductive FutureStatus : Type := future_ready | future_timeout.

(** [wait_for(0)]. *)
Definition wait_for (h : CompletionHandle) : FutureStatus :=
  match h_state h with
  | None => future_ready
  | Some s => if consumed s then future_ready else if is_some (future s) then future_ready else future_timeout
  end.

Inductive GetOutcome : Type :=
| Returned (r : RuntimeResult T)
| Blocked.

(** [get()]: [noun] is "Completion" or "Extraction" (the two classes differ
    in their messages only).  [consumed] is set before the call waits on the
    future, with the state's mutex held. *)
Definition get (noun : string) (h : CompletionHandle) : CompletionHandle * GetOutcome :=
  match h_state h with
  | None => (h, Returned (Unexpected (runtime_error Unknown (noun +:+ " handle is not ready"))))
  | Some s =>
      if consumed s
      then (h, Returned (Unexpected (runtime_error Unknown (noun +:+ " result was already consumed"))))
      else
        ({| h_id := h_id h; h_state := Some {| future := future s; consumed := true |} |},
         match future s with Some r => Returned r | None => Blocked end)
  end.

Definition make_completion_handle (id : N) (f : option (RuntimeResult T)) : CompletionHandle :=
  {| h_id := id; h_state := Some {| future := f; consumed := false |} |}.

(** The agent sets the promise. *)
Definition fulfil (r : RuntimeResult T) (h : CompletionHandle) : CompletionHandle :=
  {| h_id := h_id h;
     h_state := option_map (λ s, {| future := Some r; consumed := consumed s |}) (h_state h) |}.

(** Sequences of calls on one handle.  A [get] that waits holds the state's mutex, so no other
    call on the handle completes before the promise is set: a call sequence has no blocked
    call in it ([None]). *)
Inductive HandleCall : Type := CWait | CGet | CFulfil (r : RuntimeResult T).

Definition handle_call (noun : string) (h : CompletionHandle) (c : HandleCall)
    : option (CompletionHandle * list (RuntimeResult T)) :=
  match c with
  | CWait => Some (h, [])
  | CGet => match get noun h with
            | (h', Returned r) => Some (h', [r])
            | (_, Blocked) => None
            end
  | CFulfil r => Some (fulfil r h, [])
  end.

(** The answers of the [get]s, in order. *)
Fixpoint handle_calls (noun : string) (h : CompletionHandle) (cs : list HandleCall)
    : option (CompletionHandle * list (RuntimeResult T)) :=
  match cs with
  | [] => Some (h, [])
  | c :: cs =>
      match handle_call noun h c with
      | None => None
      | Some (h, rs) =>
          match handle_calls noun h cs with
          | None => None
          | Some (h, rs') => Some (h, rs ++ rs')
          end
      end
  end.

Definition consumed_error (noun : string) : RuntimeResult T :=
  Unexpected (runtime_error Unknown (noun +:+ " result was already consumed")).

Fixpoint count_gets (cs : list HandleCall) : nat :=
  match cs with
  | [] => 0
  | CGet :: cs => S (count_gets cs)
  | _ :: cs => count_gets cs
  end.

Lemma handle_calls_consumed noun id f cs :
  handle_calls noun {| h_id := id; h_state := Some {| future := f; consumed := true |} |} cs =
  Some ({| h_id := id; h_state := Some {| future := foldl (λ f c,
             match c with CFulfil r => Some r | _ => f end) f cs; consumed := true |} |},
        replicate (count_gets cs) (consumed_error noun)).
Proof.
  revert f. induction cs as [|c cs IH]; intros f; [done|].
  destruct c; simpl; unfold fulfil; simpl; by rewrite IH.
Qed.

End Handle.
Arguments CompletionState : clear implicits.
Arguments CompletionHandle : clear implicits.
Arguments GetOutcome : clear implicits.
Arguments HandleCall : clear implicits.

(** ** [CompletionLease]: a cleanup that runs once *)

(** The cleanup is a state change [S → S]; [release_once_] is the flag. *)
Record CompletionLease (S : Type) : Type := {
  on_release : option (S → S);
  released : bool;
}.
Arguments on_release {S}.
Arguments released {S}.

Definition make_lease {S} (f : option (S → S)) : CompletionLease S :=
  {| on_release := f; released := false |}.

Definition release {S} (l : CompletionLease S) (s : S) : CompletionLease S * S :=
  if released l then (l, s)
  else ({| on_release := on_release l; released := true |},
        match on_release l with Some f => f s | None => s end).

Fixpoint release_times {S} (n : nat) (l : CompletionLease S) (s : S) : CompletionLease S * S :=
  match n with
  | O => (l, s)
  | S n => let '(l, s) := release l s in release_times n l s
  end.

(** ** Properties of handles and leases *)

(** A handle is single-use: in any sequence of completed calls on a fresh handle, the first
    [get] (if any) answers with a result the future held or the agent set, every later [get]
    answers "already consumed", and from the first [get] on [wait_for] answers ready. *)
Theorem completion_handle_single_use {T} (noun : string) (id : N)
    (f : option (RuntimeResult T)) (cs : list (HandleCall T)) h rs :
  handle_calls noun (make_completion_handle id f) cs = Some (h, rs) →
  length rs = count_gets cs ∧ h_id h = id ∧
  (rs = [] ∨
   ∃ r, rs = r :: replicate (pred (count_gets cs)) (consumed_error noun) ∧
        (f = Some r ∨ CFulfil r ∈ cs) ∧ wait_for h = future_ready).
Proof.
  revert f rs. induction cs as [|c cs IH]; intros f rs; simpl.
  { intros [= <- <-]. auto. }
  destruct c as [| |r]; simpl.
  - destruct (handle_calls _ _ cs) as [[h' rs']|] eqn:Hc; [|done]. intros [= -> <-].
    destruct (IH _ _ Hc) as (? & ? & [?|(r & ? & [?|?] & ?)]); simpl; eauto 10 using list_elem_of_further.
  - destruct f as [r|]; simpl; [|done].
    rewrite handle_calls_consumed. intros [= <- <-]. simpl. rewrite length_replicate.
    split; [done|]. split; [done|]. right. exists r. auto.
  - change (fulfil r _) with (make_completion_handle id (Some r)).
    destruct (handle_calls _ _ cs) as [[h' rs']|] eqn:Hc; [|done]. intros [= -> <-].
    destruct (IH _ _ Hc) as (? & ? & [?|(r' & ? & [Heq|?] & ?)]); simpl; simplify_eq;
      eauto 10 using list_elem_of_further, list_elem_of_here.
Qed.

Lemma release_released {S} n (l : CompletionLease S) (s : S) :
  released l = true → release_times n l s = (l, s).
Proof. intros Hl. induction n as [|n IH]; simpl; [done|]. unfold release. by rewrite Hl. Qed.

(** A lease runs its cleanup exactly once: however many times [release] and the destructor
    (which calls it) run, the state change is applied once, and not before the first of them. *)
Theorem lease_cleanup_once {S} (f : S → S) (n : nat) (s : S) :
  snd (release_times n (make_lease (Some f)) s) = match n with O => s | _ => f s end.
Proof. destruct n as [|n]; simpl; [done|]. by rewrite release_released. Qed.

Module Witness.
Lemma completion_handle_single_use_witness :
  let answer : RuntimeResult nat := Value 7 in
  let rs := [answer; consumed_error "Completion"; consumed_error "Completion"] in
  ∃ h, handle_calls "Completion" (make_completion_handle 3 None)
         [CWait; CFulfil answer; CGet; CGet; CGet] = Some (h, rs) ∧
       length rs = 3 ∧ h_id h = 3%N.
Proof.
  eexists. split; [reflexivity|].
  pose proof (completion_handle_single_use "Completion" 3 None
    [CWait; CFulfil (Value 7); CGet; CGet; CGet] _ _ eq_refl) as (Hl & Hid & _).
  split; [exact Hl | exact Hid].
Defined.
End Witness.
