(* ===== verification/SessionStore.v ===== *)
(** * session_manager.hpp, session_manager.cpp: the session store

    [SessionStore] keeps the sessions of the server.  Sessions are shared
    objects: the table maps an id to a location of [heap], so a call that looked
    a session up keeps it across a later [delete_session] or reaping, as the
    [std::shared_ptr] of the source does.  Each method is a [prog] with one
    section per [std::lock_guard] block.  [clock_] is an arbitrary sequence of
    readings, one per call of the clock. *)

From S2P Require Import Prelude Atomic ApiTypes.

(** ** [SessionConfig] (config.hpp) *)

Record SessionConfig : Type := {
  max_sessions : N;       (* size_t *)
  idle_ttl_seconds : Z;   (* std::uint32_t *)
}.

Definition enabled (c : SessionConfig) : bool := bool_decide (0 < max_sessions c)%N.

(** ** Pure helpers *)

(** [combine_system_prompts] of internal_utils.hpp. *)
Definition combine_system_prompts (base_prompt request_prompt : string) : string :=
  if is_empty base_prompt then request_prompt
  else if is_empty request_prompt then base_prompt
  else base_prompt +:+ String "010"%char (String "010"%char "") +:+ request_prompt.

Definition make_initial_history `{ZooCore} (base_prompt : string) (request_prompt : option string)
    : list ChatMessage :=
  let effective_prompt := combine_system_prompts base_prompt (default "" request_prompt) in
  if is_empty effective_prompt then [] else [msg_system effective_prompt].

(** [messages.front().role == System]. *)
Definition starts_with_system (messages : list ChatMessage) : bool :=
  match messages with m :: _ => bool_decide (role m = System) | [] => false end.

(** The [while] loop of [trim_history_to_fit]: from [erase_end], advance to the
    next user message or the end.  [fuel] bounds the iterations. *)
Fixpoint advance_to_user (fuel : nat) (messages : list ChatMessage) (erase_end : nat) : nat :=
  match fuel with
  | O => erase_end
  | S fuel =>
      match messages !! erase_end with
      | Some m => if decide (role m = User) then erase_end
                  else advance_to_user fuel messages (S erase_end)
      | None => erase_end
      end
  end.

(** The bound is a [size_t] in the source; [system_offset + max_history_messages] would wrap
    only for a bound of 2^64 - 1, longer than any list of messages, which the model leaves out. *)
Definition trim_history_to_fit (messages : list ChatMessage) (max_history_messages : nat)
    : list ChatMessage :=
  let system_offset := if starts_with_system messages then 1 else 0 in
  if bool_decide (length messages ≤ system_offset + max_history_messages) then messages
  else
    let erase_end := length messages - max_history_messages in
    let erase_end := if bool_decide (erase_end < system_offset) then system_offset else erase_end in
    let erase_end := advance_to_user (length messages) messages erase_end in
    if bool_decide (erase_end ≤ system_offset) then messages
    else take system_offset messages ++ drop erase_end messages.

(** ** State *)

Record SessionState : Type := {
  ss_id : string;
  ss_model : string;
  ss_created : Z;
  ss_last_used : Z;
  ss_expires_at : Z;
  ss_history : list ChatMessage;
  ss_active_request : option N;
  ss_closed : bool;
}.

#[export] Instance SessionState_inhabited : Inhabited SessionState :=
  populate {| ss_id := ""; ss_model := ""; ss_created := 0; ss_last_used := 0; ss_expires_at := 0;
              ss_history := []; ss_active_request := None; ss_closed := true |}.

(** The members fixed by the constructor. *)
Record StoreConfig : Type := {
  model_id_ : string;
  config_ : SessionConfig;
  max_history_messages_ : nat;
  clock_ : nat → Z;
}.

Record SessionStore : Type := {
  base_system_prompt_ : string;
  clock_reads : nat;
  next_session_id_ : N;
  heap : list SessionState;
  sessions_ : gmap string nat;
  stopping_ : bool;
}.

Definition new_store (base_system_prompt : string) : SessionStore :=
  {| base_system_prompt_ := base_system_prompt; clock_reads := 0; next_session_id_ := 1;
     heap := []; sessions_ := ∅; stopping_ := false |}.

(** *** Member updates *)

Definition set_history (h : list ChatMessage) (s : SessionState) : SessionState :=
  {| ss_id := ss_id s; ss_model := ss_model s; ss_created := ss_created s;
     ss_last_used := ss_last_used s; ss_expires_at := ss_expires_at s; ss_history := h;
     ss_active_request := ss_active_request s; ss_closed := ss_closed s |}.

Definition set_active_request (r : option N) (s : SessionState) : SessionState :=
  {| ss_id := ss_id s; ss_model := ss_model s; ss_created := ss_created s;
     ss_last_used := ss_last_used s; ss_expires_at := ss_expires_at s;
     ss_history := ss_history s; ss_active_request := r; ss_closed := ss_closed s |}.

Definition set_closed (s : SessionState) : SessionState :=
  {| ss_id := ss_id s; ss_model := ss_model s; ss_created := ss_created s;
     ss_last_used := ss_last_used s; ss_expires_at := ss_expires_at s;
     ss_history := ss_history s; ss_active_request := ss_active_request s; ss_closed := true |}.

Definition set_times (last_used expires_at : Z) (s : SessionState) : SessionState :=
  {| ss_id := ss_id s; ss_model := ss_model s; ss_created := ss_created s;
     ss_last_used := last_used; ss_expires_at := expires_at; ss_history := ss_history s;
     ss_active_request := ss_active_request s; ss_closed := ss_closed s |}.

Definition with_heap (h : list SessionState) (st : SessionStore) : SessionStore :=
  {| base_system_prompt_ := base_system_prompt_ st; clock_reads := clock_reads st;
     next_session_id_ := next_session_id_ st; heap := h; sessions_ := sessions_ st;
     stopping_ := stopping_ st |}.

Definition with_sessions (m : gmap string nat) (st : SessionStore) : SessionStore :=
  {| base_system_prompt_ := base_system_prompt_ st; clock_reads := clock_reads st;
     next_session_id_ := next_session_id_ st; heap := heap st; sessions_ := m;
     stopping_ := stopping_ st |}.

Definition with_next_id (n : N) (st : SessionStore) : SessionStore :=
  {| base_system_prompt_ := base_system_prompt_ st; clock_reads := clock_reads st;
     next_session_id_ := n; heap := heap st; sessions_ := sessions_ st;
     stopping_ := stopping_ st |}.

(** Write through a [shared_ptr]. *)
Definition update_session (loc : nat) (f : SessionState → SessionState) (st : SessionStore)
    : SessionStore := with_heap (alter f loc (heap st)) st.

(** ** Operations *)

Definition disabled_error : ApiError :=
  invalid_request_error "Sessions are disabled for this server" (Some "session_id")
    (Some "sessions_disabled").

Definition unknown_session_error (session_id : string) : ApiError :=
  not_found_error ("Unknown session: " +:+ session_id) (Some "session_not_found").

Definition unknown_model_error (model : string) : ApiError :=
  invalid_request_error ("Unknown model: " +:+ model) (Some "model") (Some "invalid_model").

(** [snapshot_session], without its lock. *)
Definition snapshot_session (s : SessionState) : SessionSummary :=
  {| sum_id := ss_id s; sum_model := ss_model s; sum_created := ss_created s;
     sum_last_used := ss_last_used s; sum_expires_at := ss_expires_at s |}.

(** The test of [reap_expired_sessions_locked]. *)
Definition should_expire (now : Z) (s : SessionState) : bool :=
  negb (ss_closed s) && negb (is_some (ss_active_request s)) && bool_decide (ss_expires_at s ≤ now)%Z.

Record BeginRequestResult : Type := {
  br_messages : list ChatMessage;
  br_started_at : Z;
  br_user_message : ChatMessage;
}.

Section Operations.
Context `{ZooCore}.
Variable p : StoreConfig.

(** [clock_()]. *)
Definition read_clock (st : SessionStore) : SessionStore * Z :=
  ({| base_system_prompt_ := base_system_prompt_ st; clock_reads := S (clock_reads st);
      next_session_id_ := next_session_id_ st; heap := heap st; sessions_ := sessions_ st;
      stopping_ := stopping_ st |},
   clock_ p (clock_reads st)).

Definition touch_session (loc : nat) (st : SessionStore) : SessionStore :=
  let '(st, now) := read_clock st in
  update_session loc (set_times now (now + idle_ttl_seconds (config_ p))%Z) st.

(** The loop of [reap_expired_sessions_locked] over the table's entries. *)
Fixpoint reap_loop (now : Z) (entries : list (string * nat)) (st : SessionStore)
    (expired : list nat) : SessionStore * list nat :=
  match entries with
  | [] => (st, expired)
  | (id, loc) :: entries =>
      match heap st !! loc with
      | Some s =>
          if should_expire now s
          then reap_loop now entries
                 (with_sessions (delete id (sessions_ st)) (update_session loc set_closed st))
                 (expired ++ [loc])
          else reap_loop now entries st expired
      | None => reap_loop now entries st expired
      end
  end.

Definition reap_expired_sessions_locked (now : Z) (st : SessionStore) : SessionStore * list nat :=
  reap_loop now (map_to_list (sessions_ st)) st [].

Definition health : prog SessionStore SessionHealth :=
  atomically (λ st, (st, {| sh_enabled := enabled (config_ p);
                            sh_active := size (sessions_ st);
                            sh_max_sessions := max_sessions (config_ p);
                            sh_idle_ttl_seconds := idle_ttl_seconds (config_ p) |})).

Definition reap_section (st : SessionStore) : SessionStore * unit :=
  if stopping_ st then (st, ())
  else let '(st, now) := read_clock st in (fst (reap_expired_sessions_locked now st), ()).

Definition reap_expired_sessions : prog SessionStore unit := atomically reap_section.

(** *** [create_session] *)

Inductive CreateOutcome : Type := CStopping | CCapacity | CCreated (loc : nat).

Definition session_name (n : N) : string := "sess-" +:+ pretty n.

Definition create_section (request : SessionCreateRequest) (st : SessionStore)
    : SessionStore * CreateOutcome :=
  if stopping_ st then (st, CStopping)
  else
    let '(st, now) := read_clock st in
    let '(st, _) := reap_expired_sessions_locked now st in
    if bool_decide (max_sessions (config_ p) ≤ N.of_nat (size (sessions_ st)))%N then (st, CCapacity)
    else
      let session_id := session_name (next_session_id_ st) in
      let loc := length (heap st) in
      let session :=
        {| ss_id := session_id; ss_model := model_id_ p; ss_created := now; ss_last_used := now;
           ss_expires_at := (now + idle_ttl_seconds (config_ p))%Z;
           ss_history := make_initial_history (base_system_prompt_ st) (scr_system_prompt request);
           ss_active_request := None; ss_closed := false |} in
      let st := with_next_id (u64_succ (next_session_id_ st)) st in
      let st := with_heap (heap st ++ [session]) st in
      (* emplace leaves an existing entry alone *)
      (match sessions_ st !! session_id with
       | Some _ => st
       | None => with_sessions (<[session_id := loc]> (sessions_ st)) st
       end, CCreated loc).

(** [snapshot_session] through the pointer ([heap st !!! loc] reads
    the allocated session; the store never hands out another location). *)
Definition snapshot_section (loc : nat) (st : SessionStore) : SessionStore * SessionSummary :=
  (st, snapshot_session (heap st !!! loc)).

Definition create_session (request : SessionCreateRequest)
    : prog SessionStore (ApiResult SessionSummary) :=
  if negb (enabled (config_ p)) then Ret (Unexpected disabled_error)
  else if negb (bool_decide (scr_model request = model_id_ p))
  then Ret (Unexpected (unknown_model_error (scr_model request)))
  else
    do! outcome := atomically (create_section request) in
    match outcome with
    | CStopping =>
        Ret (Unexpected (service_unavailable_error "Server runtime is stopping"
                           (Some "agent_not_ready")))
    | CCapacity =>
        Ret (Unexpected (service_unavailable_error "Session capacity reached"
                           (Some "session_capacity_reached")))
    | CCreated loc =>
        do! summary := atomically (snapshot_section loc) in Ret (Value summary)
    end.

(** *** [get_session] *)

Definition find_section (session_id : string) (st : SessionStore) : SessionStore * option nat :=
  (st, sessions_ st !! session_id).

Definition reap_find_section (session_id : string) (st : SessionStore)
    : SessionStore * option nat :=
  let '(st, now) := read_clock st in
  let '(st, _) := reap_expired_sessions_locked now st in
  (st, sessions_ st !! session_id).

Definition get_session (session_id : string) : prog SessionStore (ApiResult SessionSummary) :=
  if negb (enabled (config_ p)) then Ret (Unexpected disabled_error)
  else
    do! o := atomically (reap_find_section session_id) in
    match o with
    | None => Ret (Unexpected (unknown_session_error session_id))
    | Some loc =>
        do! summary := atomically (snapshot_section loc) in Ret (Value summary)
    end.

(** *** [delete_session] *)

Definition erase_section (session_id : string) (st : SessionStore) : SessionStore * option nat :=
  match sessions_ st !! session_id with
  | None => (st, None)
  | Some loc => (with_sessions (delete session_id (sessions_ st)) st, Some loc)
  end.

Definition close_section (loc : nat) (st : SessionStore) : SessionStore * unit :=
  (update_session loc set_closed st, ()).

Definition delete_session (session_id : string) : prog SessionStore (ApiResult unit) :=
  if negb (enabled (config_ p)) then Ret (Unexpected disabled_error)
  else
    do! o := atomically (erase_section session_id) in
    match o with
    | None => Ret (Unexpected (unknown_session_error session_id))
    | Some loc => do! _ := atomically (close_section loc) in Ret (Value ())
    end.

Definition set_base_system_prompt (prompt : string) : prog SessionStore unit :=
  atomically (λ st,
    ({| base_system_prompt_ := prompt; clock_reads := clock_reads st;
        next_session_id_ := next_session_id_ st; heap := heap st; sessions_ := sessions_ st;
        stopping_ := stopping_ st |}, ())).

(** *** [begin_request] *)

Definition session_busy_error : ApiError :=
  conflict_error "Session already has an active request" (Some "session_busy").

(** The block under the session's mutex: refuse a closed or busy session,
    otherwise copy the history, take the session and touch it. *)
Definition admit_section (session_id : string) (loc : nat) (user_message : ChatMessage)
    (request_id : N) (st : SessionStore) : SessionStore * ApiResult (list ChatMessage) :=
  match heap st !! loc with
  | None => (st, Unexpected (unknown_session_error session_id))
  | Some s =>
      if ss_closed s then (st, Unexpected (unknown_session_error session_id))
      else if is_some (ss_active_request s) then (st, Unexpected session_busy_error)
      else
        let st := update_session loc (set_active_request (Some request_id)) st in
        (touch_session loc st, Value (ss_history s ++ [user_message]))
  end.

Definition one_user_message (messages : list ChatMessage) : option ChatMessage :=
  match messages with
  | [m] => if decide (role m = User) then Some m else None
  | _ => None
  end.

Definition begin_request (request : ChatCompletionRequest) (request_id : N)
    : prog SessionStore (ApiResult BeginRequestResult) :=
  if negb (enabled (config_ p)) then Ret (Unexpected disabled_error)
  else match ccr_session_id request with
  | None =>
      Ret (Unexpected (invalid_request_error "session_id is required" (Some "session_id") None))
  | Some session_id =>
      if negb (bool_decide (ccr_model request = model_id_ p))
      then Ret (Unexpected (unknown_model_error (ccr_model request)))
      else match one_user_message (ccr_messages request) with
      | None =>
          Ret (Unexpected (invalid_request_error
                 "Session chat requests must contain exactly one user message"
                 (Some "messages") (Some "invalid_message_sequence")))
      | Some user_message =>
          do! o := atomically (reap_find_section session_id) in
          match o with
          | None => Ret (Unexpected (unknown_session_error session_id))
          | Some loc =>
              do! started_at := atomically read_clock in
              do! r := atomically (admit_section session_id loc user_message request_id) in
              Ret (try! messages := r in
                   Value {| br_messages := messages; br_started_at := started_at;
                            br_user_message := user_message |})
          end
      end
  end.

(** *** [commit_result], [commit_response_text], [release_request] *)

Definition owns (request_id : N) (s : SessionState) : bool :=
  bool_decide (ss_active_request s = Some request_id).

(** The block under the session's mutex, shared by the two commits; [text] is
    the assistant's text when the result is a value. *)
Definition commit_section (loc : nat) (request_id : N) (user_message : ChatMessage)
    (text : option string) (st : SessionStore) : SessionStore * unit :=
  match heap st !! loc with
  | None => (st, ())
  | Some s =>
      if negb (owns request_id s) then (st, ())
      else
        let st :=
          match text with
          | Some text =>
              if ss_closed s then st
              else update_session loc
                     (set_history (trim_history_to_fit
                        (ss_history s ++ [user_message; msg_assistant text])
                        (max_history_messages_ p))) st
          | None => st
          end in
        let st := update_session loc (set_active_request None) st in
        (touch_session loc st, ())
  end.

Definition commit_text (session_id : string) (request_id : N) (user_message : ChatMessage)
    (text : option string) : prog SessionStore unit :=
  do! o := atomically (find_section session_id) in
  match o with
  | None => Ret ()
  | Some loc => atomically (commit_section loc request_id user_message text)
  end.

Definition commit_result (session_id : string) (request_id : N) (user_message : ChatMessage)
    (result : RuntimeResult CompletionResult) : prog SessionStore unit :=
  commit_text session_id request_id user_message
    match result with Value r => Some (cr_text r) | Unexpected _ => None end.

Definition commit_response_text (session_id : string) (request_id : N)
    (user_message : ChatMessage) (result : RuntimeResult string) : prog SessionStore unit :=
  commit_text session_id request_id user_message
    match result with Value r => Some r | Unexpected _ => None end.

Definition release_section (loc : nat) (request_id : N) (st : SessionStore)
    : SessionStore * unit :=
  match heap st !! loc with
  | None => (st, ())
  | Some s =>
      if negb (owns request_id s) then (st, ())
      else (touch_session loc (update_session loc (set_active_request None) st), ())
  end.

Definition release_request (session_id : string) (request_id : N) : prog SessionStore unit :=
  do! o := atomically (find_section session_id) in
  match o with
  | None => Ret ()
  | Some loc => atomically (release_section loc request_id)
  end.

(** *** [stop] *)

Definition swap_out_section (st : SessionStore) : SessionStore * list nat :=
  if stopping_ st then (st, [])
  else
    ({| base_system_prompt_ := base_system_prompt_ st; clock_reads := clock_reads st;
        next_session_id_ := next_session_id_ st; heap := heap st; sessions_ := ∅;
        stopping_ := true |},
     snd <$> map_to_list (sessions_ st)).

Fixpoint close_all (locs : list nat) : prog SessionStore unit :=
  match locs with
  | [] => Ret ()
  | loc :: locs => do! _ := atomically (close_section loc) in close_all locs
  end.

Definition stop : prog SessionStore unit :=
  do! locs := atomically swap_out_section in close_all locs.

(** *** The public interface as data *)

Inductive StoreCall : Type :=
| CallHealth
| CallReap
| CallCreate (request : SessionCreateRequest)
| CallGet (session_id : string)
| CallDelete (session_id : string)
| CallSetPrompt (prompt : string)
| CallBegin (request : ChatCompletionRequest) (request_id : N)
| CallCommit (session_id : string) (request_id : N) (user_message : ChatMessage)
    (result : RuntimeResult CompletionResult)
| CallCommitText (session_id : string) (request_id : N) (user_message : ChatMessage)
    (result : RuntimeResult string)
| CallRelease (session_id : string) (request_id : N)
| CallStop.

Inductive StoreReply : Type :=
| ReplyUnit
| ReplyHealth (h : SessionHealth)
| ReplySession (r : ApiResult SessionSummary)
| ReplyDelete (r : ApiResult unit)
| ReplyBegin (r : ApiResult BeginRequestResult).

Definition store_call (c : StoreCall) : prog SessionStore StoreReply :=
  match c with
  | CallHealth => do! h := health in Ret (ReplyHealth h)
  | CallReap => do! _ := reap_expired_sessions in Ret ReplyUnit
  | CallCreate r => do! s := create_session r in Ret (ReplySession s)
  | CallGet id => do! s := get_session id in Ret (ReplySession s)
  | CallDelete id => do! r := delete_session id in Ret (ReplyDelete r)
  | CallSetPrompt pr => do! _ := set_base_system_prompt pr in Ret ReplyUnit
  | CallBegin r n => do! b := begin_request r n in Ret (ReplyBegin b)
  | CallCommit id n m r => do! _ := commit_result id n m r in Ret ReplyUnit
  | CallCommitText id n m r => do! _ := commit_response_text id n m r in Ret ReplyUnit
  | CallRelease id n => do! _ := release_request id n in Ret ReplyUnit
  | CallStop => do! _ := stop in Ret ReplyUnit
  end.

(** The store after any number of interleaved calls satisfying [allowed]. *)
Definition store_steps (allowed : StoreCall → Prop)
    : relation (SessionStore * list (prog SessionStore StoreReply)) :=
  pool_steps (λ q, ∃ c, allowed c ∧ q = store_call c).
End Operations.
