(* ===== verification/SessionStoreProofs.v ===== *)
(** * Theorems about the session store

    History trimming, the table invariant under every interleaving of the
    interface, ownership of a session by its active request, deletion,
    shutdown, reaping, and the effect of a whole turn. *)

From S2P Require Import Prelude Atomic ApiTypes SessionStore.

#[local] Arguments reap_section : simpl never.
#[local] Arguments create_section : simpl never.
#[local] Arguments reap_find_section : simpl never.
#[local] Arguments erase_section : simpl never.
#[local] Arguments close_section : simpl never.
#[local] Arguments admit_section : simpl never.
#[local] Arguments commit_section : simpl never.
#[local] Arguments release_section : simpl never.
#[local] Arguments swap_out_section : simpl never.
#[local] Arguments touch_session : simpl never.

(** ** Trimming *)

(** The number of leading system messages that trimming protects. *)
Definition system_prefix (messages : list ChatMessage) : nat :=
  if starts_with_system messages then 1 else 0.

(** A history as [SessionStore] builds it: an optional system message, then
    question/answer turns. *)
Inductive turns : list ChatMessage → Prop :=
| turns_nil : turns []
| turns_cons u a l : role u = User → role a = Assistant → turns l → turns (u :: a :: l).

Definition history_ok (h : list ChatMessage) : Prop :=
  ∃ sys body, h = sys ++ body ∧ turns body ∧ (sys = [] ∨ ∃ m, sys = [m] ∧ role m = System).

#[export] Hint Constructors turns : server.

Lemma system_prefix_le ms : system_prefix ms ≤ length ms.
Proof. unfold system_prefix, starts_with_system. destruct ms; [done|]. case_match; cbn; lia. Qed.

Lemma advance_to_user_spec fuel ms e :
  length ms ≤ fuel + e → e ≤ length ms →
  e ≤ advance_to_user fuel ms e ≤ length ms ∧
  (∀ i m, e ≤ i < advance_to_user fuel ms e → ms !! i = Some m → role m ≠ User) ∧
  (∀ m, ms !! advance_to_user fuel ms e = Some m → role m = User).
Proof.
  revert e. induction fuel as [|fuel IH]; intros e Hf He; cbn.
  { split_and!; [lia|lia|intros; lia|].
    intros m Hm%lookup_lt_Some. lia. }
  destruct (ms !! e) as [m|] eqn:Hm; last first.
  { split_and!; [lia|lia|intros; lia|]. intros m Hm'. congruence. }
  destruct (decide (role m = User)) as [Hu|Hu].
  { split_and!; [lia|lia|intros; lia|]. intros m' Hm'. congruence. }
  pose proof (lookup_lt_Some _ _ _ Hm).
  destruct (IH (S e)) as (H1 & H2 & H3); [lia|lia|].
  split_and!; [lia|lia| |done].
  intros i m' Hi Hm'. destruct (decide (i = e)) as [->|]; [congruence|].
  apply (H2 i); [lia|done].
Qed.

(** The cut [trim_history_to_fit] makes when the history is too long. *)
Lemma trim_history_cut ms max :
  system_prefix ms + max < length ms →
  ∃ k, trim_history_to_fit ms max = take (system_prefix ms) ms ++ drop k ms ∧
       length ms - max ≤ k ≤ length ms ∧
       (∀ i m, length ms - max ≤ i < k → ms !! i = Some m → role m ≠ User) ∧
       (∀ m, ms !! k = Some m → role m = User).
Proof.
  intros Hlong. unfold trim_history_to_fit. fold (system_prefix ms).
  rewrite bool_decide_eq_false_2 by lia.
  rewrite (bool_decide_eq_false_2 (length ms - max < system_prefix ms)) by lia.
  destruct (advance_to_user_spec (length ms) ms (length ms - max)) as (H1 & H2 & H3); [lia|lia|].
  rewrite bool_decide_eq_false_2 by lia.
  eexists. split_and!; [done|lia|lia|done|done].
Qed.

Lemma trim_history_short ms max :
  length ms ≤ system_prefix ms + max → trim_history_to_fit ms max = ms.
Proof.
  intros. unfold trim_history_to_fit. fold (system_prefix ms). by rewrite bool_decide_eq_true_2.
Qed.

Lemma trim_history_length ms max :
  length (trim_history_to_fit ms max) ≤ system_prefix ms + max.
Proof.
  destruct (decide (length ms ≤ system_prefix ms + max)).
  { by rewrite trim_history_short. }
  destruct (trim_history_cut ms max) as (k & -> & Hk & _); [lia|].
  rewrite length_app, length_take, length_drop. lia.
Qed.

Lemma turns_length l : turns l → Nat.Even (length l).
Proof. induction 1 as [|u a l _ _ _ [n Hn]]; [by exists 0|]. exists (S n). cbn. lia. Qed.

Lemma turns_snoc l u a : turns l → role u = User → role a = Assistant → turns (l ++ [u; a]).
Proof. induction 1; cbn; auto with server. Qed.

(** A suffix of turns that is empty or starts with a user message is made of turns. *)
Lemma turns_drop l k :
  turns l → (∀ m, l !! k = Some m → role m = User) → turns (drop k l).
Proof.
  intros Hl. revert k. induction Hl as [|u a l Hu Ha Hl IH]; intros k Hk.
  { rewrite drop_nil. constructor. }
  destruct k as [|[|k]].
  - cbn. by constructor.
  - cbn in *. specialize (Hk a eq_refl). congruence.
  - cbn in *. by apply IH.
Qed.

Lemma turns_head_user l m : turns l → head l = Some m → role m = User.
Proof. destruct 1; naive_solver. Qed.

Lemma history_ok_prefix h :
  history_ok h → turns (drop (system_prefix h) h).
Proof.
  intros (sys & body & -> & Hb & [->|(m & -> & Hm)]); cbn.
  - unfold system_prefix, starts_with_system. destruct Hb as [|u a l Hu Ha Hl]; [constructor|].
    cbn. rewrite Hu. cbn. by constructor.
  - unfold system_prefix, starts_with_system. cbn. by rewrite bool_decide_eq_true_2.
Qed.

Lemma history_ok_intro sys body :
  turns body → (sys = [] ∨ ∃ m, sys = [m] ∧ role m = System) → history_ok (sys ++ body).
Proof. intros. by exists sys, body. Qed.

Lemma history_ok_snoc h u a :
  history_ok h → role u = User → role a = Assistant → history_ok (h ++ [u; a]).
Proof.
  intros (sys & body & -> & Hb & Hs) Hu Ha. rewrite <-app_assoc.
  apply history_ok_intro; [by apply turns_snoc|done].
Qed.

Lemma take_system_prefix h :
  take (system_prefix h) h = [] ∨ ∃ m, take (system_prefix h) h = [m] ∧ role m = System.
Proof.
  unfold system_prefix, starts_with_system. destruct h as [|m h]; [by left|].
  case_bool_decide; [right|by left]. by exists m.
Qed.

Lemma trim_history_ok h max : history_ok h → history_ok (trim_history_to_fit h max).
Proof.
  intros Hh. destruct (decide (length h ≤ system_prefix h + max)).
  { by rewrite trim_history_short. }
  destruct (trim_history_cut h max) as (k & -> & Hk & _ & Hu); [lia|].
  apply history_ok_intro; [|apply take_system_prefix].
  replace k with (system_prefix h + (k - system_prefix h)) by lia.
  rewrite <-drop_drop. apply turns_drop; [by apply history_ok_prefix|].
  intros m Hm. rewrite lookup_drop in Hm. apply Hu. by rewrite <-Hm; f_equal; lia.
Qed.

(** C6: [trim_history_to_fit] leaves a history within
    the limit alone; a longer one keeps its system message (if it starts with
    one) and exactly the longest suffix that fits in [max] messages and begins
    with a user message (possibly the empty suffix). *)
Theorem trim_history_longest_suffix (ms : list ChatMessage) (max : nat) :
  let off := system_prefix ms in
  (length ms ≤ off + max → trim_history_to_fit ms max = ms) ∧
  (off + max < length ms →
   ∃ k, trim_history_to_fit ms max = take off ms ++ drop k ms ∧
        off ≤ k ∧ length (drop k ms) ≤ max ∧
        (∀ m, ms !! k = Some m → role m = User) ∧
        (∀ k' m, length (drop k' ms) ≤ max → ms !! k' = Some m → role m = User → k ≤ k')).
Proof.
  cbn. split; [apply trim_history_short|]. intros Hlong.
  destruct (trim_history_cut ms max) as (k & Heq & Hk & Hskip & Huser); [done|].
  exists k. rewrite length_drop. split_and!; [done|lia|lia|done|].
  intros k' m Hlen Hm Hr. rewrite length_drop in Hlen.
  destruct (decide (k ≤ k')) as [|Hlt]; [done|]. exfalso.
  apply lookup_lt_Some in Hm as Hlt'. eapply (Hskip k'); [|done..]. lia.
Qed.

(** ** The sections of each call *)

Section Invariants.
Context `{ZooCore} {laws : ZooCoreLaws}.
Variable p : StoreConfig.

(** [section_of c st st']: some section of the call [c] takes [st] to [st']. *)
Inductive section_of : StoreCall → relation SessionStore :=
| so_read c st : section_of c st st
| so_clock c st : section_of c st (fst (read_clock p st))
| so_reap st : section_of CallReap st (fst (reap_section p st))
| so_create r st : section_of (CallCreate r) st (fst (create_section p r st))
| so_get id st : section_of (CallGet id) st (fst (reap_find_section p id st))
| so_erase id st : section_of (CallDelete id) st (fst (erase_section id st))
| so_delete_close id loc st : section_of (CallDelete id) st (fst (close_section loc st))
| so_prompt pr st :
    section_of (CallSetPrompt pr) st
      {| base_system_prompt_ := pr; clock_reads := clock_reads st;
         next_session_id_ := next_session_id_ st; heap := heap st;
         sessions_ := sessions_ st; stopping_ := stopping_ st |}
| so_begin_find r n id st : section_of (CallBegin r n) st (fst (reap_find_section p id st))
| so_admit r n id loc m st :
    one_user_message (ccr_messages r) = Some m →
    section_of (CallBegin r n) st (fst (admit_section p id loc m n st))
| so_commit id n m res loc text st :
    section_of (CallCommit id n m res) st (fst (commit_section p loc n m text st))
| so_commit_text id n m res loc text st :
    section_of (CallCommitText id n m res) st (fst (commit_section p loc n m text st))
| so_release id n loc st :
    section_of (CallRelease id n) st (fst (release_section p loc n st))
| so_swap st : section_of CallStop st (fst (swap_out_section st))
| so_stop_close loc st : section_of CallStop st (fst (close_section loc st)).

Ltac close_sections := repeat first [done | progress (intros; cbn) | split | by constructor].

Lemma close_all_sections locs : guarantees (section_of CallStop) (close_all locs).
Proof.
  induction locs as [|loc locs IH]; cbn; [done|].
  intros st. split; [apply so_stop_close|done].
Qed.

(** Every section a call may execute is one of those listed above. *)
Lemma store_call_sections c : guarantees (section_of c) (store_call p c).
Proof.
  destruct c; (apply guarantees_bind; [|done]);
    try (apply guarantees_atomically; intros; constructor).
  - unfold create_session. repeat case_match; cbn; try done.
    intros st. split; [apply so_create|].
    destruct (snd (create_section p request st)); close_sections.
  - unfold get_session. repeat case_match; cbn; try done.
    intros st. split; [apply so_get|].
    destruct (snd (reap_find_section p session_id st)); close_sections.
  - unfold delete_session. repeat case_match; cbn; try done.
    intros st. split; [apply so_erase|].
    destruct (snd (erase_section session_id st)); close_sections.
  - unfold begin_request. repeat case_match; cbn; try done.
    intros st. split; [apply so_begin_find|].
    destruct (snd (reap_find_section p s st)); cbn; [|done].
    intros st1. split; [apply so_clock|]. intros st2. split; [by apply so_admit|done].
  - unfold commit_result, commit_text. cbn. intros st. split; [apply so_read|].
    destruct (sessions_ st !! session_id); close_sections.
  - unfold commit_response_text, commit_text. cbn. intros st. split; [apply so_read|].
    destruct (sessions_ st !! session_id); close_sections.
  - unfold release_request. cbn. intros st. split; [apply so_read|].
    destruct (sessions_ st !! session_id); close_sections.
  - unfold stop. cbn. intros st. split; [apply so_swap|].
    apply close_all_sections.
Qed.

(** A relation closed under the sections of the allowed calls holds between
    the ends of every schedule. *)
Lemma store_steps_relation (G : relation SessionStore) (allowed : StoreCall → Prop) c c' :
  PreOrder G →
  (∀ call st st', allowed call → section_of call st st' → G st st') →
  store_steps p allowed c c' →
  Forall (λ q, ∃ call, allowed call ∧ q = store_call p call) (snd c) →
  G (fst c) (fst c').
Proof.
  intros HG Hsec Hsteps Hps.
  assert (∀ call, allowed call → guarantees G (store_call p call)) as Hops.
  { intros call Hc. eapply guarantees_weaken; [|apply store_call_sections]. eauto. }
  eapply pool_steps_guarantee; [done| |done|].
  - intros q (call & Hc & ->). by apply Hops.
  - eapply Forall_impl; [done|]. intros q (call & Hc & ->). by apply Hops.
Qed.

Lemma store_steps_invariant (I : SessionStore → Prop) (allowed : StoreCall → Prop) c c' :
  (∀ call st st', allowed call → section_of call st st' → I st → I st') →
  store_steps p allowed c c' →
  Forall (λ q, ∃ call, allowed call ∧ q = store_call p call) (snd c) →
  I (fst c) → I (fst c').
Proof.
  intros Hsec. apply (store_steps_relation (λ st st', I st → I st')).
  - split; [by intros ?|intros ???; naive_solver].
  - eauto.
Qed.

(** ** Reaping *)

(** What a pass of the reaper may do to one session: nothing, or close an idle one. *)
Definition closed_step (s s' : SessionState) : Prop :=
  s' = s ∨ (s' = set_closed s ∧ ss_active_request s = None).

Record reaped (st st' : SessionStore) : Prop := {
  reaped_sessions : sessions_ st' ⊆ sessions_ st;
  reaped_heap : Forall2 closed_step (heap st) (heap st');
  reaped_prompt : base_system_prompt_ st' = base_system_prompt_ st;
  reaped_next : next_session_id_ st' = next_session_id_ st;
  reaped_stopping : stopping_ st' = stopping_ st;
}.

#[local] Instance closed_step_preorder : PreOrder closed_step.
Proof.
  split; [by left|]. intros s1 s2 s3 [->|[-> H1]] [->|[-> H2]]; unfold closed_step; eauto.
Qed.

#[local] Instance reaped_preorder : PreOrder reaped.
Proof.
  split.
  - intros st. by split.
  - intros st1 st2 st3 [] []. split; try congruence; etrans; eauto.
Qed.

Lemma alter_closed_step heap loc s :
  heap !! loc = Some s → ss_active_request s = None →
  Forall2 closed_step heap (alter set_closed loc heap).
Proof.
  intros Hs Ha. apply Forall2_same_length_lookup. split; [by rewrite length_alter|].
  intros i x y Hx Hy. rewrite list_lookup_alter in Hy. case_decide; subst.
  - right. rewrite Hs in Hx, Hy. by simplify_eq/=.
  - left. congruence.
Qed.

Lemma reap_loop_reaped now entries st expired :
  reaped st (fst (reap_loop now entries st expired)).
Proof.
  revert st expired. induction entries as [|[id loc] entries IH]; intros st expired; cbn.
  { reflexivity. }
  destruct (heap st !! loc) as [s|] eqn:Hs; [|apply IH].
  destruct (should_expire now s) eqn:He; [|apply IH].
  unfold should_expire in He. reflect_bools.
  etrans; [|apply IH]. split; cbn; try done.
  - apply delete_subseteq.
  - by eapply alter_closed_step.
Qed.

Lemma read_clock_reaped st : reaped st (fst (read_clock p st)).
Proof. by split. Qed.

Lemma reap_locked_reaped now st : reaped st (fst (reap_expired_sessions_locked now st)).
Proof. apply reap_loop_reaped. Qed.

Lemma reap_find_reaped id st : reaped st (fst (reap_find_section p id st)).
Proof.
  unfold reap_find_section. cbn.
  destruct (reap_expired_sessions_locked _ _) as [st' l] eqn:Hr. cbn.
  change st' with (fst (st', l)). rewrite <-Hr.
  etrans; [apply read_clock_reaped|]. apply reap_locked_reaped.
Qed.

Lemma reap_section_reaped st : reaped st (fst (reap_section p st)).
Proof.
  unfold reap_section. destruct (stopping_ st); [reflexivity|]. cbn.
  etrans; [apply read_clock_reaped|]. apply reap_locked_reaped.
Qed.

Lemma reaped_lookup st st' i s :
  reaped st st' → heap st !! i = Some s →
  ∃ s', heap st' !! i = Some s' ∧ closed_step s s'.
Proof. intros Hr Hs. eapply Forall2_lookup_l; [apply Hr|done]. Qed.

Lemma reaped_length st st' : reaped st st' → length (heap st') = length (heap st).
Proof. intros Hr. symmetry. eapply Forall2_length, Hr. Qed.

(** ** The store invariant *)

Definition session_wf (s : SessionState) : Prop :=
  ss_model s = model_id_ p ∧
  ss_expires_at s = (ss_last_used s + idle_ttl_seconds (config_ p))%Z ∧
  history_ok (ss_history s) ∧
  length (ss_history s) ≤ system_prefix (ss_history s) + max_history_messages_ p.

Definition nth_session_id (i : nat) : N := ((1 + N.of_nat i) mod u64_mod)%N.

Record store_wf (st : SessionStore) : Prop := {
  wf_table id loc :
    sessions_ st !! id = Some loc → ∃ s, heap st !! loc = Some s ∧ ss_id s = id;
  wf_capacity : (N.of_nat (size (sessions_ st)) ≤ max_sessions (config_ p))%N;
  wf_next : next_session_id_ st = nth_session_id (length (heap st));
  wf_ids i s : heap st !! i = Some s → ss_id s = session_name (nth_session_id i);
  wf_sessions : Forall session_wf (heap st);
  wf_stopped : stopping_ st = true → sessions_ st = ∅;
}.

(** The calls [ZooChatService] makes: the user message of a commit is the
    one [begin_request] accepted. *)
Definition honest_call (c : StoreCall) : Prop :=
  match c with
  | CallCommit _ _ m _ | CallCommitText _ _ m _ => role m = User
  | _ => True
  end.

Lemma closed_step_wf s s' : closed_step s s' → session_wf s → session_wf s'.
Proof. by intros [->|[-> _]]. Qed.

Lemma closed_step_id s s' : closed_step s s' → ss_id s' = ss_id s.
Proof. by intros [->|[-> _]]. Qed.

Lemma reaped_wf st st' : reaped st st' → store_wf st → store_wf st'.
Proof.
  intros Hr Hwf. pose proof (reaped_length _ _ Hr) as Hlen. split.
  - intros id loc Hid. eapply lookup_weaken in Hid; [|apply Hr].
    destruct (wf_table _ Hwf _ _ Hid) as (s & Hs & Heq).
    destruct (reaped_lookup _ _ _ _ Hr Hs) as (s' & Hs' & Hc).
    exists s'. split; [done|]. by rewrite (closed_step_id _ _ Hc).
  - pose proof (map_subseteq_size _ _ (reaped_sessions _ _ Hr)).
    pose proof (wf_capacity _ Hwf). lia.
  - rewrite (reaped_next _ _ Hr), Hlen. apply Hwf.
  - intros i s' Hs'. destruct (Forall2_lookup_r _ _ _ _ _ (reaped_heap _ _ Hr) Hs')
      as (s & Hs & Hc).
    rewrite (closed_step_id _ _ Hc). by apply (wf_ids _ Hwf).
  - eapply Forall_lookup_2. intros i s' Hs'.
    destruct (Forall2_lookup_r _ _ _ _ _ (reaped_heap _ _ Hr) Hs') as (s & Hs & Hc).
    eapply closed_step_wf; [done|]. eapply Forall_lookup_1; [apply Hwf|done].
  - rewrite (reaped_stopping _ _ Hr). intros Hstop. apply map_subseteq_empty_inv.
    rewrite <-(wf_stopped _ Hwf Hstop). apply Hr.
Qed.

Lemma update_session_wf loc f st :
  (∀ s, session_wf s → session_wf (f s)) → (∀ s, ss_id (f s) = ss_id s) →
  store_wf st → store_wf (update_session loc f st).
Proof.
  intros Hf Hid Hwf.
  assert (∀ i s', alter f loc (heap st) !! i = Some s' →
    ∃ s, heap st !! i = Some s ∧ ss_id s' = ss_id s ∧ (session_wf s → session_wf s')) as Hlook.
  { intros i s' Hs'. rewrite list_lookup_alter in Hs'. case_decide; subst.
    - apply fmap_Some in Hs' as (s & Hs & ->). eauto.
    - eauto. }
  split; cbn; try apply Hwf.
  - intros id loc' Hloc. destruct (wf_table _ Hwf _ _ Hloc) as (s & Hs & Heq).
    rewrite list_lookup_alter. case_decide; subst.
    + rewrite Hs. cbn. eauto.
    + eauto.
  - rewrite length_alter. apply Hwf.
  - intros i s' Hs'. destruct (Hlook _ _ Hs') as (s & Hs & -> & _). by apply (wf_ids _ Hwf).
  - eapply Forall_lookup_2. intros i s' Hs'. destruct (Hlook _ _ Hs') as (s & Hs & _ & Hw).
    apply Hw. eapply Forall_lookup_1; [apply Hwf|done].
Qed.

Lemma touch_session_wf loc st : store_wf st → store_wf (touch_session p loc st).
Proof.
  intros Hwf. unfold touch_session. cbn. apply update_session_wf.
  - intros s (? & ? & ? & ?). by repeat split.
  - done.
  - eapply reaped_wf; [|done]. apply read_clock_reaped.
Qed.

Lemma close_section_wf loc st : store_wf st → store_wf (fst (close_section loc st)).
Proof. by apply update_session_wf. Qed.

Lemma initial_history_ok base request :
  history_ok (make_initial_history base request) ∧
  length (make_initial_history base request)
    ≤ system_prefix (make_initial_history base request) + max_history_messages_ p.
Proof.
  unfold make_initial_history. case_match; cbn.
  - split; [|lia]. apply (history_ok_intro [] []); auto with server.
  - split.
    + apply (history_ok_intro [_] []); [constructor|]. right. eexists.
      split; [done|]. apply msg_system_role.
    + unfold system_prefix. cbn. rewrite bool_decide_eq_true_2 by apply msg_system_role. lia.
Qed.

Lemma nth_session_id_succ i : u64_succ (nth_session_id i) = nth_session_id (S i).
Proof.
  unfold u64_succ, nth_session_id. rewrite N.Div0.add_mod_idemp_l. f_equal. lia.
Qed.

(** The state [create_section] builds when there is room. *)
Definition created (request : SessionCreateRequest) (now : Z) (st : SessionStore) : SessionStore :=
  let id := session_name (next_session_id_ st) in
  let loc := length (heap st) in
  let st1 :=
    with_heap
      (heap st ++
       [{| ss_id := id; ss_model := model_id_ p; ss_created := now; ss_last_used := now;
           ss_expires_at := (now + idle_ttl_seconds (config_ p))%Z;
           ss_history := make_initial_history (base_system_prompt_ st) (scr_system_prompt request);
           ss_active_request := None; ss_closed := false |}])
      (with_next_id (u64_succ (next_session_id_ st)) st) in
  match sessions_ st !! id with
  | Some _ => st1
  | None => with_sessions (<[id := loc]> (sessions_ st)) st1
  end.

Lemma create_section_cases request st :
  ∃ st1 now, reaped st st1 ∧ now = clock_ p (clock_reads st) ∧
  (create_section p request st = (st, CStopping) ∧ stopping_ st = true ∨
   stopping_ st = false ∧
   (create_section p request st = (st1, CCapacity) ∧
      (max_sessions (config_ p) ≤ N.of_nat (size (sessions_ st1)))%N ∨
    create_section p request st = (created request now st1, CCreated (length (heap st1))) ∧
      (N.of_nat (size (sessions_ st1)) < max_sessions (config_ p))%N)).
Proof.
  unfold create_section, read_clock.
  destruct (reap_expired_sessions_locked (clock_ p (clock_reads st)) _) as [st1 l] eqn:Hr.
  exists st1, (clock_ p (clock_reads st)). split_and!; [|done|].
  { etrans; [apply read_clock_reaped|].
    pose proof (reap_locked_reaped (clock_ p (clock_reads st)) (fst (read_clock p st))) as Hl.
    unfold read_clock in Hl. cbn in Hl, Hr. by rewrite Hr in Hl. }
  destruct (stopping_ st); [by left|]. right. split; [done|].
  case_bool_decide; [left; by split|right; split; [|lia]].
  unfold created. cbn. by destruct (sessions_ st1 !! _).
Qed.

Lemma created_wf request now st :
  (N.of_nat (size (sessions_ st)) < max_sessions (config_ p))%N →
  stopping_ st = false → store_wf st → store_wf (created request now st).
Proof.
  intros Hroom Hrun Hwf. unfold created. set (id := session_name (next_session_id_ st)).
  set (session := {| ss_id := id |}).
  assert (Forall session_wf (heap st ++ [session])) as Hsess.
  { apply Forall_app. split; [apply Hwf|]. constructor; [|done].
    destruct (initial_history_ok (base_system_prompt_ st) (scr_system_prompt request)).
    by repeat split. }
  assert (∀ i s, (heap st ++ [session]) !! i = Some s → ss_id s = session_name (nth_session_id i))
    as Hids.
  { intros i s [[_ Hs]|[-> <-]]%lookup_snoc_Some; [by apply (wf_ids _ Hwf)|].
    cbn. unfold id. f_equal. apply Hwf. }
  assert (u64_succ (next_session_id_ st) = nth_session_id (length (heap st ++ [session]))) as Hnext.
  { rewrite (wf_next _ Hwf), nth_session_id_succ, length_app. f_equal. cbn. lia. }
  assert (∀ id' loc, sessions_ st !! id' = Some loc →
    ∃ s, (heap st ++ [session]) !! loc = Some s ∧ ss_id s = id') as Htab.
  { intros id' loc Hloc. destruct (wf_table _ Hwf _ _ Hloc) as (s & Hs & Heq).
    exists s. split; [by apply lookup_app_l_Some|done]. }
  destruct (sessions_ st !! id) eqn:Hid; split; cbn; auto; try congruence; try apply Hwf.
  - intros id' loc' Hloc. destruct (decide (id' = id)) as [->|Hne].
    + rewrite lookup_insert_eq in Hloc. simplify_eq.
      exists session. split; [|done]. apply lookup_snoc_Some. by right.
    + rewrite lookup_insert_ne in Hloc by done. by apply Htab.
  - rewrite map_size_insert_None by done. lia.
Qed.

Lemma create_section_wf request st :
  store_wf st → store_wf (fst (create_section p request st)).
Proof.
  intros Hwf. destruct (create_section_cases request st)
    as (st1 & now & Hr & _ & [[-> _]|[Hrun [[-> _]|[-> Hroom]]]]); cbn; [done| |].
  - by eapply reaped_wf.
  - apply created_wf; [done| |by eapply reaped_wf]. by rewrite (reaped_stopping _ _ Hr).
Qed.

Lemma erase_section_wf id st : store_wf st → store_wf (fst (erase_section id st)).
Proof.
  intros Hwf. unfold erase_section. destruct (sessions_ st !! id) eqn:Hid; [|done].
  split; cbn; try apply Hwf.
  - intros id' loc [_ Hloc]%lookup_delete_Some. by apply (wf_table _ Hwf).
  - pose proof (wf_capacity _ Hwf). pose proof (map_size_delete_Some id (sessions_ st)) as Hd.
    rewrite Hd by eauto. lia.
  - intros Hs. by rewrite (wf_stopped _ Hwf Hs) in Hid.
Qed.

Lemma admit_section_wf id loc m n st :
  store_wf st → store_wf (fst (admit_section p id loc m n st)).
Proof.
  intros Hwf. unfold admit_section. destruct (heap st !! loc) as [s|]; [|done].
  destruct (ss_closed s), (is_some (ss_active_request s)); try done.
  cbn. apply touch_session_wf. by apply update_session_wf.
Qed.

Lemma release_section_wf loc n st :
  store_wf st → store_wf (fst (release_section p loc n st)).
Proof.
  intros Hwf. unfold release_section. destruct (heap st !! loc) as [s|]; [|done].
  destruct (owns n s); cbn; [|done]. apply touch_session_wf. by apply update_session_wf.
Qed.

Lemma commit_history_wf m text h :
  role m = User → history_ok h →
  let h' := trim_history_to_fit (h ++ [m; msg_assistant text]) (max_history_messages_ p) in
  history_ok h' ∧ length h' ≤ system_prefix h' + max_history_messages_ p.
Proof.
  intros Hm Hh. cbn.
  assert (history_ok (h ++ [m; msg_assistant text])) as Hok.
  { apply history_ok_snoc; [done|done|apply msg_assistant_role]. }
  split; [by apply trim_history_ok|].
  set (h2 := h ++ _) in *.
  destruct (decide (length h2 ≤ system_prefix h2 + max_history_messages_ p)) as [Hle|Hlong].
  { by rewrite trim_history_short. }
  destruct (trim_history_cut h2 (max_history_messages_ p)) as (k & -> & Hk & _); [lia|].
  rewrite length_app, length_take, length_drop.
  enough (system_prefix h2 ≤ system_prefix (take (system_prefix h2) h2 ++ drop k h2)) by lia.
  unfold system_prefix at 1. destruct (starts_with_system h2) eqn:Hs; [|lia].
  unfold system_prefix at 2. rewrite Hs. destruct h2 as [|m2 h2]; [done|].
  unfold system_prefix. cbn in *. by rewrite Hs.
Qed.

Lemma commit_section_wf loc n m text st :
  role m = User → store_wf st → store_wf (fst (commit_section p loc n m text st)).
Proof.
  intros Hm Hwf. unfold commit_section. destruct (heap st !! loc) as [s|] eqn:Hs; [|done].
  destruct (owns n s); cbn; [|done]. apply touch_session_wf. apply update_session_wf; [done|done|].
  destruct text as [text|]; [|done]. destruct (ss_closed s); [done|].
  apply update_session_wf; [|done|done].
  pose proof (Forall_lookup_1 _ _ _ _ (wf_sessions _ Hwf) Hs) as (_ & _ & Hh & _).
  intros s' (? & ? & _ & _).
  destruct (commit_history_wf m text (ss_history s) Hm Hh). by repeat split.
Qed.

Lemma swap_out_section_wf st : store_wf st → store_wf (fst (swap_out_section st)).
Proof.
  intros Hwf. unfold swap_out_section. destruct (stopping_ st); [done|].
  split; cbn; try done; try apply Hwf. rewrite map_size_empty. lia.
Qed.

Lemma section_of_wf c st st' :
  honest_call c → section_of c st st' → store_wf st → store_wf st'.
Proof.
  intros Hc Hsec Hwf. destruct Hsec; cbn in Hc; auto using create_section_wf, erase_section_wf,
    close_section_wf, admit_section_wf, commit_section_wf, release_section_wf,
    swap_out_section_wf; try (by eapply reaped_wf, Hwf; auto using read_clock_reaped,
    reap_section_reaped, reap_find_reaped).
  by destruct Hwf.
Qed.

Lemma new_store_wf base : store_wf (new_store base).
Proof. split; cbn; try done. by rewrite map_size_empty; lia. Qed.

(** ** Ownership of a session by its active request *)

(** The part of a session only its active request may change. *)
Definition same_turn (s s' : SessionState) : Prop :=
  ss_id s' = ss_id s ∧ ss_active_request s' = ss_active_request s ∧
  ss_history s' = ss_history s ∧ ss_last_used s' = ss_last_used s.

Definition keeps (r : N) (loc : nat) (st st' : SessionStore) : Prop :=
  ∀ s, heap st !! loc = Some s → ss_active_request s = Some r →
  ∃ s', heap st' !! loc = Some s' ∧ same_turn s s'.

(** Calls that do not finish the request [r]. *)
Definition foreign_call (r : N) (c : StoreCall) : Prop :=
  match c with
  | CallCommit _ n _ _ | CallCommitText _ n _ _ | CallRelease _ n => n ≠ r
  | _ => True
  end.

#[local] Instance keeps_preorder r loc : PreOrder (keeps r loc).
Proof.
  split.
  - intros st s Hs Ha. exists s. by repeat split.
  - intros st1 st2 st3 H12 H23 s Hs Ha.
    destruct (H12 s Hs Ha) as (s2 & Hs2 & ? & Ha2 & ? & ?).
    destruct (H23 s2 Hs2) as (s3 & Hs3 & ? & ? & ? & ?); [congruence|].
    exists s3. unfold same_turn. split_and!; congruence.
Qed.

Lemma keeps_heap r loc st st' : heap st' !! loc = heap st !! loc → keeps r loc st st'.
Proof. intros Heq s Hs Ha. exists s. rewrite Heq. by repeat split. Qed.

Lemma reaped_keeps r loc st st' : reaped st st' → keeps r loc st st'.
Proof.
  intros Hr s Hs Ha. destruct (reaped_lookup _ _ _ _ Hr Hs) as (s' & Hs' & [->|[-> Hn]]).
  - exists s. by repeat split.
  - congruence.
Qed.

(** A write to a session the caller may write: another session, or one it leaves alone. *)
Lemma update_keeps r loc loc' f st :
  (∀ s, heap st !! loc = Some s → loc' = loc → same_turn s (f s)) →
  keeps r loc st (update_session loc' f st).
Proof.
  intros Hf s Hs _. cbn. rewrite list_lookup_alter. case_decide as Hloc; subst.
  - rewrite Hs. cbn. eexists. split; [done|]. by apply Hf.
  - exists s. by repeat split.
Qed.

Lemma update_session_ne loc loc' f st :
  loc ≠ loc' → heap (update_session loc f st) !! loc' = heap st !! loc'.
Proof. intros. cbn. by rewrite list_lookup_alter_ne. Qed.

Lemma touch_session_ne loc loc' st :
  loc ≠ loc' → heap (touch_session p loc st) !! loc' = heap st !! loc'.
Proof. intros. unfold touch_session. cbn. by rewrite list_lookup_alter_ne. Qed.

Lemma admit_section_ne id loc loc' m n st :
  loc ≠ loc' → heap (fst (admit_section p id loc m n st)) !! loc' = heap st !! loc'.
Proof.
  intros Hne. unfold admit_section. destruct (heap st !! loc) as [s|]; [|done].
  destruct (ss_closed s), (is_some (ss_active_request s)); try done. cbn [fst].
  by rewrite touch_session_ne, update_session_ne.
Qed.

Lemma commit_section_ne loc loc' n m text st :
  loc ≠ loc' → heap (fst (commit_section p loc n m text st)) !! loc' = heap st !! loc'.
Proof.
  intros Hne. unfold commit_section. destruct (heap st !! loc) as [s|]; [|done].
  destruct (owns n s); [|done]. cbn [negb fst].
  rewrite touch_session_ne, update_session_ne by done.
  destruct text; [|done]. destruct (ss_closed s); [done|]. by rewrite update_session_ne.
Qed.

Lemma release_section_ne loc loc' n st :
  loc ≠ loc' → heap (fst (release_section p loc n st)) !! loc' = heap st !! loc'.
Proof.
  intros Hne. unfold release_section. destruct (heap st !! loc) as [s|]; [|done].
  destruct (owns n s); [|done]. cbn [negb fst]. by rewrite touch_session_ne, update_session_ne.
Qed.

(** A commit or a release by another request leaves the store alone. *)
Lemma commit_section_not_owner loc n m text st s :
  heap st !! loc = Some s → ss_active_request s ≠ Some n →
  commit_section p loc n m text st = (st, ()).
Proof.
  intros Hs Hn. unfold commit_section, owns. rewrite Hs. by rewrite bool_decide_eq_false_2.
Qed.

Lemma release_section_not_owner loc n st s :
  heap st !! loc = Some s → ss_active_request s ≠ Some n →
  release_section p loc n st = (st, ()).
Proof.
  intros Hs Hn. unfold release_section, owns. rewrite Hs. by rewrite bool_decide_eq_false_2.
Qed.

Lemma admit_section_busy id loc m n st s r :
  heap st !! loc = Some s → ss_active_request s = Some r →
  fst (admit_section p id loc m n st) = st.
Proof.
  intros Hs Hr. unfold admit_section. rewrite Hs, Hr. by destruct (ss_closed s).
Qed.

Lemma commit_section_keeps r loc loc' n m text st :
  n ≠ r → keeps r loc st (fst (commit_section p loc' n m text st)).
Proof.
  intros Hn. destruct (decide (loc' = loc)) as [->|]; [|by apply keeps_heap, commit_section_ne].
  intros s Hs Ha. exists s. rewrite (commit_section_not_owner _ _ _ _ _ s) by (done || congruence).
  by repeat split.
Qed.

Lemma release_section_keeps r loc loc' n st :
  n ≠ r → keeps r loc st (fst (release_section p loc' n st)).
Proof.
  intros Hn. destruct (decide (loc' = loc)) as [->|]; [|by apply keeps_heap, release_section_ne].
  intros s Hs Ha. exists s. rewrite (release_section_not_owner _ _ _ s) by (done || congruence).
  by repeat split.
Qed.

Lemma admit_section_keeps r loc id loc' n m st :
  keeps r loc st (fst (admit_section p id loc' m n st)).
Proof.
  destruct (decide (loc' = loc)) as [->|]; [|by apply keeps_heap, admit_section_ne].
  intros s Hs Ha. exists s. erewrite admit_section_busy by done. by repeat split.
Qed.

Lemma create_section_keeps r loc req st :
  keeps r loc st (fst (create_section p req st)).
Proof.
  destruct (create_section_cases req st)
    as (st1 & now & Hr & _ & [[-> _]|[Hrun [[-> _]|[-> Hroom]]]]); cbn;
    [by apply keeps_heap|by apply reaped_keeps|].
  etrans; [by apply reaped_keeps|]. intros s Hs Ha. exists s. split; [|by repeat split].
  unfold created. destruct (sessions_ st1 !! _); cbn; by apply lookup_app_l_Some.
Qed.

Lemma section_of_keeps r loc c st st' :
  foreign_call r c → section_of c st st' → keeps r loc st st'.
Proof.
  intros Hc Hsec. destruct Hsec; cbn in Hc;
    auto using create_section_keeps, admit_section_keeps, commit_section_keeps,
      release_section_keeps;
    try (by apply keeps_heap); try (by apply update_keeps; repeat split);
    try (by apply reaped_keeps; auto using read_clock_reaped, reap_section_reaped,
                                  reap_find_reaped).
  - apply keeps_heap. unfold erase_section. by destruct (sessions_ st !! id).
  - apply keeps_heap. unfold swap_out_section. by destruct (stopping_ st).
Qed.

(** ** Identifiers are never reused *)

Lemma nth_session_id_inj i j :
  (1 + N.of_nat i < u64_mod)%N → (1 + N.of_nat j < u64_mod)%N →
  session_name (nth_session_id i) = session_name (nth_session_id j) → i = j.
Proof.
  intros Hi Hj Heq%string_app_inj_l%(inj pretty). unfold nth_session_id in Heq.
  rewrite !N.mod_small in Heq by done. lia.
Qed.

Definition ids_persist (st st' : SessionStore) : Prop :=
  store_wf st →
  store_wf st' ∧ length (heap st) ≤ length (heap st') ∧
  (∀ i s, heap st !! i = Some s → ∃ s', heap st' !! i = Some s' ∧ ss_id s' = ss_id s) ∧
  ((N.of_nat (length (heap st')) < u64_mod)%N → ∀ i s,
     heap st !! i = Some s → sessions_ st !! ss_id s = None → sessions_ st' !! ss_id s = None).

#[local] Instance ids_persist_preorder : PreOrder ids_persist.
Proof.
  split.
  - intros st Hwf. split_and!; eauto.
  - intros st1 st2 st3 H12 H23 Hwf1.
    destruct (H12 Hwf1) as (Hwf2 & Hl12 & Hh12 & Hg12).
    destruct (H23 Hwf2) as (Hwf3 & Hl23 & Hh23 & Hg23).
    split_and!; [done|lia| |].
    + intros i s Hs. destruct (Hh12 i s Hs) as (s2 & Hs2 & <-). by apply Hh23.
    + intros Hb i s Hs Hnone. destruct (Hh12 i s Hs) as (s2 & Hs2 & Heq).
      rewrite <-Heq. apply (Hg23 Hb i); [done|]. rewrite Heq. eapply Hg12; [lia|done|done].
Qed.

(** A section that keeps the ids in place and adds no entry to the table. *)
Lemma ids_persist_intro st st' :
  (store_wf st → store_wf st') →
  ss_id <$> heap st' = ss_id <$> heap st → sessions_ st' ⊆ sessions_ st → ids_persist st st'.
Proof.
  intros Hwf Hids Hsub Hst. split_and!; [by apply Hwf| | |].
  - by rewrite <-(length_fmap ss_id (heap st)), <-Hids, length_fmap.
  - intros i s Hs.
    assert ((ss_id <$> heap st') !! i = Some (ss_id s)) as Hi.
    { by rewrite Hids, list_lookup_fmap, Hs. }
    rewrite list_lookup_fmap in Hi. apply fmap_Some in Hi as (s' & ? & ?). eauto.
  - intros _ i s Hs Hnone. destruct (sessions_ st' !! ss_id s) eqn:Hn; [|done].
    by eapply lookup_weaken in Hn; [|apply Hsub]; rewrite Hnone in Hn.
Qed.

Lemma alter_ids (f : SessionState → SessionState) (loc : nat) (l : list SessionState) :
  (∀ s, ss_id (f s) = ss_id s) → ss_id <$> alter f loc l = ss_id <$> l.
Proof.
  intros Hf. apply list_eq. intros i. rewrite !list_lookup_fmap, list_lookup_alter.
  case_decide; [subst|done]. destruct (l !! i); [|done]. by cbn; rewrite Hf.
Qed.

Lemma touch_session_ids loc st :
  ss_id <$> heap (touch_session p loc st) = ss_id <$> heap st.
Proof. by apply alter_ids. Qed.

(** The sections under a session's mutex leave the table and the ids alone. *)
Definition table_frame (st st' : SessionStore) : Prop :=
  ss_id <$> heap st' = ss_id <$> heap st ∧ sessions_ st' = sessions_ st ∧
  stopping_ st' = stopping_ st.

Lemma touch_update_frame loc f st st1 :
  (∀ s, ss_id (f s) = ss_id s) → table_frame st st1 →
  table_frame st (touch_session p loc (update_session loc f st1)).
Proof.
  intros Hf (Hi & Hs & Hst). split; [|done]. by rewrite touch_session_ids; cbn; rewrite alter_ids.
Qed.

Lemma admit_section_frame id loc m n st : table_frame st (fst (admit_section p id loc m n st)).
Proof.
  unfold admit_section. destruct (heap st !! loc) as [s|]; [|done].
  destruct (ss_closed s), (is_some (ss_active_request s)); try done.
  by apply touch_update_frame.
Qed.

Lemma commit_section_frame loc n m text st :
  table_frame st (fst (commit_section p loc n m text st)).
Proof.
  unfold commit_section. destruct (heap st !! loc) as [s|]; [|done].
  destruct (owns n s); [|done]. apply touch_update_frame; [done|].
  destruct text; [|done]. destruct (ss_closed s); [done|]. split; [by apply alter_ids|done].
Qed.

Lemma release_section_frame loc n st : table_frame st (fst (release_section p loc n st)).
Proof.
  unfold release_section. destruct (heap st !! loc) as [s|]; [|done].
  destruct (owns n s); [|done]. by apply touch_update_frame.
Qed.

Lemma reaped_ids st st' : reaped st st' → ss_id <$> heap st' = ss_id <$> heap st.
Proof.
  intros Hr. pose proof (reaped_heap _ _ Hr) as Hh.
  induction Hh as [|s s' l l' Hc _ IH]; cbn; [done|]. by rewrite IH, (closed_step_id _ _ Hc).
Qed.

Lemma created_ids_persist request now st :
  (N.of_nat (size (sessions_ st)) < max_sessions (config_ p))%N →
  stopping_ st = false → ids_persist st (created request now st).
Proof.
  intros Hroom Hrun Hwf. split; [by apply created_wf|].
  set (id := session_name (next_session_id_ st)).
  assert (∃ session, heap (created request now st) = heap st ++ [session]) as (session & Hheap).
  { unfold created. destruct (sessions_ st !! _); cbn; eauto. }
  rewrite Hheap, length_app. cbn. split_and!; [lia| |].
  - intros i s Hs. exists s. split; [by apply lookup_app_l_Some|done].
  - intros Hb i s Hs Hnone. unfold created. fold id.
    destruct (sessions_ st !! id) eqn:Hid; cbn; [done|].
    rewrite lookup_insert_ne; [done|]. unfold id.
    rewrite (wf_next _ Hwf), (wf_ids _ Hwf _ _ Hs). intros Heq.
    apply lookup_lt_Some in Hs. apply nth_session_id_inj in Heq; lia.
Qed.

Lemma section_of_ids_persist c st st' :
  honest_call c → section_of c st st' → ids_persist st st'.
Proof.
  intros Hc Hsec. pose proof (section_of_wf _ _ _ Hc Hsec) as Hwf.
  assert (reaped st st' → ids_persist st st') as Hreap.
  { intros Hr. apply ids_persist_intro; [done|by apply reaped_ids|apply Hr]. }
  assert (table_frame st st' → ids_persist st st') as Hframe.
  { intros (Hi & Hs & _). apply ids_persist_intro; [done..|by rewrite Hs]. }
  destruct Hsec; auto using read_clock_reaped, reap_section_reaped, reap_find_reaped,
    admit_section_frame, commit_section_frame, release_section_frame.
  - by apply ids_persist_intro.
  - destruct (create_section_cases r st)
      as (st1 & now & Hr & _ & [[Heq _]|[Hrun [[Heq _]|[Heq Hroom]]]]); rewrite Heq in *.
    { reflexivity. }
    { by apply Hreap. }
    cbn. transitivity st1.
    { apply ids_persist_intro; [by apply reaped_wf|by apply reaped_ids|apply Hr]. }
    apply created_ids_persist; [done|]. by rewrite (reaped_stopping _ _ Hr).
  - apply ids_persist_intro; [done| |]; unfold erase_section;
      destruct (sessions_ st !! id); cbn; try done. apply delete_subseteq.
  - apply ids_persist_intro; [done|by apply alter_ids|done].
  - by apply ids_persist_intro.
  - apply ids_persist_intro; [done| |]; unfold swap_out_section; destruct (stopping_ st); try done.
    cbn. apply map_empty_subseteq.
  - apply ids_persist_intro; [done|by apply alter_ids|done].
Qed.

(** ** Shutdown *)

Definition shut (st : SessionStore) : Prop := stopping_ st = true ∧ sessions_ st = ∅.

Definition stays_shut (st st' : SessionStore) : Prop := shut st → shut st'.

Lemma section_of_shut c st st' : section_of c st st' → stays_shut st st'.
Proof.
  intros Hsec [Hstop Hempty].
  assert (reaped st st' → shut st') as Hreap.
  { intros Hr. split; [by rewrite (reaped_stopping _ _ Hr)|].
    apply map_subseteq_empty_inv. rewrite <-Hempty. apply Hr. }
  assert (table_frame st st' → shut st') as Hframe.
  { intros (_ & Hs & Ht). by split; congruence. }
  destruct Hsec; auto using read_clock_reaped, reap_section_reaped, reap_find_reaped,
    admit_section_frame, commit_section_frame, release_section_frame;
    try (by split).
  - destruct (create_section_cases r st)
      as (st1 & now & Hr & _ & [[Heq _]|[Hrun _]]); [by rewrite Heq|congruence].
  - unfold erase_section. rewrite Hempty, lookup_empty. by split.
  - unfold swap_out_section. rewrite Hstop. by split.
Qed.

Lemma close_all_keeps locs st :
  sessions_ (fst (run (close_all locs) st)) = sessions_ st ∧
  stopping_ (fst (run (close_all locs) st)) = stopping_ st.
Proof.
  revert st. induction locs as [|loc locs IH]; intros st; cbn; [done|].
  destruct (IH (fst (close_section loc st))) as [-> ->]. done.
Qed.

Lemma run_stop_shut st : store_wf st → shut (fst (run stop st)).
Proof.
  intros Hwf. unfold stop. cbn.
  destruct (close_all_keeps (snd (swap_out_section st)) (fst (swap_out_section st))) as [H1 H2].
  unfold shut. rewrite H1, H2. unfold swap_out_section.
  destruct (stopping_ st) eqn:Hs; cbn; [|done]. split; [done|]. by apply wf_stopped.
Qed.

(** What a stopped store answers. *)
Lemma shut_find id st : shut st → snd (reap_find_section p id st) = None.
Proof.
  intros [_ Hempty]. unfold reap_find_section. cbn.
  destruct (reap_expired_sessions_locked _ _) as [st' l] eqn:Hr. cbn.
  pose proof (reap_locked_reaped (clock_ p (clock_reads st)) (fst (read_clock p st))) as Hl.
  unfold read_clock in Hl. cbn in Hl, Hr. rewrite Hr in Hl. cbn in Hl.
  pose proof (reaped_sessions _ _ Hl) as Hsub. cbn in Hsub. rewrite Hempty in Hsub.
  apply map_subseteq_empty_inv in Hsub. by rewrite Hsub.
Qed.

Lemma run_get_session_none id st :
  enabled (config_ p) = true → snd (reap_find_section p id st) = None →
  snd (run (get_session p id) st) = Unexpected (unknown_session_error id).
Proof. intros He Hf. unfold get_session. rewrite He. cbn. by rewrite Hf. Qed.

(** ** The reaper removes exactly the expired sessions *)

Lemma reap_loop_other_loc now entries st expired loc :
  loc ∉ entries.*2 →
  heap (fst (reap_loop now entries st expired)) !! loc = heap st !! loc.
Proof.
  revert st expired. induction entries as [|[id' loc'] entries IH]; intros st expired Hn; [done|].
  cbn in *. apply not_elem_of_cons in Hn as [Hne Hn].
  destruct (heap st !! loc') as [s'|]; [|by apply IH].
  destruct (should_expire now s'); [|by apply IH].
  rewrite IH by done. cbn. by rewrite list_lookup_alter_ne.
Qed.

Lemma reap_loop_other_id now entries st expired id :
  id ∉ entries.*1 →
  sessions_ (fst (reap_loop now entries st expired)) !! id = sessions_ st !! id.
Proof.
  revert st expired. induction entries as [|[id' loc'] entries IH]; intros st expired Hn; [done|].
  cbn in *. apply not_elem_of_cons in Hn as [Hne Hn].
  destruct (heap st !! loc') as [s'|]; [|by apply IH].
  destruct (should_expire now s'); [|by apply IH].
  rewrite IH by done. cbn. by rewrite lookup_delete_ne.
Qed.

Lemma reap_loop_entry now entries st expired id loc s :
  NoDup entries.*1 → NoDup entries.*2 → (id, loc) ∈ entries → heap st !! loc = Some s →
  let st' := fst (reap_loop now entries st expired) in
  heap st' !! loc = Some (if should_expire now s then set_closed s else s) ∧
  sessions_ st' !! id = if should_expire now s then None else sessions_ st !! id.
Proof.
  revert st expired. induction entries as [|[id' loc'] entries IH];
    intros st expired Hn1 Hn2 Hin Hs; [by apply not_elem_of_nil in Hin|].
  cbn in *. apply NoDup_cons in Hn1 as [Hid Hn1]. apply NoDup_cons in Hn2 as [Hloc Hn2].
  apply elem_of_cons in Hin as [Heq|Hin].
  - simplify_eq. rewrite Hs. destruct (should_expire now s) eqn:He.
    + rewrite reap_loop_other_loc, reap_loop_other_id by done. cbn.
      by rewrite list_lookup_alter_eq, Hs, lookup_delete_eq.
    + by rewrite reap_loop_other_loc, reap_loop_other_id.
  - assert (id ≠ id') as Hne1.
    { intros ->. apply Hid. apply list_elem_of_fmap. by exists (id', loc). }
    assert (loc ≠ loc') as Hne2.
    { intros ->. apply Hloc. apply list_elem_of_fmap. by exists (id, loc'). }
    destruct (heap st !! loc') as [s'|]; [|by apply IH].
    destruct (should_expire now s'); [|by apply IH].
    destruct (IH (with_sessions (delete id' (sessions_ st)) (update_session loc' set_closed st))
      (expired ++ [loc'])) as [H1 H2]; [done..| |].
    { cbn. by rewrite list_lookup_alter_ne. }
    rewrite H1, H2. cbn. by rewrite lookup_delete_ne.
Qed.

Lemma table_NoDup st : store_wf st → NoDup (map_to_list (sessions_ st)).*2.
Proof.
  intros Hwf. apply NoDup_fmap_2_strong; [|apply NoDup_map_to_list].
  intros [id1 l1] [id2 l2] H1%elem_of_map_to_list H2%elem_of_map_to_list Heq. cbn in *. subst.
  destruct (wf_table _ Hwf _ _ H1) as (s1 & Hs1 & <-).
  destruct (wf_table _ Hwf _ _ H2) as (s2 & Hs2 & <-). congruence.
Qed.

Lemma reap_locked_entry now st id loc s :
  store_wf st → sessions_ st !! id = Some loc → heap st !! loc = Some s →
  let st' := fst (reap_expired_sessions_locked now st) in
  heap st' !! loc = Some (if should_expire now s then set_closed s else s) ∧
  sessions_ st' !! id = if should_expire now s then None else Some loc.
Proof.
  intros Hwf Hid Hs. unfold reap_expired_sessions_locked. rewrite <-Hid.
  apply reap_loop_entry; [apply NoDup_fst_map_to_list|by apply table_NoDup| |done].
  by apply elem_of_map_to_list.
Qed.

Lemma reap_locked_clock now st :
  clock_reads (fst (reap_expired_sessions_locked now st)) = clock_reads st.
Proof.
  unfold reap_expired_sessions_locked. generalize (map_to_list (sessions_ st)) as entries.
  intros entries. generalize (@nil nat). revert st.
  induction entries as [|[id loc] entries IH]; intros st expired; cbn; [done|].
  destruct (heap st !! loc) as [s|]; [|apply IH]. destruct (should_expire now s); by rewrite IH.
Qed.

(** Looking up a session that has not expired. *)
Lemma reap_find_alive id loc s st :
  store_wf st → sessions_ st !! id = Some loc → heap st !! loc = Some s →
  should_expire (clock_ p (clock_reads st)) s = false →
  ∃ st1, reap_find_section p id st = (st1, Some loc) ∧ sessions_ st1 !! id = Some loc ∧
         heap st1 !! loc = Some s ∧ clock_reads st1 = S (clock_reads st) ∧ store_wf st1.
Proof.
  intros Hwf Hid Hs Halive.
  pose proof (reaped_wf _ _ (reap_find_reaped id st) Hwf) as Hwf1. revert Hwf1.
  unfold reap_find_section, read_clock.
  set (st0 := {| clock_reads := S (clock_reads st) |}).
  pose proof (reap_locked_entry (clock_ p (clock_reads st)) st0 id loc s
    (reaped_wf st st0 ltac:(by split) Hwf) Hid Hs) as [H1 H2].
  pose proof (reap_locked_clock (clock_ p (clock_reads st)) st0) as H3.
  destruct (reap_expired_sessions_locked _ st0) as [st1 l]. cbn in *. rewrite Halive in *.
  intros Hwf1. exists st1. by rewrite H2.
Qed.

(** ** One turn *)

Lemma run_begin_request request n id m st loc st1 :
  enabled (config_ p) = true → ccr_session_id request = Some id →
  ccr_model request = model_id_ p → ccr_messages request = [m] → role m = User →
  reap_find_section p id st = (st1, Some loc) →
  run (begin_request p request n) st =
    (fst (admit_section p id loc m n (fst (read_clock p st1))),
     try! messages := snd (admit_section p id loc m n (fst (read_clock p st1))) in
     Value {| br_messages := messages; br_started_at := clock_ p (clock_reads st1);
              br_user_message := m |}).
Proof.
  intros He Hid Hmodel Hmsg Hrole Hfind. unfold begin_request.
  rewrite He, Hid, Hmodel, bool_decide_eq_true_2 by done. cbn [negb].
  unfold one_user_message. rewrite Hmsg, decide_True by done.
  cbn. by rewrite Hfind.
Qed.

Lemma admit_section_free id loc m n st s :
  heap st !! loc = Some s → ss_closed s = false → ss_active_request s = None →
  ∃ st', admit_section p id loc m n st = (st', Value (ss_history s ++ [m])) ∧
    sessions_ st' = sessions_ st ∧ clock_reads st' = S (clock_reads st) ∧
    heap st' !! loc =
      Some (set_times (clock_ p (clock_reads st))
              (clock_ p (clock_reads st) + idle_ttl_seconds (config_ p))
              (set_active_request (Some n) s)).
Proof.
  intros Hs Hc Ha. unfold admit_section. rewrite Hs, Hc, Ha. cbn.
  eexists. split; [done|]. unfold touch_session. cbn. split_and!; [done..|].
  by rewrite !list_lookup_alter_eq, Hs.
Qed.

Lemma commit_section_owner loc n m text st s :
  heap st !! loc = Some s → ss_closed s = false → ss_active_request s = Some n →
  ∃ st', commit_section p loc n m text st = (st', ()) ∧ sessions_ st' = sessions_ st ∧
    heap st' !! loc =
      Some (set_times (clock_ p (clock_reads st))
              (clock_ p (clock_reads st) + idle_ttl_seconds (config_ p))
              (set_active_request None
                 match text with
                 | Some t =>
                     set_history (trim_history_to_fit (ss_history s ++ [m; msg_assistant t])
                                    (max_history_messages_ p)) s
                 | None => s
                 end)).
Proof.
  intros Hs Hc Ha. unfold commit_section, owns. rewrite Hs, bool_decide_eq_true_2 by done.
  cbn [negb]. rewrite Hc. destruct text; cbn; (eexists; split; [done|]; split; [done|]);
    unfold touch_session; cbn; by rewrite !list_lookup_alter_eq, Hs.
Qed.
End Invariants.

(** ** The properties *)

Section Properties.
Context `{ZooCore} {laws : ZooCoreLaws}.
Variable p : StoreConfig.

(** C1: in every interleaving of the critical sections of
    any number of [SessionStore] calls, from an empty store, the store
    invariant holds: the table maps ids to live sessions carrying that id,
    at most [max_sessions] of them, ids follow the counter, every session's
    expiry is its last use plus the TTL, and every history is an optional
    system message followed by question/answer turns, within the configured
    length; a stopped store has no sessions. *)
Theorem store_invariant_interleaved (base : string) c' :
  store_steps p honest_call (new_store base, []) c' → store_wf p (fst c').
Proof.
  intros Hsteps. eapply (store_steps_invariant p (store_wf p)); [|done|constructor|].
  - intros. by eapply section_of_wf.
  - apply new_store_wf.
Qed.

(** C3: a session belongs to its active request. While
    request [r] is active on a session, no interleaving of calls other than
    [r]'s own commit or release changes its history, its active request or
    its last use - deletion, reaping, shutdown and competing requests included. *)
Theorem active_request_owns_session (r : N) (loc : nat) st ps c' s :
  heap st !! loc = Some s → ss_active_request s = Some r →
  Forall (λ q, ∃ c, foreign_call r c ∧ q = store_call p c) ps →
  store_steps p (foreign_call r) (st, ps) c' →
  ∃ s', heap (fst c') !! loc = Some s' ∧ ss_active_request s' = Some r ∧
        ss_history s' = ss_history s ∧ ss_last_used s' = ss_last_used s.
Proof.
  intros Hs Ha Hps Hsteps.
  destruct (store_steps_relation p (keeps r loc) (foreign_call r) (st, ps) c'
    (keeps_preorder r loc)) with s as (s' & Hs' & _ & Ha' & Hh & Hl); [|done..|].
  - intros. by eapply section_of_keeps.
  - exists s'. split_and!; congruence.
Qed.

(** C4: once [delete_session] succeeds the id is gone for
    good: whatever calls were in flight and whatever calls follow, no later
    state has it in the table and [get_session] answers [session_not_found]
    (as long as fewer than 2^64 - 1 sessions were ever created). *)
Theorem deleted_session_stays_deleted (base : string) c id st' c' :
  store_steps p honest_call (new_store base, []) c →
  run (delete_session p id) (fst c) = (st', Value ()) →
  store_steps p honest_call (st', snd c) c' →
  (N.of_nat (length (heap (fst c'))) < u64_mod)%N →
  sessions_ (fst c') !! id = None ∧
  snd (run (get_session p id) (fst c')) = Unexpected (unknown_session_error id).
Proof.
  intros Hbefore Hdel Hafter Hbound.
  assert (∀ call, honest_call call → guarantees (ids_persist p) (store_call p call)) as Hops.
  { intros call Hc. eapply guarantees_weaken; [|apply store_call_sections].
    intros. by eapply section_of_ids_persist. }
  assert (∀ q, (∃ call, honest_call call ∧ q = store_call p call) → guarantees (ids_persist p) q)
    as Hops' by (intros q (call & Hc & ->); auto).
  destruct (pool_steps_guarantee (ids_persist p) _ _ _ (ids_persist_preorder p) Hops' Hbefore)
    as [H1 Hpool]; [constructor|].
  destruct (H1 (new_store_wf p base)) as (Hwf & _).
  destruct (pool_steps_guarantee (ids_persist p) _ _ _ (ids_persist_preorder p) Hops' Hafter Hpool)
    as [H2 _].
  unfold delete_session in Hdel. destruct (enabled (config_ p)) eqn:He; [|done]. cbn in Hdel.
  unfold erase_section in Hdel. destruct (sessions_ (fst c) !! id) as [loc|] eqn:Hid; [|done].
  cbn in Hdel. simplify_eq.
  destruct (wf_table _ _ Hwf _ _ Hid) as (s & Hs & Heq).
  set (st1 := with_sessions (delete id (sessions_ (fst c))) (fst c)) in *.
  assert (store_wf p st1) as Hwf1.
  { pose proof (erase_section_wf p id _ Hwf) as He1. unfold erase_section in He1.
    by rewrite Hid in He1. }
  pose proof (close_section_wf p loc _ Hwf1) as Hwf2. cbn [fst close_section] in Hwf2.
  assert (sessions_ (fst c') !! id = None) as Hgone.
  { destruct (H2 Hwf2) as (_ & _ & _ & Hg). rewrite <-Heq.
    apply (Hg Hbound loc (set_closed s)).
    - cbn. by rewrite list_lookup_alter_eq, Hs.
    - cbn. rewrite Heq. apply lookup_delete_eq. }
  split; [done|]. apply run_get_session_none; [done|].
  destruct (reap_find_section p id (fst c')) as [st2 o] eqn:Hf.
  pose proof (reap_find_reaped p id (fst c')) as Hr. rewrite Hf in Hr. cbn in *.
  assert (o = sessions_ st2 !! id) as ->.
  { unfold reap_find_section in Hf. cbn in Hf.
    destruct (reap_expired_sessions_locked _ _) in Hf. by simplify_eq. }
  destruct (sessions_ st2 !! id) eqn:Hid2; [|done].
  eapply lookup_weaken in Hid2; [|apply Hr]. congruence.
Qed.

(** [stop] is final. After it, in every interleaving, the
    store stays stopping and empty: creation answers 503 [agent_not_ready],
    lookups, deletions and new session requests answer 404. *)
Theorem stopped_store_refuses (base : string) c st' c' :
  store_steps p honest_call (new_store base, []) c →
  run stop (fst c) = (st', ()) →
  store_steps p honest_call (st', snd c) c' →
  let st := fst c' in
  stopping_ st = true ∧ sessions_ st = ∅ ∧
  (enabled (config_ p) = true →
   (∀ request, scr_model request = model_id_ p →
      snd (run (create_session p request) st) =
        Unexpected (service_unavailable_error "Server runtime is stopping"
                      (Some "agent_not_ready"))) ∧
   (∀ id, snd (run (get_session p id) st) = Unexpected (unknown_session_error id)) ∧
   (∀ id, snd (run (delete_session p id) st) = Unexpected (unknown_session_error id)) ∧
   (∀ request n id m, ccr_session_id request = Some id → ccr_model request = model_id_ p →
      ccr_messages request = [m] → role m = User →
      snd (run (begin_request p request n) st) = Unexpected (unknown_session_error id))).
Proof.
  intros Hbefore Hstop Hafter.
  pose proof (store_steps_invariant p (store_wf p) honest_call _ _
    ltac:(intros; by eapply section_of_wf) Hbefore (Forall_nil_2 _) (new_store_wf p base)) as Hwf.
  assert (∀ q, (∃ call, honest_call call ∧ q = store_call p call) → guarantees stays_shut q)
    as Hops.
  { intros q (call & _ & ->). eapply guarantees_weaken; [|apply store_call_sections].
    intros. by eapply section_of_shut. }
  assert (PreOrder stays_shut) as Hpre by (split; [by intros ??|intros ???; unfold stays_shut; auto]).
  destruct (pool_steps_guarantee stays_shut _ _ _ Hpre Hops Hbefore (Forall_nil_2 _)) as [_ Hpool].
  destruct (pool_steps_guarantee stays_shut _ _ _ Hpre Hops Hafter Hpool) as [Hshut _].
  assert (shut (fst c')) as [Hs Hempty].
  { apply Hshut. replace st' with (fst (run stop (fst c))) by by rewrite Hstop.
    by apply run_stop_shut with p. }
  cbn. split_and!; [done..|]. intros He. split_and!.
  - intros request Hm. unfold create_session. rewrite He, Hm, bool_decide_eq_true_2 by done. cbn.
    unfold create_section. by rewrite Hs.
  - intros id. apply run_get_session_none; [done|]. by apply shut_find.
  - intros id. unfold delete_session, erase_section. rewrite He. cbn.
    by rewrite Hempty, lookup_empty.
  - intros request n id m Hid Hmodel Hmsg Hrole. unfold begin_request.
    rewrite He, Hid, Hmodel, bool_decide_eq_true_2 by done. cbn [negb].
    unfold one_user_message. rewrite Hmsg, decide_True by done. cbn.
    by rewrite shut_find.
Qed.

(** a pass of the reaper closes and removes exactly
    the sessions that are idle (no active request) and whose expiry is not
    after the clock; every other session stays in the table, unchanged. *)
Theorem reaper_removes_exactly_expired now st id loc s :
  store_wf p st → sessions_ st !! id = Some loc → heap st !! loc = Some s →
  let st' := fst (reap_expired_sessions_locked now st) in
  (ss_closed s = false ∧ ss_active_request s = None ∧ (ss_expires_at s ≤ now)%Z →
     sessions_ st' !! id = None ∧ heap st' !! loc = Some (set_closed s)) ∧
  (ss_closed s = true ∨ ss_active_request s ≠ None ∨ (now < ss_expires_at s)%Z →
     sessions_ st' !! id = Some loc ∧ heap st' !! loc = Some s).
Proof.
  intros Hwf Hid Hs. destruct (reap_locked_entry p now st id loc s Hwf Hid Hs) as [H1 H2].
  cbv zeta. rewrite H1, H2. unfold should_expire. split.
  - intros (-> & -> & Hle). by rewrite bool_decide_eq_true_2.
  - intros Hkeep.
    assert (negb (ss_closed s) && negb (is_some (ss_active_request s)) &&
      bool_decide (ss_expires_at s ≤ now)%Z = false) as ->; [|done].
    destruct Hkeep as [->|[Ha|Hlt]]; [done| |].
    + by destruct (ss_active_request s); cbn; rewrite ?andb_false_r.
    + rewrite (bool_decide_eq_false_2 (ss_expires_at s ≤ now)%Z) by lia. by rewrite andb_false_r.
Qed.

(** C5: a whole turn on a live, idle, unexpired session. [begin_request]
    hands out the history followed by the user message and takes the
    session, so a second request gets [session_busy]; the commit then
    appends the user message and the answer, trimmed (nothing when the
    result is an error), frees the session and restarts its TTL. *)
Theorem session_turn st id loc s m request n n' (res : RuntimeResult CompletionResult) :
  store_wf p st → enabled (config_ p) = true →
  sessions_ st !! id = Some loc → heap st !! loc = Some s →
  ss_closed s = false → ss_active_request s = None →
  (clock_ p (clock_reads st) < ss_expires_at s)%Z →
  ccr_session_id request = Some id → ccr_model request = model_id_ p →
  ccr_messages request = [m] → role m = User →
  ∃ st1 started,
    run (begin_request p request n) st =
      (st1, Value {| br_messages := ss_history s ++ [m]; br_started_at := started;
                     br_user_message := m |}) ∧
    snd (run (begin_request p request n') st1) = Unexpected session_busy_error ∧
    ∃ st2 s2 now,
      run (commit_result p id n m res) st1 = (st2, ()) ∧
      sessions_ st2 !! id = Some loc ∧ heap st2 !! loc = Some s2 ∧
      ss_closed s2 = false ∧ ss_active_request s2 = None ∧
      ss_last_used s2 = now ∧ ss_expires_at s2 = (now + idle_ttl_seconds (config_ p))%Z ∧
      ss_history s2 =
        match res with
        | Value r => trim_history_to_fit (ss_history s ++ [m; msg_assistant (cr_text r)])
                       (max_history_messages_ p)
        | Unexpected _ => ss_history s
        end.
Proof.
  intros Hwf He Hid Hs Hc Ha Hclock Hrid Hmodel Hmsg Hrole.
  assert (∀ now s, ss_active_request s ≠ None → should_expire now s = false) as Hbusy.
  { intros now s' Ha'. unfold should_expire. destruct (ss_active_request s'); [|done].
    by cbn; rewrite andb_false_r. }
  destruct (reap_find_alive p id loc s st) as (st0 & Hf & Hid0 & Hs0 & _ & Hwf0); [done..| |].
  { unfold should_expire. rewrite bool_decide_eq_false_2 by lia. by rewrite andb_false_r. }
  destruct (admit_section_free p id loc m n (fst (read_clock p st0)) s) as (st1 & Hadm & Hid1 & _ & Hs1);
    [done..|].
  exists st1, (clock_ p (clock_reads st0)).
  rewrite (run_begin_request p request n id m st loc st0), Hadm by done.
  split; [done|].
  assert (store_wf p st1) as Hwf1.
  { replace st1 with (fst (admit_section p id loc m n (fst (read_clock p st0)))) by by rewrite Hadm.
    apply admit_section_wf. eapply reaped_wf; [apply read_clock_reaped|done]. }
  split.
  - destruct (reap_find_alive p id loc _ st1 Hwf1 ltac:(by rewrite Hid1) Hs1) as
      (st2 & Hf2 & _ & Hs2 & _); [by apply Hbusy|].
    rewrite (run_begin_request p request n' id m st1 loc st2) by done.
    unfold admit_section. cbn. rewrite Hs2. cbn. by rewrite Hc.
  - destruct (commit_section_owner p loc n m
      match res with Value r => Some (cr_text r) | Unexpected _ => None end st1 _ Hs1 Hc eq_refl)
      as (st2 & Hcom & Hid2 & Hs2).
    eexists st2, _, _. unfold commit_result, commit_text. cbn.
    rewrite Hid1. cbn. rewrite Hid0. cbn. rewrite Hcom. cbn.
    split_and!; [done|by rewrite Hid2, Hid1|exact Hs2|..]; by destruct res; cbn.
Qed.
End Properties.

(** ** Witnesses *)

Module Witness.
Import ZooDemo.

(** A store of two sessions with a window of two messages, and the clock of a
    counter. *)
Definition cfg : StoreConfig :=
  {| model_id_ := "local-model";
     config_ := {| max_sessions := 2; idle_ttl_seconds := 600 |};
     max_history_messages_ := 2;
     clock_ n := Z.of_nat n |}.

Definition create : StoreCall :=
  CallCreate {| scr_model := "local-model"; scr_system_prompt := Some "Be brief." |}.

Definition ask (c : string) : ChatCompletionRequest :=
  {| ccr_model := "local-model"; ccr_messages := [msg_user c]; ccr_stream := false;
     ccr_session_id := Some "sess-1"; ccr_overrides := no_overrides |}.

Definition answer (t : string) : CompletionResult :=
  {| cr_text := t;
     cr_usage := {| prompt_tokens := 1; completion_tokens := 1; total_tokens := 2 |};
     cr_metrics := {| latency_ms := 5; time_to_first_token_ms := 1;
                      tokens_per_second := S754_zero false |};
     cr_tool_invocations := [] |}.

Definition st0 : SessionStore := new_store "Base".
Definition st1 : SessionStore := fst (run (store_call cfg create) st0).
Definition st2 : SessionStore := fst (run (begin_request cfg (ask "Hi") 7) st1).
Definition st3 : SessionStore := fst (run (delete_session cfg "sess-1") st1).
Definition st4 : SessionStore := fst (run stop st1).

(** One call spawned and run to its end is a schedule. *)
Lemma one_call (allowed : StoreCall → Prop) c st ps :
  allowed c →
  store_steps cfg allowed (st, ps)
    (fst (run (store_call cfg c) st), ps ++ [Ret (snd (run (store_call cfg c) st))]).
Proof.
  intros Hc. eapply rtc_l; [apply pool_spawn; by exists c|].
  pose proof (run_pool_steps (λ q, ∃ c, allowed c ∧ q = store_call cfg c) (store_call cfg c) st
    (ps ++ [store_call cfg c]) (length ps)) as Hrun.
  rewrite insert_app_r_alt, Nat.sub_diag in Hrun by lia. cbn in Hrun. apply Hrun.
  by rewrite lookup_app_r, Nat.sub_diag by lia.
Qed.

Lemma st1_wf : store_wf cfg st1.
Proof.
  exact (store_steps_invariant cfg (store_wf cfg) honest_call _ _ (section_of_wf cfg)
    (one_call honest_call create st0 [] I) (Forall_nil_2 _) (new_store_wf cfg "Base")).
Qed.

Lemma store_invariant_interleaved_witness : store_wf cfg st1.
Proof.
  exact (store_invariant_interleaved cfg "Base" _ (one_call honest_call create st0 [] I)).
Defined.

Lemma active_request_owns_session_witness :
  ∃ s', heap (fst (run (store_call cfg (CallDelete "sess-1")) st2)) !! 0 = Some s' ∧
        ss_active_request s' = Some 7%N ∧ length (ss_history s') = 1.
Proof.
  assert (heap st2 !! 0 = Some (heap st2 !!! 0)) as Hs by (vm_compute; reflexivity).
  assert (ss_active_request (heap st2 !!! 0) = Some 7%N) as Ha by (vm_compute; reflexivity).
  destruct (active_request_owns_session cfg 7 0 st2 [] _ (heap st2 !!! 0) Hs Ha
    (Forall_nil_2 _) (one_call (foreign_call 7) (CallDelete "sess-1") st2 [] I))
    as (s' & H1 & H2 & H3 & _).
  exists s'. split; [exact H1|split; [exact H2|]]. rewrite H3. vm_compute. reflexivity.
Defined.

Lemma deleted_session_stays_deleted_witness :
  snd (run (get_session cfg "sess-1") (fst (run (store_call cfg create) st3))) =
    Unexpected (unknown_session_error "sess-1").
Proof.
  refine (proj2 (deleted_session_stays_deleted cfg "Base" _ "sess-1" st3 _
    (one_call honest_call create st0 [] I) _ (one_call honest_call create st3 _ I) _));
    vm_compute; reflexivity.
Defined.

Lemma stopped_store_refuses_witness :
  stopping_ (fst (run (store_call cfg create) st4)) = true.
Proof.
  refine (proj1 (stopped_store_refuses cfg "Base" _ st4 _
    (one_call honest_call create st0 [] I) _ (one_call honest_call create st4 _ I))).
  vm_compute. reflexivity.
Defined.

Lemma reaper_removes_exactly_expired_witness :
  sessions_ (fst (reap_expired_sessions_locked 1000 st1)) !! "sess-1" = None.
Proof.
  refine (proj1 (proj1 (reaper_removes_exactly_expired cfg 1000 st1 "sess-1" 0 (heap st1 !!! 0)
    st1_wf _ _) _)); vm_compute; try reflexivity. repeat split. discriminate.
Defined.

Lemma session_turn_witness :
  ∃ st, snd (run (begin_request cfg (ask "Hi") 8) st) = Unexpected session_busy_error.
Proof.
  destruct (session_turn cfg st1 "sess-1" 0 (heap st1 !!! 0) (msg_user "Hi") (ask "Hi") 7 8
    (Value (answer "Hello")) st1_wf) as (st & _ & _ & Hbusy & _); try (vm_compute; reflexivity).
  exists st. exact Hbusy.
Defined.
End Witness.
