(* ===== verification/SessionSpec.v ===== *)
(** * What the session store promises

    An abstract session store: a table from ids to sessions, each of which is its
    creation time, its last use, its history and the request that holds it.  There
    is no heap, no closed session, no stored expiry, and every call is one step.
    SessionStore.v is shown to refine it: called one at a time, the methods give
    the replies of the specification, in every sequence of calls. *)

From S2P Require Import Prelude Atomic ApiTypes SessionStore SessionStoreProofs.

(** ** The specification *)

Record Session : Type := {
  s_created : Z;
  s_last_used : Z;
  s_history : list ChatMessage;
  s_active : option N;
}.

Record Sessions : Type := {
  base_prompt : string;
  next_id : N;
  table : gmap string Session;
  stopped : bool;
}.

Definition with_table (t : gmap string Session) (a : Sessions) : Sessions :=
  {| base_prompt := base_prompt a; next_id := next_id a; table := t; stopped := stopped a |}.

Definition no_sessions (base : string) : Sessions :=
  {| base_prompt := base; next_id := 1; table := ∅; stopped := false |}.

Section Spec.
Context `{ZooCore}.
Variable p : StoreConfig.

Definition ttl : Z := idle_ttl_seconds (config_ p).

Definition summary_of (id : string) (s : Session) : SessionSummary :=
  {| sum_id := id; sum_model := model_id_ p; sum_created := s_created s;
     sum_last_used := s_last_used s; sum_expires_at := (s_last_used s + ttl)%Z |}.

(** A session nobody uses dies [ttl] seconds after its last use. *)
Definition is_live (now : Z) (s : Session) : bool :=
  is_some (s_active s) || bool_decide (now < s_last_used s + ttl)%Z.

Definition reap (now : Z) (a : Sessions) : Sessions :=
  with_table (filter (λ x : string * Session, is_live now x.2) (table a)) a.

(** A request takes the session, and gives it back. *)
Definition taken (request : N) (now : Z) (s : Session) : Session :=
  {| s_created := s_created s; s_last_used := now; s_history := s_history s;
     s_active := Some request |}.

Definition given_back (h : list ChatMessage) (now : Z) (s : Session) : Session :=
  {| s_created := s_created s; s_last_used := now; s_history := h; s_active := None |}.

(** Lookup, or the 404. *)
Definition with_session {A} (id : string) (a : Sessions) (k : Session → Sessions * ApiResult A)
    : Sessions * ApiResult A :=
  match table a !! id with
  | None => (a, Unexpected (unknown_session_error id))
  | Some s => k s
  end.

Definition guard {A} (b : bool) (e : ApiError) (a : Sessions) (k : Sessions * ApiResult A)
    : Sessions * ApiResult A := if b then (a, Unexpected e) else k.

(** [now n] is the [n]-th reading of the clock during the call. *)
Definition spec_create (now : nat → Z) (request : SessionCreateRequest) (a : Sessions)
    : Sessions * ApiResult SessionSummary :=
  guard (negb (enabled (config_ p))) disabled_error a
  (guard (negb (bool_decide (scr_model request = model_id_ p))) (unknown_model_error (scr_model request)) a
  (guard (stopped a) (service_unavailable_error "Server runtime is stopping" (Some "agent_not_ready")) a
  (let a := reap (now 0) a in
   guard (bool_decide (max_sessions (config_ p) ≤ N.of_nat (size (table a)))%N)
     (service_unavailable_error "Session capacity reached" (Some "session_capacity_reached")) a
   (let id := session_name (next_id a) in
    let s := {| s_created := now 0; s_last_used := now 0;
                s_history := make_initial_history (base_prompt a) (scr_system_prompt request);
                s_active := None |} in
    ({| base_prompt := base_prompt a; next_id := u64_succ (next_id a);
        table := match table a !! id with Some _ => table a | None => <[id := s]> (table a) end;
        stopped := stopped a |}, Value (summary_of id s)))))).

Definition spec_get (now : nat → Z) (id : string) (a : Sessions) : Sessions * ApiResult SessionSummary :=
  guard (negb (enabled (config_ p))) disabled_error a
  (let a := reap (now 0) a in with_session id a (λ s, (a, Value (summary_of id s)))).

Definition spec_delete (id : string) (a : Sessions) : Sessions * ApiResult unit :=
  guard (negb (enabled (config_ p))) disabled_error a
  (with_session id a (λ _, (with_table (delete id (table a)) a, Value ()))).

(** The refusal of other messages than one user message carries the code that the server sends;
    the error reference has it without one (ErrorReference.v). *)
Definition spec_begin (now : nat → Z) (request : ChatCompletionRequest) (n : N) (a : Sessions)
    : Sessions * ApiResult BeginRequestResult :=
  guard (negb (enabled (config_ p))) disabled_error a
  match ccr_session_id request with
  | None => (a, Unexpected (invalid_request_error "session_id is required" (Some "session_id") None))
  | Some id =>
      guard (negb (bool_decide (ccr_model request = model_id_ p))) (unknown_model_error (ccr_model request)) a
      match one_user_message (ccr_messages request) with
      | None => (a, Unexpected (invalid_request_error
                  "Session chat requests must contain exactly one user message"
                  (Some "messages") (Some "invalid_message_sequence")))
      | Some m =>
          let a := reap (now 0) a in
          with_session id a (λ s,
            guard (is_some (s_active s)) session_busy_error a
            (with_table (<[id := taken n (now 2) s]> (table a)) a,
             Value {| br_messages := s_history s ++ [m]; br_started_at := now 1; br_user_message := m |}))
      end
  end.

(** Only the request that holds the session may end its turn. *)
Definition spec_end_turn (now : nat → Z) (id : string) (n : N) (h : list ChatMessage → list ChatMessage)
    (a : Sessions) : Sessions :=
  match table a !! id with
  | Some s => if bool_decide (s_active s = Some n)
              then with_table (<[id := given_back (h (s_history s)) (now 0) s]> (table a)) a else a
  | None => a
  end.

Definition turn_added (m : ChatMessage) (text : option string) (h : list ChatMessage) : list ChatMessage :=
  match text with
  | Some t => trim_history_to_fit (h ++ [m; msg_assistant t]) (max_history_messages_ p)
  | None => h
  end.

Definition text_of {A} (f : A → string) (r : RuntimeResult A) : option string :=
  match r with Value a => Some (f a) | Unexpected _ => None end.

Definition spec_call (now : nat → Z) (c : StoreCall) (a : Sessions) : Sessions * StoreReply :=
  match c with
  | CallHealth => (a, ReplyHealth {| sh_enabled := enabled (config_ p); sh_active := size (table a);
                                     sh_max_sessions := max_sessions (config_ p);
                                     sh_idle_ttl_seconds := ttl |})
  | CallReap => (if stopped a then a else reap (now 0) a, ReplyUnit)
  | CallCreate r => let '(a, x) := spec_create now r a in (a, ReplySession x)
  | CallGet id => let '(a, x) := spec_get now id a in (a, ReplySession x)
  | CallDelete id => let '(a, x) := spec_delete id a in (a, ReplyDelete x)
  | CallSetPrompt s => ({| base_prompt := s; next_id := next_id a; table := table a; stopped := stopped a |},
                        ReplyUnit)
  | CallBegin r n => let '(a, x) := spec_begin now r n a in (a, ReplyBegin x)
  | CallCommit id n m r => (spec_end_turn now id n (turn_added m (text_of cr_text r)) a, ReplyUnit)
  | CallCommitText id n m r => (spec_end_turn now id n (turn_added m (text_of (λ t, t) r)) a, ReplyUnit)
  | CallRelease id n => (spec_end_turn now id n (λ h, h) a, ReplyUnit)
  | CallStop => ({| base_prompt := base_prompt a; next_id := next_id a; table := ∅; stopped := true |},
                 ReplyUnit)
  end.

(** ** The relation to the implementation *)

Definition session_of (s : SessionState) : Session :=
  {| s_created := ss_created s; s_last_used := ss_last_used s; s_history := ss_history s;
     s_active := ss_active_request s |}.

Definition abstract (st : SessionStore) : Sessions :=
  {| base_prompt := base_system_prompt_ st; next_id := next_session_id_ st;
     table := omap (λ loc, session_of <$> heap st !! loc) (sessions_ st); stopped := stopping_ st |}.

(** What the abstraction leaves out of a session in the table. *)
Definition derived (id : string) (s : SessionState) : Prop :=
  ss_id s = id ∧ ss_closed s = false ∧ ss_model s = model_id_ p ∧
  ss_expires_at s = (ss_last_used s + ttl)%Z.

Record linked (st : SessionStore) : Prop := {
  lk_table id loc : sessions_ st !! id = Some loc → ∃ s, heap st !! loc = Some s ∧ derived id s;
  lk_stopped : stopping_ st = true → sessions_ st = ∅;
}.

Lemma new_store_linked base : linked (new_store base).
Proof. split; [|done]. intros id loc Hid. by destruct (lookup_empty_Some id loc). Qed.

Lemma abstract_new base : abstract (new_store base) = no_sessions base.
Proof. unfold abstract. cbn. by rewrite omap_empty. Qed.

Lemma abstract_lookup st id loc s :
  sessions_ st !! id = Some loc → heap st !! loc = Some s →
  table (abstract st) !! id = Some (session_of s).
Proof. intros Hid Hs. cbn. by rewrite lookup_omap, Hid; cbn; rewrite Hs. Qed.

Lemma abstract_lookup_None st id : sessions_ st !! id = None → table (abstract st) !! id = None.
Proof. intros Hid. cbn. by rewrite lookup_omap, Hid. Qed.

(** A lookup in the table finds the same on both sides. *)
Lemma linked_lookup st id :
  linked st →
  (sessions_ st !! id = None ∧ table (abstract st) !! id = None) ∨
  ∃ loc s, sessions_ st !! id = Some loc ∧ heap st !! loc = Some s ∧ derived id s ∧
           table (abstract st) !! id = Some (session_of s).
Proof.
  intros Hl. destruct (sessions_ st !! id) as [loc|] eqn:Hid.
  - right. destruct (lk_table _ Hl _ _ Hid) as (s & Hs & Hd). exists loc, s.
    split_and!; [done|done|done|]. by eapply abstract_lookup.
  - left. split; [done|]. by apply abstract_lookup_None.
Qed.

Lemma linked_inj st id id' loc :
  linked st → sessions_ st !! id = Some loc → sessions_ st !! id' = Some loc → id = id'.
Proof.
  intros Hl H1 H2. destruct (lk_table _ Hl _ _ H1) as (s & Hs & <- & _).
  destruct (lk_table _ Hl _ _ H2) as (s' & Hs' & <- & _). congruence.
Qed.

Lemma linked_NoDup st : linked st → NoDup (map_to_list (sessions_ st)).*2.
Proof.
  intros Hl. apply NoDup_fmap_2_strong; [|apply NoDup_map_to_list].
  intros [id1 l1] [id2 l2] H1%elem_of_map_to_list H2%elem_of_map_to_list Heq. cbn in *. subst.
  f_equal. by eapply linked_inj.
Qed.

Lemma abstract_size st : linked st → size (table (abstract st)) = size (sessions_ st).
Proof.
  intros Hl. rewrite <-!size_dom. f_equal. apply set_eq. intros id.
  rewrite !elem_of_dom. cbn. rewrite lookup_omap.
  destruct (sessions_ st !! id) as [loc|] eqn:Hid; cbn; [|by split; intros []].
  destruct (lk_table _ Hl _ _ Hid) as (s & -> & _). split; by eexists.
Qed.

(** Writing through the pointer of a session in the table. *)
Lemma abstract_update st id loc s f :
  linked st → sessions_ st !! id = Some loc → heap st !! loc = Some s →
  (∀ s, derived id s → derived id (f s)) →
  linked (update_session loc f st) ∧
  abstract (update_session loc f st) =
    with_table (<[id := session_of (f s)]> (table (abstract st))) (abstract st).
Proof.
  intros Hl Hid Hs Hf. split; [split; [|apply Hl]|].
  - cbn. intros id' loc' Hid'. destruct (lk_table _ Hl _ _ Hid') as (s' & Hs' & Hd).
    rewrite list_lookup_alter. case_decide as Heq; [|by eauto]. subst loc'.
    rewrite Hs'. eexists. split; [done|]. rewrite (linked_inj st id' id loc) in *; eauto.
  - unfold abstract, with_table. cbn. f_equal. apply map_eq. intros id'. rewrite lookup_omap.
    destruct (decide (id' = id)) as [->|Hne].
    + rewrite lookup_insert_eq, Hid. cbn. by rewrite list_lookup_alter_eq, Hs.
    + rewrite lookup_insert_ne, lookup_omap by done.
      destruct (sessions_ st !! id') as [loc'|] eqn:Hid'; cbn; [|done].
      rewrite list_lookup_alter_ne; [done|]. intros <-. apply Hne. by eapply linked_inj.
Qed.

Lemma derived_touch id now s : derived id s → derived id (set_times now (now + ttl)%Z s).
Proof. intros (? & ? & ? & ?). by split_and!. Qed.

Lemma derived_active id n s : derived id s → derived id (set_active_request n s).
Proof. intros (? & ? & ? & ?). by split_and!. Qed.

Lemma derived_history id h s : derived id s → derived id (set_history h s).
Proof. intros (? & ? & ? & ?). by split_and!. Qed.

Lemma linked_read_clock st : linked st → linked (fst (read_clock p st)).
Proof. intros Hl. split; apply Hl. Qed.

(** Touching restarts the life of the session. *)
Lemma abstract_touch st id loc s :
  linked st → sessions_ st !! id = Some loc → heap st !! loc = Some s →
  linked (touch_session p loc st) ∧
  abstract (touch_session p loc st) =
    with_table (<[id := session_of (set_times (clock_ p (clock_reads st)) 0 s)]> (table (abstract st)))
      (abstract st).
Proof.
  intros Hl Hid Hs.
  destruct (abstract_update (fst (read_clock p st)) id loc s
    (set_times (clock_ p (clock_reads st)) (clock_ p (clock_reads st) + ttl)%Z)) as [H1 H2];
    [by apply linked_read_clock|done..|apply derived_touch|].
  split; [exact H1|]. etrans; [exact H2|]. done.
Qed.

(** ** Reaping *)

Lemma live_not_expired now id s : derived id s → is_live now (session_of s) = negb (should_expire now s).
Proof.
  intros (_ & Hc & _ & He). unfold is_live, should_expire. rewrite Hc, He. cbn.
  destruct (ss_active_request s); cbn; [done|].
  case_bool_decide; case_bool_decide; try done; lia.
Qed.

Lemma abstract_reap now st :
  linked st →
  let st' := fst (reap_expired_sessions_locked now st) in
  linked st' ∧ abstract st' = reap now (abstract st).
Proof.
  intros Hl. cbv zeta. set (st' := fst _).
  pose proof (reap_locked_reaped now st) as Hr. fold st' in Hr.
  assert (∀ id loc s, sessions_ st !! id = Some loc → heap st !! loc = Some s →
    heap st' !! loc = Some (if should_expire now s then set_closed s else s) ∧
    sessions_ st' !! id = if should_expire now s then None else Some loc) as Hentry.
  { intros id loc s Hid Hs. rewrite <-Hid at 1. unfold st', reap_expired_sessions_locked.
    apply reap_loop_entry; [apply NoDup_fst_map_to_list|by apply linked_NoDup| |done].
    by apply elem_of_map_to_list. }
  assert (∀ id, sessions_ st !! id = None → sessions_ st' !! id = None) as Hnone.
  { intros id Hid. eapply lookup_weaken_None; [done|apply Hr]. }
  split; [split|].
  - intros id loc Hid. pose proof (lookup_weaken _ _ _ _ Hid (reaped_sessions _ _ Hr)) as Hid0.
    destruct (lk_table _ Hl _ _ Hid0) as (s & Hs & Hd).
    destruct (Hentry _ _ _ Hid0 Hs) as [H1 H2]. rewrite Hid in H2.
    destruct (should_expire now s); [done|]. by exists s.
  - rewrite (reaped_stopping _ _ Hr). intros Hstop. apply map_subseteq_empty_inv.
    rewrite <-(lk_stopped _ Hl Hstop). apply Hr.
  - unfold abstract, reap, with_table.
    rewrite (reaped_prompt _ _ Hr), (reaped_next _ _ Hr), (reaped_stopping _ _ Hr). cbn. f_equal.
    apply map_eq. intros id. rewrite lookup_omap, map_lookup_filter, lookup_omap.
    destruct (sessions_ st !! id) as [loc|] eqn:Hid; cbn; [|by rewrite Hnone].
    destruct (lk_table _ Hl _ _ Hid) as (s & Hs & Hd).
    destruct (Hentry _ _ _ Hid Hs) as [H1 H2]. rewrite H2, Hs. cbn.
    rewrite (live_not_expired now id s Hd).
    destruct (should_expire now s) eqn:He; cbn; [done|]. by rewrite H1.
Qed.

Lemma abstract_reap_find id st :
  linked st →
  let '(st', o) := reap_find_section p id st in
  linked st' ∧ abstract st' = reap (clock_ p (clock_reads st)) (abstract st) ∧
  clock_reads st' = S (clock_reads st) ∧ o = sessions_ st' !! id.
Proof.
  intros Hl. unfold reap_find_section, read_clock.
  set (st0 := {| clock_reads := S (clock_reads st) |}).
  pose proof (abstract_reap (clock_ p (clock_reads st)) st0 (linked_read_clock st Hl)) as [H1 H2].
  pose proof (reap_locked_clock (clock_ p (clock_reads st)) st0) as H3.
  destruct (reap_expired_sessions_locked _ st0) as [st' l]. by split_and!.
Qed.

(** ** Refinement *)

(** The readings of the clock from now on. *)
Definition readings (st : SessionStore) (n : nat) : Z := clock_ p (clock_reads st + n).

(** Run alone from a linked state, [q] does what [spec] says. *)
Definition refines {A} (q : prog SessionStore A) (spec : (nat → Z) → Sessions → Sessions * A) : Prop :=
  ∀ st, linked st →
    linked (fst (run q st)) ∧
    spec (readings st) (abstract st) = (abstract (fst (run q st)), snd (run q st)).

Lemma readings_0 st : readings st 0 = clock_ p (clock_reads st).
Proof. unfold readings. by rewrite Nat.add_0_r. Qed.

Lemma refines_reply {A B} (q : prog SessionStore A) spec (f : A → B) :
  refines q spec →
  refines (do! x := q in Ret (f x)) (λ now a, let '(a, x) := spec now a in (a, f x)).
Proof.
  intros Hq st Hl. destruct (Hq st Hl) as [H1 H2]. rewrite run_bind, H2. by split.
Qed.

Lemma refines_quiet {A} (q : prog SessionStore A) spec (r : A) :
  (∀ st, linked st → run q st = (st, r) ∧ spec (readings st) (abstract st) = (abstract st, r)) →
  refines q spec.
Proof. intros Hq st Hl. destruct (Hq st Hl) as [-> ->]. by split. Qed.

Lemma refines_guard {A} (b : bool) e (q : prog SessionStore (ApiResult A)) spec :
  refines q spec →
  refines (if b then Ret (Unexpected e) else q) (λ now a, guard b e a (spec now a)).
Proof. intros Hq. destruct b; [by split|exact Hq]. Qed.

(** A change of one session followed by [touch_session]. *)
Lemma abstract_edit st id loc s f :
  linked st → sessions_ st !! id = Some loc → heap st !! loc = Some s →
  (∀ s, derived id s → derived id (f s)) →
  let st' := touch_session p loc (update_session loc f st) in
  linked st' ∧
  abstract st' =
    with_table (<[id := session_of (set_times (clock_ p (clock_reads st)) 0 (f s))]> (table (abstract st)))
      (abstract st).
Proof.
  intros Hl Hid Hs Hf.
  destruct (abstract_update st id loc s f Hl Hid Hs Hf) as [H1 H2].
  destruct (abstract_touch (update_session loc f st) id loc (f s) H1 Hid) as [H3 H4].
  { cbn. by rewrite list_lookup_alter_eq, Hs. }
  split; [exact H3|]. rewrite H4, H2. unfold with_table. cbn. by rewrite insert_insert_eq.
Qed.

(** The session [create_section] adds. *)
Lemma abstract_created request now st :
  linked st → stopping_ st = false →
  let id := session_name (next_session_id_ st) in
  let s := {| s_created := now; s_last_used := now;
              s_history := make_initial_history (base_system_prompt_ st) (scr_system_prompt request);
              s_active := None |} in
  let st' := created p request now st in
  linked st' ∧
  abstract st' =
    {| base_prompt := base_system_prompt_ st; next_id := u64_succ (next_session_id_ st);
       table := match table (abstract st) !! id with
                | Some _ => table (abstract st) | None => <[id := s]> (table (abstract st)) end;
       stopped := stopping_ st |} ∧
  snapshot_session (heap st' !!! length (heap st)) = summary_of id s.
Proof.
  intros Hl Hstop. cbv zeta. unfold created.
  set (id := session_name (next_session_id_ st)). set (s := {| ss_id := id |}).
  assert (∀ loc s', heap st !! loc = Some s' → (heap st ++ [s]) !! loc = Some s') as Happ
    by (intros; by apply lookup_app_l_Some).
  assert ((heap st ++ [s]) !! length (heap st) = Some s) as Hnew
    by (rewrite lookup_app_r, Nat.sub_diag; done).
  assert (omap (λ loc, session_of <$> (heap st ++ [s]) !! loc) (sessions_ st) = table (abstract st)) as Htab.
  { apply map_eq. intros id'. cbn. rewrite !lookup_omap.
    destruct (sessions_ st !! id') as [loc|] eqn:Hid'; cbn; [|done].
    destruct (lk_table _ Hl _ _ Hid') as (s' & Hs' & _). by rewrite Hs', (Happ loc s'). }
  assert (∀ id' loc, sessions_ st !! id' = Some loc →
    ∃ s', (heap st ++ [s]) !! loc = Some s' ∧ derived id' s') as Hold.
  { intros id' loc Hid'. destruct (lk_table _ Hl _ _ Hid') as (s' & Hs' & Hd'). eauto. }
  destruct (linked_lookup st id Hl) as [[Hn1 Hn2]|(loc & s' & Hn1 & _ & _ & Hn2)];
    rewrite Hn1, Hn2; (split; [split; cbn; [|by rewrite Hstop]|split]).
  - intros id' loc Hid'. destruct (decide (id' = id)) as [->|Hne]; [|by rewrite lookup_insert_ne in Hid'; eauto].
    rewrite lookup_insert_eq in Hid'. simplify_eq. by exists s.
  - unfold abstract. cbn. f_equal.
    rewrite omap_insert_Some with (y := session_of s) by by rewrite Hnew. by rewrite Htab.
  - cbn. by rewrite list_lookup_total_alt, Hnew.
  - exact Hold.
  - unfold abstract. cbn. f_equal. by rewrite Htab.
  - cbn. by rewrite list_lookup_total_alt, Hnew.
Qed.

Lemma create_section_room request st st1 expired :
  reap_expired_sessions_locked (clock_ p (clock_reads st)) (fst (read_clock p st)) = (st1, expired) →
  stopping_ st = false →
  create_section p request st =
    if bool_decide (max_sessions (config_ p) ≤ N.of_nat (size (sessions_ st1)))%N then (st1, CCapacity)
    else (created p request (clock_ p (clock_reads st)) st1, CCreated (length (heap st1))).
Proof.
  intros Hr Hstop. unfold read_clock in Hr. cbn [fst] in Hr.
  unfold create_section, read_clock. by rewrite Hr, Hstop.
Qed.

Lemma refines_create request : refines (create_session p request) (λ now, spec_create now request).
Proof.
  unfold create_session, spec_create.
  apply (refines_guard _ _ _ (λ now a, _)). apply (refines_guard _ _ _ (λ now a, _)).
  intros st Hl. rewrite run_bind, run_atomically. unfold guard. cbn [stopped abstract].
  destruct (stopping_ st) eqn:Hstop; [unfold create_section; by rewrite Hstop|].
  destruct (abstract_reap (clock_ p (clock_reads st)) _ (linked_read_clock st Hl)) as [H1 H2].
  pose proof (reaped_stopping _ _ (reap_locked_reaped (clock_ p (clock_reads st)) (fst (read_clock p st)))) as H3.
  destruct (reap_expired_sessions_locked _ _) as [st1 l] eqn:Hr. cbn [fst snd] in *.
  rewrite (create_section_room request st st1 l Hr Hstop), readings_0.
  change (abstract st) with (abstract (fst (read_clock p st))). rewrite <-H2, (abstract_size _ H1).
  case_bool_decide; [by split|].
  destruct (abstract_created request (clock_ p (clock_reads st)) st1 H1) as (H4 & H5 & H6); [by rewrite H3|].
  cbn [fst snd run atomically prog_bind snapshot_section]. rewrite H5, H6. by split.
Qed.

Lemma refines_get id : refines (get_session p id) (λ now, spec_get now id).
Proof.
  apply (refines_guard _ _ _ (λ now a, _)). intros st Hl.
  rewrite run_bind, run_atomically. pose proof (abstract_reap_find id st Hl) as Hf.
  destruct (reap_find_section p id st) as [st1 o]. destruct Hf as (H1 & H2 & _ & ->).
  cbn [fst snd]. rewrite readings_0, <-H2. unfold with_session.
  destruct (linked_lookup st1 id H1) as [[-> ->]|(loc & s & -> & Hs & Hd & ->)]; [by split|].
  split; [exact H1|]. cbn. rewrite list_lookup_total_alt, Hs. cbn. do 2 f_equal.
  destruct Hd as (<- & _ & Hm & He). unfold snapshot_session, summary_of. cbn. by rewrite Hm, He.
Qed.

Lemma refines_delete id : refines (delete_session p id) (λ _, spec_delete id).
Proof.
  apply (refines_guard _ _ _ (λ now a, _)). intros st Hl.
  rewrite run_bind, run_atomically. unfold erase_section, with_session.
  destruct (linked_lookup st id Hl) as [[-> ->]|(loc & s & Hid & Hs & Hd & ->)]; [by split|].
  rewrite Hid. cbn [fst snd run prog_bind atomically close_section].
  assert (∀ id' loc', delete id (sessions_ st) !! id' = Some loc' → loc' ≠ loc) as Hother.
  { intros id' loc' [Hne Hid']%lookup_delete_Some ->. apply Hne. by eapply linked_inj. }
  split; [split|].
  - cbn. intros id' loc' Hid'. rewrite list_lookup_alter_ne by (by apply not_eq_sym, (Hother id')).
    apply lookup_delete_Some in Hid' as [_ Hid']. by apply Hl.
  - cbn. intros Hstop. by rewrite (lk_stopped _ Hl Hstop), delete_empty.
  - f_equal. unfold abstract, with_table. cbn. f_equal. apply map_eq. intros id'.
    rewrite lookup_omap. destruct (decide (id' = id)) as [->|Hne]; [by rewrite !lookup_delete_eq|].
    rewrite !lookup_delete_ne, lookup_omap by done.
    destruct (sessions_ st !! id') as [loc'|] eqn:Hid'; cbn; [|done].
    rewrite list_lookup_alter_ne; [done|]. intros <-. apply Hne. by eapply linked_inj.
Qed.

Lemma refines_begin request n : refines (begin_request p request n) (λ now, spec_begin now request n).
Proof.
  unfold begin_request, spec_begin. apply (refines_guard _ _ _ (λ now a, _)).
  destruct (ccr_session_id request) as [id|]; [|by split].
  apply (refines_guard _ _ _ (λ now a, _)).
  destruct (one_user_message (ccr_messages request)) as [m|]; [|by split].
  intros st Hl. rewrite run_bind, run_atomically. pose proof (abstract_reap_find id st Hl) as Hf.
  destruct (reap_find_section p id st) as [st1 o]. destruct Hf as (H1 & H2 & H3 & ->).
  cbn [fst snd]. rewrite readings_0, <-H2. unfold with_session.
  destruct (linked_lookup st1 id H1) as [[-> ->]|(loc & s & Hid & Hs & (_ & Hc & _) & Hat)]; [by split|].
  rewrite Hid, Hat, run_bind, run_atomically. cbn [fst snd]. rewrite run_bind, run_atomically.
  unfold admit_section. change (heap (fst (read_clock p st1))) with (heap st1). rewrite Hs, Hc.
  unfold guard. cbn [s_active session_of]. destruct (ss_active_request s) as [r|] eqn:Ha; cbn [is_some];
    [by split; [apply linked_read_clock|]|].
  destruct (abstract_edit (fst (read_clock p st1)) id loc s (set_active_request (Some n))
    (linked_read_clock st1 H1) Hid Hs) as [H4 H5]; [apply derived_active|].
  split; [exact H4|]. cbn [fst snd run]. rewrite H5. unfold readings, with_table. cbn. rewrite H3.
  by replace (clock_reads st + 1) with (S (clock_reads st)) by lia;
    replace (clock_reads st + 2) with (S (S (clock_reads st))) by lia.
Qed.

(** The end of a turn: [sec] is the block under the session's mutex. *)
Lemma refines_end_turn id n h (sec : nat → SessionStore → SessionStore * unit) :
  (∀ st loc s, linked st → sessions_ st !! id = Some loc → heap st !! loc = Some s → derived id s →
    if bool_decide (ss_active_request s = Some n)
    then ∃ f, sec loc st = (touch_session p loc (update_session loc f st), ()) ∧
              (∀ s, derived id s → derived id (f s)) ∧
              ∀ now, session_of (set_times now 0 (f s)) = given_back (h (ss_history s)) now (session_of s)
    else sec loc st = (st, ())) →
  refines (do! o := atomically (find_section id) in
           match o with None => Ret () | Some loc => atomically (sec loc) end)
    (λ now a, (spec_end_turn now id n h a, ())).
Proof.
  intros Hsec st Hl. rewrite run_bind, run_atomically. unfold find_section, spec_end_turn. cbn [fst snd].
  destruct (linked_lookup st id Hl) as [[-> ->]|(loc & s & Hid & Hs & Hd & Hat)]; [by split|].
  rewrite Hid, Hat, run_atomically. pose proof (Hsec st loc s Hl Hid Hs Hd) as Hcase.
  cbn [s_active s_history session_of]. case_bool_decide; [|by rewrite Hcase].
  destruct Hcase as (f & -> & Hf & Hof). cbn [fst snd].
  destruct (abstract_edit st id loc s f Hl Hid Hs Hf) as [H1 H2].
  split; [exact H1|]. by rewrite H2, Hof, readings_0.
Qed.

Lemma update_update loc f g st :
  update_session loc g (update_session loc f st) = update_session loc (g ∘ f) st.
Proof.
  unfold update_session, with_heap. cbn. f_equal. apply list_eq. intros i.
  rewrite !list_lookup_alter. repeat case_decide; try done. by destruct (heap st !! loc).
Qed.

Lemma refines_commit id n m text :
  refines (commit_text p id n m text) (λ now a, (spec_end_turn now id n (turn_added m text) a, ())).
Proof.
  apply (refines_end_turn id n _ (λ loc, commit_section p loc n m text)).
  intros st loc s Hl Hid Hs (_ & Hc & _). unfold commit_section, owns. rewrite Hs.
  case_bool_decide; [|done]. cbn [negb]. rewrite Hc. destruct text as [t|].
  - exists (set_active_request None ∘ set_history (turn_added m (Some t) (ss_history s))).
    split_and!; [|by intros s' Hs'; unfold compose; apply derived_active, derived_history|done].
    rewrite <-update_update. done.
  - exists (set_active_request None). by split_and!; [|apply derived_active|].
Qed.

Lemma refines_release id n :
  refines (release_request p id n) (λ now a, (spec_end_turn now id n (λ h, h) a, ())).
Proof.
  apply (refines_end_turn id n _ (λ loc, release_section p loc n)).
  intros st loc s Hl Hid Hs _. unfold release_section, owns. rewrite Hs. case_bool_decide; [|done].
  exists (set_active_request None). by split_and!; [|apply derived_active|].
Qed.

Lemma refines_reap :
  refines (reap_expired_sessions p) (λ now a, (if stopped a then a else reap (now 0) a, ())).
Proof.
  intros st Hl. unfold reap_expired_sessions. rewrite run_atomically. unfold reap_section.
  cbn [stopped abstract]. destruct (stopping_ st); [by split|].
  destruct (abstract_reap (clock_ p (clock_reads st)) _ (linked_read_clock st Hl)) as [H1 H2].
  split; [exact H1|]. rewrite readings_0.
  change (abstract st) with (abstract (fst (read_clock p st))). by rewrite <-H2.
Qed.

Lemma refines_health :
  refines (health p) (λ _ a, (a, {| sh_enabled := enabled (config_ p); sh_active := size (table a);
                                    sh_max_sessions := max_sessions (config_ p);
                                    sh_idle_ttl_seconds := ttl |})).
Proof. intros st Hl. split; [exact Hl|]. by rewrite (abstract_size _ Hl). Qed.

Lemma refines_set_prompt prompt :
  refines (set_base_system_prompt prompt)
    (λ _ a, ({| base_prompt := prompt; next_id := next_id a; table := table a; stopped := stopped a |}, ())).
Proof. intros st Hl. split; [|done]. split; apply Hl. Qed.

(** Once the table is empty, closing sessions is invisible. *)
Lemma close_all_invisible locs : ∀ st, sessions_ st = ∅ →
  linked (fst (run (close_all locs) st)) ∧ abstract (fst (run (close_all locs) st)) = abstract st.
Proof.
  induction locs as [|loc locs IH]; intros st Hst; cbn [close_all run fst].
  - split; [|done]. split; [|done]. intros id loc. by rewrite Hst, lookup_empty.
  - destruct (IH (update_session loc set_closed st)) as [H1 H2]; [done|]. split; [exact H1|].
    etrans; [exact H2|]. unfold abstract. cbn [sessions_ update_session with_heap]. by rewrite Hst, !omap_empty.
Qed.

Lemma refines_stop :
  refines stop (λ _ a, ({| base_prompt := base_prompt a; next_id := next_id a; table := ∅; stopped := true |}, ())).
Proof.
  intros st Hl. unfold stop. rewrite run_bind, run_atomically. unfold swap_out_section.
  destruct (stopping_ st) eqn:Hstop; cbn [fst snd].
  - split; [done|]. unfold abstract. cbn. by rewrite (lk_stopped _ Hl Hstop), omap_empty, Hstop.
  - match goal with |- context [run (close_all ?l) ?s0] => destruct (close_all_invisible l s0 eq_refl) as [H1 H2] end.
    split; [exact H1|]. rewrite H2. unfold abstract. cbn. rewrite omap_empty. by destruct (run _ _) as [? []].
Qed.

Lemma store_call_refines c : refines (store_call p c) (λ now, spec_call now c).
Proof.
  destruct c; cbn [store_call spec_call].
  - exact (refines_reply _ _ _ refines_health).
  - exact (refines_reply _ _ _ refines_reap).
  - exact (refines_reply _ _ _ (refines_create request)).
  - exact (refines_reply _ _ _ (refines_get session_id)).
  - exact (refines_reply _ _ _ (refines_delete session_id)).
  - exact (refines_reply _ _ _ (refines_set_prompt prompt)).
  - exact (refines_reply _ _ _ (refines_begin request request_id)).
  - exact (refines_reply _ _ _ (refines_commit session_id request_id user_message (text_of cr_text result))).
  - exact (refines_reply _ _ _ (refines_commit session_id request_id user_message (text_of (λ t, t) result))).
  - exact (refines_reply _ _ _ (refines_release session_id request_id)).
  - exact (refines_reply _ _ _ refines_stop).
Qed.

(** ** Sequences of calls *)

(** A call, the readings of the clock it could take, and its reply. *)
Definition Event : Type := StoreCall * (nat → Z) * StoreReply.

Fixpoint history_of (cs : list StoreCall) (st : SessionStore) : list Event * SessionStore :=
  match cs with
  | [] => ([], st)
  | c :: cs =>
      let '(st', r) := run (store_call p c) st in
      let '(h, st'') := history_of cs st' in
      ((c, readings st, r) :: h, st'')
  end.

(** The specification gives the same replies. *)
Fixpoint explains (a : Sessions) (h : list Event) (a' : Sessions) : Prop :=
  match h with
  | [] => a' = a
  | (c, now, r) :: h => snd (spec_call now c a) = r ∧ explains (fst (spec_call now c a)) h a'
  end.

Lemma history_explained cs : ∀ st,
  linked st → explains (abstract st) (fst (history_of cs st)) (abstract (snd (history_of cs st))).
Proof.
  induction cs as [|c cs IH]; intros st Hl; [done|]. cbn [history_of].
  destruct (store_call_refines c st Hl) as [H1 H2]. destruct (run (store_call p c) st) as [st' r].
  cbn [fst snd] in *. pose proof (IH st' H1) as Hrest. destruct (history_of cs st') as [h st''].
  cbn [fst snd explains]. by rewrite H2.
Qed.

(** C2: The session store refines its specification.  For every sequence of calls of the public
    interface on a new store, made one after the other, each reply is the one the specification
    gives - a table of sessions that die [ttl] seconds after their last use unless a request holds
    them, with a capacity, changed in one step per call - and the final store represents the
    specification's final table: the heap of shared sessions, closed marks, stored expiries and
    separate critical sections cannot be told from outside. *)
Theorem store_refines_spec (base : string) (cs : list StoreCall) :
  let '(h, st) := history_of cs (new_store base) in
  linked st ∧ explains (no_sessions base) h (abstract st).
Proof.
  pose proof (history_explained cs (new_store base) (new_store_linked base)) as He.
  rewrite abstract_new in He.
  assert (∀ cs st, linked st → linked (snd (history_of cs st))) as Hkeep.
  { clear. induction cs as [|c cs IH]; intros st Hl; [done|]. cbn [history_of].
    destruct (store_call_refines c st Hl) as [H1 _]. destruct (run (store_call p c) st) as [st' r].
    pose proof (IH st' H1). by destruct (history_of cs st'). }
  pose proof (Hkeep cs _ (new_store_linked base)).
  destruct (history_of cs (new_store base)) as [h st]. by split.
Qed.
End Spec.
