(* ===== verification/Executor.v ===== *)
(** * executor.hpp, executor.cpp: the bounded thread pool

    [BoundedExecutor] as a step relation: the clients' [submit] and [stop], the
    workers' loop, and the condition variable (parked workers, notifications
    sent after the lock is released, spurious wake-ups).  The histories
    [accepted], [started] and [finished] record what happened to each task. *)

From S2P Require Import Prelude.

Section Executor.
Context {Task : Type}.

(** Where a worker thread is in [worker_loop]. *)
Inductive Worker : Type :=
| Ready                (* about to take the lock and test the predicate *)
| Parked               (* blocked in [cv_.wait] *)
| Running (task : Task)
| Exited.

Record ExecutorState : Type := {
  max_pending_tasks_ : nat;
  tasks_ : list Task;
  workers_ : list Worker;
  exec_stopping : bool;
  notify_one_pending : nat;    (* [submit]s between the unlock and [notify_one] *)
  notify_all_pending : bool;   (* a [stop] between the unlock and [notify_all] *)
  accepted : list Task;
  started : list Task;
  finished : list Task;
}.

(** The constructor: zero is replaced by one for both arguments. *)
Definition new_executor (worker_count max_pending_tasks : nat) : ExecutorState :=
  {| max_pending_tasks_ := if decide (max_pending_tasks = 0) then 1 else max_pending_tasks;
     tasks_ := [];
     workers_ := replicate (if decide (worker_count = 0) then 1 else worker_count) Ready;
     exec_stopping := false; notify_one_pending := 0; notify_all_pending := false;
     accepted := []; started := []; finished := [] |}.

(** [submit]: the block under the lock; on success a [notify_one] is due. *)
Definition submit (task : Task) (st : ExecutorState) : ExecutorState * Result unit :=
  if exec_stopping st then (st, Unexpected "Executor is stopping")
  else if bool_decide (max_pending_tasks_ st ≤ length (tasks_ st))
  then (st, Unexpected "Executor queue is full")
  else
    ({| max_pending_tasks_ := max_pending_tasks_ st; tasks_ := tasks_ st ++ [task];
        workers_ := workers_ st; exec_stopping := exec_stopping st;
        notify_one_pending := S (notify_one_pending st);
        notify_all_pending := notify_all_pending st;
        accepted := accepted st ++ [task]; started := started st; finished := finished st |},
     Value ()).

(** [stop]: the block under the lock; the second call returns at once. *)
Definition stop_begin (st : ExecutorState) : ExecutorState :=
  if exec_stopping st then st
  else
    {| max_pending_tasks_ := max_pending_tasks_ st; tasks_ := tasks_ st;
       workers_ := workers_ st; exec_stopping := true;
       notify_one_pending := notify_one_pending st; notify_all_pending := true;
       accepted := accepted st; started := started st; finished := finished st |}.

Definition with_workers (ws : list Worker) (st : ExecutorState) : ExecutorState :=
  {| max_pending_tasks_ := max_pending_tasks_ st; tasks_ := tasks_ st; workers_ := ws;
     exec_stopping := exec_stopping st; notify_one_pending := notify_one_pending st;
     notify_all_pending := notify_all_pending st; accepted := accepted st;
     started := started st; finished := finished st |}.

Definition unpark (w : Worker) : Worker := match w with Parked => Ready | _ => w end.

(** [cv_.notify_all()]. *)
Definition notify_all (st : ExecutorState) : ExecutorState :=
  {| max_pending_tasks_ := max_pending_tasks_ st; tasks_ := tasks_ st;
     workers_ := unpark <$> workers_ st; exec_stopping := exec_stopping st;
     notify_one_pending := notify_one_pending st; notify_all_pending := false;
     accepted := accepted st; started := started st; finished := finished st |}.

Definition notify_one_done (st : ExecutorState) : ExecutorState :=
  {| max_pending_tasks_ := max_pending_tasks_ st; tasks_ := tasks_ st;
     workers_ := workers_ st; exec_stopping := exec_stopping st;
     notify_one_pending := pred (notify_one_pending st);
     notify_all_pending := notify_all_pending st;
     accepted := accepted st; started := started st; finished := finished st |}.

(** A [Ready] worker [i] holds the lock: it parks when the predicate
    [stopping_ || !tasks_.empty()] is false, returns when stopping with an
    empty queue, and otherwise pops the front task and runs it. *)
Definition worker_check (i : nat) (st : ExecutorState) : ExecutorState :=
  match tasks_ st with
  | [] =>
      if exec_stopping st then with_workers (<[i := Exited]> (workers_ st)) st
      else with_workers (<[i := Parked]> (workers_ st)) st
  | task :: rest =>
      {| max_pending_tasks_ := max_pending_tasks_ st; tasks_ := rest;
         workers_ := <[i := Running task]> (workers_ st); exec_stopping := exec_stopping st;
         notify_one_pending := notify_one_pending st;
         notify_all_pending := notify_all_pending st;
         accepted := accepted st; started := started st ++ [task]; finished := finished st |}
  end.

(** The task returned or threw (both are caught); the worker loops. *)
Definition worker_finish (i : nat) (task : Task) (st : ExecutorState) : ExecutorState :=
  {| max_pending_tasks_ := max_pending_tasks_ st; tasks_ := tasks_ st;
     workers_ := <[i := Ready]> (workers_ st); exec_stopping := exec_stopping st;
     notify_one_pending := notify_one_pending st;
     notify_all_pending := notify_all_pending st;
     accepted := accepted st; started := started st; finished := finished st ++ [task] |}.

(** Steps of the pool itself: workers and pending notifications. A running task is taken to end:
    a task of the server is a continuation that waits for the agent's answer, so this is where
    the properties of termination rely on the agent answering. *)
Inductive internal_step : relation ExecutorState :=
| is_check st i :
    workers_ st !! i = Some Ready → internal_step st (worker_check i st)
| is_finish st i task :
    workers_ st !! i = Some (Running task) → internal_step st (worker_finish i task st)
| is_notify_one st i n :
    notify_one_pending st = S n → workers_ st !! i = Some Parked →
    internal_step st (notify_one_done (with_workers (<[i := Ready]> (workers_ st)) st))
| is_notify_none st n :
    notify_one_pending st = S n → Forall (λ w, w ≠ Parked) (workers_ st) →
    internal_step st (notify_one_done st)
| is_notify_all st :
    notify_all_pending st = true → internal_step st (notify_all st).

(** Steps of the clients, and spurious wake-ups. *)
Inductive external_step : relation ExecutorState :=
| xs_submit st task : external_step st (fst (submit task st))
| xs_stop st : external_step st (stop_begin st)
| xs_spurious st i :
    workers_ st !! i = Some Parked →
    external_step st (with_workers (<[i := Ready]> (workers_ st)) st).

Definition exec_step : relation ExecutorState := λ st st', internal_step st st' ∨ external_step st st'.

(** The state [stop] waits for: every worker joined. *)
Definition all_exited (st : ExecutorState) : Prop := Forall (eq Exited) (workers_ st).

#[global] Instance all_exited_dec st : Decision (all_exited st).
Proof. apply Forall_dec. intros []; solve [by left | by right]. Defined.

(** ** Invariant *)

Definition running_of (w : Worker) : list Task :=
  match w with Running t => [t] | _ => [] end.

(** The tasks being run. *)
Definition running (ws : list Worker) : list Task := ws ≫= running_of.

Record exec_wf (st : ExecutorState) : Prop := {
  exec_bound : length (tasks_ st) ≤ max_pending_tasks_ st;
  exec_fifo : accepted st = started st ++ tasks_ st;
  exec_conserved : started st ≡ₚ finished st ++ running (workers_ st);
  exec_awake :
    tasks_ st ≠ [] → 0 < notify_one_pending st ∨ notify_all_pending st = true ∨
                     Exists (λ w, w ≠ Parked ∧ w ≠ Exited) (workers_ st);
  exec_stop_seen :
    exec_stopping st = true → notify_all_pending st = false → Forall (λ w, w ≠ Parked) (workers_ st);
  exec_exit : Exists (eq Exited) (workers_ st) → exec_stopping st = true ∧ tasks_ st = [];
  exec_all_stopping : notify_all_pending st = true → exec_stopping st = true;
  exec_workers : workers_ st ≠ [];
}.

Lemma running_insert ws i w w' :
  ws !! i = Some w → running_of w = [] → running (<[i := w']> ws) ≡ₚ running_of w' ++ running ws.
Proof.
  revert i. induction ws as [|w0 ws IH]; intros [|i]; cbn; intros Hi Hw; simplify_eq.
  - by rewrite Hw.
  - unfold running in *. cbn. rewrite IH by done.
    by rewrite !(assoc (++)), (comm (++) (running_of w')).
Qed.

Lemma running_remove ws i t w' :
  ws !! i = Some (Running t) → running_of w' = [] →
  running ws ≡ₚ t :: running (<[i := w']> ws).
Proof.
  revert i. induction ws as [|w0 ws IH]; intros [|i]; cbn; intros Hi Hw; simplify_eq.
  - cbn. by rewrite Hw.
  - unfold running in *. cbn. rewrite (IH i) by done. by rewrite Permutation_middle.
Qed.

Lemma running_unpark ws : running (unpark <$> ws) = running ws.
Proof. unfold running. induction ws as [|[] ws IH]; cbn; by rewrite ?IH. Qed.

Lemma running_replicate n : running (replicate n Ready) = [].
Proof. induction n; [done|]. apply IHn. Qed.

Lemma Exists_insert_intro (P : Worker → Prop) ws i w :
  i < length ws → P w → Exists P (<[i := w]> ws).
Proof.
  intros Hi Hw. apply Exists_exists. exists w. split; [|done].
  apply list_elem_of_lookup. exists i. by apply list_lookup_insert_eq.
Qed.

Lemma Exists_insert_inv (P : Worker → Prop) ws i w :
  Exists P (<[i := w]> ws) → P w ∨ Exists P ws.
Proof.
  intros (w' & Hin & Hw')%Exists_exists. apply list_elem_of_lookup in Hin as [j Hj].
  apply list_lookup_insert_Some in Hj as [(_ & -> & _)|[_ Hj]]; [by left|right].
  apply Exists_exists. exists w'. split; [|done]. apply list_elem_of_lookup. eauto.
Qed.

Lemma new_executor_wf n m : exec_wf (new_executor n m).
Proof.
  unfold new_executor.
  split; cbn; try done; try lia.
  - by rewrite running_replicate.
  - intros (w & [-> _]%elem_of_replicate & ?)%Exists_exists. done.
  - by case_decide; destruct n.
Qed.

Lemma not_all_exited st :
  exec_wf st → tasks_ st ≠ [] → ¬ Exists (eq Exited) (workers_ st).
Proof. intros Hwf Ht He. by destruct (exec_exit _ Hwf He). Qed.

(** When nobody is parked and there is work, somebody is awake. *)
Lemma awake_of_not_parked st :
  exec_wf st → tasks_ st ≠ [] → Forall (λ w, w ≠ Parked) (workers_ st) →
  Exists (λ w, w ≠ Parked ∧ w ≠ Exited) (workers_ st).
Proof.
  intros Hwf Ht Hp. destruct (workers_ st) as [|w ws] eqn:Hw; [by destruct (exec_workers _ Hwf)|].
  left. inversion Hp. split; [done|]. intros ->.
  apply (not_all_exited st Hwf Ht). rewrite Hw. by left.
Qed.

Lemma worker_check_wf st i :
  exec_wf st → workers_ st !! i = Some Ready → exec_wf (worker_check i st).
Proof.
  intros Hwf Hi. pose proof (lookup_lt_Some _ _ _ Hi) as Hlt.
  unfold worker_check. destruct (tasks_ st) as [|t rest] eqn:Ht.
  - assert (∀ w, running_of w = [] →
      started st ≡ₚ finished st ++ running (<[i:=w]> (workers_ st))) as Hcons.
    { intros w Hw. rewrite (running_insert _ _ _ _ Hi), Hw by done. apply Hwf. }
    assert (∀ w, <[i:=w]> (workers_ st) ≠ []) as Hne.
    { intros w Hw%(f_equal length). rewrite length_insert in Hw. cbn in Hw. lia. }
    destruct (exec_stopping st) eqn:Hs; split; cbn; rewrite ?Ht; try apply Hwf; auto; cbn; try lia;
      try (by rewrite (exec_fifo _ Hwf), Ht); try congruence.
    + intros _ Hn. apply Forall_insert; [|done]. by apply (exec_stop_seen _ Hwf).
    + intros [?|He]%Exists_insert_inv; [done|]. destruct (exec_exit _ Hwf He). congruence.
  - split; cbn; try apply Hwf.
    + pose proof (exec_bound _ Hwf) as Hb. rewrite Ht in Hb. cbn in Hb. lia.
    + rewrite (exec_fifo _ Hwf), Ht. by rewrite <-app_assoc.
    + rewrite (running_insert _ _ _ _ Hi) by done. cbn.
      rewrite (exec_conserved _ Hwf). solve_Permutation.
    + intros _. right; right. by apply Exists_insert_intro.
    + intros Hs Hn. apply Forall_insert; [|done]. by apply (exec_stop_seen _ Hwf).
    + intros [?|He]%Exists_insert_inv; [done|].
      destruct (exec_exit _ Hwf He). congruence.
    + intros Hw%(f_equal length). rewrite length_insert in Hw. cbn in Hw. lia.
Qed.

Lemma worker_finish_wf st i task :
  exec_wf st → workers_ st !! i = Some (Running task) → exec_wf (worker_finish i task st).
Proof.
  intros Hwf Hi. pose proof (lookup_lt_Some _ _ _ Hi) as Hlt.
  split; cbn; try apply Hwf.
  - rewrite <-app_assoc. cbn. rewrite <-(running_remove _ _ _ Ready Hi) by done. apply Hwf.
  - intros _. right; right. by apply Exists_insert_intro.
  - intros Hs Hn. apply Forall_insert; [|done]. by apply (exec_stop_seen _ Hwf).
  - intros [?|He]%Exists_insert_inv; [done|]. by apply (exec_exit _ Hwf).
  - intros Hw%(f_equal length). rewrite length_insert in Hw. cbn in Hw. lia.
Qed.

(** Waking a parked worker. *)
Lemma wake_wf st i :
  exec_wf st → workers_ st !! i = Some Parked →
  exec_wf (with_workers (<[i := Ready]> (workers_ st)) st).
Proof.
  intros Hwf Hi. pose proof (lookup_lt_Some _ _ _ Hi) as Hlt.
  split; cbn; try apply Hwf.
  - rewrite (running_insert _ _ _ _ Hi) by done. apply Hwf.
  - intros _. right; right. by apply Exists_insert_intro.
  - intros Hs Hn. apply Forall_insert; [|done]. by apply (exec_stop_seen _ Hwf).
  - intros [?|He]%Exists_insert_inv; [done|]. by apply (exec_exit _ Hwf).
  - intros Hw%(f_equal length). rewrite length_insert in Hw. cbn in Hw. lia.
Qed.

Lemma notify_one_done_wf st :
  exec_wf st →
  (tasks_ st ≠ [] → Exists (λ w, w ≠ Parked ∧ w ≠ Exited) (workers_ st)) →
  exec_wf (notify_one_done st).
Proof. intros Hwf Ha. split; cbn; try apply Hwf. intros Ht. right; right. auto. Qed.

Lemma internal_step_wf st st' : internal_step st st' → exec_wf st → exec_wf st'.
Proof.
  intros Hstep Hwf. destruct Hstep as [st i Hi|st i task Hi|st i n Hn Hi|st n Hn Hp|st Hall].
  - by apply worker_check_wf.
  - by apply worker_finish_wf.
  - apply notify_one_done_wf; [by apply wake_wf|]. intros _. cbn.
    apply Exists_insert_intro; [|done]. by eapply lookup_lt_Some.
  - apply notify_one_done_wf; [done|]. intros Ht. by apply awake_of_not_parked.
  - assert (Forall (λ w, w ≠ Parked) (unpark <$> workers_ st)) as Hnp.
    { apply Forall_fmap, Forall_true. by intros []. }
    assert (Exists (eq Exited) (unpark <$> workers_ st) → Exists (eq Exited) (workers_ st)) as Hex.
    { intros (w & (w' & -> & Hin)%list_elem_of_fmap & Hw)%Exists_exists.
      apply Exists_exists. exists w'. by destruct w'. }
    split; cbn; try apply Hwf.
    + rewrite running_unpark. apply Hwf.
    + intros Ht. right; right. destruct (workers_ st) as [|w ws] eqn:Hw.
      { by destruct (exec_workers _ Hwf). }
      cbn. left. destruct w; cbn; try done. exfalso.
      apply (not_all_exited st Hwf Ht). rewrite Hw. by left.
    + done.
    + auto using exec_exit.
    + done.
    + intros Hw%fmap_nil_inv. by apply (exec_workers _ Hwf).
Qed.

Lemma external_step_wf st st' : external_step st st' → exec_wf st → exec_wf st'.
Proof.
  intros Hstep Hwf. destruct Hstep as [st task|st|st i Hi].
  - unfold submit. destruct (exec_stopping st) eqn:Hs; [done|].
    case_bool_decide; [done|].
    assert (¬ Exists (eq Exited) (workers_ st)) as Hne.
    { intros He. destruct (exec_exit _ Hwf He). congruence. }
    split; cbn; try apply Hwf; try congruence; try done.
    + rewrite length_app. cbn. lia.
    + by rewrite (exec_fifo _ Hwf), app_assoc.
    + intros _. left. lia.
    + intros Hn%(exec_all_stopping _ Hwf). congruence.
  - unfold stop_begin. destruct (exec_stopping st) eqn:Hs; [done|].
    split; cbn; try apply Hwf; auto; try done.
    intros He. destruct (exec_exit _ Hwf He). congruence.
  - by apply wake_wf.
Qed.

Lemma exec_steps_wf st st' : rtc exec_step st st' → exec_wf st → exec_wf st'.
Proof.
  induction 1 as [|st1 st2 st3 [Hi|Hx] _ IH]; eauto using internal_step_wf, external_step_wf.
Qed.

(** ** Progress and termination of the workers *)

Definition worker_weight (w : Worker) : nat :=
  match w with Running _ => 2 | Ready => 1 | Parked | Exited => 0 end.

Fixpoint pool_weight (ws : list Worker) : nat :=
  match ws with [] => 0 | w :: ws' => worker_weight w + pool_weight ws' end.

(** Bounds the work the pool can do without a client. *)
Definition exec_measure (st : ExecutorState) : nat :=
  3 * length (tasks_ st) + 2 * notify_one_pending st +
  (if notify_all_pending st then S (length (workers_ st)) else 0) + pool_weight (workers_ st).

Lemma pool_weight_insert ws i w w' :
  ws !! i = Some w →
  pool_weight (<[i := w']> ws) + worker_weight w = pool_weight ws + worker_weight w'.
Proof.
  revert i. induction ws as [|w0 ws IH]; intros [|i] Hi; simplify_eq/=; [lia|].
  specialize (IH _ Hi). lia.
Qed.

Lemma pool_weight_unpark ws : pool_weight (unpark <$> ws) ≤ pool_weight ws + length ws.
Proof.
  induction ws as [|w ws IH]; cbn; [lia|]. destruct w; cbn; lia.
Qed.

Lemma internal_step_measure st st' : internal_step st st' → exec_measure st' < exec_measure st.
Proof.
  unfold exec_measure. destruct 1 as [st i Hi|st i task Hi|st i n Hn Hi|st n Hn Hp|st Hall].
  - unfold worker_check. destruct (tasks_ st) as [|t rest] eqn:Ht;
      [destruct (exec_stopping st)|]; simpl; rewrite ?Ht, ?length_insert; simpl;
      [pose proof (pool_weight_insert _ _ _ Exited Hi) as Hw
      |pose proof (pool_weight_insert _ _ _ Parked Hi) as Hw
      |pose proof (pool_weight_insert _ _ _ (Running t) Hi) as Hw]; simpl in Hw; lia.
  - pose proof (pool_weight_insert _ _ _ Ready Hi) as Hw. simpl in *. rewrite length_insert. lia.
  - pose proof (pool_weight_insert _ _ _ Ready Hi) as Hw. simpl in *. rewrite Hn, length_insert. simpl. lia.
  - simpl. rewrite Hn. simpl. lia.
  - pose proof (pool_weight_unpark (workers_ st)). simpl. rewrite Hall. lia.
Qed.

Lemma internal_nsteps_measure n st st' :
  nsteps internal_step n st st' → n + exec_measure st' ≤ exec_measure st.
Proof.
  induction 1 as [|n st1 st2 st3 Hstep _ IH]; [lia|].
  pose proof (internal_step_measure _ _ Hstep). lia.
Qed.

Lemma internal_step_accepted st st' :
  internal_step st st' → accepted st' = accepted st ∧ exec_stopping st' = exec_stopping st.
Proof.
  destruct 1 as [st i Hi| | | |]; try done. unfold worker_check.
  destruct (tasks_ st); [|done]. by destruct (exec_stopping st) eqn:?.
Qed.

Lemma internal_steps_accepted st st' :
  rtc internal_step st st' → accepted st' = accepted st ∧ exec_stopping st' = exec_stopping st.
Proof.
  induction 1 as [|st1 st2 st3 Hstep _ [IH1 IH2]]; [done|].
  destruct (internal_step_accepted _ _ Hstep). split; congruence.
Qed.

(** An awake worker can always move. *)
Lemma awake_steps st :
  Exists (λ w, w ≠ Parked ∧ w ≠ Exited) (workers_ st) → ∃ st', internal_step st st'.
Proof.
  intros (w & Hin & Hp & He)%Exists_exists. apply list_elem_of_lookup in Hin as [i Hi].
  destruct w as [| |task|]; try done; eexists; [by eapply is_check|by eapply is_finish].
Qed.

Lemma notified_steps st : 0 < notify_one_pending st → ∃ st', internal_step st st'.
Proof.
  intros Hn. destruct (notify_one_pending st) as [|n] eqn:Heq; [lia|].
  assert (∀ w : Worker, Decision (w = Parked)) as Hdec.
  { intros []; solve [by left | by right]. }
  destruct (decide (Exists (λ w, w = Parked) (workers_ st))) as [Hp|Hp].
  - apply Exists_exists in Hp as (w & Hin & ->). apply list_elem_of_lookup in Hin as [i Hi].
    eexists. by eapply is_notify_one.
  - eexists. eapply is_notify_none; [done|]. by apply not_Exists_Forall in Hp; [|apply _].
Qed.

Definition exec_reachable (n m : nat) (st : ExecutorState) : Prop :=
  rtc exec_step (new_executor n m) st.

Lemma exec_reachable_wf n m st : exec_reachable n m st → exec_wf st.
Proof. intros H. eapply exec_steps_wf; [exact H|apply new_executor_wf]. Qed.

Lemma internal_steps_exec st st' : rtc internal_step st st' → rtc exec_step st st'.
Proof. apply rtc_congruence with (f := id). intros; by left. Qed.

(** A pool with something left to do is not stuck. *)
Lemma exec_not_stuck st :
  exec_wf st →
  tasks_ st ≠ [] ∨ running (workers_ st) ≠ [] ∨ (exec_stopping st = true ∧ ¬ all_exited st) →
  ∃ st', internal_step st st'.
Proof.
  intros Hwf [Ht|[Hr|[Hs Hx]]].
  - destruct (exec_awake _ Hwf Ht) as [?|[?|?]];
      [by apply notified_steps|eexists; by apply is_notify_all|by apply awake_steps].
  - apply awake_steps. induction (workers_ st) as [|w ws IH]; [done|].
    destruct w; [by left|right|by left|right]; by apply IH.
  - destruct (notify_all_pending st) eqn:Hn; [eexists; by apply is_notify_all|].
    apply awake_steps. pose proof (exec_stop_seen _ Hwf Hs Hn) as Hp. unfold all_exited in Hx.
    induction Hp as [|w ws Hw Hp IH]; [by destruct Hx|].
    destruct w; try done; [by left|by left|right]. apply IH. intros ?. apply Hx. by constructor.
Qed.
End Executor.

Section Theorems.
Context {Task : Type}.
Implicit Types (st : ExecutorState (Task := Task)).

Lemma worker_check_sizes i st :
  length (workers_ (worker_check i st)) = length (workers_ st) ∧
  max_pending_tasks_ (worker_check i st) = max_pending_tasks_ st.
Proof.
  unfold worker_check. destruct (tasks_ st); [destruct (exec_stopping st)|];
    simpl; by rewrite length_insert.
Qed.

Lemma exec_step_sizes st st' :
  exec_step st st' →
  length (workers_ st') = length (workers_ st) ∧ max_pending_tasks_ st' = max_pending_tasks_ st.
Proof.
  intros [Hi|Hx].
  - destruct Hi; simpl; rewrite ?length_insert, ?length_fmap; auto using worker_check_sizes.
  - destruct Hx as [st task|st|]; simpl; rewrite ?length_insert; auto.
    + unfold submit. destruct (exec_stopping st); [done|]. by case_bool_decide.
    + unfold stop_begin. by destruct (exec_stopping st).
Qed.

Lemma exec_steps_sizes st st' :
  rtc exec_step st st' →
  length (workers_ st') = length (workers_ st) ∧ max_pending_tasks_ st' = max_pending_tasks_ st.
Proof.
  induction 1 as [|st1 st2 st3 H12 _ [-> ->]]; [done|]. by apply exec_step_sizes.
Qed.

Lemma exec_reachable_sizes n m st :
  exec_reachable n m st →
  length (workers_ st) = (if decide (n = 0) then 1 else n) ∧
  max_pending_tasks_ st = (if decide (m = 0) then 1 else m).
Proof.
  intros H%exec_steps_sizes. simpl in H. by rewrite length_replicate in H.
Qed.

Lemma length_running (ws : list (Worker (Task := Task))) : length (running ws) ≤ length ws.
Proof.
  induction ws as [|w ws IH]; [done|]. change (running (w :: ws)) with (running_of w ++ running ws).
  rewrite length_app. destruct w; simpl; lia.
Qed.

Lemma all_exited_drained st :
  exec_wf st → all_exited st →
  tasks_ st = [] ∧ running (workers_ st) = [] ∧ exec_stopping st = true.
Proof.
  intros Hwf Hx. destruct (exec_exit _ Hwf) as [Hs Ht].
  { unfold all_exited in Hx. pose proof (exec_workers _ Hwf).
    destruct (workers_ st); [done|]. inversion Hx. by left. }
  split; [done|]. split; [|done]. clear -Hx. unfold all_exited in Hx.
  induction Hx as [|w ws <- _ IH]; [done|]. apply IH.
Qed.

(** C7: At every moment of every interleaving of the pool, the queue never exceeds its bound and
    at most [worker_count] tasks run (a zero argument counts as one); tasks start in the order
    in which they were accepted, and every accepted task is queued, running or finished,
    exactly once: none is lost or run twice. *)
Theorem executor_conserves_tasks n m st :
  exec_reachable n m st →
  length (tasks_ st) ≤ max 1 m ∧
  length (running (workers_ st)) ≤ max 1 n ∧
  accepted st = started st ++ tasks_ st ∧
  started st ≡ₚ finished st ++ running (workers_ st).
Proof.
  intros H. pose proof (exec_reachable_wf _ _ _ H) as [Hb Hf Hc _ _ _ _ _].
  destruct (exec_reachable_sizes _ _ _ H) as [Hn Hm].
  pose proof (length_running (workers_ st)) as Hr.
  repeat split; [| |done|done]; repeat case_decide; lia.
Qed.

(** C8: No lost wake-up, and termination of the drain: from any reachable state the pool makes at
    most [exec_measure] steps of its own, it is never stuck while a task is queued or running
    or a [stop] waits for a worker, and so where it comes to rest every accepted task has been
    run exactly once and, after [stop], every worker has been joined.  A task that runs is taken
    to end ([is_finish] is always possible). *)
Theorem executor_drains n m st :
  exec_reachable n m st →
  (∀ k st', nsteps internal_step k st st' → k ≤ exec_measure st) ∧
  (∀ st', rtc internal_step st st' → nf internal_step st' →
     tasks_ st' = [] ∧ running (workers_ st') = [] ∧ finished st' ≡ₚ accepted st ∧
     (exec_stopping st = true → all_exited st')).
Proof.
  intros H. split.
  { intros k st' Hk%internal_nsteps_measure. lia. }
  intros st' Hst' Hnf. destruct (internal_steps_accepted _ _ Hst') as [Hacc Hstop].
  assert (exec_wf st') as Hwf.
  { apply (exec_reachable_wf n m). unfold exec_reachable. etrans; [exact H|by apply internal_steps_exec]. }
  assert (tasks_ st' = []) as Ht.
  { destruct (tasks_ st') eqn:Ht; [done|]. destruct Hnf. apply exec_not_stuck; [done|].
    left. by rewrite Ht. }
  assert (running (workers_ st') = []) as Hr.
  { destruct (running (workers_ st')) eqn:Hr; [done|]. destruct Hnf.
    apply exec_not_stuck; [done|]. right; left. by rewrite Hr. }
  split; [done|]. split; [done|]. split.
  - rewrite <-Hacc, (exec_fifo _ Hwf), Ht, app_nil_r, (exec_conserved _ Hwf), Hr. by rewrite app_nil_r.
  - intros Hs. apply dec_stable. intros Hx. destruct Hnf. apply exec_not_stuck; [done|].
    right; right. by rewrite Hstop.
Qed.

(** When [stop] returns (all workers joined) nothing that was accepted is left behind; and
    [submit] answers exactly by the state it finds: refused with the stopping message once
    [stop] has begun, refused with the full message at the bound, and otherwise appended. *)
Theorem executor_submit_stop n m st task :
  exec_reachable n m st →
  (all_exited st → finished st ≡ₚ accepted st ∧
     submit task st = (st, Unexpected "Executor is stopping")) ∧
  (snd (submit task st) =
     if exec_stopping st then Unexpected "Executor is stopping"
     else if decide (length (tasks_ st) = max 1 m) then Unexpected "Executor queue is full"
     else Value ()) ∧
  tasks_ (fst (submit task st)) =
    tasks_ st ++ (match snd (submit task st) with Value _ => [task] | Unexpected _ => [] end).
Proof.
  intros H. pose proof (exec_reachable_wf _ _ _ H) as Hwf.
  destruct (exec_reachable_sizes _ _ _ H) as [Hn Hm]. pose proof (exec_bound _ Hwf) as Hb.
  repeat split.
  - destruct (all_exited_drained _ Hwf) as (Ht & Hr & Hs); [done|].
    by rewrite (exec_fifo _ Hwf), Ht, app_nil_r, (exec_conserved _ Hwf), Hr, app_nil_r.
  - destruct (all_exited_drained _ Hwf) as (_ & _ & Hs); [done|]. unfold submit. by rewrite Hs.
  - unfold submit. destruct (exec_stopping st); [done|]. simpl.
    rewrite Hm in *. repeat case_decide; repeat case_bool_decide; simpl; try done; lia.
  - unfold submit. destruct (exec_stopping st); simpl; [by rewrite app_nil_r|].
    case_bool_decide; simpl; by rewrite ?app_nil_r.
Qed.
End Theorems.

Module Witness.
(** One worker, a queue of one; tasks are numbers. *)
Definition busy : ExecutorState := worker_check 0 (fst (submit 7 (new_executor 1 1))).
Definition full : ExecutorState := fst (submit 8 busy).
Definition stopped_full : ExecutorState := stop_begin full.

Lemma exec_reachable_witness : exec_reachable 1 1 stopped_full.
Proof.
  unfold exec_reachable.
  eapply rtc_l; [right; exact (xs_submit _ 7)|].
  eapply rtc_l; [left; by apply (is_check _ 0)|].
  eapply rtc_l; [right; exact (xs_submit _ 8)|].
  eapply rtc_l; [right; exact (xs_stop _)|]. apply rtc_refl.
Qed.

Lemma executor_conserves_tasks_witness :
  max_pending_tasks_ stopped_full = 1 ∧ tasks_ stopped_full = [8] ∧
  started stopped_full ≡ₚ finished stopped_full ++ running (workers_ stopped_full).
Proof.
  split; [reflexivity|]. split; [reflexivity|].
  apply (executor_conserves_tasks 1 1 stopped_full exec_reachable_witness).
Defined.

Lemma executor_drains_witness :
  exec_measure stopped_full = 11 ∧
  (∀ k st', nsteps internal_step k stopped_full st' → k ≤ 11).
Proof.
  split; [reflexivity|]. apply (executor_drains 1 1 stopped_full exec_reachable_witness).
Defined.

Lemma executor_submit_stop_witness :
  snd (submit 9 stopped_full) = Unexpected "Executor is stopping" ∧
  snd (submit 9 full) = Unexpected "Executor queue is full".
Proof.
  split; [|reflexivity].
  exact (proj1 (proj2 (executor_submit_stop 1 1 stopped_full 9 exec_reachable_witness))).
Defined.
End Witness.
