(* ===== verification/Auth.v ===== *)
(** * auth.hpp: the API key check

    [check_auth] compares the [Authorization] header with the configured key in a
    loop whose length depends on the key only.  The header is the string
    Drogon's [getHeader] returns ("" when absent). *)

From S2P Require Import Prelude ApiTypes.

(** [static_cast<unsigned char>(s[i])] when [i] is in range, [0xFF] otherwise. *)
Definition byte_or_ff (s : string) (i : nat) : N :=
  match String.get i s with Some c => Ascii.N_of_ascii c | None => 255 end.

Definition kBearerPrefix : string := "Bearer ".

Definition invalid_api_key : ApiError := auth_error "Invalid API key" (Some "invalid_api_key").

(** The loop: [diff |= a ^ b] for [compare_len] positions. *)
Fixpoint compare_loop (auth_header expected : string) (i n : nat) (diff : N) : N :=
  match n with
  | O => diff
  | S n =>
      let a := byte_or_ff auth_header (String.length kBearerPrefix + i) in
      let b := byte_or_ff expected i in
      compare_loop auth_header expected (S i) n (N.lor diff (N.lxor a b))
  end.

(** [check_auth]; [api_key] is [config.api_key]. *)
Definition check_auth (api_key : option string) (auth_header : string) : option ApiError :=
  match api_key with
  | None => None
  | Some expected =>
      let key_start_offset := String.length kBearerPrefix in
      let expected_total := key_start_offset + String.length expected in
      let compare_len := max (String.length expected) 1 in
      let diff : N :=
        if bool_decide (String.length auth_header < key_start_offset)
           || negb (bool_decide (String.substring 0 key_start_offset auth_header = kBearerPrefix))
        then 1%N else 0%N in
      let length_mismatch : N :=
        if bool_decide (String.length auth_header ≠ expected_total) then 1%N else 0%N in
      let diff := compare_loop auth_header expected 0 compare_len diff in
      let diff := N.lor diff length_mismatch in
      if bool_decide (diff ≠ 0%N) then Some invalid_api_key else None
  end.

(** ** Lemmas *)

Lemma N_lor_eq_0 (a b : N) : N.lor a b = 0%N ↔ a = 0%N ∧ b = 0%N.
Proof. split; [apply N.lor_eq_0_iff|by intros [-> ->]]. Qed.

Lemma compare_loop_zero h e i n diff :
  compare_loop h e i n diff = 0%N ↔
  diff = 0%N ∧ ∀ j, i ≤ j < i + n → byte_or_ff h (String.length kBearerPrefix + j) = byte_or_ff e j.
Proof.
  revert i diff. induction n as [|n IH]; intros i diff; cbn [compare_loop].
  { split; [intros ->; split; [done|lia]|by intros [-> _]]. }
  rewrite IH, N_lor_eq_0. split.
  - intros [[-> Hx%N.lxor_eq] Hj]. split; [done|]. intros j Hij.
    destruct (decide (j = i)) as [->|]; [done|]. apply Hj. lia.
  - intros [-> Hj]. split; [split; [done|]|].
    + apply N.lxor_eq_0_iff, Hj. lia.
    + intros j Hij. apply Hj. lia.
Qed.

Lemma string_get_None i s : String.length s ≤ i → String.get i s = None.
Proof.
  revert i. induction s as [|c s IH]; intros [|i] Hi; simpl in *; try done; [lia|].
  apply IH. lia.
Qed.

Lemma string_get_Some i s : i < String.length s → ∃ c, String.get i s = Some c.
Proof.
  revert i. induction s as [|c s IH]; intros [|i] Hi; simpl in *; try lia; eauto.
  apply IH. lia.
Qed.

(** Two strings of one length whose bytes agree are equal. *)
Lemma string_bytes_eq a b :
  String.length a = String.length b →
  (∀ i, i < String.length a → byte_or_ff a i = byte_or_ff b i) → a = b.
Proof.
  revert b. induction a as [|x a IH]; intros [|y b] Hl Hb; simpl in *; try done.
  assert (x = y) as ->.
  { specialize (Hb 0 ltac:(lia)). unfold byte_or_ff in Hb. simpl in Hb.
    by rewrite <-(Ascii.ascii_N_embedding x), Hb, Ascii.ascii_N_embedding. }
  f_equal. apply IH; [lia|]. intros i Hi. apply (Hb (S i)). lia.
Qed.

Lemma string_get_app_r p s i : String.get (String.length p + i) (p +:+ s) = String.get i s.
Proof. induction p as [|c p IH]; [done|]. exact IH. Qed.

Lemma substring_prefix_split n s p :
  String.substring 0 n s = p → String.length p = n → ∃ rest, s = p +:+ rest.
Proof.
  revert s p. induction n as [|n IH]; intros s p Hs Hl.
  - destruct p; [|done]. by exists s.
  - destruct s as [|c s]; simpl in Hs; subst p; [done|]. simpl in Hl.
    destruct (IH s _ eq_refl) as [rest Hrest]; [lia|].
    exists rest. rewrite string_app_cons. by f_equal.
Qed.

(** The final test of the accumulated flag. *)
Lemma flag_answer {E} (d : N) (P : Prop) `{Decision P} (e : E) :
  (d = 0%N ↔ P) →
  (if bool_decide (d ≠ 0%N) then Some e else None) = (if decide P then None else Some e).
Proof.
  intros Hd. case_bool_decide as Hb; case_decide as He; try done.
  - exfalso. apply Hb, Hd, He.
  - exfalso. apply He, Hd. destruct (decide (d = 0%N)); [done|by destruct Hb].
Qed.

Lemma check_auth_spec (key header : string) :
  check_auth None header = None ∧
  check_auth (Some key) header =
    (if decide (header = "Bearer " +:+ key) then None
     else Some (auth_error "Invalid API key" (Some "invalid_api_key"))).
Proof.
  split; [done|]. cbn [check_auth]. cbv zeta.
  apply flag_answer.
  rewrite N_lor_eq_0, compare_loop_zero. split.
  - intros [[Hp Hj] Hl].
    assert (String.length header = String.length kBearerPrefix + String.length key) as Hlen.
    { clear Hp. by case_bool_decide as Hlen. }
    assert (String.substring 0 (String.length kBearerPrefix) header = kBearerPrefix) as Hpre.
    { clear Hl. apply dec_stable. intros Hne. rewrite (bool_decide_false _ Hne) in Hp.
      by rewrite orb_true_r in Hp. }
    destruct (substring_prefix_split _ _ _ Hpre eq_refl) as [rest ->].
    unfold kBearerPrefix. f_equal. rewrite string_length_app in Hlen.
    apply string_bytes_eq; [lia|]. intros i Hi. rewrite <-Hj by lia.
    unfold byte_or_ff. by rewrite string_get_app_r.
  - intros ->. fold kBearerPrefix. rewrite string_length_app, substring_app.
    rewrite bool_decide_false by lia. rewrite bool_decide_true by done.
    rewrite bool_decide_false by (intros Hn; by apply Hn).
    split; [|done]. split; [done|]. intros j Hj. unfold byte_or_ff.
    by rewrite string_get_app_r.
Qed.

(** C32: Without a configured key every request passes; with a key a request passes exactly when
    its header is "Bearer " followed by the key, byte for byte, and is otherwise answered with
    401 [invalid_api_key] - whatever the lengths, the empty key included. *)
Theorem check_auth_exact (key header : string) :
  check_auth None header = None ∧
  check_auth (Some key) header =
    (if decide (header = "Bearer " +:+ key) then None
     else Some (auth_error "Invalid API key" (Some "invalid_api_key"))).
Proof. apply check_auth_spec. Qed.
