(* ===== verification/Metrics.v ===== *)
(** * metrics.hpp, route_utils.hpp, route_utils.cpp: the counters

    Eight [std::atomic<uint64_t>] counters.  Every increment is one atomic step,
    so a call that increments several counters is a [prog] that other calls may
    interleave with. *)

From S2P Require Import Prelude Atomic ApiTypes.

Record ServerMetrics : Type := {
  requests_total_ : N;
  requests_errors_ : N;
  requests_cancelled_total_ : N;
  requests_queue_rejected_total_ : N;
  stream_disconnects_total_ : N;
  tool_invocations_total_ : N;
  tool_failures_total_ : N;
  tool_timeouts_total_ : N;
}.

Definition new_metrics : ServerMetrics :=
  {| requests_total_ := 0; requests_errors_ := 0; requests_cancelled_total_ := 0;
     requests_queue_rejected_total_ := 0; stream_disconnects_total_ := 0;
     tool_invocations_total_ := 0; tool_failures_total_ := 0; tool_timeouts_total_ := 0 |}.

Inductive Counter : Type :=
| Requests | Errors | Cancelled | QueueRejected | StreamDisconnects
| ToolInvocations | ToolFailures | ToolTimeouts.

#[export] Instance Counter_eq_dec : EqDecision Counter.
Proof. solve_decision. Defined.

(** The [load] of a counter. *)
Definition load (c : Counter) (m : ServerMetrics) : N :=
  match c with
  | Requests => requests_total_ m
  | Errors => requests_errors_ m
  | Cancelled => requests_cancelled_total_ m
  | QueueRejected => requests_queue_rejected_total_ m
  | StreamDisconnects => stream_disconnects_total_ m
  | ToolInvocations => tool_invocations_total_ m
  | ToolFailures => tool_failures_total_ m
  | ToolTimeouts => tool_timeouts_total_ m
  end.

(** [fetch_add(1)] on the counter [c]; the others are unchanged. *)
Definition bump (c : Counter) (m : ServerMetrics) : ServerMetrics :=
  let next c' := if decide (c = c') then u64_succ (load c' m) else load c' m in
  {| requests_total_ := next Requests; requests_errors_ := next Errors;
     requests_cancelled_total_ := next Cancelled;
     requests_queue_rejected_total_ := next QueueRejected;
     stream_disconnects_total_ := next StreamDisconnects;
     tool_invocations_total_ := next ToolInvocations;
     tool_failures_total_ := next ToolFailures; tool_timeouts_total_ := next ToolTimeouts |}.

(** [increment_requests], [increment_errors], ... *)
Definition increment (c : Counter) : prog ServerMetrics unit :=
  atomically (λ m, (bump c m, ())).

(** The wrapper [with_metrics] puts around a response callback. *)
Definition with_metrics (status_code : Z) : prog ServerMetrics unit :=
  do! _ := increment Requests in
  if bool_decide (400 ≤ status_code)%Z then increment Errors else Ret ().

Definition increment_runtime_error_metrics (error : RuntimeError) : prog ServerMetrics unit :=
  if decide (re_code error = RequestCancelled) then increment Cancelled
  else if decide (re_code error = QueueFull) then increment QueueRejected
  else Ret ().

Definition invocation_succeeded (i : ToolInvocationRecord) : bool :=
  match inv_status i with Succeeded => true | OtherStatus _ => false end.

Definition invocation_timed_out (i : ToolInvocationRecord) : bool :=
  match inv_error i with
  | Some e => bool_decide (re_context e = Some "timeout")
  | None => false
  end.

Fixpoint increment_tool_metrics (tool_invocations : list ToolInvocationRecord)
    : prog ServerMetrics unit :=
  match tool_invocations with
  | [] => Ret ()
  | i :: rest =>
      do! _ := increment ToolInvocations in
      if invocation_succeeded i then increment_tool_metrics rest
      else
        do! _ := increment ToolFailures in
        do! _ := (if invocation_timed_out i then increment ToolTimeouts else Ret ()) in
        increment_tool_metrics rest
  end.

(** The calls the rest of the server makes. *)
Inductive MetricsCall : Type :=
| Responded (status_code : Z)
| StreamDisconnected
| RuntimeFailed (error : RuntimeError)
| ToolsUsed (tool_invocations : list ToolInvocationRecord).

Definition metrics_call (c : MetricsCall) : prog ServerMetrics unit :=
  match c with
  | Responded s => with_metrics s
  | StreamDisconnected => increment StreamDisconnects
  | RuntimeFailed e => increment_runtime_error_metrics e
  | ToolsUsed l => increment_tool_metrics l
  end.

(** ** What a call is meant to count *)

Definition is_failure (i : ToolInvocationRecord) : bool := negb (invocation_succeeded i).

Definition is_timeout (i : ToolInvocationRecord) : bool := is_failure i && invocation_timed_out i.

Definition count_if {A} (f : A → bool) (l : list A) : nat := length (filter (λ a, f a = true) l).

(** The contribution of one call to one counter. *)
Definition contribution (c : Counter) (call : MetricsCall) : nat :=
  match c, call with
  | Requests, Responded _ => 1
  | Errors, Responded s => if bool_decide (400 ≤ s)%Z then 1 else 0
  | StreamDisconnects, StreamDisconnected => 1
  | Cancelled, RuntimeFailed e => if decide (re_code e = RequestCancelled) then 1 else 0
  | QueueRejected, RuntimeFailed e => if decide (re_code e = QueueFull) then 1 else 0
  | ToolInvocations, ToolsUsed l => length l
  | ToolFailures, ToolsUsed l => count_if is_failure l
  | ToolTimeouts, ToolsUsed l => count_if is_timeout l
  | _, _ => 0
  end.

(** ** Proofs *)

(** The program's remaining increments, in order, are [l]. *)
Fixpoint performs (l : list Counter) (p : prog ServerMetrics unit) {struct p} : Prop :=
  match p with
  | Ret _ => l = []
  | Atom sec k =>
      match l with
      | [] => False
      | c :: l => ∀ m, fst (sec m) = bump c m ∧ performs l (k (snd (sec m)))
      end
  end.

Lemma performs_increment c : performs [c] (increment c).
Proof. by intros m. Qed.

Lemma performs_bind l l' p f :
  performs l p → (∀ r, performs l' (f r)) → performs (l ++ l') (prog_bind p f).
Proof.
  intros Hp Hf. revert l Hp. induction p as [r|A sec k IH]; intros l Hp; cbn in *.
  - simpl in Hp. simplify_eq. apply Hf.
  - destruct l as [|c l]; [done|]. intros m. destruct (Hp m) as [Hb Hk]. split; [done|].
    by apply IH.
Qed.

Definition tool_increments (l : list ToolInvocationRecord) : list Counter :=
  l ≫= λ i, ToolInvocations ::
    (if invocation_succeeded i then []
     else ToolFailures :: (if invocation_timed_out i then [ToolTimeouts] else [])).

(** The increments of a call. *)
Definition increments (call : MetricsCall) : list Counter :=
  match call with
  | Responded s => Requests :: (if bool_decide (400 ≤ s)%Z then [Errors] else [])
  | StreamDisconnected => [StreamDisconnects]
  | RuntimeFailed e =>
      if decide (re_code e = RequestCancelled) then [Cancelled]
      else if decide (re_code e = QueueFull) then [QueueRejected] else []
  | ToolsUsed l => tool_increments l
  end.

Lemma performs_tool_metrics l : performs (tool_increments l) (increment_tool_metrics l).
Proof.
  induction l as [|i l IH]; [done|]. cbn [increment_tool_metrics].
  unfold tool_increments. rewrite bind_cons. fold (tool_increments l).
  destruct (invocation_succeeded i).
  - apply (performs_bind [ToolInvocations]); auto using performs_increment.
  - apply (performs_bind [ToolInvocations] (_ :: _)); [apply performs_increment|]. intros _.
    apply (performs_bind [ToolFailures] (_ ++ _)); [apply performs_increment|]. intros _.
    apply performs_bind; [|done]. by destruct (invocation_timed_out i).
Qed.

Lemma performs_call call : performs (increments call) (metrics_call call).
Proof.
  destruct call as [s| |e|l]; cbn [increments metrics_call]; auto using performs_tool_metrics.
  - unfold with_metrics. apply (performs_bind [Requests]); [apply performs_increment|]. intros _.
    case_bool_decide; [apply performs_increment|done].
  - apply performs_increment.
  - unfold increment_runtime_error_metrics. repeat case_decide; auto using performs_increment; done.
Qed.

Definition count (c : Counter) (l : list Counter) : nat := count_if (λ c', bool_decide (c = c')) l.

Lemma count_if_cons {A} (f : A → bool) a l :
  count_if f (a :: l) = (if f a then 1 else 0) + count_if f l.
Proof. unfold count_if. rewrite filter_cons. destruct (f a) eqn:Ha; case_decide; naive_solver. Qed.

Lemma count_if_app {A} (f : A → bool) l l' : count_if f (l ++ l') = count_if f l + count_if f l'.
Proof. unfold count_if. by rewrite filter_app, length_app. Qed.

Lemma load_bump c c' m :
  load c' (bump c m) = if decide (c = c') then u64_succ (load c' m) else load c' m.
Proof. by destruct c'. Qed.

(** The increments still to come, over all calls in flight. *)
Definition pending (c : Counter) (ls : list (list Counter)) : nat := count c (concat ls).

Lemma pending_insert c ls i c0 l :
  ls !! i = Some (c0 :: l) →
  pending c ls = (if decide (c = c0) then 1 else 0) + pending c (<[i := l]> ls).
Proof.
  unfold pending, count. revert i. induction ls as [|l0 ls IH]; intros [|i] Hi; simplify_eq/=.
  - rewrite count_if_cons. by case_decide; case_bool_decide.
  - rewrite !count_if_app, (IH _ Hi). lia.
Qed.

(** Every counter holds a 64-bit value. *)
Definition counters_fit (m : ServerMetrics) : Prop := ∀ c, (load c m < u64_mod)%N.

Lemma bump_fits c m : counters_fit m → counters_fit (bump c m).
Proof.
  intros Hm c'. rewrite load_bump. case_decide; [|apply Hm]. by apply N.mod_lt.
Qed.

(** One section of one call: its first pending increment is applied. *)
Lemma pool_step_pending m ps m' ps' ls :
  pool_step (λ _, False) (m, ps) (m', ps') → Forall2 performs ls ps →
  ∃ ls', Forall2 performs ls' ps' ∧ (counters_fit m → counters_fit m') ∧
    ∀ c, ((load c m' + N.of_nat (pending c ls')) mod u64_mod =
          (load c m + N.of_nat (pending c ls)) mod u64_mod)%N.
Proof.
  intros Hstep Hall. inversion Hstep as [|s ps1 i A sec k Hi]; simplify_eq; [done|].
  destruct (Forall2_lookup_r _ _ _ _ _ Hall Hi) as (l & Hl & Hp). cbn in Hp.
  destruct l as [|c0 l]; [done|]. destruct (Hp m) as [Hm Hk].
  exists (<[i := l]> ls). split; [by apply Forall2_insert|].
  split; [rewrite Hm; apply bump_fits|].
  intros c. rewrite Hm, load_bump, (pending_insert c _ _ _ _ Hl).
  repeat case_decide; simplify_eq; [|done].
  unfold u64_succ. rewrite N.Div0.add_mod_idemp_l. f_equal. lia.
Qed.

Lemma pool_steps_pending c0 c1 ls :
  pool_steps (λ _, False) c0 c1 → Forall2 performs ls (snd c0) →
  ∃ ls', Forall2 performs ls' (snd c1) ∧ (counters_fit (fst c0) → counters_fit (fst c1)) ∧
    ∀ c, ((load c (fst c1) + N.of_nat (pending c ls')) mod u64_mod =
          (load c (fst c0) + N.of_nat (pending c ls)) mod u64_mod)%N.
Proof.
  intros Hsteps. revert ls. induction Hsteps as [c0|[m0 ps0] [m1 ps1] c2 Hstep _ IH]; intros ls Hall.
  { by exists ls. }
  destruct (pool_step_pending _ _ _ _ _ Hstep Hall) as (ls1 & Hall1 & Hf1 & H1).
  destruct (IH _ Hall1) as (ls2 & Hall2 & Hf2 & H2).
  exists ls2. split; [done|]. split; [auto|]. intros c. by rewrite H2, <-H1.
Qed.

Lemma performs_finished ls ps : Forall2 performs ls ps → Forall (λ p, p = Ret ()) ps →
  ∀ c, pending c ls = 0.
Proof.
  induction 1 as [|l p ls ps Hp _ IH]; intros Hps c; [done|].
  inversion Hps as [|?? -> Hps']; simplify_eq. cbn in Hp. subst l. by apply IH.
Qed.

Lemma count_tool_increments c l :
  count c (tool_increments l) = contribution c (ToolsUsed l).
Proof.
  induction l as [|i l IH]; [by destruct c|].
  unfold tool_increments. rewrite bind_cons. fold (tool_increments l).
  unfold count in *. rewrite count_if_app, IH.
  destruct c; cbn -[count_if]; rewrite ?count_if_cons; unfold is_timeout, is_failure;
    destruct (invocation_succeeded i), (invocation_timed_out i); done.
Qed.

Lemma count_increments c call : count c (increments call) = contribution c call.
Proof.
  destruct call as [s| |e|l]; [| | |apply count_tool_increments];
    destruct c; cbn; repeat case_bool_decide; repeat case_decide; try done; congruence.
Qed.

Lemma pending_calls c calls :
  pending c (increments <$> calls) = sum_list_with (contribution c) calls.
Proof.
  unfold pending, count. induction calls as [|call calls IH]; [done|].
  cbn -[count_if]. rewrite count_if_app, IH. f_equal. apply count_increments.
Qed.

(** C33: No count is lost or made twice, however the calls interleave: when any set of metrics
    calls has run to its end from a state, each counter has grown by exactly what those calls
    contribute - one request per response, one error per status of 400 or more, one cancellation
    or queue rejection per runtime error of that code, and per list of tool invocations its
    length, its failures and the failures whose error context is "timeout" - modulo 2^64. *)
Theorem metrics_exact_under_interleaving (calls : list MetricsCall) m m' ps' :
  pool_steps (λ _, False) (m, metrics_call <$> calls) (m', ps') →
  Forall (λ p, p = Ret ()) ps' →
  counters_fit m →
  ∀ c, load c m' =
    ((load c m + N.of_nat (sum_list_with (contribution c) calls)) mod u64_mod)%N.
Proof.
  intros Hsteps Hdone Hm c.
  destruct (pool_steps_pending _ _ (increments <$> calls) Hsteps) as (ls' & Hall & Hfit & Hload).
  { cbn. apply Forall2_fmap. apply Forall_Forall2_diag, Forall_true. auto using performs_call. }
  specialize (Hload c). cbn in Hload, Hfit.
  rewrite (performs_finished _ _ Hall Hdone), pending_calls, N.add_0_r in Hload.
  rewrite <-Hload. symmetry. by apply N.mod_small, Hfit.
Qed.

Module Witness.
Definition timed_out : ToolInvocationRecord :=
  {| inv_id := "c1"; inv_name := "sleep"; inv_arguments_json := "{}"; inv_status := OtherStatus 2;
     inv_result_json := None;
     inv_error := Some {| re_code := ToolExecutionFailed; re_message := "late";
                          re_context := Some "timeout" |} |}.

Definition calls : list MetricsCall := [Responded 503; ToolsUsed [timed_out]].

Definition final : ServerMetrics :=
  bump ToolTimeouts (bump Errors (bump ToolFailures (bump ToolInvocations (bump Requests new_metrics)))).

Lemma schedule : pool_steps (λ _, False) (new_metrics, metrics_call <$> calls) (final, [Ret (); Ret ()]).
Proof.
  eapply rtc_l; [by apply (pool_section _ _ _ 0)|]. cbn.
  eapply rtc_l; [by apply (pool_section _ _ _ 1)|]. cbn.
  eapply rtc_l; [by apply (pool_section _ _ _ 1)|]. cbn.
  eapply rtc_l; [by apply (pool_section _ _ _ 0)|]. cbn.
  eapply rtc_l; [by apply (pool_section _ _ _ 1)|]. cbn. apply rtc_refl.
Qed.

Lemma metrics_exact_under_interleaving_witness :
  load ToolTimeouts final = 1%N ∧ load Errors final = 1%N.
Proof.
  split.
  - rewrite (metrics_exact_under_interleaving calls new_metrics final [Ret (); Ret ()] schedule);
      [reflexivity|by repeat constructor|by intros []].
  - reflexivity.
Defined.
End Witness.
