(* ===== verification/Json.v ===== *)
(** * JSON values

    [nlohmann::json] is a library: this file gives the value type the server
    inspects and builds (an object is a map ordered by key, a number an integer
    or a binary64), the members it calls on a value ([contains], [find], the
    [is_...] tests, [get]), and the class [JsonLib] of the two functions that
    are only used as black boxes, [parse] and [dump]. *)

From S2P Require Import Prelude ApiTypes.

Inductive json : Type :=
| JNull
| JBoolean (b : bool)
| JInteger (z : Z)              (* number_integer, number_unsigned *)
| JFloat (d : double)           (* number_float *)
| JString (s : string)
| JArray (elements : list json)
| JObject (entries : list (string * json)).

(** [nlohmann::json::parse] throws with a text, [dump] throws on a string that
    is not UTF-8. *)
Class JsonLib : Type := {
  json_parse : string → expected string json;
  json_dump : json → expected string string;
}.

(** ** Type tests *)

Definition is_object (j : json) : bool := match j with JObject _ => true | _ => false end.
Definition is_array (j : json) : bool := match j with JArray _ => true | _ => false end.
Definition is_string (j : json) : bool := match j with JString _ => true | _ => false end.
Definition is_boolean (j : json) : bool := match j with JBoolean _ => true | _ => false end.
Definition is_number_integer (j : json) : bool := match j with JInteger _ => true | _ => false end.
Definition is_number (j : json) : bool :=
  match j with JInteger _ | JFloat _ => true | _ => false end.

(** ** Access *)

Fixpoint assoc_find (k : string) (l : list (string * json)) : option json :=
  match l with
  | [] => None
  | (k', v) :: l => if decide (k = k') then Some v else assoc_find k l
  end.

(** [json.find(k)]: [end()] on a missing key and on a value that is not an object. *)
Definition jfind (k : string) (j : json) : option json :=
  match j with JObject l => assoc_find k l | _ => None end.

Definition jcontains (k : string) (j : json) : bool := is_some (jfind k j).

Definition jkeys (j : json) : list string :=
  match j with JObject l => l.*1 | _ => [] end.

Definition as_string (j : json) : option string := match j with JString s => Some s | _ => None end.
Definition as_array (j : json) : option (list json) := match j with JArray l => Some l | _ => None end.
Definition as_boolean (j : json) : option bool := match j with JBoolean b => Some b | _ => None end.
Definition as_object (j : json) : option json := match j with JObject _ => Some j | _ => None end.

(** [static_cast<float>]: rounding to binary32, from a binary64 and from an integer. *)
Definition round32 (d : double) : spec_float :=
  match d with
  | S754_finite s m e => binary_round 24 128 s m e
  | _ => d
  end.

Definition round32_Z (z : Z) : spec_float :=
  match z with
  | Z0 => S754_zero false
  | Zpos p => binary_round 24 128 false p 0
  | Zneg p => binary_round 24 128 true p 0
  end.

(** [is_number()] then [get<float>()]. *)
Definition as_float (j : json) : option spec_float :=
  match j with
  | JFloat d => Some (round32 d)
  | JInteger z => Some (round32_Z z)
  | _ => None
  end.

(** [is_number_integer()] then [get<int>()]: a [static_cast] that keeps the low
    32 bits. *)
Definition as_int (j : json) : option Z :=
  match j with JInteger z => Some (to_int32 z) | _ => None end.

(** ** Construction *)

(** [std::map]'s order on keys. *)
Fixpoint obj_set (k : string) (v : json) (l : list (string * json)) : list (string * json) :=
  match l with
  | [] => [(k, v)]
  | (k', v') :: l' =>
      match String.compare k k' with
      | Lt => (k, v) :: l
      | Eq => (k, v) :: l'
      | Gt => (k', v') :: obj_set k v l'
      end
  end.

(** A braced list of key/value pairs. *)
Definition jobject (l : list (string * json)) : json :=
  JObject (foldl (λ acc kv, obj_set (fst kv) (snd kv) acc) [] l).

(** [j[k] = v] on an object. *)
Definition jset (k : string) (v : json) (j : json) : json :=
  match j with JObject l => JObject (obj_set k v l) | _ => j end.

Definition jopt {A} (k : string) (f : A → json) (o : option A) : list (string * json) :=
  match o with Some a => [(k, f a)] | None => [] end.

(** ** Lemmas *)

Lemma string_compare_refl a : String.compare a a = Eq.
Proof.
  induction a as [|c a IH]; [done|]. simpl. unfold Ascii.compare. by rewrite N.compare_refl.
Qed.

Lemma string_compare_eq a b : String.compare a b = Eq ↔ a = b.
Proof. split; [apply String.compare_eq_iff|]. intros ->. apply string_compare_refl. Qed.

Lemma assoc_find_obj_set k k' v l :
  assoc_find k (obj_set k' v l) = if decide (k = k') then Some v else assoc_find k l.
Proof.
  induction l as [|[k1 v1] l IH]; simpl; [by case_decide|].
  destruct (String.compare k' k1) eqn:Hc; simpl.
  - apply string_compare_eq in Hc as ->. by repeat case_decide.
  - done.
  - rewrite IH. repeat case_decide; simplify_eq; try done.
    by rewrite (proj2 (string_compare_eq k1 k1)) in Hc.
Qed.

Lemma jfind_jset k k' v j :
  is_object j = true → jfind k (jset k' v j) = if decide (k = k') then Some v else jfind k j.
Proof. destruct j; try done. intros _. apply assoc_find_obj_set. Qed.

Lemma jfind_jobject_snoc k k' v l :
  jfind k (jobject (l ++ [(k', v)])) = if decide (k = k') then Some v else jfind k (jobject l).
Proof. unfold jobject. rewrite foldl_app. apply assoc_find_obj_set. Qed.

(** Looking a key up in a braced list with distinct keys. *)
Lemma jfind_jobject k l : NoDup l.*1 → jfind k (jobject l) = assoc_find k l.
Proof.
  induction l as [|[k' v] l IH] using rev_ind; intros Hnd; [done|].
  rewrite jfind_jobject_snoc. rewrite fmap_app in Hnd. apply NoDup_app in Hnd as (Hl & Hd & _).
  rewrite IH by done.
  assert (∀ l', k' ∉ l'.*1 → k = k' → assoc_find k (l' ++ [(k', v)]) = Some v) as Hlast.
  { induction l' as [|[k1 v1] l' IHl]; simpl; intros Hn ->; [by rewrite decide_True|].
    rewrite decide_False by set_solver. apply IHl; [set_solver|done]. }
  assert (∀ l', k ≠ k' → assoc_find k (l' ++ [(k', v)]) = assoc_find k l') as Hother.
  { intros l' Hne. induction l' as [|[k1 v1] l' IHl]; simpl; [by rewrite decide_False|].
    by rewrite IHl. }
  case_decide; [|by rewrite Hother]. symmetry. apply Hlast; [|done].
  intros Hin. apply (Hd k'); [done|]. set_solver.
Qed.

Lemma jkeys_obj_set k v l x : x ∈ (obj_set k v l).*1 ↔ x = k ∨ x ∈ l.*1.
Proof.
  induction l as [|[k' v'] l IH]; simpl; [set_solver|].
  destruct (String.compare k k') eqn:Hc; simpl; [|set_solver|set_solver].
  apply string_compare_eq in Hc as ->. set_solver.
Qed.

Lemma jkeys_jobject l x : x ∈ jkeys (jobject l) ↔ x ∈ l.*1.
Proof.
  unfold jobject. simpl. induction l as [|[k v] l IH] using rev_ind; [done|].
  rewrite foldl_app. simpl. rewrite jkeys_obj_set, IH, fmap_app. set_solver.
Qed.
