(* ===== verification/ErrorReference.v ===== *)
(** * docs/error-reference.md, as tables

    The errors a client may meet, as the reference of the repository lists them:
    [with_code] is its tables, [without_code] its list of the refusals that carry
    no code.  What the code answers beyond it is here too: [unlisted] are refusals
    without a code that the list does not have, and [one_user_message_error] is the
    one the list has and the code answers otherwise.  The theorems that the server
    stays within these tables are in ApiJsonProofs.v and Replies.v. *)

From S2P Require Import Prelude ApiTypes.

#[export] Instance ApiError_eq_dec : EqDecision ApiError.
Proof. solve_decision. Defined.

(** A status, its type, its codes. *)
Definition with_code : list (Z * (string * list string)) :=
  [(400%Z, ("invalid_request_error",
     ["unknown_field"; "invalid_role"; "invalid_message_sequence"; "invalid_config"; "invalid_output_schema";
      "context_window_exceeded"; "tool_not_found"; "invalid_model"; "invalid_model_identifier";
      "sessions_disabled"]));
   (401%Z, ("auth_error", ["invalid_api_key"]));
   (404%Z, ("not_found_error", ["session_not_found"; "request_not_found"; "model_not_found"]));
   (409%Z, ("conflict_error", ["session_busy"; "model_already_exists"]));
   (500%Z, ("server_error",
     ["model_load_failed"; "context_creation_failed"; "inference_failed"; "tokenization_failed";
      "template_render_failed"; "request_timeout"; "tool_execution_failed"; "tool_retries_exhausted";
      "extraction_failed"; "hub_error"; "model_download_failed"; "runtime_error"]));
   (503%Z, ("service_unavailable_error",
     ["not_ready"; "agent_not_ready"; "queue_full"; "server_busy"; "session_capacity_reached"]))].

(** The text of an error, or how it begins. *)
Inductive Wording : Type := Exactly (text : string) | Begins (text : string).

Fixpoint begins (text m : string) : bool :=
  match text, m with
  | EmptyString, _ => true
  | String c text, String d m => bool_decide (c = d) && begins text m
  | String _ _, EmptyString => false
  end.

Definition worded (m : string) (w : Wording) : bool :=
  match w with Exactly text => bool_decide (m = text) | Begins text => begins text m end.

(** A line of the list: the refused case, the [param], the texts. *)
Record Refusal : Type := { case_ : string; on_param : string; wordings : list Wording }.

Definition lists (e : ApiError) (r : Refusal) : bool :=
  bool_decide (param e = Some (on_param r)) && existsb (worded (message e)) (wordings r).

(** "These validation errors set [param] but not [code]", in the order of the reference;
    its last line is [one_user_message_line]. *)
Definition one_user_message_line : Refusal :=
  {| case_ := "Session-backed chat or extraction requests contain more than one new user message.";
     on_param := "messages"; wordings := [Exactly "Session chat requests must contain exactly one user message"] |}.

Definition without_code : list Refusal :=
  [{| case_ := "Request body is not valid JSON."; on_param := "body"; wordings := [Begins "Invalid JSON body: "] |};
   {| case_ := "model is missing, not a string, or empty."; on_param := "model";
      wordings := [Exactly "model must be a string"; Exactly "model must not be empty"] |};
   {| case_ := "messages is missing, not an array, or empty."; on_param := "messages";
      wordings := [Exactly "messages must be an array"; Exactly "messages must contain at least one item"] |};
   {| case_ := "schema is missing or not an object on extraction requests."; on_param := "schema";
      wordings := [Exactly "schema must be an object"] |};
   {| case_ := "message is missing or not an object on retained-agent chat/history append requests.";
      on_param := "message"; wordings := [Exactly "message must be an object"] |};
   {| case_ := "stream is present but not a boolean."; on_param := "stream";
      wordings := [Exactly "stream must be a boolean"] |};
   {| case_ := "session_id is present but not a string, or is empty."; on_param := "session_id";
      wordings := [Exactly "session_id must be a string"; Exactly "session_id must not be empty"] |};
   {| case_ := "system_prompt is present but not a string."; on_param := "system_prompt";
      wordings := [Exactly "system_prompt must be a string"] |};
   {| case_ := "message.role or message.content is missing or not a string."; on_param := "messages";
      wordings := [Exactly "message.role must be a string"; Exactly "message.content must be a string"] |};
   {| case_ := "tool_call_id is required on tool messages but missing or not a string."; on_param := "messages";
      wordings := [Exactly "tool messages must include a string tool_call_id"] |};
   {| case_ := "tool_calls is present on a non-assistant message, is not an array, or contains malformed function-call entries.";
      on_param := "messages.tool_calls";
      wordings := [Exactly "tool_calls is only valid for assistant messages"; Exactly "tool_calls must be an array";
                   Exactly "tool_call.id must be a string"; Exactly "tool_call.type must be a string";
                   Exactly "tool_call.type must be function"; Exactly "tool_call.function must be an object";
                   Exactly "tool_call.function.name must be a string";
                   Exactly "tool_call.function.arguments must be a string"] |};
   one_user_message_line].

(** Refusals without a code that the reference does not list: a [tool_call_id] on another
    message, and the overrides of the wrong type. *)
Definition unlisted : list Refusal :=
  [{| case_ := "tool_call_id on a message that is not a tool message"; on_param := "messages";
      wordings := [Exactly "tool_call_id is only valid for tool messages"] |};
   {| case_ := "temperature"; on_param := "temperature"; wordings := [Exactly "temperature must be a number"] |};
   {| case_ := "top_p"; on_param := "top_p"; wordings := [Exactly "top_p must be a number"] |};
   {| case_ := "top_k"; on_param := "top_k"; wordings := [Exactly "top_k must be an integer"] |};
   {| case_ := "repeat_penalty"; on_param := "repeat_penalty";
      wordings := [Exactly "repeat_penalty must be a number"] |};
   {| case_ := "repeat_last_n"; on_param := "repeat_last_n";
      wordings := [Exactly "repeat_last_n must be an integer"] |};
   {| case_ := "max_tokens"; on_param := "max_tokens"; wordings := [Exactly "max_tokens must be an integer"] |};
   {| case_ := "seed"; on_param := "seed"; wordings := [Exactly "seed must be an integer"] |};
   {| case_ := "stop"; on_param := "stop";
      wordings := [Exactly "stop must be an array of strings"; Exactly "each stop entry must be a string"] |};
   {| case_ := "record_tool_trace"; on_param := "record_tool_trace";
      wordings := [Exactly "record_tool_trace must be a boolean"] |}].

(** The errors whose text is zoo-keeper's own, passed on under these codes. *)
Definition passed_on (e : ApiError) : bool :=
  bool_decide (code e ∈ [Some "invalid_message_sequence"; Some "context_window_exceeded"]) &&
  bool_decide (param e ∈ [Some "messages"; Some "message"]).

(** As the reference has it: the status, the type and the code of a table, and not a case of
    the list without codes; or a case of that list, with its [param] and no code. *)
Definition as_documented (e : ApiError) : bool :=
  match code e with
  | Some c =>
      existsb (λ row, bool_decide (row.1 = http_status e) && bool_decide (row.2.1 = type e) &&
                      bool_decide (c ∈ row.2.2)) with_code &&
      (passed_on e || negb (existsb (lists e) without_code))
  | None =>
      bool_decide (http_status e = 400%Z) && bool_decide (type e = "invalid_request_error") &&
      existsb (lists e) without_code
  end.

(** Beyond the reference: a case of [unlisted], a 400 without a code. *)
Definition beyond_reference (e : ApiError) : bool :=
  bool_decide (http_status e = 400%Z) && bool_decide (type e = "invalid_request_error") &&
  bool_decide (code e = None) && existsb (lists e) unlisted.

(** Against the reference: the last line of the list, sent with a code. *)
Definition one_user_message_error : ApiError :=
  invalid_request_error "Session chat requests must contain exactly one user message"
    (Some "messages") (Some "invalid_message_sequence").

(** The errors a client can meet: as documented, the last line apart; beyond it; and that line. *)
Definition known_error (e : ApiError) : Prop :=
  (as_documented e = true ∧ e ≠ one_user_message_error) ∨ beyond_reference e = true ∨
  e = one_user_message_error.

(** The last line is listed without a code, so the error the code answers there is not as
    documented: it only passes as an error of zoo-keeper's with the same text. *)
Lemma one_user_message_contradicts :
  lists one_user_message_error one_user_message_line = true ∧ one_user_message_line ∈ without_code ∧
  is_Some (code one_user_message_error).
Proof. split; [done|]. split; [|by eexists]. unfold without_code. repeat first [left|right]. Qed.

Lemma known_documented e : as_documented e = true → known_error e.
Proof. intros He. destruct (decide (e = one_user_message_error)); [by right; right|by left]. Qed.

Lemma known_beyond e : beyond_reference e = true → known_error e.
Proof. intros He. by right; left. Qed.

Create HintDb reference.
#[export] Hint Resolve known_documented known_beyond : reference.

(** Decide a case whose wording is a literal, or a literal with something after it. *)
Ltac in_reference :=
  first [apply known_documented; vm_compute; reflexivity | apply known_beyond; vm_compute; reflexivity].
