(* ===== verification/ApiJson.v ===== *)
(** * api_json.cpp: request parsing, response bodies, error mapping

    Every parser is a function from the body's text to [ApiResult]; the checks
    are in the source's order, so the first failing one gives the error. *)

From S2P Require Import Prelude ApiTypes Json.

(** ** Types of api_types.hpp that hold JSON *)

Record ToolDefinition : Type := {
  td_name : string;
  td_description : string;
  td_parameters_schema : json;
}.

Record ExtractionRequest : Type := {
  er_model : string;
  er_schema : json;
  er_messages : list ChatMessage;
  er_stream : bool;
  er_session_id : option string;
  er_overrides : GenerationOverrides;
}.

Record ExtractionResult : Type := {
  ex_text : string;
  ex_data : json;
  ex_usage : CompletionUsage;
  ex_metrics : CompletionMetrics;
  ex_tool_invocations : list ToolInvocationRecord;
}.

(** [ExtractionState], [ExtractionHandle]: the same over another result, with its
    own words in the errors. *)
Definition ExtractionState : Type := CompletionState ExtractionResult.
Definition ExtractionHandle : Type := CompletionHandle ExtractionResult.

Definition extraction_wait_for (h : ExtractionHandle) : FutureStatus := wait_for h.

Definition extraction_get (h : ExtractionHandle) : ExtractionHandle * GetOutcome ExtractionResult :=
  get "Extraction" h.

Definition make_extraction_handle (id : N) (f : option (RuntimeResult ExtractionResult)) : ExtractionHandle :=
  make_completion_handle id f.

(** ** Unknown keys *)

(** [reject_unknown_keys] of internal_utils.hpp: the first key, in the object's
    order, that is not allowed. *)
Definition reject_unknown_keys (j : json) (context : string) (allowed_keys : list string)
    : Result unit :=
  if negb (is_object j) then Unexpected (context +:+ " must be a JSON object")
  else
    match find (λ k, negb (bool_decide (k ∈ allowed_keys))) (jkeys j) with
    | Some k => Unexpected ("Unknown " +:+ context +:+ " key: " +:+ k)
    | None => Value ()
    end.

Definition bad_request (m p : string) : ApiError := invalid_request_error m (Some p) None.

Definition reject_api_unknown_keys (j : json) (context : string) (allowed_keys : list string)
    : ApiResult unit :=
  match reject_unknown_keys j context allowed_keys with
  | Unexpected e => Unexpected (invalid_request_error e (Some context) (Some "unknown_field"))
  | Value _ => Value ()
  end.

(** The recurring test [!json.contains(k) || !json.at(k).is_...()] with its
    error, and the value's [get]. *)
Definition require {A} (k : string) (get : json → option A) (j : json) (e : ApiError) : ApiResult A :=
  match jfind k j with
  | Some v => match get v with Some a => Value a | None => Unexpected e end
  | None => Unexpected e
  end.

(** The recurring [if (auto it = json.find(k); it != json.end())] with a type test. *)
Definition optional {A} (k : string) (get : json → option A) (j : json) (e : ApiError)
    : ApiResult (option A) :=
  match jfind k j with
  | Some v => match get v with Some a => Value (Some a) | None => Unexpected e end
  | None => Value None
  end.

(** ** Messages *)

Definition parse_role (role : string) : ApiResult MessageRole :=
  if decide (role = "system") then Value System
  else if decide (role = "user") then Value User
  else if decide (role = "assistant") then Value Assistant
  else if decide (role = "tool") then Value Tool
  else Unexpected (invalid_request_error ("Unsupported message role: " +:+ role)
                     (Some "messages") (Some "invalid_role")).

Definition parse_tool_call (j : json) : ApiResult OwnedToolCall :=
  let bad m := bad_request m "messages.tool_calls" in
  try! _ := reject_api_unknown_keys j "tool_call" ["id"; "type"; "function"] in
  try! id := require "id" as_string j (bad "tool_call.id must be a string") in
  try! type := require "type" as_string j (bad "tool_call.type must be a string") in
  fail_if negb (bool_decide (type = "function")) with bad "tool_call.type must be function" ;;
  try! function := require "function" as_object j (bad "tool_call.function must be an object") in
  try! _ := reject_api_unknown_keys function "tool_call.function" ["name"; "arguments"] in
  try! name := require "name" as_string function (bad "tool_call.function.name must be a string") in
  try! arguments := require "arguments" as_string function
                      (bad "tool_call.function.arguments must be a string") in
  Value {| tc_id := id; tc_name := name; tc_arguments_json := arguments |}.

Fixpoint parse_tool_calls (items : list json) : ApiResult (list OwnedToolCall) :=
  match items with
  | [] => Value []
  | item :: items =>
      try! c := parse_tool_call item in
      try! cs := parse_tool_calls items in
      Value (c :: cs)
  end.

Section Parsing.
Context `{ZooCore}.

(** The message [parse_message] builds once the role and the content are known. *)
Definition build_message (j : json) (role : MessageRole) (content : string)
    : ApiResult ChatMessage :=
  let tool_calls_misplaced :=
    bad_request "tool_calls is only valid for assistant messages" "messages.tool_calls" in
  if decide (role = Tool) then
    fail_if jcontains "tool_calls" j with tool_calls_misplaced ;;
    try! id := require "tool_call_id" as_string j
                 (bad_request "tool messages must include a string tool_call_id" "messages") in
    Value (msg_tool content id)
  else
    fail_if jcontains "tool_call_id" j with
      bad_request "tool_call_id is only valid for tool messages" "messages" ;;
    match jfind "tool_calls" j with
    | Some calls =>
        fail_if negb (bool_decide (role = Assistant)) with tool_calls_misplaced ;;
        match as_array calls with
        | None => Unexpected (bad_request "tool_calls must be an array" "messages.tool_calls")
        | Some items =>
            try! tool_calls := parse_tool_calls items in
            Value (msg_assistant_with_tool_calls content tool_calls)
        end
    | None => Value {| role := role; content := content; tool_call_id := ""; tool_calls := [] |}
    end.

(** [parse_message]: the message, and [seed] with it appended. *)
Definition parse_message (j : json) (seed : list ChatMessage)
    : ApiResult (ChatMessage * list ChatMessage) :=
  try! _ := reject_api_unknown_keys j "message" ["role"; "content"; "tool_call_id"; "tool_calls"] in
  try! role_text := require "role" as_string j (bad_request "message.role must be a string" "messages") in
  try! content := require "content" as_string j
                    (bad_request "message.content must be a string" "messages") in
  try! r := parse_role role_text in
  try! m := build_message j r content in
  match validate_message_sequence seed (role m) with
  | Unexpected e =>
      Unexpected (invalid_request_error e (Some "messages") (Some "invalid_message_sequence"))
  | Value _ => Value (m, seed ++ [m])
  end.

(** The loop over the [messages] array. *)
Fixpoint parse_messages (items : list json) (seed : list ChatMessage) : ApiResult (list ChatMessage) :=
  match items with
  | [] => Value seed
  | item :: items =>
      try! (_, seed) := parse_message item seed in parse_messages items seed
  end.

Definition parse_single_message_field (j : json) (field context : string) : ApiResult ChatMessage :=
  try! v := require field as_object j (bad_request (field +:+ " must be an object") context) in
  try! (m, _) := parse_message v [] in Value m.

(** ** Generation overrides *)

Fixpoint parse_stop (entries : list json) : ApiResult (list string) :=
  match entries with
  | [] => Value []
  | e :: entries =>
      match as_string e with
      | None => Unexpected (bad_request "each stop entry must be a string" "stop")
      | Some s => try! rest := parse_stop entries in Value (s :: rest)
      end
  end.

Definition parse_generation_overrides (j : json) : ApiResult GenerationOverrides :=
  let number k := optional k as_float j (bad_request (k +:+ " must be a number") k) in
  let integer k := optional k as_int j (bad_request (k +:+ " must be an integer") k) in
  try! temperature := number "temperature" in
  try! top_p := number "top_p" in
  try! top_k := integer "top_k" in
  try! repeat_penalty := number "repeat_penalty" in
  try! repeat_last_n := integer "repeat_last_n" in
  try! max_tokens := integer "max_tokens" in
  try! seed := integer "seed" in
  try! stop_entries := optional "stop" as_array j (bad_request "stop must be an array of strings" "stop") in
  try! stop := (match stop_entries with
                | None => Value None
                | Some entries => try! l := parse_stop entries in Value (Some l)
                end) in
  try! record_tool_trace := optional "record_tool_trace" as_boolean j
         (bad_request "record_tool_trace must be a boolean" "record_tool_trace") in
  Value {| ov_temperature := temperature; ov_top_p := top_p; ov_top_k := top_k;
           ov_repeat_penalty := repeat_penalty; ov_repeat_last_n := repeat_last_n;
           ov_max_tokens := max_tokens; ov_seed := seed; ov_stop := stop;
           ov_record_tool_trace := record_tool_trace |}.

(** ** Request bodies *)

Context `{JsonLib}.

Definition parse_body (body : string) : ApiResult json :=
  match json_parse body with
  | Value j => Value j
  | Unexpected what => Unexpected (bad_request ("Invalid JSON body: " +:+ what) "body")
  end.

Definition override_keys : list string :=
  ["temperature"; "top_p"; "top_k"; "repeat_penalty"; "repeat_last_n"; "max_tokens"; "seed";
   "stop"; "record_tool_trace"].

(** [model]: a string, checked for emptiness by the caller. *)
Definition require_model (j : json) : ApiResult string :=
  require "model" as_string j (bad_request "model must be a string" "model").

Definition model_empty : ApiError := bad_request "model must not be empty" "model".

Definition require_messages (j : json) : ApiResult (list json) :=
  require "messages" as_array j (bad_request "messages must be an array" "messages").

(** [stream], [session_id], the overrides and the messages: the common part of
    the chat and extraction parsers. *)
Definition parse_conversation (j : json) (messages_json : list json)
    : ApiResult (bool * option string * GenerationOverrides * list ChatMessage) :=
  try! stream := optional "stream" as_boolean j (bad_request "stream must be a boolean" "stream") in
  try! session_id := optional "session_id" as_string j
                       (bad_request "session_id must be a string" "session_id") in
  fail_if bool_decide (session_id = Some "") with
    bad_request "session_id must not be empty" "session_id" ;;
  try! overrides := parse_generation_overrides j in
  fail_if bool_decide (messages_json = []) with
    bad_request "messages must contain at least one item" "messages" ;;
  try! messages := parse_messages messages_json [] in
  Value (default false stream, session_id, overrides, messages).

Definition parse_chat_completion_request (body : string) : ApiResult ChatCompletionRequest :=
  try! j := parse_body body in
  try! _ := reject_api_unknown_keys j "request"
              (["model"; "messages"; "stream"; "session_id"] ++ override_keys) in
  try! model := require_model j in
  try! messages_json := require_messages j in
  fail_if bool_decide (model = "") with model_empty ;;
  try! (stream, session_id, overrides, messages) := parse_conversation j messages_json in
  Value {| ccr_model := model; ccr_messages := messages; ccr_stream := stream;
           ccr_session_id := session_id; ccr_overrides := overrides |}.

Definition parse_session_create_request (body : string) : ApiResult SessionCreateRequest :=
  try! j := parse_body body in
  try! _ := reject_api_unknown_keys j "request" ["model"; "system_prompt"] in
  try! model := require_model j in
  fail_if bool_decide (model = "") with model_empty ;;
  try! system_prompt := optional "system_prompt" as_string j
                          (bad_request "system_prompt must be a string" "system_prompt") in
  Value {| scr_model := model; scr_system_prompt := system_prompt |}.

Definition parse_extraction_request (body : string) : ApiResult ExtractionRequest :=
  try! j := parse_body body in
  try! _ := reject_api_unknown_keys j "request"
              (["model"; "schema"; "messages"; "stream"; "session_id"] ++ override_keys) in
  try! model := require_model j in
  try! schema := require "schema" as_object j (bad_request "schema must be an object" "schema") in
  try! messages_json := require_messages j in
  fail_if bool_decide (model = "") with model_empty ;;
  try! (stream, session_id, overrides, messages) := parse_conversation j messages_json in
  Value {| er_model := model; er_schema := schema; er_messages := messages; er_stream := stream;
           er_session_id := session_id; er_overrides := overrides |}.

Definition parse_agent_chat_request (body : string) : ApiResult AgentChatRequest :=
  try! j := parse_body body in
  try! _ := reject_api_unknown_keys j "request" (["model"; "message"] ++ override_keys) in
  try! model := require_model j in
  fail_if bool_decide (model = "") with model_empty ;;
  try! message := parse_single_message_field j "message" "message" in
  try! overrides := parse_generation_overrides j in
  Value {| acr_model := model; acr_message := message; acr_overrides := overrides |}.

Definition parse_agent_history_request (body : string) : ApiResult (list ChatMessage) :=
  try! j := parse_body body in
  try! _ := reject_api_unknown_keys j "request" ["messages"] in
  try! messages_json := require_messages j in
  parse_messages messages_json [].

Definition parse_agent_history_message_request (body : string) : ApiResult ChatMessage :=
  try! j := parse_body body in
  try! _ := reject_api_unknown_keys j "request" ["message"] in
  parse_single_message_field j "message" "message".

Definition parse_system_prompt_request (body : string) : ApiResult string :=
  try! j := parse_body body in
  try! _ := reject_api_unknown_keys j "request" ["system_prompt"] in
  require "system_prompt" as_string j (bad_request "system_prompt must be a string" "system_prompt").
End Parsing.

(** ** Response bodies *)

Section Bodies.
Context `{JsonLib}.
Variable status_to_string : ToolInvocationStatus → string.   (* zoo::to_string *)

Definition make_tool_schema (metadata : ToolDefinition) : json :=
  jobject [("type", JString "function");
           ("function", jobject [("name", JString (td_name metadata));
                                 ("description", JString (td_description metadata));
                                 ("parameters", td_parameters_schema metadata)])].

(** Text that may be JSON: parsed if it parses, kept as a string otherwise. *)
Definition parse_or_string (text : string) : json :=
  match json_parse text with Value j => j | Unexpected _ => JString text end.

Definition make_tool_invocation_json (inv : ToolInvocationRecord) : json :=
  jobject ([("id", JString (inv_id inv)); ("name", JString (inv_name inv));
            ("status", JString (status_to_string (inv_status inv)));
            ("arguments", parse_or_string (inv_arguments_json inv))] ++
           jopt "result" parse_or_string (inv_result_json inv) ++
           jopt "error" (λ e, JString (re_message e)) (inv_error inv)).

Definition usage_json (u : CompletionUsage) : json :=
  jobject [("prompt_tokens", JInteger (prompt_tokens u));
           ("completion_tokens", JInteger (completion_tokens u));
           ("total_tokens", JInteger (total_tokens u))].

Definition metrics_json (m : CompletionMetrics) : json :=
  jobject [("latency_ms", JInteger (latency_ms m));
           ("time_to_first_token_ms", JInteger (time_to_first_token_ms m));
           ("tokens_per_second", JFloat (tokens_per_second m))].

Definition make_chat_completion_body (completion_id : string) (created : Z) (model_id : string)
    (response : CompletionResult) : json :=
  jobject
    [("id", JString completion_id); ("object", JString "chat.completion");
     ("created", JInteger created); ("model", JString model_id);
     ("choices", JArray [jobject
        [("index", JInteger 0);
         ("message", jobject [("role", JString "assistant"); ("content", JString (cr_text response))]);
         ("finish_reason", JString "stop")]]);
     ("usage", usage_json (cr_usage response));
     ("zoo_metrics", metrics_json (cr_metrics response));
     ("tool_invocations", JArray (make_tool_invocation_json <$> cr_tool_invocations response))].

Definition make_extraction_body (extraction_id : string) (created : Z) (model_id : string)
    (response : ExtractionResult) : json :=
  jobject
    [("id", JString extraction_id); ("object", JString "extraction");
     ("created", JInteger created); ("model", JString model_id);
     ("text", JString (ex_text response)); ("data", ex_data response);
     ("usage", usage_json (ex_usage response));
     ("zoo_metrics", metrics_json (ex_metrics response));
     ("tool_invocations", JArray (make_tool_invocation_json <$> ex_tool_invocations response))].

Definition make_session_body (summary : SessionSummary) : json :=
  jobject [("id", JString (sum_id summary)); ("object", JString "session");
           ("model", JString (sum_model summary)); ("created", JInteger (sum_created summary));
           ("last_used", JInteger (sum_last_used summary));
           ("expires_at", JInteger (sum_expires_at summary))].

Definition make_error_body (error : ApiError) : json :=
  jobject [("error", jobject ([("message", JString (message error)); ("type", JString (type error))] ++
             jopt "param" JString (param error) ++ jopt "code" JString (code error)))].

(** An HTTP response: status and body text; [dump] may throw. *)
Record HttpResponse : Type := {
  resp_status : Z;
  resp_content_type : string;
  resp_body : string;
}.

Definition make_json_response (body : json) (status : Z) : expected string HttpResponse :=
  try! text := json_dump body in
  Value {| resp_status := status; resp_content_type := "application/json"; resp_body := text |}.

Definition make_error_response (error : ApiError) : expected string HttpResponse :=
  make_json_response (make_error_body error) (http_status error).

Definition make_models_response (model_id : string) : expected string HttpResponse :=
  make_json_response
    (jobject [("object", JString "list");
              ("data", JArray [jobject [("id", JString model_id); ("object", JString "model");
                                        ("owned_by", JString "zoo-keeper-server")]])]) 200.

Definition make_tools_response (tools : list ToolDefinition) : expected string HttpResponse :=
  make_json_response
    (jobject [("object", JString "list"); ("data", JArray (make_tool_schema <$> tools))]) 200.

Definition make_session_response (summary : SessionSummary) (status : Z)
    : expected string HttpResponse :=
  make_json_response (make_session_body summary) status.

Definition make_chat_completion_response (completion_id : string) (created : Z) (model_id : string)
    (response : CompletionResult) : expected string HttpResponse :=
  make_json_response (make_chat_completion_body completion_id created model_id response) 200.

Definition make_extraction_response (extraction_id : string) (created : Z) (model_id : string)
    (response : ExtractionResult) : expected string HttpResponse :=
  make_json_response (make_extraction_body extraction_id created model_id response) 200.
End Bodies.

Definition map_runtime_error_to_api_error (error : RuntimeError) : ApiError :=
  let m := re_message error in
  match re_code error with
  | InvalidConfig | InvalidSamplingParams => invalid_request_error m None (Some "invalid_config")
  | InvalidModelPath | InvalidContextSize | BackendInitFailed | ModelLoadFailed =>
      server_error m (Some "model_load_failed")
  | ContextCreationFailed => server_error m (Some "context_creation_failed")
  | InferenceFailed => server_error m (Some "inference_failed")
  | TokenizationFailed => server_error m (Some "tokenization_failed")
  | ContextWindowExceeded =>
      invalid_request_error m (Some "messages") (Some "context_window_exceeded")
  | InvalidMessageSequence =>
      invalid_request_error m (Some "messages") (Some "invalid_message_sequence")
  | TemplateRenderFailed => server_error m (Some "template_render_failed")
  | AgentNotRunning | RequestCancelled => service_unavailable_error m (Some "agent_not_ready")
  | RequestTimeout => server_error m (Some "request_timeout")
  | QueueFull => service_unavailable_error m (Some "queue_full")
  | ToolNotFound => invalid_request_error m None (Some "tool_not_found")
  | ToolExecutionFailed | InvalidToolSignature | InvalidToolSchema | ToolValidationFailed =>
      server_error m (Some "tool_execution_failed")
  | ToolRetriesExhausted | ToolLoopLimitReached => server_error m (Some "tool_retries_exhausted")
  | InvalidOutputSchema => invalid_request_error m None (Some "invalid_output_schema")
  | ExtractionFailed => server_error m (Some "extraction_failed")
  | GgufReadFailed | GgufMetadataNotFound | StoreCorrupted | FilesystemError =>
      server_error m (Some "hub_error")
  | ModelNotFound => not_found_error m (Some "model_not_found")
  | ModelAlreadyExists => conflict_error m (Some "model_already_exists")
  | DownloadFailed | HuggingFaceApiError => server_error m (Some "model_download_failed")
  | InvalidModelIdentifier => invalid_request_error m None (Some "invalid_model_identifier")
  | Unknown => server_error m (Some "runtime_error")
  end.
