(* ===== verification/ApiJsonProofs.v ===== *)
(** * Properties of the request parsers *)

From S2P Require Import Prelude ApiTypes ErrorReference Json ApiJson.

(** ** Every rejection is a client error *)

(** A 400 that the error reference has, or one of the listed others. *)
Definition client_error (e : ApiError) : Prop := http_status e = 400%Z ∧ known_error e.

(** The errors of a parser satisfy [client_error]. *)
Definition client_errors {A} (r : ApiResult A) : Prop :=
  match r with Value _ => True | Unexpected e => client_error e end.

Lemma client_errors_bind {A B} (r : ApiResult A) (k : A → ApiResult B) :
  client_errors r → (∀ a, client_errors (k a)) → client_errors (expected_bind r k).
Proof. destruct r; simpl; auto. Qed.

Lemma client_errors_value {A} (a : A) : client_errors (Value a : ApiResult A).
Proof. done. Qed.

Lemma client_errors_bad {A} e : client_error e → client_errors (Unexpected e : ApiResult A).
Proof. done. Qed.

Lemma client_errors_if {A} (b : bool) e (k : ApiResult A) :
  client_error e → client_errors k → client_errors (if b then Unexpected e else k).
Proof. by destruct b. Qed.

Lemma client_errors_require {A} k (get : json → option A) j e :
  client_error e → client_errors (require k get j e).
Proof. unfold require. intros. by repeat case_match. Qed.

Lemma client_errors_optional {A} k (get : json → option A) j e :
  client_error e → client_errors (optional k get j e).
Proof. unfold optional. intros. by repeat case_match. Qed.

(** An object with the members [allowed] in the place named [context]: the param of its
    errors is not one the reference lists without a code, or their texts differ. *)
Lemma client_errors_reject j context allowed :
  context ∈ ["request"; "message"; "tool_call"; "tool_call.function"] →
  client_errors (reject_api_unknown_keys j context allowed).
Proof.
  intros Hc. unfold reject_api_unknown_keys, reject_unknown_keys.
  assert (∀ e, (∃ t, e = context +:+ " must be a JSON object" ∨ e = "Unknown " +:+ context +:+ " key: " +:+ t) →
    client_error (invalid_request_error e (Some context) (Some "unknown_field"))) as He.
  { intros e [t Ht]. split; [done|]. rewrite !elem_of_cons in Hc.
    destruct Hc as [->|[->|[->|[->|[]%elem_of_nil]]]]; destruct Ht as [->| ->]; in_reference. }
  destruct (negb (is_object j)); [apply He; exists ""; by left|].
  destruct (find _ (jkeys j)) as [k|]; [apply He; exists k; by right|done].
Qed.

Create HintDb api_errors.
#[export] Hint Resolve client_errors_bind client_errors_value client_errors_bad client_errors_if
  client_errors_require client_errors_optional : api_errors.
#[export] Hint Extern 1 (client_errors (reject_api_unknown_keys _ _ _)) =>
  apply client_errors_reject; set_solver : api_errors.
#[export] Hint Extern 1 (client_error _) => (split; [reflexivity|in_reference]) : api_errors.

(** Walk down a parser, splitting binds, guards and matches. *)
Ltac parser_errors :=
  repeat match goal with
  | |- client_errors (expected_bind _ _) => apply client_errors_bind; [|intros ?]
  | |- client_errors (if _ then Unexpected _ else _) => apply client_errors_if
  | |- client_errors (match ?x with _ => _ end) => destruct x
  | |- client_errors (if ?x then _ else _) => destruct x
  | |- _ => solve [auto with api_errors | done]
  end.

Lemma parse_tool_call_errors j : client_errors (parse_tool_call j).
Proof. unfold parse_tool_call. parser_errors. Qed.

Lemma parse_tool_calls_errors items : client_errors (parse_tool_calls items).
Proof.
  induction items as [|item items IH]; simpl; [done|].
  pose proof parse_tool_call_errors. parser_errors.
Qed.

Lemma parse_role_errors s : client_errors (parse_role s).
Proof. unfold parse_role. parser_errors. Qed.

Section Errors.
Context `{ZooCore}.

Lemma parse_message_errors j seed : client_errors (parse_message j seed).
Proof.
  unfold parse_message, build_message.
  pose proof parse_role_errors. pose proof parse_tool_calls_errors. parser_errors.
Qed.

Lemma parse_messages_errors items seed : client_errors (parse_messages items seed).
Proof.
  revert seed. induction items as [|item items IH]; intros seed; simpl; [done|].
  pose proof parse_message_errors. parser_errors. 
Qed.

Lemma parse_stop_errors entries : client_errors (parse_stop entries).
Proof. induction entries as [|e entries IH]; simpl; [done|]. parser_errors. Qed.

Lemma parse_overrides_errors j : client_errors (parse_generation_overrides j).
Proof. unfold parse_generation_overrides. pose proof parse_stop_errors. parser_errors. Qed.

Lemma parse_single_message_errors j : client_errors (parse_single_message_field j "message" "message").
Proof. unfold parse_single_message_field. pose proof parse_message_errors. parser_errors. Qed.

Context `{JsonLib}.

Lemma parse_body_errors body : client_errors (parse_body body).
Proof. unfold parse_body. parser_errors. Qed.

Lemma parse_conversation_errors j items : client_errors (parse_conversation j items).
Proof.
  unfold parse_conversation.
  pose proof parse_messages_errors. pose proof parse_overrides_errors. parser_errors.
Qed.

(** Whatever the body - malformed JSON, a wrong type, an unknown field, an invalid message
    sequence - a request parser that refuses it answers with a 400 of the error reference,
    or with one of the listed others. *)
Lemma parsers_refuse_with_400 (body : string) :
  client_errors (parse_chat_completion_request body) ∧
  client_errors (parse_extraction_request body) ∧
  client_errors (parse_agent_chat_request body) ∧
  client_errors (parse_session_create_request body) ∧
  client_errors (parse_agent_history_request body) ∧
  client_errors (parse_agent_history_message_request body) ∧
  client_errors (parse_system_prompt_request body).
Proof.
  pose proof parse_body_errors. pose proof parse_conversation_errors.
  pose proof parse_messages_errors. pose proof parse_overrides_errors.
  pose proof parse_single_message_errors.
  repeat apply conj; unfold parse_chat_completion_request, parse_extraction_request,
    parse_agent_chat_request, parse_session_create_request, parse_agent_history_request,
    parse_agent_history_message_request, parse_system_prompt_request, require_model,
    require_messages; parser_errors.
Qed.
End Errors.

(** ** What an accepted request satisfies *)

Lemma bind_value {E A B} (r : expected E A) (k : A → expected E B) b :
  expected_bind r k = Value b ↔ ∃ a, r = Value a ∧ k a = Value b.
Proof. destruct r; naive_solver. Qed.

Lemma if_value {E A} (b : bool) (e : E) (k : expected E A) a :
  (if b then Unexpected e else k) = Value a ↔ b = false ∧ k = Value a.
Proof. destruct b; naive_solver. Qed.

Lemma require_value {A} k (get : json → option A) j e a :
  require k get j e = Value a ↔ ∃ v, jfind k j = Some v ∧ get v = Some a.
Proof. unfold require. repeat case_match; naive_solver. Qed.

Lemma optional_value {A} k (get : json → option A) j e o :
  optional k get j e = Value o ↔
  (o = None ∧ jfind k j = None) ∨ (∃ v a, o = Some a ∧ jfind k j = Some v ∧ get v = Some a).
Proof. unfold optional. repeat case_match; naive_solver. Qed.

Lemma reject_value j context allowed :
  reject_api_unknown_keys j context allowed = Value () ↔
  is_object j = true ∧ ∀ k, k ∈ jkeys j → k ∈ allowed.
Proof.
  unfold reject_api_unknown_keys, reject_unknown_keys.
  destruct (is_object j); simpl; [|naive_solver].
  destruct (find _ (jkeys j)) as [k|] eqn:Hf; (split; [intros Hv|intros [_ Hall]]); try done.
  - apply find_some in Hf as [Hin Hk]. apply list_elem_of_In, Hall in Hin.
    by rewrite bool_decide_true in Hk.
  - split; [done|]. intros k Hin%list_elem_of_In.
    pose proof (find_none _ _ Hf k Hin) as Hk. by apply negb_false_iff, bool_decide_eq_true in Hk.
Qed.

(** Decompose the hypotheses that say a parser succeeded. *)
Ltac parse_inv :=
  repeat match goal with
  | H : expected_bind _ _ = Value _ |- _ => apply bind_value in H as (? & ? & ?)
  | H : (if _ then Unexpected _ else _) = Value _ |- _ => apply if_value in H as [? ?]
  | H : require _ _ _ _ = Value _ |- _ => apply require_value in H as (? & ? & ?)
  | H : context [match ?p with (_, _) => _ end] |- _ => is_var p; destruct p
  | H : Value _ = Value _ |- _ => injection H as H
  | u : unit |- _ => destruct u
  end.

Definition role_name (r : MessageRole) : string :=
  match r with System => "system" | User => "user" | Assistant => "assistant" | Tool => "tool" end.

Lemma as_string_Some v s : as_string v = Some s → v = JString s.
Proof. destruct v; naive_solver. Qed.

Lemma as_array_Some v l : as_array v = Some l → v = JArray l.
Proof. destruct v; naive_solver. Qed.

Lemma as_object_Some v o : as_object v = Some o → o = v ∧ is_object v = true.
Proof. destruct v; naive_solver. Qed.

(** Name the members that an accepted body has. *)
Ltac accepted_values :=
  repeat match goal with
  | Hk : reject_api_unknown_keys _ _ _ = Value _ |- _ => apply reject_value in Hk as [? ?]
  | Hs : as_string _ = Some _ |- _ => apply as_string_Some in Hs
  | Hs : as_array _ = Some _ |- _ => apply as_array_Some in Hs
  | Hs : as_object _ = Some _ |- _ => apply as_object_Some in Hs as [? ?]
  end; reflect_bools; subst.

Section Accepted.
Context `{ZooCore} `{JsonLib}.

(** Every message was allowed to follow the ones before it. *)
Fixpoint accepted_after (seed ms : list ChatMessage) : Prop :=
  match ms with
  | [] => True
  | m :: ms => validate_message_sequence seed (role m) = Value () ∧ accepted_after (seed ++ [m]) ms
  end.

(** An object with no other members than [allowed]. *)
Definition only_members (allowed : list string) (j : json) : Prop :=
  is_object j = true ∧ ∀ k, k ∈ jkeys j → k ∈ allowed.

(** The function call that an entry of [tool_calls] spells. *)
Definition spells_call (j : json) (c : OwnedToolCall) : Prop :=
  only_members ["id"; "type"; "function"] j ∧
  jfind "id" j = Some (JString (tc_id c)) ∧ jfind "type" j = Some (JString "function") ∧
  ∃ f, jfind "function" j = Some f ∧ only_members ["name"; "arguments"] f ∧
    jfind "name" f = Some (JString (tc_name c)) ∧ jfind "arguments" f = Some (JString (tc_arguments_json c)).

(** The message that an item of [messages] spells: a tool message with its call's id, an
    assistant message with the calls of the item, or a message of its role and content alone. *)
Definition spells_message (j : json) (m : ChatMessage) : Prop :=
  only_members ["role"; "content"; "tool_call_id"; "tool_calls"] j ∧
  ∃ r text, jfind "role" j = Some (JString (role_name r)) ∧ jfind "content" j = Some (JString text) ∧
    ((r = Tool ∧ jfind "tool_calls" j = None ∧
      ∃ id, jfind "tool_call_id" j = Some (JString id) ∧ m = msg_tool text id) ∨
     (r = Assistant ∧ jfind "tool_call_id" j = None ∧
      ∃ items calls, jfind "tool_calls" j = Some (JArray items) ∧ Forall2 spells_call items calls ∧
        m = msg_assistant_with_tool_calls text calls) ∨
     (r ≠ Tool ∧ jfind "tool_call_id" j = None ∧ jfind "tool_calls" j = None ∧
      m = {| role := r; content := text; tool_call_id := ""; tool_calls := [] |})).

Lemma parse_role_value text r : parse_role text = Value r → text = role_name r.
Proof. unfold parse_role. repeat case_decide; by intros [= <-]. Qed.

Lemma parse_tool_call_value j c : parse_tool_call j = Value c → spells_call j c.
Proof.
  unfold parse_tool_call. intros Hp. parse_inv. accepted_values. unfold spells_call, only_members. eauto 15.
Qed.

Lemma parse_tool_calls_value items calls : parse_tool_calls items = Value calls → Forall2 spells_call items calls.
Proof.
  revert calls. induction items as [|item items IH]; intros calls; cbn [parse_tool_calls].
  { by intros [= <-]. }
  intros Hp. parse_inv. subst calls. constructor; [by apply parse_tool_call_value|by apply IH].
Qed.

Lemma jcontains_false k j : jcontains k j = false → jfind k j = None.
Proof. unfold jcontains. by destruct (jfind k j). Qed.

Lemma build_message_value j r text m :
  only_members ["role"; "content"; "tool_call_id"; "tool_calls"] j →
  jfind "role" j = Some (JString (role_name r)) → jfind "content" j = Some (JString text) →
  build_message j r text = Value m → spells_message j m.
Proof.
  intros Hk Hr Ht. unfold build_message. case_decide as Htool; intros Hp; parse_inv.
  - accepted_values. split; [done|]. exists Tool, text. split; [done|]. split; [done|]. left.
    split; [done|]. split; [by apply jcontains_false|]. by eexists.
  - split; [done|]. exists r, text. split; [done|]. split; [done|]. right.
    match goal with Hc : jcontains _ _ = false |- _ => apply jcontains_false in Hc end.
    destruct (jfind "tool_calls" j) as [v|] eqn:Hcalls.
    + left. parse_inv. reflect_bools. destruct (as_array v) as [items|] eqn:Hv; [|done].
      apply as_array_Some in Hv as ->. parse_inv. subst m. split; [done|]. split; [done|].
      eexists items, _. split; [done|]. split; [by apply parse_tool_calls_value|done].
    + right. parse_inv. by subst m.
Qed.

Lemma parse_message_value j seed m seed' :
  parse_message j seed = Value (m, seed') →
  seed' = seed ++ [m] ∧ spells_message j m ∧ validate_message_sequence seed (role m) = Value ().
Proof.
  unfold parse_message. intros Hp. parse_inv.
  destruct (validate_message_sequence seed _) as [[]|] eqn:Hv; [|done]. simplify_eq. accepted_values.
  match goal with Hr : parse_role _ = Value _ |- _ => apply parse_role_value in Hr as -> end.
  split; [done|]. split; [|done]. by eapply build_message_value.
Qed.

Lemma parse_messages_value items seed ms :
  parse_messages items seed = Value ms →
  ∃ new, ms = seed ++ new ∧ Forall2 spells_message items new ∧ accepted_after seed new.
Proof.
  revert seed. induction items as [|item items IH]; intros seed; simpl.
  { intros [= <-]. exists []. by rewrite app_nil_r. }
  intros Hp. parse_inv. 
  match goal with Hm : parse_message _ _ = Value _ |- _ =>
    apply parse_message_value in Hm as (-> & Hsp & Hv) end.
  match goal with Hm : parse_messages _ _ = Value _ |- _ =>
    destruct (IH _ Hm) as (new & -> & Hl & Ha) end.
  eexists (_ :: new). rewrite <-app_assoc. simpl. auto using Forall2_cons_2.
Qed.

Definition int_fits (o : option Z) : Prop := match o with Some z => in_int32 z | None => True end.

Definition overrides_fit (ov : GenerationOverrides) : Prop :=
  int_fits (ov_top_k ov) ∧ int_fits (ov_repeat_last_n ov) ∧
  int_fits (ov_max_tokens ov) ∧ int_fits (ov_seed ov).

Lemma optional_int_fits k j e o : optional k as_int j e = Value o → int_fits o.
Proof.
  intros [[-> _]|(v & z & -> & _ & Hz)]%optional_value; [done|].
  destruct v; simplify_eq/=. apply to_int32_range.
Qed.

Lemma parse_overrides_fit j ov : parse_generation_overrides j = Value ov → overrides_fit ov.
Proof.
  unfold parse_generation_overrides. intros Hp. parse_inv. subst ov.
  unfold overrides_fit; simpl. eauto 10 using optional_int_fits.
Qed.

Lemma parse_conversation_value j items stream session_id ov ms :
  parse_conversation j items = Value (stream, session_id, ov, ms) →
  session_id ≠ Some "" ∧ overrides_fit ov ∧ ms ≠ [] ∧ Forall2 spells_message items ms ∧
  accepted_after [] ms.
Proof.
  unfold parse_conversation. intros Hp. parse_inv. reflect_bools. simplify_eq.
  match goal with Hm : parse_messages _ _ = Value _ |- _ =>
    destruct (parse_messages_value _ _ _ Hm) as (new & -> & Hl & Ha) end.
  split; [done|]. split; [by eapply parse_overrides_fit|]. split; [|done].
  simpl. intros ->. by inversion Hl; subst.
Qed.

(** The parts an accepted chat or extraction request shares. *)
Definition well_formed_request (j : json) (allowed : list string) (model : string)
    (session_id : option string) (ov : GenerationOverrides) (ms : list ChatMessage) : Prop :=
  only_members allowed j ∧
  jfind "model" j = Some (JString model) ∧ model ≠ "" ∧ session_id ≠ Some "" ∧ overrides_fit ov ∧
  ms ≠ [] ∧ accepted_after [] ms ∧
  ∃ items, jfind "messages" j = Some (JArray items) ∧ Forall2 spells_message items ms.

Lemma parse_single_message_value j m :
  parse_single_message_field j "message" "message" = Value m →
  ∃ item, jfind "message" j = Some item ∧ spells_message item m ∧ accepted_after [] [m].
Proof.
  unfold parse_single_message_field. intros Hp. parse_inv. accepted_values.
  match goal with Hm : parse_message _ _ = Value _ |- _ =>
    apply parse_message_value in Hm as (-> & Hsp & Hv) end.
  eexists. split; [done|]. split; [exact Hsp|by split].
Qed.

Lemma parse_body_value body j : parse_body body = Value j → json_parse body = Value j.
Proof. unfold parse_body. destruct (json_parse body); [by intros [= <-]|done]. Qed.

(** C25: An accepted request is well formed.  A chat or extraction request has only allowed
    members, a non-empty model, no empty session id and 32-bit integer overrides, and its
    messages are, one by one and in order, what the items of a non-empty [messages] array spell
    (role, content, tool call id and tool calls, with no other member), each allowed by the
    role-sequence rules after the ones before it; an extraction carries the schema object it was
    sent.  An accepted agent history has no member but [messages], and its messages are those of
    the array, under the same rules; an appended message is the one its only member spells. *)
Theorem accepted_requests_well_formed (body : string) :
  (∀ r, parse_chat_completion_request body = Value r →
     ∃ j, json_parse body = Value j ∧
       well_formed_request j (["model"; "messages"; "stream"; "session_id"] ++ override_keys)
         (ccr_model r) (ccr_session_id r) (ccr_overrides r) (ccr_messages r)) ∧
  (∀ r, parse_extraction_request body = Value r →
     ∃ j, json_parse body = Value j ∧ jfind "schema" j = Some (er_schema r) ∧ is_object (er_schema r) = true ∧
       well_formed_request j (["model"; "schema"; "messages"; "stream"; "session_id"] ++ override_keys)
         (er_model r) (er_session_id r) (er_overrides r) (er_messages r)) ∧
  (∀ ms, parse_agent_history_request body = Value ms →
     ∃ j items, json_parse body = Value j ∧ only_members ["messages"] j ∧
       jfind "messages" j = Some (JArray items) ∧ Forall2 spells_message items ms ∧ accepted_after [] ms) ∧
  (∀ m, parse_agent_history_message_request body = Value m →
     ∃ j item, json_parse body = Value j ∧ only_members ["message"] j ∧
       jfind "message" j = Some item ∧ spells_message item m ∧ accepted_after [] [m]).
Proof.
  unfold parse_chat_completion_request, parse_extraction_request, parse_agent_history_request,
    parse_agent_history_message_request, require_model, require_messages.
  split_and!; intros r Hr; parse_inv;
    repeat match goal with
    | Hc : parse_conversation _ _ = Value _ |- _ =>
        destruct (parse_conversation_value _ _ _ _ _ _ Hc) as (? & ? & ? & ? & ?); clear Hc
    | Hb : parse_body _ = Value _ |- _ => apply parse_body_value in Hb
    end; accepted_values; simpl.
  - eexists. split; [done|]. unfold well_formed_request, only_members. eauto 15.
  - eexists. split; [done|]. unfold well_formed_request, only_members. eauto 20.
  - match goal with Hm : parse_messages _ _ = Value _ |- _ =>
      destruct (parse_messages_value _ _ _ Hm) as (new & -> & Hl & Ha) end.
    eexists _, _. by split_and!.
  - match goal with Hm : parse_single_message_field _ _ _ = Value _ |- _ =>
      destruct (parse_single_message_value _ _ Hm) as (item & ? & ? & ?) end.
    eexists _, item. unfold only_members. eauto 10.
Qed.
End Accepted.

(** ** Round trip: a client's encoding of a request *)

Lemma assoc_find_app k l l' :
  assoc_find k (l ++ l') = match assoc_find k l with Some v => Some v | None => assoc_find k l' end.
Proof. induction l as [|[k' v] l IH]; simpl; [done|]. by case_decide. Qed.

Lemma assoc_find_jopt {A} k k' (f : A → json) o :
  assoc_find k (jopt k' f o) = if decide (k = k') then f <$> o else None.
Proof. destruct o; simpl; by case_decide. Qed.

Lemma jopt_keys {A} k (f : A → json) o : (jopt k f o).*1 `sublist_of` [k].
Proof. destruct o; simpl; repeat constructor. Qed.

Lemma jopt_app_keys {A} k (f : A → json) o l ks :
  l `sublist_of` ks → (jopt k f o).*1 ++ l `sublist_of` k :: ks.
Proof. intros Hl. destruct o; simpl; by constructor. Qed.

Lemma reject_accepts l context allowed :
  l.*1 `sublist_of` allowed → reject_api_unknown_keys (jobject l) context allowed = Value ().
Proof.
  intros Hsub. apply reject_value. split; [done|]. intros k Hk.
  eapply elem_of_sublist; [|exact Hsub]. by apply jkeys_jobject.
Qed.

Lemma jfind_sub allowed l k :
  NoDup allowed → l.*1 `sublist_of` allowed → jfind k (jobject l) = assoc_find k l.
Proof. intros Hnd Hsub. apply jfind_jobject. by eapply sublist_NoDup. Qed.

Inductive WireMessage : Type :=
| WPlain (r : MessageRole) (text : string)
| WTool (text id : string)
| WCalls (text : string) (calls : list OwnedToolCall).

Definition encode_tool_call (c : OwnedToolCall) : json :=
  jobject [("id", JString (tc_id c)); ("type", JString "function");
           ("function", jobject [("name", JString (tc_name c));
                                 ("arguments", JString (tc_arguments_json c))])].

Definition encode_message (w : WireMessage) : json :=
  match w with
  | WPlain r text => jobject [("role", JString (role_name r)); ("content", JString text)]
  | WTool text id =>
      jobject [("role", JString "tool"); ("content", JString text); ("tool_call_id", JString id)]
  | WCalls text calls =>
      jobject [("role", JString "assistant"); ("content", JString text);
               ("tool_calls", JArray (encode_tool_call <$> calls))]
  end.

(** A client holds the [float] as a [double]. *)
Definition widen64 (f : spec_float) : double :=
  match f with S754_finite s m e => binary_round 53 1024 s m e | _ => f end.

Definition JFloat32 (f : spec_float) : json := JFloat (widen64 f).

#[local] Arguments JFloat32 : simpl never.
#[local] Arguments as_float : simpl never.
#[local] Arguments as_int : simpl never.

Definition encode_overrides (ov : GenerationOverrides) : list (string * json) :=
  jopt "temperature" JFloat32 (ov_temperature ov) ++ jopt "top_p" JFloat32 (ov_top_p ov) ++
  jopt "top_k" JInteger (ov_top_k ov) ++ jopt "repeat_penalty" JFloat32 (ov_repeat_penalty ov) ++
  jopt "repeat_last_n" JInteger (ov_repeat_last_n ov) ++
  jopt "max_tokens" JInteger (ov_max_tokens ov) ++ jopt "seed" JInteger (ov_seed ov) ++
  jopt "stop" (λ l, JArray (JString <$> l)) (ov_stop ov) ++
  jopt "record_tool_trace" JBoolean (ov_record_tool_trace ov).

Definition encode_chat_request (model : string) (wires : list WireMessage) (stream : bool)
    (session_id : option string) (ov : GenerationOverrides) : json :=
  jobject ([("model", JString model); ("messages", JArray (encode_message <$> wires));
            ("stream", JBoolean stream)] ++ jopt "session_id" JString session_id ++
           encode_overrides ov).

(** Floats that survive the widening: the binary32 values. *)
Definition float_fits (o : option spec_float) : Prop :=
  match o with Some f => round32 (widen64 f) = f | None => True end.

Definition overrides_representable (ov : GenerationOverrides) : Prop :=
  overrides_fit ov ∧ float_fits (ov_temperature ov) ∧ float_fits (ov_top_p ov) ∧
  float_fits (ov_repeat_penalty ov).

Section RoundTrip.
Context `{ZooCore} `{JsonLib}.

Definition wire_ok (w : WireMessage) : Prop :=
  match w with WPlain r _ => r ≠ Tool | _ => True end.

(** The message the server keeps for a wire message. *)
Definition received (w : WireMessage) : ChatMessage :=
  match w with
  | WPlain r text => {| role := r; content := text; tool_call_id := ""; tool_calls := [] |}
  | WTool text id => msg_tool text id
  | WCalls text calls => msg_assistant_with_tool_calls text calls
  end.

Lemma parse_encoded_tool_call c : parse_tool_call (encode_tool_call c) = Value c.
Proof.
  unfold parse_tool_call, encode_tool_call. rewrite reject_accepts by done. simpl.
  unfold require. simpl. by destruct c.
Qed.

Lemma parse_encoded_tool_calls cs : parse_tool_calls (encode_tool_call <$> cs) = Value cs.
Proof.
  induction cs as [|c cs IH]; [done|]. rewrite fmap_cons. cbn [parse_tool_calls].
  rewrite parse_encoded_tool_call. simpl. by rewrite IH.
Qed.

Lemma parse_encoded_message w seed :
  wire_ok w → validate_message_sequence seed (role (received w)) = Value () →
  parse_message (encode_message w) seed = Value (received w, seed ++ [received w]).
Proof.
  intros Hw Hv. unfold parse_message.
  destruct w as [r text|text id|text calls]; unfold encode_message.
  - destruct r; simpl in *; by rewrite ?Hv.
  - simpl in *. by rewrite Hv.
  - pose proof (parse_encoded_tool_calls calls) as Hc.
    generalize dependent (encode_tool_call <$> calls). intros items Hc. simpl in *.
    unfold build_message. simpl. rewrite Hc. simpl. by rewrite Hv.
Qed.

Lemma parse_encoded_messages ws seed :
  Forall wire_ok ws → accepted_after seed (received <$> ws) →
  parse_messages (encode_message <$> ws) seed = Value (seed ++ (received <$> ws)).
Proof.
  intros Hws. revert seed. induction Hws as [|w ws Hw _ IH]; intros seed; [by rewrite app_nil_r|].
  rewrite !fmap_cons. intros [Hv Ha]. cbn [parse_messages].
  rewrite parse_encoded_message by done. cbn [expected_bind].
  rewrite IH by done. by rewrite <-app_assoc.
Qed.

Lemma parse_encoded_stop l : parse_stop (JString <$> l) = Value l.
Proof. induction l as [|s l IH]; [done|]. rewrite fmap_cons. simpl. by rewrite IH. Qed.

(** Look a literal key up in an encoding. *)
Ltac find_encoded :=
  unfold encode_overrides; simpl; rewrite ?assoc_find_app, ?assoc_find_jopt;
  repeat first [rewrite decide_True by done | rewrite decide_False by done];
  simpl; repeat match goal with |- context [_ <$> ?o] => is_var o; destruct o end; done.

Ltac encoded_key :=
  first [apply (bool_decide_unpack _); vm_compute; exact I | solve [eauto] | solve [find_encoded]
        | by intros; simplify_eq/=].

(** The keys an encoding may use, in order. *)
Lemma encode_overrides_keys ov : (encode_overrides ov).*1 `sublist_of` override_keys.
Proof.
  unfold encode_overrides, override_keys. rewrite !fmap_app.
  repeat apply jopt_app_keys. apply jopt_keys.
Qed.

Lemma optional_encoded {A} k (enc : A → json) (get : json → option A) (o : option A) j e :
  jfind k j = enc <$> o → (∀ a, o = Some a → get (enc a) = Some a) →
  optional k get j e = Value o.
Proof. intros Hj Hget. unfold optional. rewrite Hj. destruct o; simpl; [|done]. by rewrite Hget. Qed.

Lemma parse_encoded_overrides j ov :
  overrides_representable ov →
  (∀ k, k ∈ override_keys → jfind k j = assoc_find k (encode_overrides ov)) →
  parse_generation_overrides j = Value ov.
Proof.
  intros [(Hk & Hn & Hm & Hs) (Ht & Hp & Hr)] Hj. unfold parse_generation_overrides.
  assert (∀ A k (enc : A → json) (get : json → option A) (o : option A) e,
    k ∈ override_keys → assoc_find k (encode_overrides ov) = enc <$> o →
    (∀ a, o = Some a → get (enc a) = Some a) → optional k get j e = Value o) as Hopt.
  { intros A k enc get o e Hin Hf Hget. apply (optional_encoded _ enc); [by rewrite Hj|done]. }
  assert (∀ o, int_fits o → ∀ z, o = Some z → as_int (JInteger z) = Some z) as Hint.
  { intros o Hfit z ->. unfold as_int. by rewrite to_int32_id. }
  assert (∀ o, float_fits o → ∀ f, o = Some f → as_float (JFloat32 f) = Some f) as Hfloat.
  { intros o Hfit f ->. unfold as_float, JFloat32. by rewrite Hfit. }
  destruct ov as [t p k r n m s st tr]; simpl in *.
  rewrite (Hopt _ "temperature" JFloat32 _ t) by encoded_key. cbn [expected_bind].
  rewrite (Hopt _ "top_p" JFloat32 _ p) by encoded_key. cbn [expected_bind].
  rewrite (Hopt _ "top_k" JInteger _ k) by encoded_key. cbn [expected_bind].
  rewrite (Hopt _ "repeat_penalty" JFloat32 _ r) by encoded_key. cbn [expected_bind].
  rewrite (Hopt _ "repeat_last_n" JInteger _ n) by encoded_key. cbn [expected_bind].
  rewrite (Hopt _ "max_tokens" JInteger _ m) by encoded_key. cbn [expected_bind].
  rewrite (Hopt _ "seed" JInteger _ s) by encoded_key. cbn [expected_bind].
  assert (jfind "stop" j = (λ l, JArray (JString <$> l)) <$> st) as Hstop.
  { rewrite Hj by encoded_key. find_encoded. }
  rewrite (Hopt _ "record_tool_trace" JBoolean _ tr) by encoded_key.
  unfold optional. rewrite Hstop. destruct st as [l|]; simpl; [|done].
  by rewrite parse_encoded_stop.
Qed.

Lemma encoded_conversation l wires stream session_id ov :
  (∀ k, k ∈ override_keys → jfind k (jobject l) = assoc_find k (encode_overrides ov)) →
  jfind "stream" (jobject l) = Some (JBoolean stream) →
  jfind "session_id" (jobject l) = JString <$> session_id →
  session_id ≠ Some "" → wires ≠ [] → Forall wire_ok wires →
  accepted_after [] (received <$> wires) → overrides_representable ov →
  parse_conversation (jobject l) (encode_message <$> wires) =
    Value (stream, session_id, ov, received <$> wires).
Proof.
  intros Hj Hst Hse Hs Hw Hok Hacc Hov. unfold parse_conversation.
  rewrite (optional_encoded "stream" JBoolean as_boolean (Some stream)) by (done || naive_solver).
  rewrite (optional_encoded "session_id" JString as_string session_id) by (done || naive_solver).
  cbn [expected_bind]. rewrite (bool_decide_false _ Hs).
  rewrite (parse_encoded_overrides _ ov) by done. cbn [expected_bind].
  rewrite bool_decide_false by (intros ?%fmap_nil_inv; done).
  by rewrite parse_encoded_messages.
Qed.

Definition chat_keys : list string := ["model"; "messages"; "stream"; "session_id"] ++ override_keys.

Lemma override_keys_other k : k ∈ override_keys → k ∉ ["model"; "messages"; "stream"; "session_id"].
Proof. unfold override_keys. set_solver. Qed.

(** C24: Encoding a request as a client would and parsing it gives the request back: every model
    and session id that are not empty, every non-empty conversation the sequence rules allow -
    plain, tool and tool-call messages - and every combination of overrides that fits the
    server's types (32-bit integers, binary32 floats). *)
Theorem chat_request_roundtrip (body model : string) (wires : list WireMessage) (stream : bool)
    (session_id : option string) (ov : GenerationOverrides) :
  json_parse body = Value (encode_chat_request model wires stream session_id ov) →
  model ≠ "" → session_id ≠ Some "" → wires ≠ [] → Forall wire_ok wires →
  accepted_after [] (received <$> wires) → overrides_representable ov →
  parse_chat_completion_request body =
    Value {| ccr_model := model; ccr_messages := received <$> wires; ccr_stream := stream;
             ccr_session_id := session_id; ccr_overrides := ov |}.
Proof.
  intros Hbody Hm Hs Hw Hok Hacc Hov.
  unfold parse_chat_completion_request, parse_body. rewrite Hbody. cbn [expected_bind].
  unfold encode_chat_request.
  set (l := [("model", JString model); ("messages", JArray (encode_message <$> wires));
             ("stream", JBoolean stream)] ++ jopt "session_id" JString session_id ++
            encode_overrides ov).
  assert (l.*1 `sublist_of` chat_keys) as Hsub.
  { unfold l. rewrite !fmap_app. do 3 apply sublist_skip.
    apply jopt_app_keys, encode_overrides_keys. }
  assert (∀ k, jfind k (jobject l) = assoc_find k l) as Hj.
  { intros k. apply (jfind_sub chat_keys); [|done]. by apply (bool_decide_unpack _); vm_compute. }
  rewrite reject_accepts by exact Hsub. cbn [expected_bind].
  unfold require_model, require_messages, require. rewrite !Hj. simpl.
  rewrite (bool_decide_false _ Hm).
  rewrite (encoded_conversation l wires stream session_id ov); try done.
  - intros k Hk. rewrite Hj. unfold l. rewrite !assoc_find_app, assoc_find_jopt.
    pose proof (override_keys_other k Hk) as Hother. simpl.
    by repeat rewrite decide_False by set_solver.
  - rewrite Hj. unfold l. simpl. rewrite assoc_find_app, assoc_find_jopt. simpl.
    by destruct session_id; [|find_encoded].
Qed.
End RoundTrip.

(** ** Integer overrides and machine width *)

#[local] Arguments as_int /.

Lemma to_int32_exact z : to_int32 z = z ↔ in_int32 z.
Proof. split; [intros <-; apply to_int32_range|apply to_int32_id]. Qed.

Lemma optional_int_value k j e o z :
  optional k as_int j e = Value o → jfind k j = Some (JInteger z) → o = Some (to_int32 z).
Proof. intros [[-> ?]|(v & z' & -> & ? & ?)]%optional_value Hj; simplify_eq/=. done. Qed.

(** An integer override is not range-checked: any JSON integer is accepted and the low 32
    bits, as a signed number, are what the request carries - the sent value exactly when it
    fits in 32 bits, some other value otherwise (4294967297 becomes 1). *)
Theorem integer_overrides_truncated (j : json) (ov : GenerationOverrides) :
  parse_generation_overrides j = Value ov →
  Forall (λ '(k, o), ∀ z, jfind k j = Some (JInteger z) →
            o = Some (to_int32 z) ∧ (to_int32 z = z ↔ in_int32 z))
    [("top_k", ov_top_k ov); ("repeat_last_n", ov_repeat_last_n ov);
     ("max_tokens", ov_max_tokens ov); ("seed", ov_seed ov)].
Proof.
  unfold parse_generation_overrides. intros Hp. parse_inv. subst ov. simpl.
  repeat constructor; intros; eauto using optional_int_value; by apply to_int32_exact.
Qed.

(** ** What a client reads in a response

    A reader for each body, that gives up on a member that is missing or of another
    type: reading is the inverse of making the body. *)

Definition read {A} (get : json → option A) (k : string) (j : json) : option A := v ← jfind k j; get v.

(** A member that may be absent. *)
Definition read_optional {A} (get : json → option A) (k : string) (j : json) : option (option A) :=
  match jfind k j with Some v => Some <$> get v | None => Some None end.

Definition as_integer (j : json) : option Z := match j with JInteger z => Some z | _ => None end.
Definition as_double (j : json) : option double := match j with JFloat d => Some d | _ => None end.

(** A member whose text is fixed. *)
Definition read_literal (text k : string) (j : json) : option unit :=
  s ← read as_string k j; if decide (s = text) then Some () else None.

Definition read_usage (j : json) : option CompletionUsage :=
  p ← read as_integer "prompt_tokens" j; c ← read as_integer "completion_tokens" j;
  t ← read as_integer "total_tokens" j;
  Some {| prompt_tokens := p; completion_tokens := c; total_tokens := t |}.

Definition read_metrics (j : json) : option CompletionMetrics :=
  l ← read as_integer "latency_ms" j; f ← read as_integer "time_to_first_token_ms" j;
  t ← read as_double "tokens_per_second" j;
  Some {| latency_ms := l; time_to_first_token_ms := f; tokens_per_second := t |}.

(** What the body tells of a tool invocation: its status by name, its error by message. *)
Record InvocationView : Type := {
  iv_id : string;
  iv_name : string;
  iv_status : string;
  iv_arguments : json;
  iv_result : option json;
  iv_error : option string;
}.

Definition read_invocation (j : json) : option InvocationView :=
  i ← read as_string "id" j; n ← read as_string "name" j; s ← read as_string "status" j;
  a ← jfind "arguments" j; r ← read_optional Some "result" j; e ← read_optional as_string "error" j;
  Some {| iv_id := i; iv_name := n; iv_status := s; iv_arguments := a; iv_result := r; iv_error := e |}.

Definition read_invocations (j : json) : option (list InvocationView) :=
  items ← read as_array "tool_invocations" j; mapM read_invocation items.

(** The parts that a completion and an extraction share. *)
Record ResponseView : Type := {
  rv_id : string;
  rv_created : Z;
  rv_model : string;
  rv_text : string;
  rv_usage : CompletionUsage;
  rv_metrics : CompletionMetrics;
  rv_invocations : list InvocationView;
}.

Definition read_response (object_ : string) (read_text : json → option string) (j : json) : option ResponseView :=
  _ ← read_literal object_ "object" j;
  i ← read as_string "id" j; c ← read as_integer "created" j; m ← read as_string "model" j;
  t ← read_text j; u ← read read_usage "usage" j; z ← read read_metrics "zoo_metrics" j;
  invs ← read_invocations j;
  Some {| rv_id := i; rv_created := c; rv_model := m; rv_text := t; rv_usage := u; rv_metrics := z;
          rv_invocations := invs |}.

(** The text of the only choice, that of an assistant who stopped. *)
Definition read_choice (j : json) : option string :=
  choices ← read as_array "choices" j;
  match choices with
  | [choice] =>
      index ← read as_integer "index" choice; _ ← read_literal "stop" "finish_reason" choice;
      m ← jfind "message" choice; _ ← read_literal "assistant" "role" m;
      if decide (index = 0%Z) then read as_string "content" m else None
  | _ => None
  end.

Definition read_completion : json → option ResponseView := read_response "chat.completion" read_choice.

Definition read_extraction (j : json) : option (ResponseView * json) :=
  r ← read_response "extraction" (read as_string "text") j; d ← jfind "data" j; Some (r, d).

Definition read_session (j : json) : option SessionSummary :=
  _ ← read_literal "session" "object" j;
  i ← read as_string "id" j; m ← read as_string "model" j; c ← read as_integer "created" j;
  l ← read as_integer "last_used" j; e ← read as_integer "expires_at" j;
  Some {| sum_id := i; sum_model := m; sum_created := c; sum_last_used := l; sum_expires_at := e |}.

(** The status is not in the body. *)
Definition read_error (status : Z) (j : json) : option ApiError :=
  e ← jfind "error" j;
  m ← read as_string "message" e; t ← read as_string "type" e;
  p ← read_optional as_string "param" e; c ← read_optional as_string "code" e;
  Some {| http_status := status; message := m; type := t; param := p; code := c |}.

Section Reading.
Context `{JsonLib}.
Variable to_string : ToolInvocationStatus → string.

(** Text that is JSON is shown as JSON, other text as a string. *)
Definition shown (text : string) : json :=
  match json_parse text with Value v => v | Unexpected _ => JString text end.

Definition view (inv : ToolInvocationRecord) : InvocationView :=
  {| iv_id := inv_id inv; iv_name := inv_name inv; iv_status := to_string (inv_status inv);
     iv_arguments := shown (inv_arguments_json inv); iv_result := shown <$> inv_result_json inv;
     iv_error := re_message <$> inv_error inv |}.

Lemma read_made_invocation inv : read_invocation (make_tool_invocation_json to_string inv) = Some (view inv).
Proof. unfold make_tool_invocation_json, view. by destruct (inv_result_json inv), (inv_error inv). Qed.

Lemma read_made_invocations invs :
  mapM read_invocation (make_tool_invocation_json to_string <$> invs) = Some (view <$> invs).
Proof.
  induction invs as [|inv invs IH]; [done|]. rewrite !fmap_cons. cbn [mapM]. by rewrite read_made_invocation, IH.
Qed.

Lemma read_made_completion id created model r :
  read_completion (make_chat_completion_body to_string id created model r) =
    Some {| rv_id := id; rv_created := created; rv_model := model; rv_text := cr_text r;
            rv_usage := cr_usage r; rv_metrics := cr_metrics r;
            rv_invocations := view <$> cr_tool_invocations r |}.
Proof.
  pose proof (read_made_invocations (cr_tool_invocations r)) as Hi. unfold make_chat_completion_body.
  generalize dependent (make_tool_invocation_json to_string <$> cr_tool_invocations r).
  destruct r as [t [pt ct tt] [l f ts] invs]. intros items Hi. cbn [cr_tool_invocations] in *.
  exact (f_equal (fmap (M := option) (Build_ResponseView id created model t (Build_CompletionUsage pt ct tt)
    (Build_CompletionMetrics l f ts))) Hi).
Qed.

Lemma read_made_extraction id created model r :
  read_extraction (make_extraction_body to_string id created model r) =
    Some ({| rv_id := id; rv_created := created; rv_model := model; rv_text := ex_text r;
             rv_usage := ex_usage r; rv_metrics := ex_metrics r;
             rv_invocations := view <$> ex_tool_invocations r |}, ex_data r).
Proof.
  assert (read_response "extraction" (read as_string "text") (make_extraction_body to_string id created model r) =
    Some {| rv_id := id; rv_created := created; rv_model := model; rv_text := ex_text r;
            rv_usage := ex_usage r; rv_metrics := ex_metrics r;
            rv_invocations := view <$> ex_tool_invocations r |}) as Hr.
  { pose proof (read_made_invocations (ex_tool_invocations r)) as Hi. unfold make_extraction_body.
    generalize dependent (make_tool_invocation_json to_string <$> ex_tool_invocations r).
    destruct r as [t d [pt ct tt] [l f ts] invs]. intros items Hi. cbn [ex_tool_invocations] in *.
    exact (f_equal (fmap (M := option) (Build_ResponseView id created model t (Build_CompletionUsage pt ct tt)
      (Build_CompletionMetrics l f ts))) Hi). }
  unfold read_extraction. by rewrite Hr.
Qed.

(** C26: A client that reads a response gets what the server put in.  Reading a completion body
    gives back the id, the time, the model, the text, the three token counts, the three timings
    and, in order, every tool invocation with its id, name, status, arguments, result and error
    (arguments and result as JSON when they are JSON and as text when they are not, an absent
    result or error absent); an extraction body also its data; a session body the whole summary;
    an error body the whole error, with exactly the param and code it has.  A runtime error keeps
    its message, always has a code, and is 503 exactly for a stopped agent, a cancelled request
    or a full queue. *)
Theorem response_bodies_decode :
  (∀ id created model r,
     read_completion (make_chat_completion_body to_string id created model r) =
       Some {| rv_id := id; rv_created := created; rv_model := model; rv_text := cr_text r;
               rv_usage := cr_usage r; rv_metrics := cr_metrics r;
               rv_invocations := view <$> cr_tool_invocations r |}) ∧
  (∀ id created model r,
     read_extraction (make_extraction_body to_string id created model r) =
       Some ({| rv_id := id; rv_created := created; rv_model := model; rv_text := ex_text r;
                rv_usage := ex_usage r; rv_metrics := ex_metrics r;
                rv_invocations := view <$> ex_tool_invocations r |}, ex_data r)) ∧
  (∀ summary, read_session (make_session_body summary) = Some summary) ∧
  (∀ e, read_error (http_status e) (make_error_body e) = Some e) ∧
  (∀ e, let a := map_runtime_error_to_api_error e in
     message a = re_message e ∧ is_Some (code a) ∧
     (http_status a = 503%Z ↔ re_code e ∈ [AgentNotRunning; RequestCancelled; QueueFull])).
Proof.
  split_and!.
  - exact read_made_completion.
  - exact read_made_extraction.
  - by intros [].
  - intros [s m t [p|] [c|]]; done.
  - intros e. cbv zeta. unfold map_runtime_error_to_api_error.
    destruct (re_code e); simpl; (split; [done|]); (split; [done|]);
      (split; intros Hx; [try discriminate Hx; set_solver|revert Hx; clear; set_solver]).
Qed.
End Reading.

Module Witness.
Import ZooDemo.

Definition wires : list WireMessage :=
  [WPlain System "be brief"; WPlain User "what time is it?";
   WCalls "" [{| tc_id := "c1"; tc_name := "clock"; tc_arguments_json := "{}" |}];
   WTool "noon" "c1"].

Definition ov : GenerationOverrides :=
  {| ov_temperature := Some (S754_finite false 8388608 (-24)%Z); ov_top_p := None; ov_top_k := Some 40%Z;
     ov_repeat_penalty := None; ov_repeat_last_n := None; ov_max_tokens := Some 256%Z;
     ov_seed := Some (-1)%Z; ov_stop := Some ["END"]; ov_record_tool_trace := Some true |}.

(** A parser that knows two texts. *)
#[export] Instance lib : JsonLib := {|
  json_parse body :=
    if decide (body = "chat") then Value (encode_chat_request "m" wires true (Some "sess-1") ov)
    else Unexpected "syntax error";
  json_dump _ := Value "";
|}.

Lemma chat_request_roundtrip_witness :
  parse_chat_completion_request "chat" =
    Value {| ccr_model := "m"; ccr_messages := received <$> wires; ccr_stream := true;
             ccr_session_id := Some "sess-1"; ccr_overrides := ov |} ∧
  length (received <$> wires) = 4.
Proof.
  split; [|reflexivity].
  apply (chat_request_roundtrip "chat" "m" wires true (Some "sess-1") ov);
    [reflexivity|done|done|done|by repeat constructor|by repeat split|].
  split; [|split; [vm_compute; reflexivity|done]]. unfold overrides_fit, int_fits, in_int32. simpl. lia.
Defined.

Lemma accepted_requests_well_formed_witness :
  ∃ r, parse_chat_completion_request "chat" = Value r ∧ accepted_after [] (ccr_messages r).
Proof.
  eexists. split; [vm_compute; reflexivity|].
  edestruct (proj1 (accepted_requests_well_formed "chat")) as (j & _ & Hwf);
    [vm_compute; reflexivity|]. apply Hwf.
Defined.

Definition big : json := JObject [("top_k", JInteger 4294967297)].

Lemma integer_overrides_truncated_witness :
  ∃ o, parse_generation_overrides big = Value o ∧ ov_top_k o = Some 1%Z.
Proof.
  eexists. split; [reflexivity|].
  pose proof (integer_overrides_truncated big _ eq_refl) as Hall. inversion Hall as [|? ? Hk]. 
  exact (proj1 (Hk 4294967297%Z eq_refl)).
Defined.
End Witness.
