(* ===== verification/Streaming.v ===== *)
(** * streaming.cpp: server-sent event frames

    The frames of a streamed completion, built as text.  [render] is the reference
    they are compared with: the compact printer of a JSON value. *)

From S2P Require Import Prelude ApiTypes Json.

Definition dquote : Ascii.ascii := "034"%char.
Definition backslash : Ascii.ascii := "092"%char.
Definition newline : Ascii.ascii := "010"%char.

(** [hex\[n\]] *)
Definition hex_digit (n : N) : Ascii.ascii :=
  default "0"%char (String.get (N.to_nat n) "0123456789abcdef").

(** The [switch] of [append_json_escaped]. *)
Definition escape_char (c : Ascii.ascii) : string :=
  let pair x := String backslash (String x "") in
  if decide (c = dquote) then pair dquote
  else if decide (c = backslash) then pair backslash
  else if decide (c = "008"%char) then pair "b"%char
  else if decide (c = "012"%char) then pair "f"%char
  else if decide (c = newline) then pair "n"%char
  else if decide (c = "013"%char) then pair "r"%char
  else if decide (c = "009"%char) then pair "t"%char
  else
    let code := Ascii.N_of_ascii c in
    if bool_decide (code < 32)%N then
      "\u00" +:+ String (hex_digit (N.land (N.shiftr code 4) 15))
                   (String (hex_digit (N.land code 15)) "")
    else String c "".

Fixpoint append_json_escaped (out sv : string) : string :=
  match sv with
  | EmptyString => out
  | String c sv => append_json_escaped (out +:+ escape_char c) sv
  end.

Definition q : string := String dquote "".
Definition nl2 : string := String newline (String newline "").

Definition make_chunk_impl (completion_id : string) (created : Z) (model_id : string)
    (content : option string) (include_role : bool) (finish_reason : option string) : string :=
  let result := "data: {" +:+ q +:+ "id" +:+ q +:+ ":" +:+ q in
  let result := append_json_escaped result completion_id in
  let result := result +:+ q +:+ "," +:+ q +:+ "object" +:+ q +:+ ":" +:+ q +:+
                "chat.completion.chunk" +:+ q +:+ "," +:+ q +:+ "created" +:+ q +:+ ":" in
  let result := result +:+ pretty created in
  let result := result +:+ "," +:+ q +:+ "model" +:+ q +:+ ":" +:+ q in
  let result := append_json_escaped result model_id in
  let result := result +:+ q +:+ "," +:+ q +:+ "choices" +:+ q +:+ ":[{" +:+ q +:+ "index" +:+ q +:+
                ":0," +:+ q +:+ "delta" +:+ q +:+ ":{" in
  let has_delta_field := include_role in
  let result :=
    if include_role
    then result +:+ q +:+ "role" +:+ q +:+ ":" +:+ q +:+ "assistant" +:+ q else result in
  let result :=
    match content with
    | Some content =>
        let result := if has_delta_field then result +:+ "," else result in
        let result := result +:+ q +:+ "content" +:+ q +:+ ":" +:+ q in
        append_json_escaped result content +:+ q
    | None => result
    end in
  let result := result +:+ "}," +:+ q +:+ "finish_reason" +:+ q +:+ ":" in
  let result :=
    match finish_reason with
    | Some finish_reason => append_json_escaped (result +:+ q) finish_reason +:+ q
    | None => result +:+ "null"
    end in
  result +:+ "}]}" +:+ nl2.

Definition make_first_streaming_chunk (completion_id : string) (created : Z) (model_id : string)
    (content finish_reason : option string) : string :=
  make_chunk_impl completion_id created model_id content true finish_reason.

Definition make_streaming_chunk (completion_id : string) (created : Z) (model_id : string)
    (content finish_reason : option string) : string :=
  make_chunk_impl completion_id created model_id content false finish_reason.

(** [dump] may throw. *)
Definition make_sse_data `{JsonLib} (payload : json) : expected string string :=
  try! text := json_dump payload in Value ("data: " +:+ text +:+ nl2).

Definition make_sse_done : string := "data: [DONE]" +:+ nl2.

(** ** Reference printer *)

Fixpoint escape (s : string) : string :=
  match s with EmptyString => "" | String c s => escape_char c +:+ escape s end.

Definition render_string (s : string) : string := q +:+ escape s +:+ q.

Fixpoint join (sep : string) (l : list string) : string :=
  match l with
  | [] => ""
  | [s] => s
  | s :: l => s +:+ sep +:+ join sep l
  end.

(** Compact JSON text; numbers with a fraction are not needed here. *)
Fixpoint render (j : json) : string :=
  match j with
  | JNull => "null"
  | JBoolean b => if b then "true" else "false"
  | JInteger z => pretty z
  | JFloat _ => ""
  | JString s => render_string s
  | JArray l => "[" +:+ join "," (render <$> l) +:+ "]"
  | JObject l => "{" +:+ join "," ((λ kv, render_string (fst kv) +:+ ":" +:+ render (snd kv)) <$> l) +:+ "}"
  end.

(** The chunk as a JSON value. *)
Definition chunk_json (completion_id : string) (created : Z) (model_id : string)
    (content : option string) (include_role : bool) (finish_reason : option string) : json :=
  JObject
    [("id", JString completion_id); ("object", JString "chat.completion.chunk");
     ("created", JInteger created); ("model", JString model_id);
     ("choices", JArray [JObject
        [("index", JInteger 0);
         ("delta", JObject ((if include_role then [("role", JString "assistant")] else []) ++
                            jopt "content" JString content));
         ("finish_reason", match finish_reason with Some r => JString r | None => JNull end)]])].

(** ** Reading an escaped text back *)

Definition hex_value (c : Ascii.ascii) : option N :=
  let n := Ascii.N_of_ascii c in
  if bool_decide (48 ≤ n ≤ 57)%N then Some (n - 48)%N
  else if bool_decide (97 ≤ n ≤ 102)%N then Some (n - 87)%N else None.

Definition unescape_short (c : Ascii.ascii) : option Ascii.ascii :=
  if decide (c = dquote) then Some dquote
  else if decide (c = backslash) then Some backslash
  else if decide (c = "b"%char) then Some "008"%char
  else if decide (c = "f"%char) then Some "012"%char
  else if decide (c = "n"%char) then Some newline
  else if decide (c = "r"%char) then Some "013"%char
  else if decide (c = "t"%char) then Some "009"%char
  else None.

(** The contents of a JSON string literal; [None] on anything a literal may not hold. *)
Fixpoint unescape (s : string) : option string :=
  match s with
  | EmptyString => Some ""
  | String c s =>
      if decide (c = backslash) then
        match s with
        | String x s =>
            if decide (x = "u"%char) then
              match s with
              | String z (String z' (String h (String l s))) =>
                  if decide (z = "0"%char ∧ z' = "0"%char) then
                    h ← hex_value h; l ← hex_value l; r ← unescape s;
                    Some (String (Ascii.ascii_of_N (16 * h + l)) r)
                  else None
              | _ => None
              end
            else c ← unescape_short x; r ← unescape s; Some (String c r)
        | EmptyString => None
        end
      else if decide (c = dquote) then None
      else if bool_decide (Ascii.N_of_ascii c < 32)%N then None
      else r ← unescape s; Some (String c r)
  end.

(** No character of the string satisfies [P]. *)
Fixpoint string_forall (P : Ascii.ascii → bool) (s : string) : bool :=
  match s with EmptyString => true | String c s => P c && string_forall P s end.

Definition printable (c : Ascii.ascii) : bool := bool_decide (32 ≤ Ascii.N_of_ascii c)%N.

(** ** Proofs *)

Lemma append_json_escaped_escape out sv : append_json_escaped out sv = out +:+ escape sv.
Proof.
  revert out. induction sv as [|c sv IH]; intros out; simpl; [by rewrite string_app_nil_r|].
  by rewrite IH, string_app_assoc.
Qed.

Lemma control_char_hex c :
  (Ascii.N_of_ascii c < 32)%N →
  ∃ h l, hex_value (hex_digit (N.land (N.shiftr (Ascii.N_of_ascii c) 4) 15)) = Some h ∧
         hex_value (hex_digit (N.land (Ascii.N_of_ascii c) 15)) = Some l ∧
         Ascii.ascii_of_N (16 * h + l) = c.
Proof.
  destruct c as [[] [] [] [] [] [] [] []]; cbn; intros Hc; try lia; do 2 eexists; by vm_compute.
Qed.

Lemma unescape_escape_char c s :
  unescape (escape_char c +:+ s) = (r ← unescape s; Some (String c r)).
Proof.
  unfold escape_char. cbv zeta.
  repeat match goal with |- context [decide (c = ?x)] =>
    destruct (decide (c = x)) as [->|]; [reflexivity|] end.
  case_bool_decide as Hc; rewrite !string_app_cons; cbn [unescape].
  - destruct (control_char_hex c Hc) as (h & l & Hh & Hl & Heq).
    generalize dependent (hex_digit (N.land (N.shiftr (Ascii.N_of_ascii c) 4) 15)).
    generalize dependent (hex_digit (N.land (Ascii.N_of_ascii c) 15)).
    intros dl Hl dh Hh. simpl. rewrite Hh, Hl. simpl. by rewrite Heq.
  - rewrite decide_False, decide_False by done. by rewrite bool_decide_false.
Qed.

Lemma unescape_escape s : unescape (escape s) = Some s.
Proof. induction s as [|c s IH]; simpl; [done|]. by rewrite unescape_escape_char, IH. Qed.

Lemma string_forall_app P a b : string_forall P (a +:+ b) = string_forall P a && string_forall P b.
Proof. induction a as [|c a IH]; [done|]. rewrite string_app_cons. simpl. by rewrite IH, andb_assoc. Qed.

Lemma escape_char_printable c : string_forall printable (escape_char c) = true.
Proof. destruct c as [[] [] [] [] [] [] [] []]; by vm_compute. Qed.

Lemma escape_printable s : string_forall printable (escape s) = true.
Proof. induction s as [|c s IH]; simpl; [done|]. by rewrite string_forall_app, escape_char_printable, IH. Qed.

Lemma pretty_N_go_printable n acc :
  string_forall printable acc = true → string_forall printable (pretty_N_go n acc) = true.
Proof.
  revert acc. induction (N.lt_wf_0 n) as [n _ IH]; intros acc Hacc.
  destruct (decide (n = 0)%N) as [->|Hn]; [by rewrite pretty_N_go_0|].
  rewrite pretty_N_go_step by lia. apply IH; [apply N.div_lt; lia|].
  simpl. rewrite Hacc. generalize (n `mod` 10)%N. intros d.
  unfold pretty_N_char. by repeat case_match.
Qed.

Lemma pretty_N_printable (n : N) : string_forall printable (pretty n) = true.
Proof. unfold pretty, pretty_N. case_decide; [done|]. by apply pretty_N_go_printable. Qed.

Lemma pretty_Z_printable (z : Z) : string_forall printable (pretty z) = true.
Proof.
  destruct z as [|n|n]; [done|apply pretty_N_printable|].
  change (pretty (Z.neg n)) with ("-" +:+ pretty (N.pos n)).
  rewrite string_forall_app. apply pretty_N_printable.
Qed.

#[export] Hint Rewrite append_json_escaped_escape : server.

Lemma render_string_printable s : string_forall printable (render_string s) = true.
Proof.
  unfold render_string. rewrite !string_forall_app. rewrite escape_printable. done.
Qed.

(** The printer on an object or an array, one member at a time. *)
Lemma chunk_json_printable id created model content role finish :
  string_forall printable (render (chunk_json id created model content role finish)) = true.
Proof.
  unfold chunk_json. destruct role, content, finish; simpl;
    rewrite ?string_forall_app, ?render_string_printable, ?escape_printable, ?pretty_Z_printable;
    reflexivity.
Qed.

(** C31: The hand-built stream chunk is exactly the compact JSON of the chunk object between
    "data: " and a blank line, for every id, model, content (the role field, the content and the
    finish reason each present or not), and any bytes in them: the payload holds no control
    character, so the frame is one event on one line, and unescaping a text of the payload gives
    the bytes that were streamed. *)
Theorem streaming_chunk_exact (id : string) (created : Z) (model : string) (content : option string)
    (role : bool) (finish : option string) :
  make_chunk_impl id created model content role finish =
    "data: " +:+ render (chunk_json id created model content role finish) +:+ nl2 ∧
  string_forall printable (render (chunk_json id created model content role finish)) = true ∧
  (∀ s, unescape (escape s) = Some s).
Proof.
  split; [|split; [apply chunk_json_printable|apply unescape_escape]].
  unfold make_chunk_impl, chunk_json. cbv zeta.
  rewrite ?append_json_escaped_escape.
  destruct role, content, finish; cbn [render join fmap list_fmap fst snd jopt app];
    unfold render_string; rewrite ?append_json_escaped_escape, ?string_app_assoc; reflexivity.
Qed.
