(* ===== verification/StreamSession.v ===== *)
(** * completion_controller.cpp, api_routes.cpp: the streaming sessions

    [StreamingSession] (chat) and [ExtractionStreamingSession] share their
    buffering, flushing and closing; they differ in the frames they build.
    [Frontend] holds that difference, the rest is one model.  Every block under
    [mutex_] is one section of a [prog]; the calls made after the lock is released
    (the cancel callback, the stream's [close]) are sections of their own. *)

From S2P Require Import Prelude Atomic ApiTypes Json ApiJson Streaming.

Record Meta : Type := { meta_id : string; meta_created : Z; meta_model : string }.

(** The frames of a session; building one may throw ([dump]).  The two booleans
    are [sent_role_] and [sent_content_]. *)
Record Frontend (R : Type) : Type := {
  token_frame : bool → Meta → string → Result string;
  success_frames : bool → bool → Meta → R → Result (list string);
  result_has_content : R → bool;
  error_frames : bool → bool → ApiError → Result (list string);
}.
Arguments token_frame {R}.
Arguments success_frames {R}.
Arguments result_has_content {R}.
Arguments error_frames {R}.

(** ** The two front ends *)

Definition chat_token_frame (sent_role : bool) (m : Meta) (token : string) : Result string :=
  Value (if negb sent_role
         then make_first_streaming_chunk (meta_id m) (meta_created m) (meta_model m) (Some token) None
         else make_streaming_chunk (meta_id m) (meta_created m) (meta_model m) (Some token) None).

Definition chat_success_frames (sent_role sent_content : bool) (m : Meta) (response : CompletionResult)
    : Result (list string) :=
  let text := cr_text response in
  let first c := make_first_streaming_chunk (meta_id m) (meta_created m) (meta_model m) c None in
  let more c f := make_streaming_chunk (meta_id m) (meta_created m) (meta_model m) c f in
  Value ((if negb sent_role then [first (if is_empty text then None else Some text)]
          else if negb sent_content && negb (is_empty text) then [more (Some text) None] else []) ++
         [more None (Some "stop"); make_sse_done]).

Definition chat_error_frames `{JsonLib} (sent_role sent_content : bool) (error : ApiError)
    : Result (list string) :=
  if negb sent_content && negb sent_role
  then try! frame := make_sse_data (make_error_body error) in Value [frame]
  else Value [].

Definition chat_frontend `{JsonLib} : Frontend CompletionResult :=
  {| token_frame := chat_token_frame; success_frames := chat_success_frames;
     result_has_content r := negb (is_empty (cr_text r)); error_frames := chat_error_frames |}.

Definition extraction_frontend `{JsonLib} (to_string : ToolInvocationStatus → string)
    : Frontend ExtractionResult :=
  {| token_frame _ _ token := make_sse_data (jobject [("delta", JString token)]);
     success_frames _ _ m response :=
       try! frame := make_sse_data
         (make_extraction_body to_string (meta_id m) (meta_created m) (meta_model m) response) in
       Value [frame; make_sse_done];
     result_has_content _ := true;
     error_frames _ _ error := try! frame := make_sse_data (make_error_body error) in Value [frame] |}.

(** ** State *)

Record StreamState : Type := {
  meta : Meta;
  metadata_ready_ : bool;
  stream_ : bool;                   (* attached, and not moved out by [close] *)
  buffered_frames_ : list string;
  pending_tokens_ : list string;
  cancel_callback_ : bool;          (* set *)
  closing_ : bool;
  sent_role_ : bool;
  sent_content_ : bool;
  (* what the outside sees *)
  wire : list string;               (* frames [send] accepted *)
  sends : nat;                      (* calls of [send] *)
  stream_closes : nat;
  cancels : nat;
}.

Definition new_session : StreamState :=
  {| meta := {| meta_id := ""; meta_created := 0; meta_model := "" |}; metadata_ready_ := false;
     stream_ := false; buffered_frames_ := []; pending_tokens_ := []; cancel_callback_ := false;
     closing_ := false; sent_role_ := false; sent_content_ := false; wire := []; sends := 0;
     stream_closes := 0; cancels := 0 |}.

Definition with_meta (m : Meta) (s : StreamState) : StreamState :=
  {| meta := m; metadata_ready_ := true; stream_ := stream_ s;
     buffered_frames_ := buffered_frames_ s; pending_tokens_ := [];
     cancel_callback_ := cancel_callback_ s; closing_ := closing_ s; sent_role_ := sent_role_ s;
     sent_content_ := sent_content_ s; wire := wire s; sends := sends s;
     stream_closes := stream_closes s; cancels := cancels s |}.

Definition with_pending (l : list string) (s : StreamState) : StreamState :=
  {| meta := meta s; metadata_ready_ := metadata_ready_ s; stream_ := stream_ s;
     buffered_frames_ := buffered_frames_ s; pending_tokens_ := l;
     cancel_callback_ := cancel_callback_ s; closing_ := closing_ s; sent_role_ := sent_role_ s;
     sent_content_ := sent_content_ s; wire := wire s; sends := sends s;
     stream_closes := stream_closes s; cancels := cancels s |}.

Definition with_buffer (l : list string) (s : StreamState) : StreamState :=
  {| meta := meta s; metadata_ready_ := metadata_ready_ s; stream_ := stream_ s;
     buffered_frames_ := l; pending_tokens_ := pending_tokens_ s;
     cancel_callback_ := cancel_callback_ s; closing_ := closing_ s; sent_role_ := sent_role_ s;
     sent_content_ := sent_content_ s; wire := wire s; sends := sends s;
     stream_closes := stream_closes s; cancels := cancels s |}.

Definition with_stream (attached closing : bool) (s : StreamState) : StreamState :=
  {| meta := meta s; metadata_ready_ := metadata_ready_ s; stream_ := attached;
     buffered_frames_ := buffered_frames_ s; pending_tokens_ := pending_tokens_ s;
     cancel_callback_ := cancel_callback_ s; closing_ := closing; sent_role_ := sent_role_ s;
     sent_content_ := sent_content_ s; wire := wire s; sends := sends s;
     stream_closes := stream_closes s; cancels := cancels s |}.

Definition with_sent (role content : bool) (s : StreamState) : StreamState :=
  {| meta := meta s; metadata_ready_ := metadata_ready_ s; stream_ := stream_ s;
     buffered_frames_ := buffered_frames_ s; pending_tokens_ := pending_tokens_ s;
     cancel_callback_ := cancel_callback_ s; closing_ := closing_ s; sent_role_ := role;
     sent_content_ := content; wire := wire s; sends := sends s;
     stream_closes := stream_closes s; cancels := cancels s |}.

Definition with_cancel_callback (s : StreamState) : StreamState :=
  {| meta := meta s; metadata_ready_ := metadata_ready_ s; stream_ := stream_ s;
     buffered_frames_ := buffered_frames_ s; pending_tokens_ := pending_tokens_ s;
     cancel_callback_ := true; closing_ := closing_ s; sent_role_ := sent_role_ s;
     sent_content_ := sent_content_ s; wire := wire s; sends := sends s;
     stream_closes := stream_closes s; cancels := cancels s |}.

Definition with_wire (w : list string) (n closes cancelled : nat) (s : StreamState) : StreamState :=
  {| meta := meta s; metadata_ready_ := metadata_ready_ s; stream_ := stream_ s;
     buffered_frames_ := buffered_frames_ s; pending_tokens_ := pending_tokens_ s;
     cancel_callback_ := cancel_callback_ s; closing_ := closing_ s; sent_role_ := sent_role_ s;
     sent_content_ := sent_content_ s; wire := w; sends := n;
     stream_closes := closes; cancels := cancelled |}.

Section Session.
Context {R : Type}.
Variable fe : Frontend R.
(** Does the [n]-th call of the stream's [send] succeed? *)
Variable send_ok : nat → bool.

(** [stream_->send(frame)]. *)
Definition send (frame : string) (s : StreamState) : StreamState * bool :=
  let ok := send_ok (sends s) in
  (with_wire (if ok then wire s ++ [frame] else wire s) (S (sends s)) (stream_closes s) (cancels s) s,
   ok).

Record DeferredActions : Type := { should_close : bool; cancel_cb : bool }.

Definition no_actions : DeferredActions := {| should_close := false; cancel_cb := false |}.

Definition push_frame_locked (frame : string) (s : StreamState) : StreamState * DeferredActions :=
  if closing_ s then (s, no_actions)
  else if negb (stream_ s) then (with_buffer (buffered_frames_ s ++ [frame]) s, no_actions)
  else
    let '(s, ok) := send frame s in
    if ok then (s, no_actions)
    else (with_stream (stream_ s) true s,
          {| should_close := true; cancel_cb := cancel_callback_ s |}).

Fixpoint push_frames_locked (frames : list string) (s : StreamState)
    : StreamState * list DeferredActions :=
  match frames with
  | [] => (s, [])
  | f :: frames =>
      let '(s, d) := push_frame_locked f s in
      let '(s, ds) := push_frames_locked frames s in
      (s, d :: ds)
  end.

(** The cancel callback runs outside the lock. *)
Definition call_cancel : prog StreamState unit :=
  atomically (λ s, (with_wire (wire s) (sends s) (stream_closes s) (S (cancels s)) s, ())).

Definition execute_deferred (d : DeferredActions) : prog StreamState unit :=
  if cancel_cb d then call_cancel else Ret ().

Fixpoint execute_all (ds : list DeferredActions) : prog StreamState unit :=
  match ds with
  | [] => Ret ()
  | d :: ds => do! _ := execute_deferred d in execute_all ds
  end.

Definition close_stream : prog StreamState unit :=
  atomically (λ s, (with_wire (wire s) (sends s) (S (stream_closes s)) (cancels s) s, ())).

(** [close]'s block; was there a stream to close? *)
Definition close_section (s : StreamState) : StreamState * bool :=
  if closing_ s && negb (stream_ s) then (s, false)
  else
    let had_stream := stream_ s in
    let s := with_stream false true s in
    (if had_stream then with_buffer [] s else s, had_stream).

Definition close : prog StreamState unit :=
  do! had_stream := atomically close_section in
  if had_stream then close_stream else Ret ().

(** [push_token]'s block: [None] when the token was put aside. *)
Definition push_section (token : string) (s : StreamState)
    : StreamState * Result (option DeferredActions) :=
  if negb (metadata_ready_ s)
  then (with_pending (pending_tokens_ s ++ [token]) s, Value None)
  else
    match token_frame fe (sent_role_ s) (meta s) token with
    | Unexpected what => (s, Unexpected what)
    | Value frame =>
        let s := with_sent true true s in
        let '(s, d) := push_frame_locked frame s in (s, Value (Some d))
    end.

(** [Unexpected] is an exception that leaves the method. *)
Definition push_token (token : string) : prog StreamState (Result unit) :=
  if is_empty token then Ret (Value ())
  else
    do! r := atomically (push_section token) in
    match r with
    | Unexpected what => Ret (Unexpected what)
    | Value None => Ret (Value ())
    | Value (Some d) =>
        do! _ := execute_deferred d in
        do! _ := (if should_close d then close else Ret ()) in
        Ret (Value ())
    end.

Definition metadata_section (m : Meta) (s : StreamState) : StreamState * list string :=
  (with_meta m s, pending_tokens_ s).

(** The loop of [set_metadata] over the tokens it took; the lock is free between them. *)
Fixpoint push_tokens (tokens : list string) : prog StreamState (Result unit) :=
  match tokens with
  | [] => Ret (Value ())
  | t :: tokens =>
      do! r := push_token t in
      match r with Unexpected what => Ret (Unexpected what) | Value _ => push_tokens tokens end
  end.

Definition set_metadata (m : Meta) : prog StreamState (Result unit) :=
  do! pending := atomically (metadata_section m) in push_tokens pending.

Definition set_cancel_callback : prog StreamState (Result unit) :=
  do! _ := atomically (λ s, (with_cancel_callback s, ())) in Ret (Value ()).

(** [attach_stream]'s loop: stop at the first frame that cannot be sent. *)
Fixpoint flush (frames : list string) (s : StreamState) : StreamState * bool :=
  match frames with
  | [] => (s, true)
  | f :: frames =>
      let '(s, ok) := send f s in
      if ok then flush frames s else (s, false)
  end.

Definition attach_section (s : StreamState) : StreamState * DeferredActions :=
  let s := with_stream true (closing_ s) s in
  let '(s, ok) := flush (buffered_frames_ s) s in
  let s := if ok then s else with_stream true true s in
  let s := with_buffer [] s in
  (s, {| should_close := closing_ s; cancel_cb := negb ok && cancel_callback_ s |}).

Definition attach_stream : prog StreamState (Result unit) :=
  do! d := atomically attach_section in
  do! _ := execute_deferred d in
  do! _ := (if should_close d then close_stream else Ret ()) in
  Ret (Value ()).

Definition success_section (response : R) (s : StreamState)
    : StreamState * Result (list DeferredActions) :=
  match success_frames fe (sent_role_ s) (sent_content_ s) (meta s) response with
  | Unexpected what => (s, Unexpected what)
  | Value frames =>
      let s := with_sent true (sent_content_ s || result_has_content fe response) s in
      let '(s, ds) := push_frames_locked frames s in (s, Value ds)
  end.

Definition finish_success (response : R) : prog StreamState (Result unit) :=
  do! r := atomically (success_section response) in
  match r with
  | Unexpected what => Ret (Unexpected what)
  | Value ds => do! _ := execute_all ds in do! _ := close in Ret (Value ())
  end.

Definition error_section (error : ApiError) (s : StreamState)
    : StreamState * Result (list DeferredActions) :=
  match error_frames fe (sent_role_ s) (sent_content_ s) error with
  | Unexpected what => (s, Unexpected what)
  | Value frames => let '(s, ds) := push_frames_locked frames s in (s, Value ds)
  end.

Definition finish_error (error : ApiError) : prog StreamState (Result unit) :=
  do! r := atomically (error_section error) in
  match r with
  | Unexpected what => Ret (Unexpected what)
  | Value ds => do! _ := execute_all ds in do! _ := close in Ret (Value ())
  end.

(** The calls other threads make on a session. *)
Inductive SessionCall : Type :=
| SetMetadata (m : Meta)
| SetCancel
| Attach
| PushToken (token : string)
| FinishSuccess (response : R)
| FinishError (error : ApiError)
| Close.

Definition session_call (c : SessionCall) : prog StreamState (Result unit) :=
  match c with
  | SetMetadata m => set_metadata m
  | SetCancel => set_cancel_callback
  | Attach => attach_stream
  | PushToken t => push_token t
  | FinishSuccess r => finish_success r
  | FinishError e => finish_error e
  | Close => do! _ := close in Ret (Value ())
  end.
End Session.
