(* ===== verification/StreamSessionProofs.v ===== *)
(** * Properties of the streaming sessions *)

From S2P Require Import Prelude Atomic ApiTypes Json ApiJson Streaming StreamSession.

Section Proofs.
Context {R : Type}.
Variable fe : Frontend R.

(** ** A stream that failed or was closed stays silent *)

Section AnySends.
Variable send_ok : nat → bool.

(** Nothing is left to send and nothing more will be accepted. *)
Definition cut (s : StreamState) : Prop := closing_ s = true ∧ buffered_frames_ s = [].

(** What every section preserves: an attached stream has no buffer, and a failed [send] was the
    last one. *)
Record session_wf (s : StreamState) : Prop := {
  wf_attached : stream_ s = true → buffered_frames_ s = [];
  wf_failed : ∀ n, n < sends s → send_ok n = false → cut s;
}.

(** The wire does not move any more. *)
Definition silent (s s' : StreamState) : Prop :=
  cut s → cut s' ∧ wire s' = wire s ∧ sends s' = sends s.

Definition good_step (s s' : StreamState) : Prop := (session_wf s → session_wf s') ∧ silent s s'.

#[export] Instance good_step_preorder : PreOrder good_step.
Proof.
  split.
  - by intros s.
  - intros s1 s2 s3 [Hw1 Hs1] [Hw2 Hs2]. split; [auto|]. intros Hc.
    destruct (Hs1 Hc) as (Hc2 & ? & ?). destruct (Hs2 Hc2) as (Hc3 & ? & ?).
    repeat split; try apply Hc3; congruence.
Qed.

Lemma new_session_wf : session_wf new_session.
Proof. split; simpl; [done|lia]. Qed.

(** Sections that leave the buffer, the flags and the wire alone. *)
Lemma good_same s s' :
  stream_ s' = stream_ s → buffered_frames_ s' = buffered_frames_ s →
  closing_ s' = closing_ s → wire s' = wire s → sends s' = sends s → good_step s s'.
Proof.
  intros Hst Hb Hc Hw Hn. split.
  - intros [Ha Hf]. split; unfold cut in *; rewrite ?Hst, ?Hb, ?Hc, ?Hn; auto.
  - intros [Hcl Hbl]. unfold cut. rewrite Hb, Hc. auto.
Qed.

Lemma push_frame_good frame s : good_step s (fst (push_frame_locked send_ok frame s)).
Proof.
  unfold push_frame_locked. destruct (closing_ s) eqn:Hc; [reflexivity|].
  destruct (stream_ s) eqn:Hst; simpl.
  - destruct (send_ok (sends s)) eqn:Hok; simpl; split; try (intros [Hcl _]; congruence);
      intros [Ha Hf]; split; simpl; auto.
    + intros n Hn Hbad. destruct (decide (n = sends s)) as [->|]; [congruence|].
      unfold cut in *. simpl. destruct (Hf n ltac:(lia) Hbad). congruence.
    + intros n _ _. split; simpl; auto.
  - split; [|intros [Hcl _]; congruence]. intros [Ha Hf]. split; simpl; [congruence|].
    intros n Hn Hbad. destruct (Hf n Hn Hbad). congruence.
Qed.

Lemma push_frames_good frames s : good_step s (fst (push_frames_locked send_ok frames s)).
Proof.
  revert s. induction frames as [|f frames IH]; intros s; simpl; [reflexivity|].
  pose proof (push_frame_good f s) as Hf.
  destruct (push_frame_locked send_ok f s) as [s1 d] eqn:H1. simpl in Hf.
  specialize (IH s1). destruct (push_frames_locked send_ok frames s1) as [s2 ds]. simpl in *.
  by transitivity s1.
Qed.

Lemma push_section_good token s : good_step s (fst (push_section fe send_ok token s)).
Proof.
  unfold push_section. destruct (negb (metadata_ready_ s)); [by apply good_same|].
  destruct (token_frame _ _ _ _) as [frame|]; [|reflexivity].
  pose proof (push_frame_good frame (with_sent true true s)) as Hf.
  destruct (push_frame_locked _ _ _) as [s1 d]. simpl in *.
  transitivity (with_sent true true s); [by apply good_same|done].
Qed.

Lemma close_section_good s : good_step s (fst (close_section s)).
Proof.
  unfold close_section. destruct (closing_ s && negb (stream_ s)) eqn:Hc; [reflexivity|].
  destruct (stream_ s) eqn:Hst; simpl; split.
  - intros [Ha Hf]. split; simpl; [done|]. intros n _ _. by split.
  - intros [Hcl Hb]. by split.
  - intros [Ha Hf]. split; simpl; [done|]. intros n Hn Hbad. split; simpl; [done|].
    by destruct (Hf n Hn Hbad).
  - intros [Hcl Hb]. by split.
Qed.

(** The flush stops at the first failure, which is then the last send. *)
Lemma flush_spec frames s :
  let '(s', ok) := flush send_ok frames s in
  closing_ s' = closing_ s ∧ buffered_frames_ s' = buffered_frames_ s ∧ stream_ s' = stream_ s ∧
  (frames = [] → s' = s) ∧ sends s ≤ sends s' ∧
  ∀ n, sends s ≤ n < sends s' → send_ok n = false → ok = false.
Proof.
  revert s. induction frames as [|f frames IH]; intros s; simpl.
  { repeat split; auto. intros n Hn. lia. }
  destruct (send_ok (sends s)) eqn:Hok; simpl.
  - specialize (IH (with_wire (wire s ++ [f]) (S (sends s)) (stream_closes s) (cancels s) s)).
    destruct (flush _ _ _) as [s' ok]. simpl in IH. destruct IH as (? & ? & ? & _ & Hle & Hn).
    repeat split; try done; [lia|]. intros n Hr Hbad.
    destruct (decide (n = sends s)) as [->|]; [congruence|]. apply (Hn n); [lia|done].
  - repeat split; try done. lia.
Qed.

Lemma attach_section_good s : good_step s (fst (attach_section send_ok s)).
Proof.
  unfold attach_section.
  pose proof (flush_spec (buffered_frames_ s) (with_stream true (closing_ s) s)) as Hfl.
  simpl in Hfl |- *. destruct (flush _ _ _) as [s1 ok].
  destruct Hfl as (Hc & Hb & Hst & Hnil & Hle & Hn). simpl in *. split.
  - intros [Ha Hf]. split; [by destruct ok|]. intros n Hlt Hbad.
    assert (ok = false ∨ closing_ s = true) as Hor.
    { destruct (decide (n < sends s)) as [Hold|]; [right; by apply (Hf n)|].
      left. apply (Hn n); [destruct ok; simpl in Hlt; lia|done]. }
    destruct ok, Hor; split; simpl; congruence.
  - intros [Hcl Hbl]. rewrite (Hnil Hbl) in *. destruct ok; by repeat split.
Qed.

Lemma success_section_good r s : good_step s (fst (success_section fe send_ok r s)).
Proof.
  unfold success_section. destruct (success_frames _ _ _ _ _) as [frames|]; [|reflexivity].
  match goal with |- context [push_frames_locked send_ok frames ?s1] =>
    pose proof (push_frames_good frames s1) as Hf; destruct (push_frames_locked _ _ s1) end.
  simpl in *. etransitivity; [|exact Hf]. by apply good_same.
Qed.

Lemma error_section_good e s : good_step s (fst (error_section fe send_ok e s)).
Proof.
  unfold error_section. destruct (error_frames _ _ _ _) as [frames|]; [|reflexivity].
  pose proof (push_frames_good frames s) as Hf. by destruct (push_frames_locked _ _ _).
Qed.

Lemma execute_deferred_good d : guarantees (good_step) (execute_deferred d).
Proof. unfold execute_deferred. destruct (cancel_cb d); [|done]. intros s. split; [by apply good_same|done]. Qed.

Lemma execute_all_good ds : guarantees good_step (execute_all ds).
Proof.
  induction ds as [|d ds IH]; [done|]. apply guarantees_bind; [apply execute_deferred_good|done].
Qed.

Lemma close_good : guarantees good_step close.
Proof.
  apply guarantees_bind; [apply guarantees_atomically, close_section_good|].
  intros []; [|done]. intros s. split; [by apply good_same|done].
Qed.

Lemma push_token_good token : guarantees good_step (push_token fe send_ok token).
Proof.
  unfold push_token. destruct (is_empty token); [done|].
  apply guarantees_bind; [apply guarantees_atomically, push_section_good|].
  intros [[d|]|what]; [|done|done].
  apply guarantees_bind; [apply execute_deferred_good|]. intros _.
  apply guarantees_bind; [destruct (should_close d); [apply close_good|done]|done].
Qed.

Lemma push_tokens_good tokens : guarantees good_step (push_tokens fe send_ok tokens).
Proof.
  induction tokens as [|t tokens IH]; [done|].
  apply guarantees_bind; [apply push_token_good|]. by intros [].
Qed.

Lemma session_call_good c : guarantees good_step (session_call fe send_ok c).
Proof.
  assert (∀ ds, guarantees good_step
            (do! _ := execute_all ds in do! _ := close in Ret (Value () : Result unit))) as Hend.
  { intros ds. apply guarantees_bind; [apply execute_all_good|]. intros _.
    by apply guarantees_bind; [apply close_good|]. }
  destruct c as [m| | |token|r|e|]; cbn [session_call];
    unfold set_metadata, set_cancel_callback, attach_stream, finish_success, finish_error.
  - apply guarantees_bind; [|intros pending; apply push_tokens_good]. intros s. split; [by apply good_same|done].
  - intros s. split; [by apply good_same|done].
  - apply guarantees_bind; [apply guarantees_atomically, attach_section_good|]. intros d.
    apply guarantees_bind; [apply execute_deferred_good|]. intros _.
    apply guarantees_bind; [|done]. destruct (should_close d); [|done].
    intros s. split; [by apply good_same|done].
  - apply push_token_good.
  - apply guarantees_bind; [apply guarantees_atomically, success_section_good|]. by intros [].
  - apply guarantees_bind; [apply guarantees_atomically, error_section_good|]. by intros [].
  - by apply guarantees_bind; [apply close_good|].
Qed.

(** Any interleaving of calls on one session. *)
Definition session_steps : relation (StreamState * list (prog StreamState (Result unit))) :=
  pool_steps (λ p, ∃ c, p = session_call fe send_ok c).

Lemma session_steps_good c c' :
  session_steps c c' → Forall (guarantees good_step) (snd c) →
  good_step (fst c) (fst c') ∧ Forall (guarantees good_step) (snd c').
Proof.
  intros Hsteps Hps. eapply (pool_steps_guarantee good_step); [apply _| |exact Hsteps|done].
  intros p [call ->]. apply session_call_good.
Qed.

(** C29: A stream that failed stops for good, in every interleaving of token callbacks,
    completion, disconnect and attachment: a [send] the client refused is the last one, the
    frames on the wire are those accepted before it, and from a closed session with nothing
    buffered no call ever sends another frame. *)
Theorem closed_stream_is_silent c c' :
  session_steps (new_session, []) c → session_steps c c' →
  (∀ n, n < sends (fst c) → send_ok n = false → cut (fst c)) ∧
  (cut (fst c) → wire (fst c') = wire (fst c) ∧ sends (fst c') = sends (fst c)).
Proof.
  intros H0 H1.
  destruct (session_steps_good _ _ H0) as [[Hwf _] Hps]; [constructor|].
  destruct (session_steps_good _ _ H1 Hps) as [[_ Hsil] _]. split.
  - apply wf_failed, Hwf, new_session_wf.
  - intros Hc. by destruct (Hsil Hc) as (_ & ? & ?).
Qed.
End AnySends.
End Proofs.

(** ** Order of the tokens *)

Section Race.
Context {R : Type}.
Variable fe : Frontend R.

(** The inference thread streams two tokens, one after the other. *)
Definition inference (a b : string) : prog StreamState (Result unit) :=
  do! _ := push_token fe (λ _, true) a in push_token fe (λ _, true) b.

(** The request thread of [start_stream_completion] up to the attachment of the stream. *)
Definition request_thread (m : Meta) : prog StreamState (Result unit) :=
  do! _ := set_metadata fe (λ _, true) m in
  do! _ := set_cancel_callback in attach_stream (λ _, true).
End Race.

(** A token; the metadata; the other token; the flush of the first; the rest of the request. *)
Definition flush_race : list nat := [0; 1; 0; 1; 1; 1].

Lemma flush_race_reorders {R} (first more : Meta → string → string) fs rc fe_err m a b :
  is_empty a = false → is_empty b = false →
  let fe : Frontend R :=
    {| token_frame sent_role m t := Value (if negb sent_role then first m t else more m t);
       success_frames := fs; result_has_content := rc; error_frames := fe_err |} in
  let c := run_schedule flush_race (new_session, [inference fe a b; request_thread fe m]) in
  snd c = [Ret (Value ()); Ret (Value ())] ∧ wire (fst c) = [first m b; more m a].
Proof.
  intros Ha Hb. destruct a as [|ca a]; [done|]. destruct b as [|cb b]; [done|].
  cbv zeta. split; vm_compute; reflexivity.
Qed.

(** C30: Tokens can be reordered. [set_metadata] marks the metadata ready before it has pushed
    the tokens it took, and the lock is free in between: if the inference thread produced one
    token before and one during the flush, the client receives the second one first (and with
    the role field). *)
Theorem metadata_flush_can_reorder `{JsonLib} (m : Meta) (a b : string) :
  is_empty a = false → is_empty b = false →
  ∃ s, pool_steps (λ _, False)
         (new_session, [inference chat_frontend a b; request_thread chat_frontend m])
         (s, [Ret (Value ()); Ret (Value ())]) ∧
       wire s =
         [make_first_streaming_chunk (meta_id m) (meta_created m) (meta_model m) (Some b) None;
          make_streaming_chunk (meta_id m) (meta_created m) (meta_model m) (Some a) None].
Proof.
  intros Ha Hb.
  destruct (flush_race_reorders
    (λ m t, make_first_streaming_chunk (meta_id m) (meta_created m) (meta_model m) (Some t) None)
    (λ m t, make_streaming_chunk (meta_id m) (meta_created m) (meta_model m) (Some t) None)
    chat_success_frames (λ r, negb (is_empty (cr_text r))) chat_error_frames m a b Ha Hb)
    as [Hdone Hwire].
  exists (fst (run_schedule flush_race
    (new_session, [inference chat_frontend a b; request_thread chat_frontend m]))).
  split; [|exact Hwire].
  change [Ret (Value ()); Ret (Value ())] with ([Ret (Value ()); Ret (Value ())] : list (prog StreamState (Result unit))).
  rewrite <-Hdone, <-surjective_pairing. apply run_schedule_steps.
Qed.

(** ** In-order delivery when the calls do not overlap *)

Section InOrder.
Context {R : Type}.
Variable fe : Frontend R.

#[local] Abbreviation ok := (λ _ : nat, true).

(** The calls one after the other. *)
Fixpoint run_calls (cs : list (SessionCall (R := R))) (s : StreamState) : StreamState :=
  match cs with
  | [] => s
  | c :: cs => run_calls cs (fst (run (session_call fe ok c) s))
  end.

(** The frames of a token sequence; [role] tells whether the role has been sent. *)
Fixpoint token_frames (role : bool) (m : Meta) (tokens : list string) : Result (list string) :=
  match tokens with
  | [] => Value []
  | t :: tokens =>
      if is_empty t then token_frames role m tokens
      else
        try! f := token_frame fe role m t in
        try! fs := token_frames true m tokens in Value (f :: fs)
  end.

(** Has a token been sent? *)
Definition any_token (tokens : list string) : bool := existsb (λ t, negb (is_empty t)) tokens.

Definition tokens_of (cs : list (SessionCall (R := R))) : list string :=
  cs ≫= λ c, match c with PushToken t => [t] | _ => [] end.

(** Calls that may come before the result: tokens, the cancel callback, the stream. *)
Definition quiet (c : SessionCall (R := R)) : bool :=
  match c with PushToken _ | SetCancel | Attach => true | _ => false end.

Definition attaches (cs : list (SessionCall (R := R))) : nat :=
  length (cs ≫= λ c, match c with Attach => [()] | _ => [] end).

Definition nonempty_tokens (ts : list string) : list string :=
  ts ≫= λ t, if is_empty t then [] else [t].

(** The state before the metadata arrive. *)
Record early (ts : list string) (n : nat) (s : StreamState) : Prop := {
  early_ready : metadata_ready_ s = false;
  early_pending : pending_tokens_ s = nonempty_tokens ts;
  early_nothing : wire s = [] ∧ buffered_frames_ s = [] ∧ closing_ s = false;
  early_sent : sent_role_ s = false ∧ sent_content_ s = false;
  early_stream : stream_ s = negb (bool_decide (n = 0));
  early_quiet : stream_closes s = 0 ∧ cancels s = 0;
}.

(** The state between the metadata and the result. *)
Record streaming (m : Meta) (ts : list string) (n : nat) (s : StreamState) : Prop := {
  st_ready : metadata_ready_ s = true ∧ meta s = m ∧ closing_ s = false;
  st_frames : token_frames false m ts = Value (wire s ++ buffered_frames_ s);
  st_sent : sent_role_ s = any_token ts ∧ sent_content_ s = any_token ts;
  st_stream : stream_ s = negb (bool_decide (n = 0));
  st_place : if stream_ s then buffered_frames_ s = [] else wire s = [];
  st_quiet : stream_closes s = 0 ∧ cancels s = 0;
}.

Lemma token_frames_app role m ts ts' :
  token_frames role m (ts ++ ts') =
  (try! fs := token_frames role m ts in
   try! fs' := token_frames (role || any_token ts) m ts' in Value (fs ++ fs')).
Proof.
  revert role. induction ts as [|t ts IH]; intros role; simpl.
  { rewrite orb_false_r. by destruct (token_frames role m ts'). }
  destruct (is_empty t) eqn:Ht; simpl; [by rewrite IH|].
  rewrite orb_true_r. destruct (token_frame fe role m t) as [f|]; simpl; [|done].
  rewrite IH. simpl. destruct (token_frames true m ts) as [fs|]; simpl; [|done].
  by destruct (token_frames true m ts').
Qed.

Lemma any_token_app ts ts' : any_token (ts ++ ts') = any_token ts || any_token ts'.
Proof. apply existsb_app. Qed.

Lemma flush_ok frames s :
  flush ok frames s =
  (with_wire (wire s ++ frames) (sends s + length frames) (stream_closes s) (cancels s) s, true).
Proof.
  revert s. induction frames as [|f frames IH]; intros s; simpl.
  { rewrite app_nil_r, Nat.add_0_r. by destruct s. }
  rewrite IH. simpl. by rewrite <-app_assoc, <-plus_n_Sm.
Qed.

(** Frames go to the stream when it is attached, to the buffer otherwise. *)
Lemma push_frames_ok frames s :
  closing_ s = false →
  ∃ s' ds, push_frames_locked ok frames s = (s', ds) ∧
    ds = replicate (length frames) no_actions ∧
    closing_ s' = false ∧ stream_ s' = stream_ s ∧ metadata_ready_ s' = metadata_ready_ s ∧
    meta s' = meta s ∧ sent_role_ s' = sent_role_ s ∧ sent_content_ s' = sent_content_ s ∧
    pending_tokens_ s' = pending_tokens_ s ∧
    stream_closes s' = stream_closes s ∧ cancels s' = cancels s ∧
    (if stream_ s then wire s' = wire s ++ frames ∧ buffered_frames_ s' = buffered_frames_ s
     else wire s' = wire s ∧ buffered_frames_ s' = buffered_frames_ s ++ frames).
Proof.
  revert s. induction frames as [|f frames IH]; intros s Hc; simpl.
  { do 2 eexists. split; [done|]. rewrite !app_nil_r. by destruct (stream_ s). }
  unfold push_frame_locked, send. rewrite Hc. destruct (stream_ s) eqn:Hst; simpl.
  - edestruct (IH (with_wire (wire s ++ [f]) (S (sends s)) (stream_closes s) (cancels s) s))
      as (s' & ds & -> & -> & H); [done|].
    do 2 eexists. split; [done|]. simpl in H. rewrite Hst in H. rewrite <-app_assoc in H. naive_solver.
  - edestruct (IH (with_buffer (buffered_frames_ s ++ [f]) s)) as (s' & ds & -> & -> & H); [done|].
    do 2 eexists. split; [done|]. simpl in H. rewrite Hst in H. rewrite <-app_assoc in H. naive_solver.
Qed.

Lemma run_push_early t ts n s :
  early ts n s → early (ts ++ [t]) n (fst (run (push_token fe ok t) s)).
Proof.
  intros [Hr Hp Hn Hs Hst Hq]. unfold push_token.
  assert (nonempty_tokens (ts ++ [t]) = nonempty_tokens ts ++ (if is_empty t then [] else [t])) as Ht.
  { unfold nonempty_tokens. rewrite bind_app. simpl. by rewrite app_nil_r. }
  destruct (is_empty t) eqn:He; simpl.
  - split; try done. by rewrite Ht, app_nil_r.
  - unfold push_section. rewrite Hr. simpl. split; try done. simpl. by rewrite Ht, Hp.
Qed.

Lemma early_call c ts n s :
  early ts n s → quiet c = true → n + attaches [c] ≤ 1 →
  early (ts ++ tokens_of [c]) (n + attaches [c]) (fst (run (session_call fe ok c) s)).
Proof.
  intros He Hc Hle. destruct c as [m| | |t|r|e|]; try done; cbn [tokens_of attaches mbind list_bind app];
    rewrite ?app_nil_r, ?Nat.add_0_r; [| |by apply run_push_early].
  - destruct He. by split.
  - destruct He as [Hr Hp (Hw & Hb & Hcl) Hs Hst Hq]. cbn in Hle.
    assert (n = 0) as -> by lia. cbn -[flush]. unfold attach_section.
    rewrite flush_ok. simpl. rewrite Hb, Hcl. simpl. split; simpl; try done.
    by rewrite Hw.
Qed.

Lemma run_push_streaming m t ts n s fs :
  streaming m ts n s → token_frames false m (ts ++ [t]) = Value fs →
  streaming m (ts ++ [t]) n (fst (run (push_token fe ok t) s)) ∧
  snd (run (push_token fe ok t) s) = Value ().
Proof.
  intros [(Hr & Hm & Hc) Hf (Hsr & Hsc) Hst Hpl Hq] Hfs. unfold push_token.
  rewrite token_frames_app, Hf in Hfs. simpl in Hfs.
  assert (any_token (ts ++ [t]) = any_token ts || negb (is_empty t)) as Ha.
  { rewrite any_token_app. simpl. by rewrite orb_false_r. }
  destruct (is_empty t) eqn:He; simpl.
  - split; [|done]. split; try done.
    + rewrite token_frames_app, Hf. simpl. rewrite He. simpl. by rewrite app_nil_r.
    + by rewrite Ha, orb_false_r.
  - unfold push_section. rewrite Hr, Hm, Hsr. simpl.
    destruct (token_frame fe (any_token ts) m t) as [f|] eqn:Htf; [|done].
    destruct (push_frames_ok [f] (with_sent true true s) Hc) as
      (s' & ds & Hpf & -> & H1 & H2 & H3 & H4 & H5 & H6 & H7 & H8 & H9 & H10).
    simpl in Hpf. destruct (push_frame_locked ok f (with_sent true true s)) as [s1 d] eqn:Hd.
    simplify_eq/=. split; [|done]. split.
    + by rewrite H1, H3, H4.
    + rewrite token_frames_app, Hf. simpl. rewrite He, Htf. simpl. f_equal.
      destruct (stream_ s); destruct H10 as [-> ->]; [by rewrite Hpl, !app_nil_r|by rewrite app_assoc].
    + by rewrite H5, H6, Ha, orb_true_r.
    + by rewrite H2.
    + rewrite H2. destruct (stream_ s); destruct H10; congruence.
    + by rewrite H8, H9.
Qed.

Lemma streaming_call m c ts n s fs :
  streaming m ts n s → quiet c = true → n + attaches [c] ≤ 1 →
  token_frames false m (ts ++ tokens_of [c]) = Value fs →
  streaming m (ts ++ tokens_of [c]) (n + attaches [c]) (fst (run (session_call fe ok c) s)).
Proof.
  intros Hs Hc Hle Hfs.
  destruct c as [m'| | |t|r|e|]; try done; cbn [tokens_of attaches mbind list_bind app] in *;
    rewrite ?app_nil_r, ?Nat.add_0_r; [| |by eapply run_push_streaming].
  - destruct Hs. by split.
  - destruct Hs as [(Hr & Hm & Hcl) Hf Hsent Hst Hpl Hq]. cbn in Hle.
    assert (n = 0) as -> by lia. rewrite Hst in Hpl. cbn in Hpl.
    cbn -[flush]. unfold attach_section. rewrite flush_ok. simpl. rewrite Hcl. simpl.
    split; simpl; try done. by rewrite app_nil_r.
Qed.

Lemma token_frames_nonempty role m ts : token_frames role m (nonempty_tokens ts) = token_frames role m ts.
Proof.
  revert role. induction ts as [|t ts IH]; intros role; [done|].
  cbn [nonempty_tokens mbind list_bind token_frames]. fold (nonempty_tokens ts).
  destruct (is_empty t) eqn:He; simpl; [apply IH|]. by rewrite He, IH.
Qed.

Lemma any_token_nonempty ts : any_token (nonempty_tokens ts) = any_token ts.
Proof.
  induction ts as [|t ts IH]; [done|]. unfold any_token in *. simpl.
  destruct (is_empty t) eqn:He; simpl; [done|by rewrite He].
Qed.

Lemma run_push_tokens m ts' ts n s fs :
  streaming m ts n s → token_frames false m (ts ++ ts') = Value fs →
  streaming m (ts ++ ts') n (fst (run (push_tokens fe ok ts') s)).
Proof.
  revert ts s. induction ts' as [|t ts' IH]; intros ts s Hs Hfs; [by rewrite app_nil_r|].
  cbn [push_tokens]. rewrite run_bind.
  rewrite (assoc (++) ts [t] ts' : ts ++ t :: ts' = (ts ++ [t]) ++ ts') in *.
  assert (∃ fs1, token_frames false m (ts ++ [t]) = Value fs1) as [fs1 Hfs1].
  { rewrite token_frames_app in Hfs. destruct (token_frames false m (ts ++ [t])); [eauto|done]. }
  destruct (run_push_streaming m t ts n s fs1 Hs Hfs1) as [Hs1 ->]. by apply IH.
Qed.

Lemma metadata_call m ts n s fs :
  early ts n s → token_frames false m ts = Value fs →
  streaming m ts n (fst (run (session_call fe ok (SetMetadata m)) s)).
Proof.
  intros [Hr Hp (Hw & Hb & Hcl) (Hsr & Hsc) Hst Hq] Hfs. cbn [session_call].
  unfold set_metadata. rewrite run_bind, run_atomically. cbn [metadata_section fst snd].
  rewrite Hp.
  assert (streaming m [] n (with_meta m s)) as H0.
  { split; simpl; try done; [by rewrite Hw, Hb|]. by destruct (stream_ s). }
  pose proof (run_push_tokens m (nonempty_tokens ts) [] n _ fs H0) as Hrun. simpl in Hrun.
  rewrite token_frames_nonempty in Hrun. destruct (Hrun Hfs) as [A B C D E F].
  rewrite any_token_nonempty in C. rewrite token_frames_nonempty in B. by split.
Qed.

Lemma tokens_of_app cs cs' : tokens_of (cs ++ cs') = tokens_of cs ++ tokens_of cs'.
Proof. apply bind_app. Qed.

Lemma attaches_app cs cs' : attaches (cs ++ cs') = attaches cs + attaches cs'.
Proof. unfold attaches. by rewrite bind_app, length_app. Qed.

Lemma early_calls cs ts n s :
  early ts n s → Forall (λ c, quiet c = true) cs → n + attaches cs ≤ 1 →
  early (ts ++ tokens_of cs) (n + attaches cs) (run_calls cs s).
Proof.
  intros He Hcs. revert ts n s He. induction Hcs as [|c cs Hc _ IH]; intros ts n s He Hle.
  { simpl. by rewrite app_nil_r, Nat.add_0_r. }
  change (c :: cs) with ([c] ++ cs) in *. rewrite tokens_of_app, attaches_app in *.
  rewrite app_assoc, Nat.add_assoc. cbn [app run_calls]. apply IH; [|lia].
  apply early_call; [done|done|lia].
Qed.

Lemma token_frames_prefix role m ts ts' fs :
  token_frames role m (ts ++ ts') = Value fs → ∃ fs', token_frames role m ts = Value fs'.
Proof. rewrite token_frames_app. destruct (token_frames role m ts); [eauto|done]. Qed.

Lemma streaming_calls m cs ts n s fs :
  streaming m ts n s → Forall (λ c, quiet c = true) cs → n + attaches cs ≤ 1 →
  token_frames false m (ts ++ tokens_of cs) = Value fs →
  streaming m (ts ++ tokens_of cs) (n + attaches cs) (run_calls cs s).
Proof.
  intros Hs Hcs. revert ts n s Hs. induction Hcs as [|c cs Hc _ IH]; intros ts n s Hs Hle Hfs.
  { simpl. by rewrite app_nil_r, Nat.add_0_r. }
  change (c :: cs) with ([c] ++ cs) in *. rewrite tokens_of_app, attaches_app in *.
  rewrite app_assoc, Nat.add_assoc in *. cbn [app run_calls].
  destruct (token_frames_prefix _ _ _ _ _ Hfs) as [fs1 Hfs1].
  apply IH; [|lia|done]. eapply streaming_call; [done|done|lia|done].
Qed.

Lemma execute_all_none n s : run (execute_all (replicate n no_actions)) s = (s, ()).
Proof. induction n as [|n IH]; [done|]. apply IH. Qed.

(** The result: frames after the tokens', then the stream is closed if it is there. *)
Lemma finish_call m r ts n s gs :
  streaming m ts n s → success_frames fe (any_token ts) (any_token ts) m r = Value gs →
  let s' := fst (run (session_call fe ok (FinishSuccess r)) s) in
  closing_ s' = true ∧ stream_ s' = false ∧ cancels s' = 0 ∧
  if stream_ s then wire s' = wire s ++ gs ∧ stream_closes s' = 1 ∧ buffered_frames_ s' = []
  else wire s' = [] ∧ stream_closes s' = 0 ∧ buffered_frames_ s' = buffered_frames_ s ++ gs.
Proof.
  intros [(Hr & Hm & Hc) Hf (Hsr & Hsc) Hst Hpl (Hq1 & Hq2)] Hgs. cbn [session_call].
  unfold finish_success. rewrite run_bind, run_atomically. unfold success_section.
  rewrite Hsr, Hsc, Hm, Hgs.
  set (s1 := with_sent _ _ s).
  destruct (push_frames_ok gs s1 Hc) as (s' & ds & -> & -> & H1 & H2 & H3 & H4 & H5 & H6 & H7 & H8 & H9 & H10).
  cbn [fst snd]. rewrite run_bind, execute_all_none. cbn [fst snd]. rewrite run_bind.
  unfold close. rewrite run_bind, run_atomically. unfold close_section.
  rewrite H1, H2. cbn [andb]. unfold s1 in *. simpl in *.
  destruct (stream_ s); simpl; destruct H10 as [Hw Hb]; repeat split; congruence.
Qed.

(** The stream is attached to a finished session: flush and close. *)
Lemma attach_after_finish s :
  closing_ s = true →
  fst (run (session_call fe ok Attach) s) =
  with_wire (wire s ++ buffered_frames_ s) (sends s + length (buffered_frames_ s))
    (S (stream_closes s)) (cancels s) (with_buffer [] (with_stream true true s)).
Proof.
  intros Hc. cbn -[flush attach_section]. unfold attach_section. rewrite flush_ok, Hc. done.
Qed.

(** C28: Streaming is exact when the calls on a session do not overlap. Whatever the mix of token
    callbacks before and after the metadata, and whether the client's stream is attached before
    the metadata, between tokens or only after the result, once the result is in and the stream
    attached the wire holds one frame per non-empty token in order (the role in the first), then
    the closing frames, nothing else, and the stream was closed once with no cancellation. *)
Theorem stream_delivers_in_order (m : Meta) (pre mid post : list (SessionCall (R := R))) (r : R)
    (fs gs : list string) :
  Forall (λ c, quiet c = true) pre → Forall (λ c, quiet c = true) mid →
  post = replicate (attaches post) Attach → attaches (pre ++ mid ++ post) = 1 →
  let tokens := tokens_of pre ++ tokens_of mid in
  token_frames false m tokens = Value fs →
  success_frames fe (any_token tokens) (any_token tokens) m r = Value gs →
  let s := run_calls (pre ++ [SetMetadata m] ++ mid ++ [FinishSuccess r] ++ post) new_session in
  wire s = fs ++ gs ∧ buffered_frames_ s = [] ∧ stream_closes s = 1 ∧ cancels s = 0.
Proof.
  intros Hpre Hmid Hpost Hatt tokens Hfs Hgs. cbv zeta.
  rewrite !attaches_app in Hatt.
  assert (∀ cs cs' s, run_calls (cs ++ cs') s = run_calls cs' (run_calls cs s)) as Happ.
  { induction cs as [|c cs IH]; intros cs' s; [done|]. apply IH. }
  rewrite !Happ. cbn [run_calls].
  destruct (token_frames_prefix _ _ _ _ _ Hfs) as [fs1 Hfs1].
  assert (early [] 0 new_session) as H0 by by split.
  pose proof (early_calls pre [] 0 _ H0 Hpre ltac:(lia)) as H1. cbn [app] in H1.
  pose proof (metadata_call m _ _ _ _ H1 Hfs1) as H2.
  pose proof (streaming_calls m mid _ _ _ fs H2 Hmid ltac:(lia) Hfs) as H3.
  set (s3 := run_calls mid _) in *.
  pose proof (finish_call m r _ _ _ gs H3 Hgs) as H4. cbv zeta in H4.
  set (s4 := fst (run (session_call fe ok (FinishSuccess r)) s3)) in *.
  destruct H3 as [_ Hf _ Hst Hpl _]. fold tokens in Hf. rewrite Hfs in Hf. injection Hf as Hf.
  rewrite Hst in H4, Hpl. destruct H4 as (Hcl & Hnst & Hcan & H4).
  case_bool_decide as Hn; cbn in H4, Hpl.
  - destruct H4 as (Hw & Hq & Hb).
    replace (attaches post) with 1 in Hpost by lia. rewrite Hpost. cbn [replicate run_calls].
    rewrite (attach_after_finish s4 Hcl), Hw, Hb, Hq, Hcan, Hf, Hpl. done.
  - destruct H4 as (Hw & Hq & Hb).
    replace (attaches post) with 0 in Hpost by lia. rewrite Hpost. cbn [replicate run_calls].
    rewrite Hw, Hb, Hq, Hcan, Hf, Hpl, app_nil_r. done.
Qed.
End InOrder.

Module Witness.
#[local] Instance lib : JsonLib := {| json_parse _ := Unexpected "syntax error"; json_dump _ := Value "{}" |}.

Definition m : Meta := {| meta_id := "chatcmpl-1"; meta_created := 7; meta_model := "m" |}.

Definition answer : CompletionResult :=
  {| cr_text := "ab"; cr_usage := {| prompt_tokens := 1; completion_tokens := 2; total_tokens := 3 |};
     cr_metrics := {| latency_ms := 1; time_to_first_token_ms := 1; tokens_per_second := S754_zero false |};
     cr_tool_invocations := [] |}.

Lemma stream_delivers_in_order_witness :
  let cs := [PushToken "a"; PushToken ""; SetMetadata m; SetCancel; PushToken "b";
             FinishSuccess answer; Attach] in
  wire (run_calls chat_frontend cs new_session) =
    [make_first_streaming_chunk "chatcmpl-1" 7 "m" (Some "a") None;
     make_streaming_chunk "chatcmpl-1" 7 "m" (Some "b") None;
     make_streaming_chunk "chatcmpl-1" 7 "m" None (Some "stop"); make_sse_done].
Proof.
  exact (proj1 (stream_delivers_in_order chat_frontend m [PushToken "a"; PushToken ""]
    [SetCancel; PushToken "b"] [Attach] answer
    [make_first_streaming_chunk "chatcmpl-1" 7 "m" (Some "a") None;
     make_streaming_chunk "chatcmpl-1" 7 "m" (Some "b") None]
    [make_streaming_chunk "chatcmpl-1" 7 "m" None (Some "stop"); make_sse_done]
    ltac:(by repeat constructor) ltac:(by repeat constructor) eq_refl eq_refl eq_refl eq_refl)).
Defined.

Lemma metadata_flush_can_reorder_witness :
  ∃ s, wire s =
    [make_first_streaming_chunk "chatcmpl-1" 7 "m" (Some "world") None;
     make_streaming_chunk "chatcmpl-1" 7 "m" (Some "hello ") None].
Proof.
  destruct (metadata_flush_can_reorder m "hello " "world" eq_refl eq_refl) as (s & _ & Hs).
  exists s. exact Hs.
Defined.

(** A session whose first send fails. *)
Definition broken : StreamState * list (prog StreamState (Result unit)) :=
  run_schedule [0; 1; 2; 2]
    (new_session, [session_call chat_frontend (λ _, false) (SetMetadata m);
                   session_call chat_frontend (λ _, false) Attach;
                   session_call chat_frontend (λ _, false) (PushToken "a")]).

Lemma broken_reachable : session_steps chat_frontend (λ _, false) (new_session, []) broken.
Proof.
  eapply rtc_l; [apply pool_spawn; by exists (SetMetadata m)|].
  eapply rtc_l; [apply pool_spawn; by exists Attach|].
  eapply rtc_l; [apply pool_spawn; by exists (PushToken "a")|].
  apply run_schedule_steps.
Qed.

Lemma closed_stream_is_silent_witness : sends (fst broken) = 1 ∧ cut (fst broken).
Proof.
  split; [reflexivity|].
  apply (closed_stream_is_silent chat_frontend (λ _, false) broken broken broken_reachable
           (rtc_refl _ _)) with (n := 0); [|reflexivity].
  change (sends (fst broken)) with 1. lia.
Defined.
End Witness.
