(* ===== verification/ZooAdapter.v ===== *)
(** * zoo_adapter.cpp: conversions to and from zoo-keeper's types

    [GenerationOptions], [TextResponse] and [ExtractionResponse] carry the members
    of the zoo-keeper types that the adapter reads and writes. *)

From S2P Require Import Prelude ApiTypes Json ApiJson.

Record SamplingParams : Type := {
  sp_temperature : spec_float;
  sp_top_p : spec_float;
  sp_top_k : Z;
  sp_repeat_penalty : spec_float;
  sp_repeat_last_n : Z;
  sp_seed : Z;
}.

Record GenerationOptions : Type := {
  sampling : SamplingParams;
  go_max_tokens : Z;
  stop_sequences : list string;
  go_record_tool_trace : bool;
}.

(** [opts.x = *request.x] when the request has it. *)
Definition merge_request_overrides (defaults : GenerationOptions) (request : GenerationOverrides)
    : GenerationOptions :=
  let s := sampling defaults in
  {| sampling :=
       {| sp_temperature := default (sp_temperature s) (ov_temperature request);
          sp_top_p := default (sp_top_p s) (ov_top_p request);
          sp_top_k := default (sp_top_k s) (ov_top_k request);
          sp_repeat_penalty := default (sp_repeat_penalty s) (ov_repeat_penalty request);
          sp_repeat_last_n := default (sp_repeat_last_n s) (ov_repeat_last_n request);
          sp_seed := default (sp_seed s) (ov_seed request) |};
     go_max_tokens := default (go_max_tokens defaults) (ov_max_tokens request);
     stop_sequences := default (stop_sequences defaults) (ov_stop request);
     go_record_tool_trace := default (go_record_tool_trace defaults) (ov_record_tool_trace request) |}.

Record TextResponse : Type := {
  tr_text : string;
  tr_usage : CompletionUsage;
  tr_metrics : CompletionMetrics;
  tr_tool_trace : option (list ToolInvocationRecord);
}.

Record ExtractionResponse : Type := {
  xr_text : string;
  xr_data : json;
  xr_usage : CompletionUsage;
  xr_metrics : CompletionMetrics;
  xr_tool_trace : option (list ToolInvocationRecord);
}.

Definition from_zoo_text_response (response : TextResponse) : CompletionResult :=
  {| cr_text := tr_text response; cr_usage := tr_usage response; cr_metrics := tr_metrics response;
     cr_tool_invocations := default [] (tr_tool_trace response) |}.

Definition from_zoo_extraction_response (response : ExtractionResponse) : ExtractionResult :=
  {| ex_text := xr_text response; ex_data := xr_data response; ex_usage := xr_usage response;
     ex_metrics := xr_metrics response; ex_tool_invocations := default [] (xr_tool_trace response) |}.

(** ** Properties *)

(** The overrides of a later request over those of an earlier one. *)
Definition override_with (late early : GenerationOverrides) : GenerationOverrides :=
  {| ov_temperature := union_with (λ a _, Some a) (ov_temperature late) (ov_temperature early);
     ov_top_p := union_with (λ a _, Some a) (ov_top_p late) (ov_top_p early);
     ov_top_k := union_with (λ a _, Some a) (ov_top_k late) (ov_top_k early);
     ov_repeat_penalty := union_with (λ a _, Some a) (ov_repeat_penalty late) (ov_repeat_penalty early);
     ov_repeat_last_n := union_with (λ a _, Some a) (ov_repeat_last_n late) (ov_repeat_last_n early);
     ov_max_tokens := union_with (λ a _, Some a) (ov_max_tokens late) (ov_max_tokens early);
     ov_seed := union_with (λ a _, Some a) (ov_seed late) (ov_seed early);
     ov_stop := union_with (λ a _, Some a) (ov_stop late) (ov_stop early);
     ov_record_tool_trace :=
       union_with (λ a _, Some a) (ov_record_tool_trace late) (ov_record_tool_trace early) |}.

Lemma default_union {A} (d : A) (late early : option A) :
  default (default d early) late = default d (union_with (λ a _, Some a) late early).
Proof. by destruct late, early. Qed.

(** Overrides are a monoid acting on the defaults: a request without overrides changes
    nothing, and two layers of overrides merge to one in which the later layer wins member by
    member - so a present member always decides the option and an absent one never does. *)
Theorem merge_overrides_action (defaults : GenerationOptions) (early late : GenerationOverrides) :
  merge_request_overrides defaults no_overrides = defaults ∧
  merge_request_overrides (merge_request_overrides defaults early) late =
    merge_request_overrides defaults (override_with late early).
Proof.
  split; [by destruct defaults as [[] ? ? ?]|].
  unfold merge_request_overrides. cbn -[default union_with]. by rewrite !default_union.
Qed.
