(* ===== verification/ChatService.v ===== *)
(** * chat_service.hpp, chat_service.cpp: the chat service

    [ZooChatService] starts completions and extractions on one shared
    [zoo::Agent], with or without a session, keeps the agent's history and the
    system prompt, and tracks requests for cancellation.  The agent is library
    code: the model keeps the log of the calls made to it, its request ids are a
    function [agent_id] of the number of requests, and whether it runs is part
    of the state.  Each block under a mutex is one section; the session store's
    sections are its own, lifted to this state. *)

From S2P Require Import Prelude Atomic ApiTypes Json ApiJson SessionStore ZooAdapter.

(** The calls made to the agent. *)
Inductive AgentEvent : Type :=
| AgentComplete (id : N) (messages : list ChatMessage) (options : GenerationOptions)
| AgentExtract (id : N) (schema : json) (messages : list ChatMessage) (options : GenerationOptions)
| AgentCancel (id : N)
| AgentSetPrompt (prompt : string)
| AgentStop.

Record ChatState : Type := {
  session_store_ : SessionStore;
  request_system_prompt_ : string;                 (* system_prompt_mutex_ *)
  agent_history_ : list ChatMessage;               (* agent_history_mutex_ *)
  next_completion_id_ : N;
  active_session_requests_ : gmap string N;        (* active_requests_mutex_ *)
  public_request_cancellers_ : gmap string N;      (* the agent request each callback cancels *)
  agent_running : bool;
  agent_requests : nat;                            (* requests the agent was given *)
  agent_log : list AgentEvent;
}.

Definition with_store (x : SessionStore) (s : ChatState) : ChatState :=
  {| session_store_ := x; request_system_prompt_ := request_system_prompt_ s;
     agent_history_ := agent_history_ s; next_completion_id_ := next_completion_id_ s;
     active_session_requests_ := active_session_requests_ s;
     public_request_cancellers_ := public_request_cancellers_ s;
     agent_running := agent_running s; agent_requests := agent_requests s; agent_log := agent_log s |}.

Definition with_prompt_history (prompt : string) (h : list ChatMessage) (s : ChatState) : ChatState :=
  {| session_store_ := session_store_ s; request_system_prompt_ := prompt;
     agent_history_ := h; next_completion_id_ := next_completion_id_ s;
     active_session_requests_ := active_session_requests_ s;
     public_request_cancellers_ := public_request_cancellers_ s;
     agent_running := agent_running s; agent_requests := agent_requests s; agent_log := agent_log s |}.

Definition with_history (h : list ChatMessage) (s : ChatState) : ChatState :=
  with_prompt_history (request_system_prompt_ s) h s.

Definition with_next_completion_id (n : N) (s : ChatState) : ChatState :=
  {| session_store_ := session_store_ s; request_system_prompt_ := request_system_prompt_ s;
     agent_history_ := agent_history_ s; next_completion_id_ := n;
     active_session_requests_ := active_session_requests_ s;
     public_request_cancellers_ := public_request_cancellers_ s;
     agent_running := agent_running s; agent_requests := agent_requests s; agent_log := agent_log s |}.

Definition with_active (m : gmap string N) (s : ChatState) : ChatState :=
  {| session_store_ := session_store_ s; request_system_prompt_ := request_system_prompt_ s;
     agent_history_ := agent_history_ s; next_completion_id_ := next_completion_id_ s;
     active_session_requests_ := m;
     public_request_cancellers_ := public_request_cancellers_ s;
     agent_running := agent_running s; agent_requests := agent_requests s; agent_log := agent_log s |}.

Definition with_public (m : gmap string N) (s : ChatState) : ChatState :=
  {| session_store_ := session_store_ s; request_system_prompt_ := request_system_prompt_ s;
     agent_history_ := agent_history_ s; next_completion_id_ := next_completion_id_ s;
     active_session_requests_ := active_session_requests_ s;
     public_request_cancellers_ := m;
     agent_running := agent_running s; agent_requests := agent_requests s; agent_log := agent_log s |}.

Definition with_agent (running : bool) (n : nat) (l : list AgentEvent) (s : ChatState) : ChatState :=
  {| session_store_ := session_store_ s; request_system_prompt_ := request_system_prompt_ s;
     agent_history_ := agent_history_ s; next_completion_id_ := next_completion_id_ s;
     active_session_requests_ := active_session_requests_ s;
     public_request_cancellers_ := public_request_cancellers_ s;
     agent_running := running; agent_requests := n; agent_log := l |}.

(** ** Pending requests *)

(** The [on_result] callback of a pending request. *)
Inductive OnResult : Type :=
| NoObserver
| CommitSession (session_id : string) (tracking_id : N) (user_message : ChatMessage)
| AppendAgentHistory (request_message : ChatMessage).

(** What the lease undoes, besides unregistering the public id. *)
Inductive LeaseCleanup : Type :=
| PublicOnly
| ReleaseSession (session_id : string) (tracking_id : N).

(** [PendingChatCompletion] and [PendingExtraction]; the handle is its agent request. *)
Record Pending : Type := {
  pending_id : string;
  pending_created : Z;
  pending_model : string;
  pending_request : N;
  on_result : OnResult;
  lease : LeaseCleanup;
}.

Section Service.
Context `{ZooCore}.
Variable p : StoreConfig.
Variable default_generation_ : GenerationOptions.
Variable context_size : Z.
(** The id of the agent's [n]-th request; [now_seconds] at the [n]-th one. *)
Variable agent_id : nat → N.
Variable now_seconds : nat → Z.

(** A call on the session store. *)
Definition on_store {A} (q : prog SessionStore A) : prog ChatState A :=
  lift session_store_ with_store q.

Definition is_ready : prog ChatState bool := atomically (λ s, (s, agent_running s)).

Definition not_ready : ApiError :=
  service_unavailable_error "Server runtime is not ready" (Some "not_ready").

Definition agent_not_ready : ApiError :=
  service_unavailable_error "Server runtime is not ready" (Some "agent_not_ready").

(** [next_completion_id_.fetch_add(1)]. *)
Definition fetch_completion_id : prog ChatState N :=
  atomically (λ s, (with_next_completion_id (u64_succ (next_completion_id_ s)) s,
                    next_completion_id_ s)).

(** [agent_->complete] and [agent_->extract]: the request's id and the time. *)
Definition agent_submit (event : N → AgentEvent) : prog ChatState (N * Z) :=
  atomically (λ s,
    let id := agent_id (agent_requests s) in
    (with_agent (agent_running s) (S (agent_requests s)) (agent_log s ++ [event id]) s,
     (id, now_seconds (agent_requests s)))).

Definition agent_call (e : AgentEvent) : prog ChatState unit :=
  atomically (λ s, (with_agent (agent_running s) (agent_requests s) (agent_log s ++ [e]) s, ())).

Definition track_session_request (session_id : string) (zoo_request_id : N) : prog ChatState unit :=
  atomically (λ s, (with_active (<[session_id := zoo_request_id]> (active_session_requests_ s)) s, ())).

Definition untrack_session_request (session_id : string) : prog ChatState unit :=
  atomically (λ s, (with_active (delete session_id (active_session_requests_ s)) s, ())).

Definition register_public_request (request_id : string) (zoo_request_id : N) : prog ChatState unit :=
  atomically (λ s, (with_public (<[request_id := zoo_request_id]> (public_request_cancellers_ s)) s, ())).

Definition unregister_public_request (request_id : string) : prog ChatState unit :=
  atomically (λ s, (with_public (delete request_id (public_request_cancellers_ s)) s, ())).

(** [prepare_messages]: the prompt goes first, merged into a leading system message. *)
Definition prepared (local_prompt : string) (messages : list ChatMessage) : list ChatMessage :=
  if is_empty local_prompt then messages
  else match messages with
       | m :: rest =>
           if decide (role m = System)
           then msg_system (combine_system_prompts local_prompt (content m)) :: rest
           else msg_system local_prompt :: messages
       | [] => [msg_system local_prompt]
       end.

Definition prepare_messages (messages : list ChatMessage) : prog ChatState (list ChatMessage) :=
  do! local_prompt := atomically (λ s, (s, request_system_prompt_ s)) in
  Ret (prepared local_prompt messages).

Definition completion_name (prefix : string) (n : N) : string := prefix +:+ pretty n.

(** *** Requests without a session: [start_completion], [start_extraction] *)

Definition start_stateless (prefix model : string) (messages : list ChatMessage)
    (overrides : GenerationOverrides)
    (submit : list ChatMessage → GenerationOptions → N → AgentEvent)
    : prog ChatState (ApiResult Pending) :=
  do! ready := is_ready in
  if negb ready then Ret (Unexpected not_ready)
  else if negb (bool_decide (model = model_id_ p)) then Ret (Unexpected (unknown_model_error model))
  else
    let gen_options := merge_request_overrides default_generation_ overrides in
    do! messages := prepare_messages messages in
    do! (request_id, created) := agent_submit (submit messages gen_options) in
    do! n := fetch_completion_id in
    let completion_id := completion_name prefix n in
    do! _ := register_public_request completion_id request_id in
    Ret (Value {| pending_id := completion_id; pending_created := created;
                  pending_model := model_id_ p; pending_request := request_id;
                  on_result := NoObserver; lease := PublicOnly |}).

(** *** Requests in a session: [start_session_completion], [start_session_extraction] *)

Definition start_session (prefix : string) (request : ChatCompletionRequest) (session_id : string)
    (overrides : GenerationOverrides)
    (submit : list ChatMessage → GenerationOptions → N → AgentEvent)
    : prog ChatState (ApiResult Pending) :=
  do! ready := is_ready in
  if negb ready then Ret (Unexpected not_ready)
  else
    do! tracking_id := fetch_completion_id in
    do! begin := on_store (begin_request p request tracking_id) in
    match begin with
    | Unexpected e => Ret (Unexpected e)
    | Value begin =>
        let gen_options := merge_request_overrides default_generation_ overrides in
        do! (zoo_request_id, _) := agent_submit (submit (br_messages begin) gen_options) in
        let completion_id := completion_name prefix tracking_id in
        do! _ := track_session_request session_id zoo_request_id in
        do! _ := register_public_request completion_id zoo_request_id in
        Ret (Value {| pending_id := completion_id; pending_created := br_started_at begin;
                      pending_model := model_id_ p; pending_request := zoo_request_id;
                      on_result := CommitSession session_id tracking_id (br_user_message begin);
                      lease := ReleaseSession session_id tracking_id |})
    end.

Definition submit_completion (messages : list ChatMessage) (o : GenerationOptions) (id : N) : AgentEvent :=
  AgentComplete id messages o.

Definition start_completion (request : ChatCompletionRequest) : prog ChatState (ApiResult Pending) :=
  match ccr_session_id request with
  | Some session_id =>
      start_session "chatcmpl-" request session_id (ccr_overrides request) submit_completion
  | None =>
      start_stateless "chatcmpl-" (ccr_model request) (ccr_messages request)
        (ccr_overrides request) submit_completion
  end.

Definition submit_extraction (schema : json) (messages : list ChatMessage) (o : GenerationOptions)
    (id : N) : AgentEvent := AgentExtract id schema messages o.

Definition start_extraction (request : ExtractionRequest) : prog ChatState (ApiResult Pending) :=
  match er_session_id request with
  | Some session_id =>
      let begin_request :=
        {| ccr_model := er_model request; ccr_messages := er_messages request; ccr_stream := false;
           ccr_session_id := Some session_id; ccr_overrides := no_overrides |} in
      start_session "extract-" begin_request session_id (er_overrides request)
        (submit_extraction (er_schema request))
  | None =>
      start_stateless "extract-" (er_model request) (er_messages request)
        (er_overrides request) (submit_extraction (er_schema request))
  end.

(** *** [start_agent_chat] *)

(** The block under [agent_history_mutex_]: a copy of the history and the new message. *)
Definition agent_chat_section (m : ChatMessage) (s : ChatState)
    : ChatState * ApiResult (list ChatMessage) :=
  (s, match validate_message_sequence (agent_history_ s) (role m) with
      | Unexpected e =>
          Unexpected (invalid_request_error e (Some "message") (Some "invalid_message_sequence"))
      | Value _ => Value (agent_history_ s ++ [m])
      end).

Definition start_agent_chat (request : AgentChatRequest) : prog ChatState (ApiResult Pending) :=
  do! ready := is_ready in
  if negb ready then Ret (Unexpected not_ready)
  else if negb (bool_decide (acr_model request = model_id_ p))
  then Ret (Unexpected (unknown_model_error (acr_model request)))
  else
    let gen_options := merge_request_overrides default_generation_ (acr_overrides request) in
    do! messages := atomically (agent_chat_section (acr_message request)) in
    match messages with
    | Unexpected e => Ret (Unexpected e)
    | Value messages =>
        do! (request_id, created) := agent_submit (submit_completion messages gen_options) in
        do! n := fetch_completion_id in
        let completion_id := completion_name "chatcmpl-" n in
        do! _ := register_public_request completion_id request_id in
        Ret (Value {| pending_id := completion_id; pending_created := created;
                      pending_model := model_id_ p; pending_request := request_id;
                      on_result := AppendAgentHistory (acr_message request); lease := PublicOnly |})
    end.

(** *** The end of a request *)

(** [pending.on_result(result)]; [text] is the result's text. *)
Definition call_on_result (o : OnResult) (text : RuntimeResult string) : prog ChatState unit :=
  match o with
  | NoObserver => Ret ()
  | CommitSession session_id tracking_id user_message =>
      do! _ := untrack_session_request session_id in
      on_store (commit_response_text p session_id tracking_id user_message text)
  | AppendAgentHistory m =>
      match text with
      | Unexpected _ => Ret ()
      | Value t =>
          atomically (λ s, (with_history (agent_history_ s ++ [m; msg_assistant t]) s, ()))
      end
  end.

(** The lease's cleanup; it runs once ([CompletionLease]). *)
Definition release_completion (pending : Pending) : prog ChatState unit :=
  do! _ := unregister_public_request (pending_id pending) in
  match lease pending with
  | PublicOnly => Ret ()
  | ReleaseSession session_id tracking_id =>
      do! _ := untrack_session_request session_id in
      on_store (release_request p session_id tracking_id)
  end.

(** [finalize_completion], [finalize_extraction]. *)
Definition finalize_completion (pending : Pending) (text : RuntimeResult string)
    : prog ChatState unit :=
  do! _ := call_on_result (on_result pending) text in release_completion pending.

(** [pending.cancel()]. *)
Definition cancel_pending (pending : Pending) : prog ChatState unit :=
  agent_call (AgentCancel (pending_request pending)).

Definition cancel_request (request_id : string) : prog ChatState (ApiResult unit) :=
  do! o := atomically (λ s, (s, public_request_cancellers_ s !! request_id)) in
  match o with
  | None =>
      Ret (Unexpected (not_found_error ("Unknown request: " +:+ request_id) (Some "request_not_found")))
  | Some z => do! _ := agent_call (AgentCancel z) in Ret (Value ())
  end.

(** *** Sessions *)

Definition chat_create_session (request : SessionCreateRequest)
    : prog ChatState (ApiResult SessionSummary) :=
  do! ready := is_ready in
  if negb ready then Ret (Unexpected agent_not_ready) else on_store (create_session p request).

Definition chat_get_session (session_id : string) : prog ChatState (ApiResult SessionSummary) :=
  on_store (get_session p session_id).

(** The block under [active_requests_mutex_]; 0 stands for "none". *)
Definition take_active (session_id : string) (s : ChatState) : ChatState * N :=
  match active_session_requests_ s !! session_id with
  | Some z => (with_active (delete session_id (active_session_requests_ s)) s, z)
  | None => (s, 0%N)
  end.

Definition chat_delete_session (session_id : string) : prog ChatState (ApiResult unit) :=
  do! result := on_store (delete_session p session_id) in
  match result with
  | Unexpected e => Ret (Unexpected e)
  | Value _ =>
      do! zoo_request_id := atomically (take_active session_id) in
      do! _ := (if bool_decide (zoo_request_id ≠ 0%N) then agent_call (AgentCancel zoo_request_id)
                else Ret ()) in
      Ret (Value ())
  end.

(** *** The agent's history *)

(** [estimate_history_tokens]: an [int] accumulator. *)
Definition estimate_history_tokens (history : list ChatMessage) : Z :=
  foldl (λ total m, to_int32 (total + (to_int32 (Z.of_nat (String.length (content m) / 4)) + 8)))%Z
    0%Z history.

Definition history_snapshot (history : list ChatMessage) : AgentHistorySnapshot :=
  let estimated_tokens := estimate_history_tokens history in
  {| ahs_messages := history; ahs_estimated_tokens := estimated_tokens;
     ahs_context_size := context_size;
     ahs_context_exceeded := bool_decide (context_size < estimated_tokens)%Z |}.

Definition make_agent_history_snapshot : prog ChatState AgentHistorySnapshot :=
  atomically (λ s, (s, history_snapshot (agent_history_ s))).

Definition guarded {A} (q : prog ChatState (ApiResult A)) : prog ChatState (ApiResult A) :=
  do! ready := is_ready in if negb ready then Ret (Unexpected agent_not_ready) else q.

Definition get_agent_history : prog ChatState (ApiResult AgentHistorySnapshot) :=
  guarded (do! h := make_agent_history_snapshot in Ret (Value h)).

Definition reset_history (s : ChatState) : ChatState :=
  with_history (if is_empty (request_system_prompt_ s) then []
                else [msg_system (request_system_prompt_ s)]) s.

Definition clear_agent_history : prog ChatState (ApiResult unit) :=
  guarded (do! _ := atomically (λ s, (reset_history s, ())) in Ret (Value ())).

Definition replace_agent_history (messages : list ChatMessage)
    : prog ChatState (ApiResult AgentHistorySnapshot) :=
  guarded (do! _ := atomically (λ s, (with_history messages s, ())) in
           do! h := make_agent_history_snapshot in Ret (Value h)).

Definition swap_agent_history (messages : list ChatMessage)
    : prog ChatState (ApiResult AgentHistorySnapshot) :=
  guarded (do! h := atomically (λ s, (with_history messages s, history_snapshot (agent_history_ s))) in
           Ret (Value h)).

Definition append_section (m : ChatMessage) (s : ChatState) : ChatState * ApiResult unit :=
  match validate_message_sequence (agent_history_ s) (role m) with
  | Unexpected e =>
      (s, Unexpected (invalid_request_error e (Some "message") (Some "invalid_message_sequence")))
  | Value _ => (with_history (agent_history_ s ++ [m]) s, Value ())
  end.

Definition append_agent_history_message (m : ChatMessage)
    : prog ChatState (ApiResult AgentHistorySnapshot) :=
  guarded (do! r := atomically (append_section m) in
           match r with
           | Unexpected e => Ret (Unexpected e)
           | Value _ => do! h := make_agent_history_snapshot in Ret (Value h)
           end).

(** *** The system prompt *)

Definition set_content (c : string) (m : ChatMessage) : ChatMessage :=
  {| role := role m; content := c; tool_call_id := tool_call_id m; tool_calls := tool_calls m |}.

(** The history for a new prompt: its leading system message is changed, removed or added. *)
Definition align_history (prompt : string) (history : list ChatMessage) : list ChatMessage :=
  match history with
  | m :: rest =>
      if decide (role m = System)
      then if is_empty prompt then rest else set_content prompt m :: rest
      else if is_empty prompt then history else msg_system prompt :: history
  | [] => if is_empty prompt then [] else [msg_system prompt]
  end.

Definition update_system_prompt_state (prompt : string) (s : ChatState) : ChatState * string :=
  (with_prompt_history prompt (align_history prompt (agent_history_ s)) s, prompt).

Definition get_system_prompt : prog ChatState (ApiResult string) :=
  atomically (λ s, (s, Value (request_system_prompt_ s))).

Definition chat_set_system_prompt (prompt : string) : prog ChatState (ApiResult string) :=
  do! local_prompt := atomically (update_system_prompt_state prompt) in
  do! _ := agent_call (AgentSetPrompt local_prompt) in
  do! _ := on_store (set_base_system_prompt local_prompt) in
  Ret (Value local_prompt).

Definition reap_sessions : prog ChatState unit := on_store (reap_expired_sessions p).

Definition chat_stop : prog ChatState unit :=
  do! _ := on_store stop in
  atomically (λ s, (with_agent false (agent_requests s) (agent_log s ++ [AgentStop]) s, ())).

(** *** The public interface as data *)

Inductive ChatCall : Type :=
| StartCompletion (request : ChatCompletionRequest)
| StartExtraction (request : ExtractionRequest)
| StartAgentChat (request : AgentChatRequest)
| Finalize (pending : Pending) (text : RuntimeResult string)
| Release (pending : Pending)
| CancelPending (pending : Pending)
| CancelRequest (request_id : string)
| CreateSession (request : SessionCreateRequest)
| GetSession (session_id : string)
| DeleteSession (session_id : string)
| GetHistory
| ClearHistory
| ReplaceHistory (messages : list ChatMessage)
| SwapHistory (messages : list ChatMessage)
| AppendHistory (m : ChatMessage)
| GetPrompt
| SetPrompt (prompt : string)
| Reap
| StopService.

Definition chat_call (c : ChatCall) : prog ChatState unit :=
  match c with
  | StartCompletion r => do! _ := start_completion r in Ret ()
  | StartExtraction r => do! _ := start_extraction r in Ret ()
  | StartAgentChat r => do! _ := start_agent_chat r in Ret ()
  | Finalize q t => finalize_completion q t
  | Release q => release_completion q
  | CancelPending q => cancel_pending q
  | CancelRequest id => do! _ := cancel_request id in Ret ()
  | CreateSession r => do! _ := chat_create_session r in Ret ()
  | GetSession id => do! _ := chat_get_session id in Ret ()
  | DeleteSession id => do! _ := chat_delete_session id in Ret ()
  | GetHistory => do! _ := get_agent_history in Ret ()
  | ClearHistory => do! _ := clear_agent_history in Ret ()
  | ReplaceHistory l => do! _ := replace_agent_history l in Ret ()
  | SwapHistory l => do! _ := swap_agent_history l in Ret ()
  | AppendHistory m => do! _ := append_agent_history_message m in Ret ()
  | GetPrompt => do! _ := get_system_prompt in Ret ()
  | SetPrompt pr => do! _ := chat_set_system_prompt pr in Ret ()
  | Reap => reap_sessions
  | StopService => chat_stop
  end.
End Service.

(** The constructor. *)
Definition new_service `{ZooCore} (request_system_prompt : string) : ChatState :=
  {| session_store_ := new_store request_system_prompt;
     request_system_prompt_ := request_system_prompt;
     agent_history_ := if is_empty request_system_prompt then [] else [msg_system request_system_prompt];
     next_completion_id_ := 1; active_session_requests_ := ∅; public_request_cancellers_ := ∅;
     agent_running := true; agent_requests := 0; agent_log := [] |}.
