(* ===== verification/ChatServiceProofs.v ===== *)
(** * Properties of the chat service *)

From S2P Require Import Prelude Atomic ApiTypes Json ApiJson SessionStore SessionStoreProofs.
From S2P Require Import ZooAdapter ChatService.

Section Proofs.
Context `{ZooCoreLaws}.
Variable p : StoreConfig.
Variable gen : GenerationOptions.
Variable context_size : Z.
Variable agent_id : nat → N.
Variable now_seconds : nat → Z.

(** ** The system prompt and the retained history *)

Definition not_system (m : ChatMessage) : Prop := role m ≠ System.

(** The history starts with the prompt, as its only system message, or has none. *)
Definition aligned (s : ChatState) : Prop :=
  ∃ lead rest, agent_history_ s = lead ++ rest ∧ Forall not_system rest ∧
    (if is_empty (request_system_prompt_ s) then lead = []
     else ∃ m, lead = [m] ∧ role m = System ∧ content m = request_system_prompt_ s).

(** Calls that do not put a system message of their own into the history: not a replacement of
    it, not the append of a system message, nor the end of an agent chat that one started. *)
Definition prompt_safe (c : ChatCall) : Prop :=
  match c with
  | ReplaceHistory _ | SwapHistory _ => False
  | AppendHistory m => not_system m
  | Finalize q _ => match on_result q with AppendAgentHistory m => not_system m | _ => True end
  | _ => True
  end.

Definition keeps_aligned (s s' : ChatState) : Prop := aligned s → aligned s'.

#[export] Instance keeps_aligned_preorder : PreOrder keeps_aligned.
Proof. split; [by intros s Hs|]. intros ??? H1 H2 ?. by apply H2, H1. Qed.

Lemma keeps_aligned_same s s' :
  agent_history_ s' = agent_history_ s → request_system_prompt_ s' = request_system_prompt_ s →
  keeps_aligned s s'.
Proof. intros Hh Hp (l & r & ?). exists l, r. by rewrite Hh, Hp. Qed.

Lemma aligned_append s l :
  Forall not_system l → keeps_aligned s (with_history (agent_history_ s ++ l) s).
Proof.
  intros Hl (lead & rest & Hh & Hr & Hlead). exists lead, (rest ++ l). simpl.
  rewrite Hh, app_assoc. split; [done|]. split; [by apply Forall_app|done].
Qed.

Lemma aligned_reset s : aligned (reset_history s).
Proof.
  unfold aligned, reset_history. simpl. destruct (is_empty (request_system_prompt_ s)).
  - by exists [], [].
  - exists [msg_system (request_system_prompt_ s)], []. split; [done|]. split; [done|].
    eexists. split; [done|]. by rewrite msg_system_role, msg_system_content.
Qed.

Lemma aligned_update prompt s : keeps_aligned s (fst (update_system_prompt_state prompt s)).
Proof.
  intros (lead & rest & Hh & Hr & Hlead). unfold aligned, update_system_prompt_state. simpl.
  assert (align_history prompt (lead ++ rest) =
    (if is_empty prompt then []
     else match lead with [m] => [set_content prompt m] | _ => [msg_system prompt] end) ++ rest) as Ha.
  { destruct (is_empty (request_system_prompt_ s)).
    - subst lead. simpl. destruct rest as [|m rest]; simpl.
      + by destruct (is_empty prompt).
      + inversion Hr. rewrite decide_False by done. by destruct (is_empty prompt).
    - destruct Hlead as (m & -> & Hm & _). simpl. rewrite decide_True by done.
      by destruct (is_empty prompt). }
  rewrite Hh, Ha. eexists _, rest. split; [done|]. split; [done|].
  destruct (is_empty prompt); [done|].
  assert (∀ m, lead = [m] → role m = System) as Hm.
  { intros m ->. destruct (is_empty (request_system_prompt_ s)); naive_solver. }
  destruct lead as [|m [|??]]; eexists; (split; [reflexivity|]);
    simpl; rewrite ?msg_system_role, ?msg_system_content; split; auto.
Qed.

Lemma on_store_aligned {A} (q : prog SessionStore A) : guarantees keeps_aligned (on_store q).
Proof.
  unfold on_store. induction q as [r|B sec k IH]; simpl; [done|]. intros s. split; [|apply IH].
  by apply keeps_aligned_same.
Qed.

(** Sections that leave prompt and history alone. *)
Lemma section_aligned {A} (f : ChatState → ChatState * A) :
  (∀ s, agent_history_ (fst (f s)) = agent_history_ s ∧
        request_system_prompt_ (fst (f s)) = request_system_prompt_ s) →
  guarantees keeps_aligned (atomically f).
Proof. intros Hf. apply guarantees_atomically. intros s. by apply keeps_aligned_same; apply Hf. Qed.

Ltac aligned_prog :=
  repeat first
    [ done
    | apply on_store_aligned
    | apply section_aligned; intros ?; by split
    | apply guarantees_bind; [|intros ?]
    | match goal with
      | |- guarantees _ (if ?b then _ else _) => destruct b
      | |- guarantees _ (match ?x with _ => _ end) => destruct x
      end ].

Lemma agent_submit_aligned e : guarantees keeps_aligned (agent_submit agent_id now_seconds e).
Proof. apply section_aligned. intros s. by split. Qed.

Lemma agent_call_aligned e : guarantees keeps_aligned (agent_call e).
Proof. apply section_aligned. intros s. by split. Qed.

Lemma start_stateless_aligned prefix model ms ov submit :
  guarantees keeps_aligned (start_stateless p gen agent_id now_seconds prefix model ms ov submit).
Proof. unfold start_stateless, prepare_messages. pose proof agent_submit_aligned. aligned_prog. Qed.

Lemma start_session_aligned prefix r sid ov submit :
  guarantees keeps_aligned (start_session p gen agent_id now_seconds prefix r sid ov submit).
Proof. unfold start_session. pose proof agent_submit_aligned. aligned_prog. Qed.

Lemma start_completion_aligned r :
  guarantees keeps_aligned (start_completion p gen agent_id now_seconds r).
Proof. unfold start_completion. case_match; auto using start_session_aligned, start_stateless_aligned. Qed.

Lemma start_extraction_aligned r :
  guarantees keeps_aligned (start_extraction p gen agent_id now_seconds r).
Proof. unfold start_extraction. case_match; auto using start_session_aligned, start_stateless_aligned. Qed.

Lemma start_agent_chat_aligned r :
  guarantees keeps_aligned (start_agent_chat p gen agent_id now_seconds r).
Proof. unfold start_agent_chat. pose proof agent_submit_aligned. aligned_prog. Qed.

Lemma release_aligned q : guarantees keeps_aligned (release_completion p q).
Proof. unfold release_completion. aligned_prog. Qed.

Lemma finalize_aligned q t :
  prompt_safe (Finalize q t) → guarantees keeps_aligned (finalize_completion p q t).
Proof.
  intros Hq. unfold finalize_completion. simpl in Hq.
  apply guarantees_bind; [|intros _; apply release_aligned].
  destruct (on_result q) as [|sid tid m|m]; [done|unfold call_on_result; aligned_prog|].
  destruct t as [t|]; [|done]. apply guarantees_atomically. intros s.
  apply (aligned_append s [m; msg_assistant t]).
  repeat constructor; [exact Hq|]. unfold not_system. by rewrite msg_assistant_role.
Qed.

Lemma guarded_aligned {A} (q : prog ChatState (ApiResult A)) :
  guarantees keeps_aligned q → guarantees keeps_aligned (guarded q).
Proof. intros Hq. unfold guarded. aligned_prog. Qed.

Lemma append_section_aligned m :
  not_system m → guarantees keeps_aligned (atomically (append_section m)).
Proof.
  intros Hm. apply guarantees_atomically. intros s. unfold append_section.
  case_match; simpl; [|reflexivity]. apply aligned_append. by constructor.
Qed.

Lemma chat_call_aligned c :
  prompt_safe c →
  guarantees keeps_aligned (chat_call p gen context_size agent_id now_seconds c).
Proof.
  intros Hc. pose proof agent_call_aligned.
  destruct c; try done; cbn [chat_call];
    try (apply guarantees_bind; [|done]);
    auto using start_completion_aligned, start_extraction_aligned, start_agent_chat_aligned,
      finalize_aligned, release_aligned.
  - unfold cancel_pending. aligned_prog.
  - unfold cancel_request. aligned_prog.
  - unfold chat_create_session. aligned_prog.
  - unfold chat_get_session. aligned_prog.
  - unfold chat_delete_session, take_active. aligned_prog.
    apply section_aligned. intros s. case_match; by split.
  - apply guarded_aligned. unfold make_agent_history_snapshot. aligned_prog.
  - apply guarded_aligned. apply guarantees_bind; [|done].
    apply guarantees_atomically. intros s ?. apply aligned_reset.
  - apply guarded_aligned. apply guarantees_bind; [by apply append_section_aligned|].
    unfold make_agent_history_snapshot. aligned_prog. intros ?. aligned_prog.
  - unfold chat_set_system_prompt. apply guarantees_bind.
    + apply guarantees_atomically. intros s. apply aligned_update.
    + intros ?. aligned_prog.
  - unfold reap_sessions. aligned_prog.
  - unfold chat_stop. aligned_prog.
Qed.

(** The service after any interleaving of the calls [allowed]. *)
Definition service_steps (allowed : ChatCall → Prop)
    : relation (ChatState * list (prog ChatState unit)) :=
  pool_steps (λ q, ∃ c, allowed c ∧ q = chat_call p gen context_size agent_id now_seconds c).

Lemma new_service_aligned prompt : aligned (new_service prompt).
Proof.
  unfold aligned, new_service. simpl. destruct (is_empty prompt).
  - by exists [], [].
  - exists [msg_system prompt], []. split; [done|]. split; [done|].
    eexists. split; [done|]. by rewrite msg_system_role, msg_system_content.
Qed.

Lemma clear_aligns s : agent_running s = true → aligned (fst (run clear_agent_history s)).
Proof. intros Hr. unfold clear_agent_history, guarded, is_ready. cbn. rewrite Hr. apply aligned_reset. Qed.

(** Whatever the history, it starts with a prompt that is set. *)
Lemma set_prompt_leads prompt s :
  prompt ≠ "" →
  ∃ m rest, agent_history_ (fst (run (chat_set_system_prompt prompt) s)) = m :: rest ∧
            role m = System ∧ content m = prompt.
Proof.
  intros Hp%is_empty_false. cbn. unfold align_history. rewrite Hp.
  destruct (agent_history_ s) as [|m rest]; [|case_decide];
    eexists _, _; (split; [reflexivity|]); cbn; by rewrite ?msg_system_role, ?msg_system_content.
Qed.

(** C21: The retained history follows the system prompt.  In every interleaving of calls that do
    not put a system message of their own into the history - every call except replacing or
    swapping it, appending a system message, and finalizing an agent chat whose message is a
    system message - the history starts with one system message whose content is the current
    prompt, has no other, and has none exactly when the prompt is empty.  The excluded calls can
    break this ([system_append_disagrees] below); in any state whatsoever, clearing the history
    of a running service restores it, and setting a prompt that is not empty puts that prompt
    first. *)
Theorem agent_history_follows_prompt :
  (∀ prompt c', service_steps prompt_safe (new_service prompt, []) c' → aligned (fst c')) ∧
  (∀ s, agent_running s = true → aligned (fst (run clear_agent_history s))) ∧
  (∀ s prompt, prompt ≠ "" →
     ∃ m rest, agent_history_ (fst (run (chat_set_system_prompt prompt) s)) = m :: rest ∧
               role m = System ∧ content m = prompt).
Proof.
  split; [|split; [exact clear_aligns|by intros s prompt; apply set_prompt_leads]].
  intros prompt c' Hsteps.
  eapply (pool_steps_invariant aligned _ (new_service prompt, []) c'); [|exact Hsteps|constructor|].
  - intros q (c & Hc & ->). by apply chat_call_aligned.
  - apply new_service_aligned.
Qed.

(** ** Requests without a session *)

(** The agent log grows by [e]. *)
Definition logs (e : list AgentEvent) (s s' : ChatState) : Prop := agent_log s' = agent_log s ++ e.

(** C22: A completion without a session is all or nothing. When the agent is not running or the
    model is unknown it is refused and nothing changes; otherwise exactly one request goes to
    the agent, with the prompt merged into the conversation and the overrides into the defaults;
    the returned id is registered until the request is finalized: [cancel_request] then cancels
    that agent request, and afterwards answers 404. *)
Theorem stateless_completion_lifecycle (r : ChatCompletionRequest) (s : ChatState)
    (text : RuntimeResult string) :
  ccr_session_id r = None →
  let '(s1, o) := run (start_completion p gen agent_id now_seconds r) s in
  match o with
  | Unexpected e =>
      s1 = s ∧ ((agent_running s = false ∧ http_status e = 503%Z) ∨
                (ccr_model r ≠ model_id_ p ∧ http_status e = 400%Z))
  | Value q =>
      let id := agent_id (agent_requests s) in
      agent_running s = true ∧ ccr_model r = model_id_ p ∧
      logs [AgentComplete id (prepared (request_system_prompt_ s) (ccr_messages r))
              (merge_request_overrides gen (ccr_overrides r))] s s1 ∧
      pending_id q = completion_name "chatcmpl-" (next_completion_id_ s) ∧ pending_request q = id ∧
      session_store_ s1 = session_store_ s ∧ agent_history_ s1 = agent_history_ s ∧
      (let '(s2, c) := run (cancel_request (pending_id q)) s1 in
       c = Value () ∧ logs [AgentCancel id] s1 s2) ∧
      (let '(s2, _) := run (finalize_completion p q text) s1 in
       agent_log s2 = agent_log s1 ∧ agent_history_ s2 = agent_history_ s ∧
       snd (run (cancel_request (pending_id q)) s2) =
         Unexpected (not_found_error ("Unknown request: " +:+ pending_id q) (Some "request_not_found")))
  end.
Proof.
  intros Hs. unfold start_completion. rewrite Hs. unfold start_stateless.
  destruct (agent_running s) eqn:Hr; cbn; rewrite Hr; cbn; [|by split; [|left]].
  case_bool_decide as Hm; cbn; [|by split; [|right]].
  unfold finalize_completion, logs. cbn. rewrite !lookup_insert_eq. cbn.
  rewrite lookup_delete_eq. cbn. by repeat split.
Qed.

(** ** Requests in a session *)

Lemma run_on_store {A} (q : prog SessionStore A) s :
  run (on_store q) s =
  (with_store (fst (run q (session_store_ s))) s, snd (run q (session_store_ s))).
Proof. apply run_lift; [done|done|]. by intros []. Qed.

(** The two ends of [begin_request] on a live idle session. *)
Lemma begin_live st id loc ss m request n :
  store_wf p st → enabled (config_ p) = true →
  sessions_ st !! id = Some loc → heap st !! loc = Some ss →
  ss_closed ss = false → ss_active_request ss = None →
  (clock_ p (clock_reads st) < ss_expires_at ss)%Z →
  ccr_session_id request = Some id → ccr_model request = model_id_ p →
  ccr_messages request = [m] → role m = User →
  ∃ st1 started, run (begin_request p request n) st =
    (st1, Value {| br_messages := ss_history ss ++ [m]; br_started_at := started;
                   br_user_message := m |}) ∧
    sessions_ st1 !! id = Some loc ∧
    ∃ ss1, heap st1 !! loc = Some ss1 ∧ ss_history ss1 = ss_history ss ∧ ss_closed ss1 = false ∧
           ss_active_request ss1 = Some n.
Proof.
  intros Hwf He Hid Hs Hc Ha Hclock Hrid Hmodel Hmsg Hrole.
  destruct (reap_find_alive p id loc ss st) as (st0 & Hf & Hid0 & Hs0 & _ & Hwf0); [done..| |].
  { unfold should_expire. rewrite bool_decide_eq_false_2 by lia. by rewrite andb_false_r. }
  destruct (admit_section_free p id loc m n (fst (read_clock p st0)) ss) as (st1 & Hadm & Hid1 & _ & Hs1);
    [done..|].
  rewrite (run_begin_request p request n id m st loc st0), Hadm by done.
  eexists st1, _. split; [reflexivity|]. split; [by rewrite Hid1|]. eexists. split; [exact Hs1|]. done.
Qed.

(** The commit by the owner, then the lease's release, which finds nothing to do. *)
Lemma commit_then_release st id loc ss m n (text : RuntimeResult string) :
  sessions_ st !! id = Some loc → heap st !! loc = Some ss → ss_closed ss = false →
  ss_active_request ss = Some n →
  let st2 := fst (run (commit_response_text p id n m text) st) in
  let st3 := fst (run (release_request p id n) st2) in
  st3 = st2 ∧ ∃ ss2, heap st2 !! loc = Some ss2 ∧ ss_active_request ss2 = None ∧
    ss_history ss2 =
      match text with
      | Value t => trim_history_to_fit (ss_history ss ++ [m; msg_assistant t]) (max_history_messages_ p)
      | Unexpected _ => ss_history ss
      end.
Proof.
  intros Hid Hs Hc Ha. cbv zeta.
  set (text' := match text with Value r => Some r | Unexpected _ => None end).
  destruct (commit_section_owner p loc n m text' st ss Hs Hc Ha) as (st2 & Hcom & Hid2 & Hs2).
  assert (run (commit_response_text p id n m text) st = (st2, ())) as ->.
  { unfold commit_response_text, commit_text, find_section. cbn. rewrite Hid. cbn.
    fold text'. by rewrite Hcom. }
  unfold release_request, find_section. cbn. rewrite Hid2, Hid. cbn.
  unfold release_section, owns. rewrite Hs2.
  rewrite bool_decide_false by (by destruct text'). cbn. split; [done|].
  eexists. split; [reflexivity|]. subst text'. by destruct text.
Qed.

(** What finalizing a session request does to the service. *)
Lemma run_finalize_session q id n m (text : RuntimeResult string) s :
  on_result q = CommitSession id n m → lease q = ReleaseSession id n →
  let st2 := fst (run (commit_response_text p id n m text) (session_store_ s)) in
  let s' := fst (run (finalize_completion p q text) s) in
  session_store_ s' = fst (run (release_request p id n) st2) ∧
  active_session_requests_ s' = delete id (active_session_requests_ s) ∧
  public_request_cancellers_ s' = delete (pending_id q) (public_request_cancellers_ s) ∧
  agent_log s' = agent_log s.
Proof.
  intros Hq Hl. cbv zeta. unfold finalize_completion, call_on_result, release_completion.
  rewrite Hq, Hl, run_bind, (run_bind (untrack_session_request id)), run_on_store.
  rewrite run_bind, run_bind, run_on_store. cbn. by rewrite delete_delete_eq.
Qed.

(** C20: A whole turn through the service on a live idle session: the agent gets the session's
    history with the new message and the merged options, once; while the request runs the
    session is tracked for cancellation under that agent request and the public id is
    registered; finalizing appends the question and the answer (trimmed; nothing on an error),
    frees the session, untracks it and unregisters the id, and the lease finds nothing more to
    do. *)
Theorem session_completion_lifecycle (s : ChatState) id loc ss m (r : ChatCompletionRequest)
    (text : RuntimeResult string) :
  store_wf p (session_store_ s) → enabled (config_ p) = true → agent_running s = true →
  sessions_ (session_store_ s) !! id = Some loc → heap (session_store_ s) !! loc = Some ss →
  ss_closed ss = false → ss_active_request ss = None →
  (clock_ p (clock_reads (session_store_ s)) < ss_expires_at ss)%Z →
  ccr_session_id r = Some id → ccr_model r = model_id_ p → ccr_messages r = [m] → role m = User →
  let request_id := agent_id (agent_requests s) in
  ∃ s1 q,
    run (start_completion p gen agent_id now_seconds r) s = (s1, Value q) ∧
    logs [AgentComplete request_id (ss_history ss ++ [m]) (merge_request_overrides gen (ccr_overrides r))] s s1 ∧
    active_session_requests_ s1 !! id = Some request_id ∧
    public_request_cancellers_ s1 !! pending_id q = Some request_id ∧
    let s2 := fst (run (finalize_completion p q text) s1) in
    active_session_requests_ s2 !! id = None ∧ public_request_cancellers_ s2 !! pending_id q = None ∧
    agent_log s2 = agent_log s1 ∧
    ∃ ss2, heap (session_store_ s2) !! loc = Some ss2 ∧ ss_active_request ss2 = None ∧
      ss_history ss2 =
        match text with
        | Value t => trim_history_to_fit (ss_history ss ++ [m; msg_assistant t]) (max_history_messages_ p)
        | Unexpected _ => ss_history ss
        end.
Proof.
  intros Hwf He Hrun Hid Hs Hc Ha Hclock Hrid Hmodel Hmsg Hrole request_id.
  destruct (begin_live (session_store_ s) id loc ss m r (next_completion_id_ s)) as
    (st1 & started & Hbegin & Hid1 & ss1 & Hs1 & Hh1 & Hc1 & Ha1); [done..|].
  unfold start_completion. rewrite Hrid. unfold start_session.
  rewrite run_bind. unfold is_ready. rewrite run_atomically. cbn [fst snd]. rewrite Hrun. cbn [negb].
  rewrite run_bind. unfold fetch_completion_id. rewrite run_atomically. cbn [fst snd].
  rewrite run_bind, run_on_store.
  change (session_store_ (with_next_completion_id _ s)) with (session_store_ s). rewrite Hbegin.
  cbn [fst snd br_messages br_started_at br_user_message]. cbn.
  do 2 eexists. split; [reflexivity|]. cbv zeta.
  match goal with |- context [run (finalize_completion p ?q text) ?s1] =>
    destruct (run_finalize_session q id (next_completion_id_ s) m text s1 eq_refl eq_refl)
      as (Hst & -> & -> & ->) end.
  destruct (commit_then_release st1 id loc ss1 m (next_completion_id_ s) text) as (Hrel & ss2 & Hs2 & Ha2 & Hh2);
    [done..|]. rewrite Hh1 in Hh2.
  rewrite (eq_trans Hst Hrel). unfold logs. cbn -[run].
  rewrite !lookup_insert_eq, !lookup_delete_eq.
  do 6 (split; [done|]). by exists ss2.
Qed.

(** ** The token estimate *)

Definition message_tokens (m : ChatMessage) : Z := Z.of_nat (String.length (content m) / 4) + 8.

Definition history_tokens (l : list ChatMessage) : Z := foldr (λ m, Z.add (message_tokens m)) 0%Z l.

Lemma history_tokens_nonneg l : (0 ≤ history_tokens l)%Z.
Proof.
  induction l as [|m l IH]; [done|]. change (0 ≤ message_tokens m + history_tokens l)%Z.
  unfold message_tokens. lia.
Qed.

Lemma estimate_exact l : ∀ a,
  (0 ≤ a)%Z → (a + history_tokens l < 2 ^ 31)%Z →
  foldl (λ total m, to_int32 (total + (to_int32 (Z.of_nat (String.length (content m) / 4)) + 8)))%Z a l
  = (a + history_tokens l)%Z.
Proof.
  induction l as [|m l IH]; intros a Ha; [cbn; lia|].
  change (history_tokens (m :: l)) with (message_tokens m + history_tokens l)%Z. cbn [foldl].
  intros Hl. pose proof (history_tokens_nonneg l). unfold message_tokens in *.
  rewrite (to_int32_id (Z.of_nat _)) by (unfold in_int32; lia).
  rewrite to_int32_id by (unfold in_int32; lia). rewrite IH by lia. lia.
Qed.

(** C27: The estimate reported with the history is exact while it fits an [int]: it is the sum over
    the messages of a quarter of the content's length plus eight, and the context is reported as
    exceeded exactly when that sum is above the context size; no call to the agent is made and
    nothing changes. *)
Theorem history_estimate_exact (s : ChatState) :
  agent_running s = true → (history_tokens (agent_history_ s) < 2 ^ 31)%Z →
  ∃ h, run (get_agent_history context_size) s = (s, Value h) ∧
    ahs_messages h = agent_history_ s ∧
    ahs_estimated_tokens h = history_tokens (agent_history_ s) ∧
    (ahs_context_exceeded h = true ↔ (context_size < history_tokens (agent_history_ s))%Z).
Proof.
  intros Hr Hl. unfold get_agent_history, guarded, make_agent_history_snapshot. cbn. rewrite Hr. cbn.
  eexists. split; [reflexivity|]. unfold history_snapshot.
  assert (estimate_history_tokens (agent_history_ s) = history_tokens (agent_history_ s)) as ->.
  { unfold estimate_history_tokens. by rewrite estimate_exact by lia. }
  cbn -[history_tokens]. by rewrite bool_decide_eq_true.
Qed.
End Proofs.

(** ** A finished request and its successor

    [on_result] untracks and commits, and the lease untracks again after the
    session is free: a request begun in between loses its tracking. *)

Module Race.
Import ZooDemo SessionStoreProofs.Witness.

Definition gen0 : GenerationOptions :=
  {| sampling := {| sp_temperature := S754_zero false; sp_top_p := S754_zero false; sp_top_k := 40;
                    sp_repeat_penalty := S754_zero false; sp_repeat_last_n := 64; sp_seed := 0 |};
     go_max_tokens := 256; stop_sequences := []; go_record_tool_trace := false |}.

Definition ids (n : nat) : N := N.of_nat (S n).
Definition times (n : nat) : Z := Z.of_nat n.

Definition call : ChatCall → prog ChatState unit := chat_call cfg gen0 4096 ids times.

Definition open_session : ChatCall :=
  CreateSession {| scr_model := "local-model"; scr_system_prompt := Some "Be brief." |}.

Definition s0 : ChatState := new_service "Base".
Definition s1 : ChatState := fst (run (call open_session) s0).

(** The first request of the session, as [start_completion] returns it. *)
Definition first_pending : Pending :=
  {| pending_id := "chatcmpl-1"; pending_created := 2; pending_model := "local-model";
     pending_request := 1; on_result := CommitSession "sess-1" 1 (msg_user "Hi");
     lease := ReleaseSession "sess-1" 1 |}.

Lemma first_pending_returned :
  snd (run (start_completion cfg gen0 ids times (ask "Hi")) s1) = Value first_pending.
Proof. vm_compute. reflexivity. Qed.

Definition calls : list ChatCall :=
  [open_session; StartCompletion (ask "Hi"); Finalize first_pending (Value "Hello");
   StartCompletion (ask "Again")].

(** The second request begins after the commit and before the lease runs. *)
Definition schedule : list nat :=
  replicate 6 0 ++ replicate 8 1 ++ replicate 3 2 ++ replicate 8 3 ++ replicate 4 2.

(** C23: Finishing a request can untrack the session's next request: in a schedule of one session
    with two turns, where the second turn starts between the first one's commit and its lease, all
    calls return, the session is busy with the second request and the agent runs it, but it is not
    tracked any more; deleting the session then succeeds without cancelling it. *)
Theorem finished_request_untracks_successor :
  ∃ c, service_steps cfg gen0 4096 ids times (λ _, True) (s0, []) c ∧
    snd c = replicate 4 (Ret ()) ∧
    (ss_active_request <$> heap (session_store_ (fst c)) !! 0) = Some (Some 2%N) ∧
    length (agent_log (fst c)) = 2 ∧
    active_session_requests_ (fst c) !! "sess-1" = None ∧
    let '(s, r) := run (chat_delete_session cfg "sess-1") (fst c) in
    r = Value () ∧ agent_log s = agent_log (fst c).
Proof.
  exists (run_schedule schedule (s0, call <$> calls)). split.
  - etrans.
    + apply (spawn_all _ (call <$> calls)). apply Forall_fmap, Forall_true. intros c. by exists c.
    + apply run_schedule_steps.
  - vm_compute. repeat split.
Qed.
End Race.

(** ** Witnesses *)

Module Witness.
Import ZooDemo SessionStoreProofs.Witness Race.

Definition ask_once : ChatCompletionRequest :=
  {| ccr_model := "local-model"; ccr_messages := [msg_user "Hi"]; ccr_stream := false;
     ccr_session_id := None; ccr_overrides := no_overrides |}.

Lemma agent_history_follows_prompt_witness :
  aligned (fst (run_schedule [0; 0; 0] (new_service "Base", call <$> [SetPrompt "New"; ClearHistory]))).
Proof.
  refine (proj1 (agent_history_follows_prompt cfg gen0 4096 ids times) "Base" _
    (transitivity (spawn_all _ (call <$> [SetPrompt "New"; ClearHistory]) _ [] _)
       (run_schedule_steps _ _ _))).
  apply Forall_cons; split; [by exists (SetPrompt "New")|].
  apply Forall_cons; split; [by exists ClearHistory|done].
Defined.

(** A client that appends a system message to the empty history of a service without a prompt. *)
Lemma system_append_disagrees :
  let s := fst (run (call (AppendHistory (msg_system "Mine"))) (new_service "")) in
  agent_history_ s = [msg_system "Mine"] ∧ request_system_prompt_ s = "" ∧ ¬ aligned s.
Proof.
  cbv zeta. assert (agent_history_ (fst (run (call (AppendHistory (msg_system "Mine"))) (new_service ""))) =
    [msg_system "Mine"]) as Hh by (vm_compute; reflexivity).
  split; [exact Hh|]. split; [vm_compute; reflexivity|].
  intros (lead & rest & Hl & Hr & Hlead). rewrite Hh in Hl.
  assert (lead = []) as -> by exact Hlead. cbn in Hl. subst rest.
  by apply Forall_cons in Hr as [Hr _]; apply Hr.
Qed.

Lemma stateless_completion_lifecycle_witness :
  agent_log (fst (run (start_completion cfg gen0 ids times ask_once) s0)) =
    [AgentComplete 1 (prepared "Base" [msg_user "Hi"]) (merge_request_overrides gen0 no_overrides)].
Proof.
  exact (proj1 (proj2 (proj2
    (stateless_completion_lifecycle cfg gen0 ids times ask_once s0 (Value "Hello") eq_refl)))).
Defined.

Lemma session_completion_lifecycle_witness :
  ∃ s q, run (start_completion cfg gen0 ids times (ask "Hi")) s1 = (s, Value q) ∧
         active_session_requests_ s !! "sess-1" = Some 1%N.
Proof.
  destruct (session_completion_lifecycle cfg gen0 ids times s1 "sess-1" 0
    (heap (session_store_ s1) !!! 0) (msg_user "Hi") (ask "Hi") (Value "Hello") st1_wf)
    as (s & q & Hrun & _ & Hact & _); try (vm_compute; reflexivity).
  exists s, q. split; [exact Hrun|]. rewrite Hact. vm_compute. reflexivity.
Defined.

Lemma history_estimate_exact_witness :
  ∃ h, run (get_agent_history 4096) s0 = (s0, Value h) ∧ ahs_estimated_tokens h = 9%Z.
Proof.
  destruct (history_estimate_exact 4096 s0) as (h & Hrun & _ & Hest & _); [reflexivity..|].
  exists h. split; [exact Hrun|]. rewrite Hest. reflexivity.
Defined.
End Witness.
