(* ===== verification/ToolSchema.v ===== *)
(** * command_tools.cpp: validation of a tool's configuration

    [CommandToolConfig::validate] and the check of the parameter schema.  A
    [std::map<std::string, std::string>] is an association list in key order. *)

From S2P Require Import Prelude ApiTypes Json ApiJson.

Record CommandToolConfig : Type := {
  tool_name : string;
  tool_description : string;
  tool_parameters_schema : json;
  tool_command : list string;
  tool_working_directory : option string;
  tool_inherit_environment : bool;
  tool_env : list (string * string);
  tool_timeout_ms : Z;                       (* std::uint32_t *)
}.

(** ** [validate_enum_value_type], [validate_property_schema] *)

Definition enum_value_matches (value : json) (expected_type : string) : bool :=
  (bool_decide (expected_type = "string") && is_string value) ||
  (bool_decide (expected_type = "integer") && is_number_integer value) ||
  (bool_decide (expected_type = "number") && is_number value) ||
  (bool_decide (expected_type = "boolean") && is_boolean value).

Definition quoted (s : string) : string := "'" +:+ s +:+ "'".

Definition validate_enum_value_type (value : json) (expected_type property_name : string)
    : Result unit :=
  if negb (enum_value_matches value expected_type)
  then Unexpected ("tools.parameters enum value for property " +:+ quoted property_name +:+
                   " does not match declared type " +:+ quoted expected_type)
  else Value ().

(** A loop that returns the first error. *)
Fixpoint for_each {A} (f : A → Result unit) (l : list A) : Result unit :=
  match l with
  | [] => Value ()
  | a :: l => try! _ := f a in for_each f l
  end.

Definition supported_types : list string := ["string"; "integer"; "number"; "boolean"].

Definition validate_property_schema (property_name : string) (schema : json) : Result unit :=
  let bad m := "tools.parameters property " +:+ quoted property_name +:+ m in
  try! _ := reject_unknown_keys schema "tools.parameters property" ["type"; "description"; "enum"] in
  match jfind "type" schema with
  | Some (JString type) =>
      fail_if negb (bool_decide (type ∈ supported_types)) with bad (" uses unsupported type: " +:+ type) ;;
      fail_if match jfind "description" schema with Some d => negb (is_string d) | None => false end
        with bad " description must be a string" ;;
      match jfind "enum" schema with
      | None => Value ()
      | Some (JArray values) =>
          for_each (λ value, validate_enum_value_type value type property_name) values
      | Some _ => Unexpected (bad " enum must be an array")
      end
  | _ => Unexpected (bad " must include a string type")
  end.

(** ** [validate_tool_parameters_schema] *)

Definition validate_required_entry (properties value : json) : Result unit :=
  match value with
  | JString name =>
      fail_if negb (jcontains name properties) with
        "tools.parameters required references unknown property: " +:+ name ;;
      Value ()
  | _ => Unexpected "tools.parameters required entries must be strings"
  end.

Definition validate_property_entry (entry : string * json) : Result unit :=
  fail_if negb (is_object (snd entry)) with
    "tools.parameters property " +:+ quoted (fst entry) +:+ " must be a JSON object" ;;
  validate_property_schema (fst entry) (snd entry).

Definition validate_tool_parameters_schema (schema : json) : Result unit :=
  try! _ := reject_unknown_keys schema "tools.parameters"
              ["type"; "properties"; "required"; "additionalProperties"] in
  fail_if match jfind "type" schema with
          | Some (JString type) => negb (bool_decide (type = "object"))
          | _ => true
          end with "tools.parameters must declare top-level type 'object'" ;;
  match jfind "properties" schema with
  | Some (JObject entries) =>
      try! _ := for_each validate_property_entry entries in
      try! _ := (match jfind "required" schema with
                 | None => Value ()
                 | Some (JArray values) => for_each (validate_required_entry (JObject entries)) values
                 | Some _ => Unexpected "tools.parameters required must be an array"
                 end) in
      match jfind "additionalProperties" schema with
      | None | Some (JBoolean false) => Value ()
      | Some _ => Unexpected "tools.parameters only supports additionalProperties omitted or false"
      end
  | _ => Unexpected "tools.parameters must include an object-valued properties map"
  end.

(** ** [CommandToolConfig::validate] *)

Fixpoint string_mem (c : Ascii.ascii) (s : string) : bool :=
  match s with
  | EmptyString => false
  | String d s => bool_decide (c = d) || string_mem c s
  end.

Definition validate_env_entry (entry : string * string) : Result unit :=
  fail_if is_empty (fst entry) with "tools.env keys must not be empty" ;;
  fail_if string_mem "="%char (fst entry) with "tools.env keys must not contain '='" ;;
  Value ().

Definition validate_tool (tool : CommandToolConfig) : Result unit :=
  fail_if is_empty (tool_name tool) with "tools.name must not be empty" ;;
  fail_if is_empty (tool_description tool) with "tools.description must not be empty" ;;
  fail_if bool_decide (tool_command tool = []) with "tools.command must contain at least one argument" ;;
  try! _ := for_each (λ arg, fail_if is_empty arg with "tools.command entries must not be empty" ;;
                             Value ()) (tool_command tool) in
  fail_if bool_decide (tool_timeout_ms tool = 0%Z) with "tools.timeout_ms must be >= 1" ;;
  try! _ := validate_tool_parameters_schema (tool_parameters_schema tool) in
  for_each validate_env_entry (tool_env tool).

(** ** What an accepted schema declares *)

Inductive ParameterType : Type := TString | TInteger | TNumber | TBoolean.

Definition type_name (t : ParameterType) : string :=
  match t with
  | TString => "string" | TInteger => "integer" | TNumber => "number" | TBoolean => "boolean"
  end.

Inductive of_type : ParameterType → json → Prop :=
| ot_string s : of_type TString (JString s)
| ot_integer z : of_type TInteger (JInteger z)
| ot_number_integer z : of_type TNumber (JInteger z)
| ot_number_float d : of_type TNumber (JFloat d)
| ot_boolean b : of_type TBoolean (JBoolean b).

(** A parameter: its type, its description and the values it may take. *)
Record ToolParam : Type := {
  pa_type : ParameterType;
  pa_description : option string;
  pa_values : option (list json);
}.

Record declares_parameter (j : json) (pa : ToolParam) : Prop := {
  dp_object : is_object j = true;
  dp_keys : ∀ k, k ∈ jkeys j → k ∈ ["type"; "description"; "enum"];
  dp_type : jfind "type" j = Some (JString (type_name (pa_type pa)));
  dp_description : jfind "description" j = JString <$> pa_description pa;
  dp_values : jfind "enum" j = JArray <$> pa_values pa;
  dp_typed : ∀ vs, pa_values pa = Some vs → Forall (of_type (pa_type pa)) vs;
}.

Record declares (j : json) (parameters : list (string * ToolParam)) (required : list string) : Prop := {
  ds_object : is_object j = true;
  ds_keys : ∀ k, k ∈ jkeys j → k ∈ ["type"; "properties"; "required"; "additionalProperties"];
  ds_type : jfind "type" j = Some (JString "object");
  ds_parameters : ∃ entries, jfind "properties" j = Some (JObject entries) ∧
    Forall2 (λ e p, fst e = fst p ∧ declares_parameter (snd e) (snd p)) entries parameters;
  ds_required : jfind "required" j = None ∧ required = [] ∨
                jfind "required" j = Some (JArray (JString <$> required));
  ds_known : Forall (λ r, r ∈ parameters.*1) required;
  ds_closed : jfind "additionalProperties" j = None ∨
              jfind "additionalProperties" j = Some (JBoolean false);
}.

Record tool_ok (tool : CommandToolConfig) : Prop := {
  to_name : tool_name tool ≠ "";
  to_description : tool_description tool ≠ "";
  to_command : tool_command tool ≠ [] ∧ "" ∉ tool_command tool;
  to_timeout : tool_timeout_ms tool ≠ 0%Z;
  to_schema : ∃ parameters required, declares (tool_parameters_schema tool) parameters required;
  to_env : Forall (λ e, fst e ≠ "" ∧ string_mem "="%char (fst e) = false) (tool_env tool);
}.

(** ** Lemmas *)

Lemma for_each_ok {A} (f : A → Result unit) l :
  for_each f l = Value () ↔ Forall (λ a, f a = Value ()) l.
Proof.
  induction l as [|a l IH]; simpl; [by split|]. rewrite Forall_cons, <-IH.
  destruct (f a) as [[]|e]; simpl; naive_solver.
Qed.

Lemma try_ok {A B} (r : Result A) (k : A → Result B) b :
  expected_bind r k = Value b ↔ ∃ a, r = Value a ∧ k a = Value b.
Proof. destruct r; simpl; naive_solver. Qed.

Lemma fail_if_ok {A} (b : bool) (e : string) (k : Result A) a :
  (fail_if b with e ;; k) = Value a ↔ b = false ∧ k = Value a.
Proof. destruct b; naive_solver. Qed.

Lemma reject_unknown_keys_ok j context allowed :
  reject_unknown_keys j context allowed = Value () ↔
  is_object j = true ∧ ∀ k, k ∈ jkeys j → k ∈ allowed.
Proof.
  unfold reject_unknown_keys. destruct (is_object j); simpl; [|naive_solver].
  destruct (find _ (jkeys j)) as [k|] eqn:Hf.
  - apply find_some in Hf as [Hin Hk]. reflect_bools. split; [done|]. intros [_ Hall].
    destruct Hk. apply Hall. by apply list_elem_of_In.
  - split; [|done]. intros _. split; [done|]. intros k Hk%list_elem_of_In.
    pose proof (find_none _ _ Hf k Hk) as Hn. simpl in Hn. by reflect_bools.
Qed.

Lemma enum_value_matches_ok v t : enum_value_matches v (type_name t) = true ↔ of_type t v.
Proof.
  split.
  - by destruct t, v; cbn; intros; try done; constructor.
  - by intros []; reflexivity.
Qed.

Lemma supported_type type : type ∈ supported_types ↔ ∃ t, type = type_name t.
Proof.
  unfold supported_types. split.
  - rewrite !elem_of_cons, elem_of_nil. intros [->|[->|[->|[->|[]]]]];
      [by exists TString|by exists TInteger|by exists TNumber|by exists TBoolean].
  - intros [[] ->]; simpl; set_solver.
Qed.

Lemma validate_property_schema_ok name j :
  validate_property_schema name j = Value () ↔ ∃ pa, declares_parameter j pa.
Proof.
  unfold validate_property_schema. rewrite try_ok. split.
  - intros ([] & [Hobj Hkeys]%reject_unknown_keys_ok & Hrest).
    destruct (jfind "type" j) as [[| | | |type| |]|] eqn:Htype; try done.
    apply fail_if_ok in Hrest as [Hsup Hrest]. reflect_bools.
    apply supported_type in Hsup as [t ->]. apply fail_if_ok in Hrest as [Hdesc Hrest].
    assert (∃ d, jfind "description" j = JString <$> d) as [d Hd].
    { destruct (jfind "description" j) as [[| | | |d| |]|]; try done; [by exists (Some d)|by exists None]. }
    assert (∃ vs, jfind "enum" j = JArray <$> vs ∧ ∀ l, vs = Some l → Forall (of_type t) l) as (vs & Hv & Ht).
    { destruct (jfind "enum" j) as [[| | | | |l|]|]; try done; [exists (Some l)|by exists None].
      split; [done|]. intros ? [= <-]. apply for_each_ok in Hrest. eapply Forall_impl; [exact Hrest|].
      intros v Hval. apply enum_value_matches_ok. unfold validate_enum_value_type in Hval.
      by destruct (enum_value_matches v (type_name t)). }
    by exists {| pa_type := t; pa_description := d; pa_values := vs |}.
  - intros [[t d vs] [Hobj Hkeys Htype Hdesc Hvals Htyped]]; cbn in *. exists ().
    split; [by apply reject_unknown_keys_ok|]. rewrite Htype.
    apply fail_if_ok. rewrite bool_decide_eq_true_2 by (apply supported_type; by exists t).
    split; [done|]. apply fail_if_ok. rewrite Hdesc. split; [by destruct d|]. rewrite Hvals.
    destruct vs as [l|]; [|done]. apply for_each_ok. eapply Forall_impl; [by apply Htyped|].
    intros v Hv%enum_value_matches_ok. unfold validate_enum_value_type. by rewrite Hv.
Qed.

Lemma validate_properties_ok entries :
  for_each validate_property_entry entries = Value () ↔
  ∃ parameters, Forall2 (λ e p, fst e = fst p ∧ declares_parameter (snd e) (snd p)) entries parameters.
Proof.
  rewrite for_each_ok. split.
  - induction 1 as [|[name j] entries He _ (ps & IH)]; [by exists []|].
    unfold validate_property_entry in He. apply fail_if_ok in He as [_ [pa Hpa]%validate_property_schema_ok].
    exists ((name, pa) :: ps). by constructor.
  - intros (ps & Hps). induction Hps as [|[name j] [? pa] entries ps [Hname Hpa]]; constructor; [|done].
    unfold validate_property_entry. cbn in *. subst. rewrite (dp_object _ _ Hpa).
    apply validate_property_schema_ok. by exists pa.
Qed.

Lemma jcontains_entries name entries (parameters : list (string * ToolParam)) :
  Forall2 (λ e p, fst e = fst p ∧ declares_parameter (snd e) (snd p)) entries parameters →
  jcontains name (JObject entries) = true ↔ name ∈ parameters.*1.
Proof.
  unfold jcontains. simpl. induction 1 as [|[k j] [k' pa] entries ps [Hk _] _ IH]; cbn in *; subst.
  { split; [done|]. by intros ?%not_elem_of_nil. }
  rewrite elem_of_cons. case_decide as Hn; [naive_solver|]. rewrite IH. naive_solver.
Qed.

Lemma validate_required_ok entries (parameters : list (string * ToolParam)) values :
  Forall2 (λ e p, fst e = fst p ∧ declares_parameter (snd e) (snd p)) entries parameters →
  for_each (validate_required_entry (JObject entries)) values = Value () ↔
  ∃ required, values = JString <$> required ∧ Forall (λ r, r ∈ parameters.*1) required.
Proof.
  intros Hps. rewrite for_each_ok. split.
  - induction 1 as [|v values Hv _ (rs & -> & Hrs)]; [by exists []|].
    destruct v as [| | | |name| |]; try done. unfold validate_required_entry in Hv.
    apply fail_if_ok in Hv as [Hc _]. reflect_bools. exists (name :: rs). split; [done|].
    constructor; [|done]. by apply (jcontains_entries name entries).
  - intros (rs & -> & Hrs). apply Forall_fmap. eapply Forall_impl; [exact Hrs|]. intros name Hn.
    simpl. by rewrite (proj2 (jcontains_entries name entries parameters Hps) Hn).
Qed.

Lemma validate_schema_ok schema :
  validate_tool_parameters_schema schema = Value () ↔
  ∃ parameters required, declares schema parameters required.
Proof.
  unfold validate_tool_parameters_schema. rewrite try_ok. split.
  - intros ([] & [Hobj Hkeys]%reject_unknown_keys_ok & Hrest).
    apply fail_if_ok in Hrest as [Htype Hrest].
    assert (jfind "type" schema = Some (JString "object")) as Hty.
    { destruct (jfind "type" schema) as [[| | | |type| |]|]; try done. by reflect_bools; subst. }
    destruct (jfind "properties" schema) as [[| | | | | |entries]|] eqn:Hprops; try done.
    apply try_ok in Hrest as ([] & (ps & Hps)%validate_properties_ok & Hrest).
    apply try_ok in Hrest as ([] & Hreq & Hadd).
    assert (∃ rs, (jfind "required" schema = None ∧ rs = [] ∨
                   jfind "required" schema = Some (JArray (JString <$> rs))) ∧
                  Forall (λ r, r ∈ ps.*1) rs) as (rs & Hrs & Hknown).
    { destruct (jfind "required" schema) as [[| | | | |l|]|]; try done.
      - apply (validate_required_ok entries ps) in Hreq as (rs & -> & Hk); [|done]. eauto.
      - exists []. by split; [left|]. }
    exists ps, rs. split; try done; [by exists entries|].
    destruct (jfind "additionalProperties" schema) as [[| [] | | | | |]|]; try done; [by right|by left].
  - intros (ps & rs & [Hobj Hkeys Htype (entries & Hprops & Hps) Hreq Hknown Hadd]). exists ().
    split; [by apply reject_unknown_keys_ok|]. rewrite Htype, Hprops. apply fail_if_ok.
    split; [by rewrite bool_decide_eq_true_2|].
    apply try_ok. exists (). split; [apply validate_properties_ok; by exists ps|].
    apply try_ok. exists (). split; [|by destruct Hadd as [->| ->]].
    destruct Hreq as [[-> _]| ->]; [done|]. apply (validate_required_ok entries ps); [done|]. by exists rs.
Qed.

(** C39: The check of a tool's configuration accepts exactly the well-formed ones: the name, the
    description and every command word are not empty, the timeout is positive, the environment's
    names are names, and the parameter schema declares, with no other keyword, an object of typed
    parameters (whose enumerated values have the parameter's type) and a list of required ones
    among them. *)
Theorem validate_tool_exact (tool : CommandToolConfig) :
  validate_tool tool = Value () ↔ tool_ok tool.
Proof.
  assert (∀ l, for_each (λ arg, fail_if is_empty arg with "tools.command entries must not be empty" ;;
    Value ()) l = Value () ↔ "" ∉ l) as Hcommand.
  { intros l. rewrite for_each_ok, Forall_forall. split.
    - intros Hall Hin. by specialize (Hall _ Hin).
    - intros Hn x Hx. apply fail_if_ok. rewrite is_empty_false. split; [by intros ->|done]. }
  assert (∀ l, for_each validate_env_entry l = Value () ↔
    Forall (λ e, fst e ≠ "" ∧ string_mem "="%char (fst e) = false) l) as Henv.
  { intros l. rewrite for_each_ok. apply Forall_iff. intros e. unfold validate_env_entry.
    rewrite !fail_if_ok, is_empty_false. naive_solver. }
  unfold validate_tool. rewrite !fail_if_ok, !is_empty_false, bool_decide_eq_false. split.
  - intros (? & ? & ? & ([] & ?%Hcommand & Hrest)%try_ok). apply fail_if_ok in Hrest as [? Hrest].
    apply try_ok in Hrest as ([] & ?%validate_schema_ok & ?%Henv). reflect_bools. by split.
  - intros [? ? [? Hc%Hcommand] ? Hs%validate_schema_ok He%Henv]. do 3 (split; [done|]).
    apply try_ok. exists (). split; [exact Hc|]. apply fail_if_ok.
    rewrite bool_decide_eq_false. split; [done|]. apply try_ok. by exists ().
Qed.
