(* ===== verification/CommandTools.v ===== *)
(** * command_tools.cpp: finding a tool's program and its environment

    The file system is the class [Filesystem]; a [std::filesystem::path] is its
    native string, with the members the source uses ([operator/],
    [is_relative]); [environ] is the list of its entries. *)

From Stdlib Require Import Sorting.Sorted.
From S2P Require Import Prelude ApiTypes Json ApiJson ToolSchema.

(** [::access(path, X_OK)], [is_directory], [weakly_canonical] (throws with a
    text), [current_path]. *)
Class Filesystem : Type := {
  access_x : string → bool;
  is_directory : string → bool;
  weakly_canonical : string → Result string;
  current_path : Result string;
}.

(** ** Strings and paths *)

(** [find(c)], from the start and from a position. *)
Fixpoint find_char (c : Ascii.ascii) (s : string) : option nat :=
  match s with
  | EmptyString => None
  | String d s => if decide (c = d) then Some 0 else S <$> find_char c s
  end.

Fixpoint find_char_from (c : Ascii.ascii) (s : string) (start : nat) : option nat :=
  match start, s with
  | O, _ => find_char c s
  | S n, String _ s => S <$> find_char_from c s n
  | S _, EmptyString => None
  end.

(** [substr(start)]. *)
Definition substr_from (start : nat) (s : string) : string :=
  String.substring start (String.length s - start) s.

Definition slash : Ascii.ascii := "/"%char.

Definition is_relative (path : string) : bool :=
  match path with String c _ => negb (bool_decide (c = slash)) | EmptyString => true end.

Fixpoint last_char (s : string) : option Ascii.ascii :=
  match s with
  | EmptyString => None
  | String c EmptyString => Some c
  | String _ s => last_char s
  end.

(** [operator/] of paths. *)
Definition path_append (a b : string) : string :=
  if negb (is_relative b) || is_empty a then b
  else match last_char a with
       | Some c => if decide (c = slash) then a +:+ b else a +:+ "/" +:+ b
       | None => b
       end.

Definition contains_path_separator (value : string) : bool := is_some (find_char slash value).

(** ** The environment *)

(** An entry of [environ] cut at its first '='. *)
Definition split_entry (entry : string) : option (string * string) :=
  match find_char "="%char entry with
  | None => None
  | Some n => Some (String.substring 0 n entry, substr_from (S n) entry)
  end.

(** [::getenv]. *)
Fixpoint getenv (name : string) (environ : list string) : option string :=
  match environ with
  | [] => None
  | entry :: environ =>
      match split_entry entry with
      | Some (k, v) => if decide (k = name) then Some v else getenv name environ
      | None => getenv name environ
      end
  end.

Fixpoint map_find (k : string) (m : list (string * string)) : option string :=
  match m with
  | [] => None
  | (k', v) :: m => if decide (k = k') then Some v else map_find k m
  end.

(** [std::map::operator[]] assignment and [emplace], on the entries in key order. *)
Fixpoint map_set (k v : string) (m : list (string * string)) : list (string * string) :=
  match m with
  | [] => [(k, v)]
  | (k', v') :: m' =>
      match String.compare k k' with
      | Lt => (k, v) :: m
      | Eq => (k, v) :: m'
      | Gt => (k', v') :: map_set k v m'
      end
  end.

Definition map_emplace (k v : string) (m : list (string * string)) : list (string * string) :=
  if is_some (map_find k m) then m else map_set k v m.

Definition emplace_entry (m : list (string * string)) (entry : string) : list (string * string) :=
  match split_entry entry with Some (k, v) => map_emplace k v m | None => m end.

Definition assign_entry (m : list (string * string)) (kv : string * string) : list (string * string) :=
  map_set (fst kv) (snd kv) m.

Section Tools.
Context `{Filesystem}.
Variable environ : list string.

Definition build_environment_map (tool : CommandToolConfig) : list (string * string) :=
  let environment := if tool_inherit_environment tool then foldl emplace_entry [] environ else [] in
  foldl assign_entry environment (tool_env tool).

Definition nonempty_getenv (name : string) : option string :=
  match getenv name environ with
  | Some path => if is_empty path then None else Some path
  | None => None
  end.

Definition effective_path_env (tool : CommandToolConfig) : option string :=
  match (if tool_inherit_environment tool then nonempty_getenv "PATH" else None) with
  | Some path => Some path
  | None =>
      match map_find "PATH" (tool_env tool) with
      | Some path => Some path
      | None => nonempty_getenv "PATH"
      end
  end.

(** ** [resolve_executable_path] *)

Definition command_base_directory (tool : CommandToolConfig) : Result string :=
  match tool_working_directory tool with Some d => Value d | None => current_path end.

(** The program in one entry of the search path. *)
Definition path_candidate (base_dir program entry : string) : string :=
  let directory := if is_empty entry then base_dir else entry in
  let directory := if is_relative directory then path_append base_dir directory else directory in
  path_append directory program.

(** [weakly_canonical], when the candidate may be executed. *)
Definition accept_candidate (candidate : string) : option (Result (option string)) :=
  if access_x candidate
  then Some (try! path := weakly_canonical candidate in Value (Some path))
  else None.

(** The loop over the search path, one round per unit of fuel. *)
Fixpoint search_loop (fuel : nat) (base_dir program path_env : string) (start : nat)
    : Result (option string) :=
  match fuel with
  | O => Value None
  | S fuel =>
      if bool_decide (String.length path_env < start) then Value None
      else
        let stop := find_char_from ":"%char path_env start in
        let entry := match stop with
                     | None => substr_from start path_env
                     | Some e => String.substring start (e - start) path_env
                     end in
        match accept_candidate (path_candidate base_dir program entry) with
        | Some r => r
        | None =>
            match stop with
            | None => Value None
            | Some e => search_loop fuel base_dir program path_env (S e)
            end
        end
  end.

Definition resolve_executable_path (tool : CommandToolConfig) : Result (option string) :=
  match tool_command tool with
  | [] => Value None
  | program :: _ =>
      if is_empty program then Value None
      else if contains_path_separator program then
        try! candidate := (if is_relative program
                           then try! base := command_base_directory tool in Value (path_append base program)
                           else Value program) in
        default (Value None) (accept_candidate candidate)
      else
        match effective_path_env tool with
        | None => Value None
        | Some path_env =>
            try! base_dir := command_base_directory tool in
            search_loop (S (S (String.length path_env))) base_dir program path_env 0
        end
  end.

(** ** Preparing tools *)

Record PreparedCommandTool : Type := {
  prepared_config : CommandToolConfig;
  executable_path : string;
  env_entries : list string;
}.

(** [prepare_command_tool]; an exception's text is the error. *)
Definition prepare_command_tool (tool : CommandToolConfig) : Result PreparedCommandTool :=
  try! executable := resolve_executable_path tool in
  match executable with
  | None =>
      Unexpected ("tools.command executable not found or not executable: " +:+
                  default "" (head (tool_command tool)))
  | Some path =>
      Value {| prepared_config := tool; executable_path := path;
               env_entries := (λ kv, fst kv +:+ "=" +:+ snd kv) <$> build_environment_map tool |}
  end.

Definition build_prepared_command_tool (tool : CommandToolConfig) : Result PreparedCommandTool :=
  try! _ := validate_tool tool in
  fail_if match tool_working_directory tool with Some d => negb (is_directory d) | None => false end
    with "tools.working_directory must point to an existing directory" ;;
  prepare_command_tool tool.

(** The tools of the provider: what is announced, and what its [invoke] runs. *)
Fixpoint make_command_tool_provider (tools : list CommandToolConfig)
    : Result (list (ToolDefinition * PreparedCommandTool)) :=
  match tools with
  | [] => Value []
  | tool :: tools =>
      match build_prepared_command_tool tool with
      | Unexpected e => Unexpected ("Invalid tool " +:+ quoted (tool_name tool) +:+ ": " +:+ e)
      | Value prepared =>
          try! rest := make_command_tool_provider tools in
          Value (({| td_name := tool_name tool; td_description := tool_description tool;
                     td_parameters_schema := tool_parameters_schema tool |}, prepared) :: rest)
      end
  end.
End Tools.

(** ** The search path *)

(** The pieces of [s] between the [c]s. *)
Fixpoint split_on (c : Ascii.ascii) (s : string) : list string :=
  match s with
  | EmptyString => [""]
  | String d s =>
      if decide (c = d) then "" :: split_on c s
      else match split_on c s with [] => [String d ""] | x :: xs => String d x :: xs end
  end.

Lemma find_char_lt c s n : find_char c s = Some n → n < String.length s.
Proof.
  revert n. induction s as [|d s IH]; intros n; simpl; [done|]. case_decide; [intros [= <-]; lia|].
  destruct (find_char c s) as [m|]; [|done]. intros [= <-]. specialize (IH m eq_refl). lia.
Qed.

Lemma substr_from_cons d s n : substr_from (S n) (String d s) = substr_from n s.
Proof. done. Qed.

Lemma split_on_find c s :
  split_on c s = match find_char c s with
                 | None => [s]
                 | Some n => String.substring 0 n s :: split_on c (substr_from (S n) s)
                 end.
Proof.
  induction s as [|d s IH]; [done|]. cbn [split_on find_char]. case_decide as Hc.
  - rewrite substr_from_cons. unfold substr_from. by rewrite Nat.sub_0_r, substring_0_full.
  - rewrite IH. destruct (find_char c s) as [n|] eqn:Hf; [|done].
    cbn [fmap option_fmap option_map]. by rewrite substr_from_cons.
Qed.

Lemma find_char_from_substr c s start :
  start ≤ String.length s →
  find_char_from c s start = (λ n, start + n) <$> find_char c (substr_from start s).
Proof.
  revert s. induction start as [|start IH]; intros s Hlen.
  - unfold substr_from. rewrite Nat.sub_0_r, substring_0_full. cbn [find_char_from].
    destruct s as [|a s]; [done|].
    change (find_char_from c (String a s) 0) with (find_char c (String a s)). by destruct (find_char _ _).
  - destruct s as [|d s]; simpl in Hlen; [lia|]. cbn [find_char_from]. rewrite IH by lia.
    rewrite substr_from_cons. by destruct (find_char c _).
Qed.

Lemma substring_substr_from start n s :
  String.substring start n s = String.substring 0 n (substr_from start s).
Proof.
  revert s. induction start as [|start IH]; intros s.
  - unfold substr_from. by rewrite Nat.sub_0_r, substring_0_full.
  - destruct s as [|d s]; [by destruct n|]. rewrite substr_from_cons. simpl. apply IH.
Qed.

Lemma substr_from_add i j s : substr_from (i + j) s = substr_from j (substr_from i s).
Proof.
  revert s. induction i as [|i IH]; intros s.
  - unfold substr_from at 3. by rewrite Nat.sub_0_r, substring_0_full.
  - destruct s as [|d s]; [by destruct j|]. rewrite substr_from_cons. apply IH.
Qed.

Lemma substr_from_length i s : String.length (substr_from i s) = String.length s - i.
Proof.
  revert s. induction i as [|i IH]; intros s.
  - unfold substr_from. by rewrite Nat.sub_0_r, substring_0_full.
  - destruct s as [|d s]; [done|]. rewrite substr_from_cons. apply IH.
Qed.

Section Search.
Context `{Filesystem}.

(** The first candidate that may be executed. *)
Fixpoint first_accepted (candidates : list string) : Result (option string) :=
  match candidates with
  | [] => Value None
  | c :: candidates => default (first_accepted candidates) (accept_candidate c)
  end.

Lemma search_loop_split base program path fuel : ∀ start,
  start ≤ String.length path → String.length path - start < fuel →
  search_loop fuel base program path start =
  first_accepted (path_candidate base program <$> split_on ":"%char (substr_from start path)).
Proof.
  induction fuel as [|fuel IH]; intros start Hle Hfuel; [lia|]. cbn [search_loop].
  rewrite bool_decide_eq_false_2 by lia. rewrite find_char_from_substr by done.
  rewrite split_on_find. destruct (find_char _ (substr_from start path)) as [n|] eqn:Hf;
    cbn [fmap option_fmap option_map list_fmap first_accepted].
  - rewrite substring_substr_from. replace (start + n - start) with n by lia.
    destruct (accept_candidate _); [done|]. cbn [default from_option].
    apply find_char_lt in Hf. rewrite substr_from_length in Hf.
    rewrite IH, <-substr_from_add by lia. by rewrite Nat.add_succ_r.
  - by destruct (accept_candidate _).
Qed.

Lemma first_accepted_cases cs :
  match first_accepted cs with
  | Value None => Forall (λ c, access_x c = false) cs
  | Value (Some p) => ∃ before c after, cs = before ++ c :: after ∧
      Forall (λ c, access_x c = false) before ∧ access_x c = true ∧ weakly_canonical c = Value p
  | Unexpected e => ∃ before c after, cs = before ++ c :: after ∧
      Forall (λ c, access_x c = false) before ∧ access_x c = true ∧ weakly_canonical c = Unexpected e
  end.
Proof.
  induction cs as [|c cs IH]; simpl; [done|]. unfold accept_candidate.
  destruct (access_x c) eqn:Hx; simpl.
  - by destruct (weakly_canonical c) eqn:Hc; simpl; exists [], c, cs.
  - destruct (first_accepted cs) as [[p|]|e]; [|by constructor|];
      destruct IH as (l & c' & l' & -> & ? & ?); exists (c :: l), c', l'; (split; [done|]);
      (split; [by constructor|done]).
Qed.

(** A bare program name is looked up like a shell does: the colon-separated entries of the
    search path are tried in order - an empty one means the base directory, a relative one is
    taken below it - and the first that may be executed is used; "not found" means that none may
    be.  The loop over the path always ends. *)
Theorem resolve_searches_path_in_order environ tool program args path base :
  tool_command tool = program :: args → program ≠ "" → contains_path_separator program = false →
  effective_path_env environ tool = Some path → command_base_directory tool = Value base →
  let candidates := path_candidate base program <$> split_on ":"%char path in
  match resolve_executable_path environ tool with
  | Value None => Forall (λ c, access_x c = false) candidates
  | Value (Some p) => ∃ before c after, candidates = before ++ c :: after ∧
      Forall (λ c, access_x c = false) before ∧ access_x c = true ∧ weakly_canonical c = Value p
  | Unexpected e => ∃ before c after, candidates = before ++ c :: after ∧
      Forall (λ c, access_x c = false) before ∧ access_x c = true ∧ weakly_canonical c = Unexpected e
  end.
Proof.
  intros Hcmd Hne%is_empty_false Hsep Hpath Hbase. cbv zeta. unfold resolve_executable_path.
  rewrite Hcmd, Hne, Hsep, Hpath, Hbase. cbn [expected_bind].
  rewrite search_loop_split by lia. unfold substr_from. rewrite Nat.sub_0_r, substring_0_full.
  apply first_accepted_cases.
Qed.
End Search.

(** ** The child's environment *)

Definition key_lt (a b : string * string) : Prop := String.compare (fst a) (fst b) = Lt.

Lemma map_find_set k k' v m :
  map_find k (map_set k' v m) = if decide (k = k') then Some v else map_find k m.
Proof.
  induction m as [|[k1 v1] m IH]; simpl; [by case_decide|].
  destruct (String.compare k' k1) eqn:Hc; simpl.
  - apply string_compare_eq in Hc as ->. by repeat case_decide.
  - done.
  - rewrite IH. repeat case_decide; simplify_eq; try done.
    by rewrite (proj2 (string_compare_eq k1 k1)) in Hc.
Qed.

Lemma map_find_emplace k k' v m :
  map_find k (map_emplace k' v m) =
  match map_find k m with Some v => Some v | None => if decide (k = k') then Some v else None end.
Proof.
  unfold map_emplace. destruct (is_some (map_find k' m)) eqn:Hs; reflect_bools.
  - destruct Hs as [v' Hv']. destruct (map_find k m) eqn:Hk; [done|]. case_decide; [|done].
    subst. congruence.
  - rewrite map_find_set. case_decide as Hk; [subst; by rewrite Hs|]. by destruct (map_find k m).
Qed.

Lemma ascii_compare_lt_trans a b c :
  Ascii.compare a b = Lt → Ascii.compare b c = Lt → Ascii.compare a c = Lt.
Proof. unfold Ascii.compare. rewrite !N.compare_lt_iff. lia. Qed.

Lemma string_compare_lt_trans a : ∀ b c,
  String.compare a b = Lt → String.compare b c = Lt → String.compare a c = Lt.
Proof.
  induction a as [|x a IH]; intros [|y b] [|z c]; simpl; try done.
  destruct (Ascii.compare x y) eqn:Hxy; destruct (Ascii.compare y z) eqn:Hyz; try done; intros H1 H2.
  - apply Ascii.compare_eq_iff in Hxy as ->. rewrite Hyz. by eapply IH.
  - apply Ascii.compare_eq_iff in Hxy as ->. by rewrite Hyz.
  - apply Ascii.compare_eq_iff in Hyz as ->. by rewrite Hxy.
  - by rewrite (ascii_compare_lt_trans x y z).
Qed.

Lemma map_set_sorted k v m :
  StronglySorted key_lt m → StronglySorted key_lt (map_set k v m).
Proof.
  induction 1 as [|[k1 v1] m Hm IH Hlt]; simpl; [repeat constructor|].
  destruct (String.compare k k1) eqn:Hc.
  - apply string_compare_eq in Hc as ->. by constructor.
  - constructor; [by constructor|]. constructor; [done|].
    eapply Forall_impl; [exact Hlt|]. intros x Hx. by apply (string_compare_lt_trans k k1).
  - constructor; [exact IH|]. rewrite String.compare_antisym in Hc.
    assert (key_lt (k1, v1) (k, v)) as Hkv by (unfold key_lt; simpl; by destruct (String.compare k1 k)).
    clear IH Hm. induction m as [|[k2 v2] m IHm]; simpl; [by repeat constructor|].
    inversion Hlt; subst. destruct (String.compare k k2); constructor; auto.
Qed.

Lemma fold_emplace_sorted l : ∀ m,
  StronglySorted key_lt m → StronglySorted key_lt (foldl emplace_entry m l).
Proof.
  induction l as [|e l IH]; intros m Hm; [done|]. apply IH. unfold emplace_entry, map_emplace.
  destruct (split_entry e) as [[k v]|]; [|done]. case_match; [done|]. by apply map_set_sorted.
Qed.

Lemma fold_emplace_find k l : ∀ m,
  map_find k (foldl emplace_entry m l) =
  match map_find k m with Some v => Some v | None => getenv k l end.
Proof.
  induction l as [|e l IH]; intros m; cbn [foldl getenv]; [by destruct (map_find k m)|].
  rewrite IH. unfold emplace_entry. destruct (split_entry e) as [[k' v]|]; [|done].
  rewrite map_find_emplace. destruct (map_find k m); [done|].
  repeat case_decide; congruence.
Qed.

Lemma fold_assign_find k l : ∀ m,
  NoDup l.*1 →
  map_find k (foldl assign_entry m l) =
  match map_find k l with Some v => Some v | None => map_find k m end.
Proof.
  induction l as [|[k' v] l IH]; intros m Hnd; [done|]. inversion Hnd as [|?? Hk' Hl]; subst.
  cbn [foldl map_find]. rewrite IH by done. unfold assign_entry. rewrite map_find_set. cbn [fst snd].
  case_decide as Hk; [|by destruct (map_find k l)]. subst.
  assert (map_find k' l = None) as ->; [|done].
  clear -Hk'. induction l as [|[k1 v1] l IH]; [done|]. cbn [map_find]. cbn in Hk'.
  apply not_elem_of_cons in Hk' as [??]. rewrite decide_False by done. by apply IH.
Qed.

Lemma fold_assign_sorted l : ∀ m,
  StronglySorted key_lt m → StronglySorted key_lt (foldl assign_entry m l).
Proof. induction l as [|e l IH]; intros m Hm; [done|]. by apply IH, map_set_sorted. Qed.

(** C38: A tool's environment is exact: every variable of the configuration has the configured
    value; any other variable is there only if the tool inherits the environment, with the value
    the server itself sees; and no variable is passed twice. *)
Theorem child_environment_exact environ tool k :
  NoDup (tool_env tool).*1 →
  let m := build_environment_map environ tool in
  StronglySorted key_lt m ∧
  map_find k m =
    match map_find k (tool_env tool) with
    | Some v => Some v
    | None => if tool_inherit_environment tool then getenv k environ else None
    end.
Proof.
  intros Hnd. cbv zeta. unfold build_environment_map. split.
  - apply fold_assign_sorted. destruct (tool_inherit_environment tool); [|constructor].
    apply fold_emplace_sorted. constructor.
  - rewrite fold_assign_find by done. destruct (map_find k (tool_env tool)); [done|].
    destruct (tool_inherit_environment tool); [|done]. by rewrite fold_emplace_find.
Qed.

Lemma prepared_tool `{Filesystem} environ t prepared :
  build_prepared_command_tool environ t = Value prepared →
  prepared_config prepared = t ∧ validate_tool t = Value () ∧
  (∀ dir, tool_working_directory t = Some dir → is_directory dir = true) ∧
  resolve_executable_path environ t = Value (Some (executable_path prepared)).
Proof.
  unfold build_prepared_command_tool. intros Hb. apply try_ok in Hb as ([] & Hval & Hb).
  apply fail_if_ok in Hb as [Hdir Hb]. unfold prepare_command_tool in Hb.
  apply try_ok in Hb as (o & Hres & Hb). destruct o as [path|]; [|done]. injection Hb as <-. cbn.
  split; [done|]. split; [done|]. split; [|done]. intros dir Hd. rewrite Hd in Hdir. by reflect_bools.
Qed.

(** The provider is all or nothing, and what it holds can be run: it is built exactly when every
    tool passes validation, its directory exists and its program is found; then the tools are the
    configured ones in order, each announced under its own schema; otherwise the error names the
    first tool that cannot be prepared. *)
Theorem provider_prepares_every_tool `{Filesystem} environ tools :
  match make_command_tool_provider environ tools with
  | Value provider =>
      Forall2 (λ t d, td_name (fst d) = tool_name t ∧
                      td_parameters_schema (fst d) = tool_parameters_schema t ∧
                      prepared_config (snd d) = t ∧ validate_tool t = Value () ∧
                      (∀ dir, tool_working_directory t = Some dir → is_directory dir = true) ∧
                      resolve_executable_path environ t = Value (Some (executable_path (snd d))))
        tools provider
  | Unexpected e =>
      ∃ before t after err, tools = before ++ t :: after ∧
        Forall (λ t, has_value (build_prepared_command_tool environ t) = true) before ∧
        build_prepared_command_tool environ t = Unexpected err ∧
        e = "Invalid tool " +:+ quoted (tool_name t) +:+ ": " +:+ err
  end.
Proof.
  induction tools as [|t tools IH]; cbn [make_command_tool_provider]; [constructor|].
  destruct (build_prepared_command_tool environ t) as [prepared|err] eqn:Hb; [|by exists [], t, tools, err].
  pose proof (prepared_tool environ t prepared Hb) as Ht.
  destruct (make_command_tool_provider environ tools) as [rest|e]; cbn [expected_bind].
  - constructor; [|done]. cbn. naive_solver.
  - destruct IH as (before & t' & after & err & -> & Hall & ? & ?).
    exists (t :: before), t', after, err. split; [done|]. split; [|done].
    constructor; [by rewrite Hb|done].
Qed.

(** ** Witnesses *)

Module Witness.

(** A file system with one program, searched from "/srv". *)
Definition fs : Filesystem :=
  {| access_x path := bool_decide (path = "/srv/bin/greet"); is_directory _ := true;
     weakly_canonical := Value; current_path := Value "/srv" |}.

Definition environ : list string := ["HOME=/root"; "PATH=/usr/bin::bin"].

Definition greet : CommandToolConfig :=
  {| tool_name := "greet"; tool_description := "Say hello"; tool_parameters_schema := JNull;
     tool_command := ["greet"]; tool_working_directory := None; tool_inherit_environment := true;
     tool_env := [("HOME", "/tmp"); ("LANG", "C")]; tool_timeout_ms := 1000 |}.

Lemma resolve_searches_path_in_order_witness :
  @resolve_executable_path fs environ greet = Value (Some "/srv/bin/greet") ∧
  ∃ before c after,
    (@path_candidate "/srv" "greet" <$> split_on ":"%char "/usr/bin::bin") = before ++ c :: after ∧
    Forall (λ c, @access_x fs c = false) before ∧ @access_x fs c = true.
Proof.
  split; [vm_compute; reflexivity|].
  pose proof (@resolve_searches_path_in_order fs environ greet "greet" [] "/usr/bin::bin" "/srv") as Hres.
  assert (@resolve_executable_path fs environ greet = Value (Some "/srv/bin/greet")) as Hval
    by (vm_compute; reflexivity).
  cbv zeta in Hres. rewrite Hval in Hres.
  destruct Hres as (b & c & a & H1 & H2 & H3 & _); try (vm_compute; reflexivity); [discriminate|].
  exists b, c, a. repeat split; assumption.
Defined.

Lemma child_environment_exact_witness :
  map_find "HOME" (build_environment_map environ greet) = Some "/tmp" ∧
  map_find "PATH" (build_environment_map environ greet) = Some "/usr/bin::bin".
Proof.
  assert (NoDup (tool_env greet).*1) as Hnd by (vm_compute; repeat constructor; set_solver).
  split.
  - exact (proj2 (child_environment_exact environ greet "HOME" Hnd)).
  - exact (proj2 (child_environment_exact environ greet "PATH" Hnd)).
Defined.
End Witness.
