(* ===== verification/ToolRun.v ===== *)
(** * command_tools.cpp: running a tool

    [run_prepared_command_tool] spawns the program and loops: see whether it
    ended, kill it at the deadline, poll the pipes, write its input, read its
    output.  The operating system's answers in one round of the loop are an
    [Observation]; what [read] and [write] answer until they stop are a
    [ReadTrace] and a [WriteTrace].  Linux is the platform. *)

From S2P Require Import Prelude ApiTypes Json ApiJson ToolSchema CommandTools.

Definition kMaxStdoutBytes : nat := 64 * 1024.
Definition kMaxCapturedStderrBytes : nat := 8 * 1024.

Record CommandToolRunError : Type := { cre_message : string; cre_timed_out : bool }.

Definition CommandToolRunResult : Type := expected CommandToolRunError json.

Definition make_timeout_error (timeout_ms : Z) : CommandToolRunResult :=
  Unexpected {| cre_message := "Tool command timed out after " +:+ pretty timeout_ms +:+ " ms";
                cre_timed_out := true |}.

Definition make_runtime_error (m : string) : CommandToolRunResult :=
  Unexpected {| cre_message := m; cre_timed_out := false |}.

(** ** Reading and writing *)

(** The member [error] of the source's struct is never used. *)
Record CapturedStream : Type := { data : string; truncated : bool }.

Definition no_output : CapturedStream := {| data := ""; truncated := false |}.

(** What successive [read]s return. *)
Inductive ReadTrace : Type :=
| ReadEof
| ReadAgain                                  (* EAGAIN, EWOULDBLOCK *)
| ReadError (m : string)
| ReadInterrupted (rest : ReadTrace)         (* EINTR *)
| ReadChunk (bytes : string) (rest : ReadTrace).

Definition capture_chunk (captured : CapturedStream) (max_bytes : nat) (bytes : string)
    : CapturedStream :=
  let chunk_size := String.length bytes in
  let previous_size := String.length (data captured) in
  {| data := if bool_decide (previous_size < max_bytes)
             then data captured +:+ String.substring 0 (min (max_bytes - previous_size) chunk_size) bytes
             else data captured;
     truncated := if bool_decide (max_bytes < previous_size + chunk_size) then true
                  else truncated captured |}.

(** The result is false at the end of the stream. *)
Fixpoint read_available (t : ReadTrace) (captured : CapturedStream) (max_bytes : nat)
    : CapturedStream * Result bool :=
  match t with
  | ReadEof => (captured, Value false)
  | ReadAgain => (captured, Value true)
  | ReadError m => (captured, Unexpected ("read failed: " +:+ m))
  | ReadInterrupted t => read_available t captured max_bytes
  | ReadChunk bytes t => read_available t (capture_chunk captured max_bytes bytes) max_bytes
  end.

(** What successive [write]s return. *)
Inductive WriteTrace : Type :=
| WriteBlocked                               (* EAGAIN, EWOULDBLOCK, EPIPE *)
| WriteError (m : string)
| WriteInterrupted (rest : WriteTrace)
| WriteSome (n : nat) (rest : WriteTrace).

(** The loop that writes the payload from [offset] on. *)
Fixpoint write_loop (t : WriteTrace) (size offset : nat) : Result nat :=
  if bool_decide (offset < size) then
    match t with
    | WriteBlocked => Value offset
    | WriteError m => Unexpected ("Failed to write tool stdin: " +:+ m)
    | WriteInterrupted t => write_loop t size offset
    | WriteSome n t => write_loop t size (offset + n)
    end
  else Value offset.

Definition format_stderr (stderr_text : string) (was_truncated : bool) : string :=
  if is_empty stderr_text then ""
  else " | stderr: " +:+ (if was_truncated then stderr_text +:+ "... [truncated]" else stderr_text).

(** ** The loop *)

(** [WIFEXITED], [WIFSIGNALED] and the rest. *)
Inductive ExitStatus : Type :=
| ExitedWith (code : Z)
| KilledBy (sig : Z)
| OtherEnd.

Inductive WaitResult : Type :=
| StillRunning
| Ended (st : ExitStatus)
| WaitFailed (m : string).

Inductive PollResult : Type :=
| PollFailed (m : string)
| PollNothing                                (* the timeout, or EINTR *)
| PollReady (stdin_closed stdin_writable stdout_ready stderr_ready : bool)
            (write : WriteTrace) (stdout stderr : ReadTrace).

(** The answers of one round: [waitpid], the clock, [waitpid] after the kill,
    the clock again, [poll] with what the calls after it return. *)
Record Observation : Type := {
  ob_wait : WaitResult;
  ob_now : Z;
  ob_killed : ExitStatus;
  ob_now_poll : Z;
  ob_poll : PollResult;
}.

Record RunState : Type := {
  waited : option ExitStatus;
  timed_out : bool;
  stdin_open : bool;
  stdout_open : bool;
  stderr_open : bool;
  offset : nat;
  stdout_capture : CapturedStream;
  stderr_capture : CapturedStream;
}.

Definition initial_run : RunState :=
  {| waited := None; timed_out := false; stdin_open := true; stdout_open := true;
     stderr_open := true; offset := 0; stdout_capture := no_output; stderr_capture := no_output |}.

Definition with_waited (w : option ExitStatus) (s : RunState) : RunState :=
  {| waited := w; timed_out := timed_out s; stdin_open := stdin_open s;
     stdout_open := stdout_open s; stderr_open := stderr_open s; offset := offset s;
     stdout_capture := stdout_capture s; stderr_capture := stderr_capture s |}.

Definition kill_at_deadline (st : ExitStatus) (s : RunState) : RunState :=
  {| waited := Some st; timed_out := true; stdin_open := false;
     stdout_open := stdout_open s; stderr_open := stderr_open s; offset := offset s;
     stdout_capture := stdout_capture s; stderr_capture := stderr_capture s |}.

Definition with_stdin (open : bool) (n : nat) (s : RunState) : RunState :=
  {| waited := waited s; timed_out := timed_out s; stdin_open := open;
     stdout_open := stdout_open s; stderr_open := stderr_open s; offset := n;
     stdout_capture := stdout_capture s; stderr_capture := stderr_capture s |}.

Definition with_stdout (open : bool) (c : CapturedStream) (s : RunState) : RunState :=
  {| waited := waited s; timed_out := timed_out s; stdin_open := stdin_open s;
     stdout_open := open; stderr_open := stderr_open s; offset := offset s;
     stdout_capture := c; stderr_capture := stderr_capture s |}.

Definition with_stderr (open : bool) (c : CapturedStream) (s : RunState) : RunState :=
  {| waited := waited s; timed_out := timed_out s; stdin_open := stdin_open s;
     stdout_open := stdout_open s; stderr_open := open; offset := offset s;
     stdout_capture := stdout_capture s; stderr_capture := c |}.

Definition poll_timeout_ms (s : RunState) (deadline now : Z) : Z :=
  if is_some (waited s) then 10
  else if bool_decide (deadline - now ≤ 0)%Z then 0 else Z.min (deadline - now) 10.

Section Run.
Context `{JsonLib}.
Variable timeout_ms : Z.
Variable payload_size : nat.
Variable deadline : Z.

(** After the loop. *)
Definition finish (s : RunState) : CommandToolRunResult :=
  let stderr_text := format_stderr (data (stderr_capture s)) (truncated (stderr_capture s)) in
  if timed_out s then make_timeout_error timeout_ms
  else if truncated (stdout_capture s)
  then make_runtime_error ("Tool command stdout exceeded " +:+ pretty (N.of_nat kMaxStdoutBytes) +:+ " bytes")
  else match waited s with
  | Some (KilledBy sig) =>
      make_runtime_error ("Tool command terminated by signal " +:+ pretty sig +:+ stderr_text)
  | Some OtherEnd | None => make_runtime_error ("Tool command ended unexpectedly" +:+ stderr_text)
  | Some (ExitedWith code) =>
      if bool_decide (code ≠ 0%Z)
      then make_runtime_error ("Tool command exited with status " +:+ pretty code +:+ stderr_text)
      else match json_parse (data (stdout_capture s)) with
           | Unexpected m => make_runtime_error ("Tool command stdout was not valid JSON: " +:+ m)
           | Value output =>
               if is_object output then Value output
               else make_runtime_error "Tool command stdout must be a JSON object"
           end
  end.

(** How a round ends: the function returns, or the loop goes on; [Sleep] also
    says how long [poll] may wait. *)
Inductive Round : Type :=
| Return (r : CommandToolRunResult)
| Continue (s : RunState).

Inductive Head : Type :=
| HeadReturn (r : CommandToolRunResult)
| HeadContinue (s : RunState)
| HeadPoll (max_wait_ms : Z) (s : RunState).

Definition stdin_wanted (s : RunState) : bool := stdin_open s && bool_decide (offset s < payload_size).

(** [try_wait], and the kill at the deadline. *)
Definition round_wait (ob : Observation) (s : RunState) : Result RunState :=
  try! s := (match waited s, ob_wait ob with
             | Some _, _ | None, StillRunning => Value s
             | None, Ended st => Value (with_waited (Some st) s)
             | None, WaitFailed m => Unexpected ("Failed while waiting on tool process: " +:+ m)
             end) in
  Value (if negb (is_some (waited s)) && bool_decide (deadline ≤ ob_now ob)%Z
         then kill_at_deadline (ob_killed ob) s else s).

(** The end of the loop, and the wait. *)
Definition round_gate (ob : Observation) (s : RunState) : Head :=
  if is_some (waited s) && negb (stdout_open s) && negb (stderr_open s) then HeadReturn (finish s)
  else if negb (stdin_wanted s) && negb (stdout_open s) && negb (stderr_open s) then HeadContinue s
  else HeadPoll (poll_timeout_ms s deadline (ob_now_poll ob)) s.

(** The round up to [poll]. *)
Definition round_head (ob : Observation) (s : RunState) : Head :=
  match round_wait ob s with
  | Unexpected m => HeadReturn (make_runtime_error m)
  | Value s => round_gate ob s
  end.

Definition poll_stdin (closed writable : bool) (w : WriteTrace) (s : RunState) : Result RunState :=
  if negb (stdin_wanted s) then Value s
  else if closed then Value (with_stdin false (offset s) s)
  else if writable then
    try! n := write_loop w payload_size (offset s) in
    Value (with_stdin (bool_decide (n < payload_size)) n s)
  else Value s.

Definition poll_stdout (ready : bool) (t : ReadTrace) (s : RunState) : Result RunState :=
  if stdout_open s && ready then
    match read_available t (stdout_capture s) kMaxStdoutBytes with
    | (_, Unexpected m) => Unexpected ("Failed to read tool stdout: " +:+ m)
    | (c, Value open) => Value (with_stdout open c s)
    end
  else Value s.

Definition poll_stderr (ready : bool) (t : ReadTrace) (s : RunState) : Result RunState :=
  if stderr_open s && ready then
    match read_available t (stderr_capture s) kMaxCapturedStderrBytes with
    | (_, Unexpected m) => Unexpected ("Failed to read tool stderr: " +:+ m)
    | (c, Value open) => Value (with_stderr open c s)
    end
  else Value s.

(** The round after [poll]. *)
Definition round_poll (r : PollResult) (s : RunState) : Round :=
  match r with
  | PollFailed m => Return (make_runtime_error ("Failed while polling tool pipes: " +:+ m))
  | PollNothing => Continue s
  | PollReady closed writable out_ready err_ready w out err =>
      match (try! s := poll_stdin closed writable w s in
             try! s := poll_stdout out_ready out s in
             poll_stderr err_ready err s) with
      | Unexpected m => Return (make_runtime_error m)
      | Value s => Continue s
      end
  end.

Definition round (ob : Observation) (s : RunState) : Round :=
  match round_head ob s with
  | HeadReturn r => Return r
  | HeadContinue s => Continue s
  | HeadPoll _ s => round_poll (ob_poll ob) s
  end.

(** The first [fuel] rounds, from the [i]-th on; [None] when the loop goes on. *)
Fixpoint run_loop (fuel i : nat) (obs : nat → Observation) (s : RunState)
    : option CommandToolRunResult :=
  match fuel with
  | O => None
  | S fuel =>
      match round (obs i) s with
      | Return r => Some r
      | Continue s => run_loop fuel (S i) obs s
      end
  end.
End Run.

(** ** Spawning *)

Inductive SetupStep : Type :=
| StdinPipe | StdoutPipe | StderrPipe | InitActions | InitAttributes
| DupStdin | DupStdout | DupStderr | CloseStdinWrite | CloseStdoutRead | CloseStderrRead
| ChangeDirectory | Spawn
| GetFlags (label : string) | SetFlags (label : string).

Definition setup_steps (working_directory : option string) : list SetupStep :=
  [StdinPipe; StdoutPipe; StderrPipe; InitActions; InitAttributes; DupStdin; DupStdout; DupStderr;
   CloseStdinWrite; CloseStdoutRead; CloseStderrRead] ++
  (if is_some working_directory then [ChangeDirectory] else []) ++
  [Spawn; GetFlags "tool stdin"; SetFlags "tool stdin"; GetFlags "tool stdout"; SetFlags "tool stdout";
   GetFlags "tool stderr"; SetFlags "tool stderr"].

(** The message of a failing step; [error] is [strerror]'s text. *)
Definition setup_message (step : SetupStep) (error : string) : string :=
  match step with
  | StdinPipe | StdoutPipe | StderrPipe => "Failed to create pipe: " +:+ error
  | InitActions => "Failed to initialize spawn file actions: " +:+ error
  | InitAttributes => "Failed to initialize spawn attributes: " +:+ error
  | DupStdin => "Failed to wire tool stdin: " +:+ error
  | DupStdout => "Failed to wire tool stdout: " +:+ error
  | DupStderr => "Failed to wire tool stderr: " +:+ error
  | CloseStdinWrite => "Failed to close child stdin write end: " +:+ error
  | CloseStdoutRead => "Failed to close child stdout read end: " +:+ error
  | CloseStderrRead => "Failed to close child stderr read end: " +:+ error
  | ChangeDirectory => "Failed to configure child working directory: " +:+ error
  | Spawn => "Failed to spawn tool process: " +:+ error
  | GetFlags label => "Failed to inspect " +:+ label +:+ ": " +:+ error
  | SetFlags label => "Failed to make " +:+ label +:+ " non-blocking: " +:+ error
  end.

Fixpoint run_setup (os_error : SetupStep → option string) (steps : list SetupStep) : Result unit :=
  match steps with
  | [] => Value ()
  | step :: steps =>
      match os_error step with
      | Some e => Unexpected (setup_message step e)
      | None => run_setup os_error steps
      end
  end.

(** [run_prepared_command_tool], for [fuel] rounds; the outer error is the
    exception [dump] throws for arguments that are not UTF-8. *)
Definition run_prepared_command_tool `{JsonLib} (fuel : nat) (os_error : SetupStep → option string)
    (started_at : Z) (obs : nat → Observation) (prepared : PreparedCommandTool) (arguments : json)
    : option (Result CommandToolRunResult) :=
  let tool := prepared_config prepared in
  match run_setup os_error (setup_steps (tool_working_directory tool)) with
  | Unexpected m => Some (Value (make_runtime_error m))
  | Value _ =>
      match json_dump arguments with
      | Unexpected m => Some (Unexpected m)
      | Value text =>
          let stdin_payload := text +:+ String "010"%char "" in
          Value <$> run_loop (tool_timeout_ms tool) (String.length stdin_payload)
                      (started_at + tool_timeout_ms tool) fuel 0 obs initial_run
      end
  end.

(** The provider's [invoke]. *)
Definition invoke_result (r : CommandToolRunResult) : RuntimeResult json :=
  match r with
  | Value output => Value output
  | Unexpected e =>
      Unexpected {| re_code := ToolExecutionFailed; re_message := cre_message e;
                    re_context := if cre_timed_out e then Some "timeout" else None |}
  end.

(** ** What the pipes delivered *)

Fixpoint trace_bytes (t : ReadTrace) : string :=
  match t with
  | ReadEof | ReadAgain | ReadError _ => ""
  | ReadInterrupted t => trace_bytes t
  | ReadChunk bytes t => bytes +:+ trace_bytes t
  end.

(** The bytes of successive calls of [read_available]. *)
Fixpoint bytes_of (reads : list ReadTrace) : string :=
  match reads with [] => "" | t :: reads => trace_bytes t +:+ bytes_of reads end.

Lemma bytes_of_app a b : bytes_of (a ++ b) = bytes_of a +:+ bytes_of b.
Proof. induction a as [|t a IH]; [done|]. cbn. by rewrite IH, string_app_assoc. Qed.

(** The last [read] found the end of the file. *)
Fixpoint ends_with_eof (t : ReadTrace) : bool :=
  match t with
  | ReadEof => true
  | ReadAgain | ReadError _ => false
  | ReadInterrupted t | ReadChunk _ t => ends_with_eof t
  end.

(** The end of the file was found, by the last call. *)
Definition drained (reads : list ReadTrace) : Prop :=
  ∃ before last, reads = before ++ [last] ∧ ends_with_eof last = true ∧
    Forall (λ t, ends_with_eof t = false) before.

(** A stream is open until the end of the file is found. *)
Definition stream_reads (open : bool) (reads : list ReadTrace) : Prop :=
  if open then Forall (λ t, ends_with_eof t = false) reads else drained reads.

Lemma stream_reads_snoc reads t :
  stream_reads true reads → stream_reads (negb (ends_with_eof t)) (reads ++ [t]).
Proof.
  intros Hr. destruct (ends_with_eof t) eqn:Ht; cbn; [by exists reads, t|].
  apply Forall_app. by split; [|constructor].
Qed.

Lemma read_available_open t c max_bytes b :
  snd (read_available t c max_bytes) = Value b → b = negb (ends_with_eof t).
Proof.
  revert c. induction t as [| |m|t IH|bytes t IH]; intros c; [by intros [= <-]..|done| |]; apply IH.
Qed.

(** [c] holds the first [max_bytes] of [total] and knows whether there were more. *)
Definition captures (max_bytes : nat) (total : string) (c : CapturedStream) : Prop :=
  data c = String.substring 0 max_bytes total ∧
  truncated c = bool_decide (max_bytes < String.length total).

Lemma substring_0_length n s : String.length (String.substring 0 n s) = min n (String.length s).
Proof. revert n. induction s as [|c s IH]; intros [|n]; simpl; auto. Qed.

Lemma substring_0_all n s : String.length s ≤ n → String.substring 0 n s = s.
Proof.
  revert n. induction s as [|c s IH]; intros [|n]; simpl; intros; try done; [lia|].
  rewrite IH by lia. done.
Qed.

Lemma substring_0_app n a b :
  String.substring 0 n (a +:+ b) =
  String.substring 0 n a +:+ String.substring 0 (n - String.length a) b.
Proof.
  revert n. induction a as [|c a IH]; intros n.
  - destruct n; simpl; [by destruct b|done].
  - destruct n; [by destruct b|]. rewrite string_app_cons. simpl. by rewrite IH.
Qed.

Lemma substring_0_min n k s :
  k = String.length s → String.substring 0 (min n k) s = String.substring 0 n s.
Proof.
  intros ->. destruct (decide (n ≤ String.length s)); [by rewrite Nat.min_l|].
  rewrite Nat.min_r by lia. by rewrite !substring_0_all by lia.
Qed.

Lemma capture_chunk_captures max_bytes total bytes c :
  captures max_bytes total c → captures max_bytes (total +:+ bytes) (capture_chunk c max_bytes bytes).
Proof.
  intros [Hd Ht]. unfold captures, capture_chunk. cbn. rewrite Hd, Ht. clear Hd Ht.
  rewrite substring_0_length, substring_0_app, string_length_app.
  split.
  - case_bool_decide.
    + rewrite substring_0_min by done. do 2 f_equal. lia.
    + replace (max_bytes - String.length total) with 0 by lia.
      assert (String.substring 0 0 bytes = "") as -> by (by destruct bytes). by rewrite string_app_nil_r.
  - repeat case_bool_decide; lia || done.
Qed.

Lemma read_available_captures max_bytes t : ∀ total c,
  captures max_bytes total c →
  captures max_bytes (total +:+ trace_bytes t) (fst (read_available t c max_bytes)).
Proof.
  induction t as [| | |t IH|bytes t IH]; intros total c Hc; simpl; try by rewrite string_app_nil_r.
  - by apply IH.
  - rewrite <-string_app_assoc. by apply IH, capture_chunk_captures.
Qed.

(** ** The course of a run *)

Section RunProofs.
Context `{JsonLib}.
Variable timeout_ms : Z.
Variable payload_size : nat.
Variable deadline : Z.
Variable obs : nat → Observation.

Local Abbreviation round_head := (round_head timeout_ms payload_size deadline).
Local Abbreviation round := (round timeout_ms payload_size deadline).
Local Abbreviation run_loop := (run_loop timeout_ms payload_size deadline).
Local Abbreviation finish := (finish timeout_ms).

(** Round [j] saw the child running, before the deadline. *)
Definition uneventful (j : nat) : Prop :=
  ob_wait (obs j) = StillRunning ∧ (ob_now (obs j) < deadline)%Z.

(** What the first [i] rounds saw of the child. *)
Inductive child_fate (i : nat) (s : RunState) : Prop :=
| fate_running :
    waited s = None → timed_out s = false → (∀ j, j < i → uneventful j) → child_fate i s
| fate_ended k st :
    k < i → waited s = Some st → timed_out s = false →
    ob_wait (obs k) = Ended st → (∀ j, j < k → uneventful j) → child_fate i s
| fate_killed k :
    k < i → is_Some (waited s) → timed_out s = true → (deadline ≤ ob_now (obs k))%Z →
    ob_wait (obs k) = StillRunning → (∀ j, j < k → uneventful j) → child_fate i s.

Lemma fate_mono i s s' :
  waited s' = waited s → timed_out s' = timed_out s → child_fate i s → child_fate i s'.
Proof.
  intros Hw Ht [H1 H2 H3|k st Hk H1 H2 H3 H4|k Hk H1 H2 H3 H4 H5]; rewrite <-?Hw, <-?Ht in *.
  - by apply fate_running.
  - by eapply fate_ended.
  - by eapply fate_killed.
Qed.

(** The child's state once the round has asked for it and looked at the clock. *)
Lemma wait_fate i s s' :
  child_fate i s → round_wait deadline (obs i) s = Value s' →
  child_fate (S i) s' ∧ stdout_capture s' = stdout_capture s ∧ stdout_open s' = stdout_open s ∧
  stderr_open s' = stderr_open s.
Proof.
  unfold round_wait. intros Hfate Hwait.
  destruct Hfate as [Hw Ht Hall|k st Hk Hw Ht Hend Hall|k Hk [st Hw] Ht Hdl Hrun Hall]; rewrite Hw in Hwait.
  - destruct (ob_wait (obs i)) as [|st|m] eqn:Hob; cbn in Hwait; [| |done].
    + rewrite Hw in Hwait. cbn in Hwait. case_bool_decide as Hnow; injection Hwait as <-; (split; [|done]).
      * by eapply (fate_killed (S i) _ i); [lia|eexists|..].
      * apply fate_running; [done..|]. intros j Hj.
        destruct (decide (j = i)) as [->|]; [split; [done|lia]|apply Hall; lia].
    + injection Hwait as <-. split; [|done]. by eapply (fate_ended (S i) _ i); [lia|..].
  - cbn in Hwait. rewrite Hw in Hwait. injection Hwait as <-. split; [|done].
    eapply (fate_ended (S i) _ k); eauto with lia.
  - cbn in Hwait. rewrite Hw in Hwait. injection Hwait as <-. split; [|done].
    eapply (fate_killed (S i) _ k); eauto with lia.
Qed.

Lemma head_fate i s :
  child_fate i s →
  match round_head (obs i) s with
  | HeadReturn r => (∃ m, r = make_runtime_error m) ∨
      ∃ s', r = finish s' ∧ child_fate (S i) s' ∧ stdout_capture s' = stdout_capture s ∧
        stdout_open s' = stdout_open s ∧ stderr_open s' = stderr_open s ∧
        stdout_open s' = false ∧ stderr_open s' = false
  | HeadContinue s' | HeadPoll _ s' =>
      child_fate (S i) s' ∧ stdout_capture s' = stdout_capture s ∧ stdout_open s' = stdout_open s ∧
      stderr_open s' = stderr_open s
  end.
Proof.
  intros Hfate. unfold ToolRun.round_head.
  destruct (round_wait deadline (obs i) s) as [s'|m] eqn:Hw; [|by left; eexists].
  destruct (wait_fate i s s' Hfate Hw) as (Hf & Hc & Ho & He). unfold round_gate.
  destruct (_ && _ && _) eqn:Hend; [|by destruct (negb (stdin_wanted _ _) && _ && _)].
  reflect_bools. right. by exists s'.
Qed.

(** What the round reads from the tool's standard output and error. *)
Definition round_stdout (ob : Observation) (s : RunState) : list ReadTrace :=
  match round_head ob s, ob_poll ob with
  | HeadPoll _ s, PollReady _ _ ready _ _ t _ => if stdout_open s && ready then [t] else []
  | _, _ => []
  end.

Definition round_stderr (ob : Observation) (s : RunState) : list ReadTrace :=
  match round_head ob s, ob_poll ob with
  | HeadPoll _ s, PollReady _ _ _ ready _ _ t => if stderr_open s && ready then [t] else []
  | _, _ => []
  end.

(** All that the rounds which go on read. *)
Fixpoint run_reads (reads : Observation → RunState → list ReadTrace) (fuel i : nat) (s : RunState)
    : list ReadTrace :=
  match fuel with
  | O => []
  | S fuel =>
      match round (obs i) s with
      | Return _ => []
      | Continue s' => reads (obs i) s ++ run_reads reads fuel (S i) s'
      end
  end.

Lemma poll_stdin_keeps closed writable w s s' :
  poll_stdin payload_size closed writable w s = Value s' →
  waited s' = waited s ∧ timed_out s' = timed_out s ∧ stdout_capture s' = stdout_capture s ∧
  stdout_open s' = stdout_open s ∧ stderr_open s' = stderr_open s.
Proof.
  unfold poll_stdin. intros Hp. destruct (negb _); [by injection Hp as <-|].
  destruct closed; [by injection Hp as <-|]. destruct writable; [|by injection Hp as <-].
  by apply try_ok in Hp as (n & _ & [= <-]).
Qed.

Lemma poll_stdout_keeps ready t s s' :
  poll_stdout ready t s = Value s' →
  waited s' = waited s ∧ timed_out s' = timed_out s ∧ stderr_open s' = stderr_open s.
Proof.
  unfold poll_stdout. intros Hp. destruct (_ && _); [|by injection Hp as <-].
  destruct (read_available _ _ _) as [c [b|m]]; [|done]. by injection Hp as <-.
Qed.

Lemma poll_stderr_keeps ready t s s' :
  poll_stderr ready t s = Value s' →
  waited s' = waited s ∧ timed_out s' = timed_out s ∧ stdout_capture s' = stdout_capture s ∧
  stdout_open s' = stdout_open s.
Proof.
  unfold poll_stderr. intros Hp. destruct (_ && _); [|by injection Hp as <-].
  destruct (read_available _ _ _) as [c [b|m]]; [|done]. by injection Hp as <-.
Qed.

Lemma poll_stdout_reads reads ready t s s' :
  poll_stdout ready t s = Value s' → captures kMaxStdoutBytes (bytes_of reads) (stdout_capture s) →
  stream_reads (stdout_open s) reads →
  let reads' := reads ++ if stdout_open s && ready then [t] else [] in
  captures kMaxStdoutBytes (bytes_of reads') (stdout_capture s') ∧ stream_reads (stdout_open s') reads'.
Proof.
  unfold poll_stdout. intros Hp Hc Ho. destruct (stdout_open s && ready) eqn:Hready.
  - apply andb_true_iff in Hready as [Hopen _]. rewrite Hopen in Ho. rewrite bytes_of_app. cbn [bytes_of].
    pose proof (read_available_captures kMaxStdoutBytes t _ _ Hc) as Hr.
    pose proof (read_available_open t (stdout_capture s) kMaxStdoutBytes) as Hb.
    rewrite string_app_nil_r.
    destruct (read_available _ _ _) as [c [b|m]]; [|done]. injection Hp as <-.
    split; [exact Hr|]. cbn. rewrite (Hb b eq_refl). by apply stream_reads_snoc.
  - injection Hp as <-. by rewrite app_nil_r.
Qed.

Lemma poll_stderr_reads reads ready t s s' :
  poll_stderr ready t s = Value s' → stream_reads (stderr_open s) reads →
  stream_reads (stderr_open s') (reads ++ if stderr_open s && ready then [t] else []).
Proof.
  unfold poll_stderr. intros Hp Ho. destruct (stderr_open s && ready) eqn:Hready.
  - apply andb_true_iff in Hready as [Hopen _]. rewrite Hopen in Ho.
    pose proof (read_available_open t (stderr_capture s) kMaxCapturedStderrBytes) as Hb.
    destruct (read_available _ _ _) as [c [b|m]]; [|done]. injection Hp as <-.
    cbn. rewrite (Hb b eq_refl). by apply stream_reads_snoc.
  - injection Hp as <-. by rewrite app_nil_r.
Qed.

(** The state before round [i], when [out] and [err] are what was read until then. *)
Record run_so_far (i : nat) (out err : list ReadTrace) (s : RunState) : Prop := {
  sofar_fate : child_fate i s;
  sofar_captures : captures kMaxStdoutBytes (bytes_of out) (stdout_capture s);
  sofar_stdout : stream_reads (stdout_open s) out;
  sofar_stderr : stream_reads (stderr_open s) err;
}.

(** [poll] and what follows it. *)
Lemma poll_so_far i out err s1 closed writable oready eready w to te s' :
  run_so_far i out err s1 →
  (try! s2 := poll_stdin payload_size closed writable w s1 in
   try! s3 := poll_stdout oready to s2 in poll_stderr eready te s3) = Value s' →
  run_so_far i (out ++ if stdout_open s1 && oready then [to] else [])
               (err ++ if stderr_open s1 && eready then [te] else []) s'.
Proof.
  intros [Hfate Hcap Hout Herr] Hp.
  apply try_ok in Hp as (s2 & H2 & Hp). apply try_ok in Hp as (s3 & H3 & H4).
  apply poll_stdin_keeps in H2 as (Hw2 & Ht2 & Hc2 & Ho2 & He2).
  rewrite <-Hc2 in Hcap. rewrite <-Ho2 in Hout |- *. rewrite <-He2 in Herr |- *.
  destruct (poll_stdout_reads out oready to s2 s3 H3 Hcap Hout) as [Hcap3 Hout3].
  apply poll_stdout_keeps in H3 as (Hw3 & Ht3 & He3). rewrite <-He3 in Herr |- *.
  pose proof (poll_stderr_reads err eready te s3 s' H4 Herr) as Herr4.
  apply poll_stderr_keeps in H4 as (Hw4 & Ht4 & Hc4 & Ho4). split; [|by rewrite Hc4|by rewrite Ho4|done].
  apply (fate_mono i s1); congruence.
Qed.

(** One round. *)
Lemma round_so_far i out err s :
  run_so_far i out err s →
  match round (obs i) s with
  | Return r => (∃ m, r = make_runtime_error m) ∨
      ∃ s', r = finish s' ∧ run_so_far (S i) out err s' ∧ stdout_open s' = false ∧ stderr_open s' = false
  | Continue s' => run_so_far (S i) (out ++ round_stdout (obs i) s) (err ++ round_stderr (obs i) s) s'
  end.
Proof.
  intros [Hfate Hcap Hout Herr]. pose proof (head_fate i s Hfate) as Hhead. unfold ToolRun.round, round_stdout, round_stderr.
  destruct (round_head (obs i) s) as [r|s1|n s1].
  - destruct Hhead as [?|(s' & ? & Hf & Hc & Ho & He & ? & ?)]; [by left|right]. exists s'.
    split; [done|]. split; [|done]. by split; rewrite ?Hc, ?Ho, ?He.
  - destruct Hhead as (Hf & Hc & Ho & He). rewrite !app_nil_r. by split; rewrite ?Hc, ?Ho, ?He.
  - destruct Hhead as (Hf & Hc & Ho & He).
    assert (run_so_far (S i) out err s1) as H1 by (split; rewrite ?Hc, ?Ho, ?He; done).
    unfold round_poll. destruct (ob_poll (obs i)) as [m| |closed writable oready eready w to te];
      [left; by eexists|by rewrite !app_nil_r|].
    pose proof (poll_so_far (S i) out err s1 closed writable oready eready w to te) as Hp.
    destruct (expected_bind _ _) as [s'|m]; [by apply Hp|left; by eexists].
Qed.

(** The run, seen from outside: it fails in the middle, or ends in [finish]. *)
Lemma run_cases fuel : ∀ i out err s r,
  run_so_far i out err s → run_loop fuel i obs s = Some r →
  (∃ m, r = make_runtime_error m) ∨
  ∃ n s', n < fuel ∧ r = finish s' ∧ stdout_open s' = false ∧ stderr_open s' = false ∧
    run_so_far (i + S n) (out ++ run_reads round_stdout fuel i s) (err ++ run_reads round_stderr fuel i s) s'.
Proof.
  induction fuel as [|fuel IH]; intros i out err s r Hs Hrun; [done|].
  cbn [ToolRun.run_loop run_reads] in *. pose proof (round_so_far i out err s Hs) as Hr.
  destruct (round (obs i) s) as [r'|s'].
  - injection Hrun as <-. destruct Hr as [?|(s' & ? & ? & ? & ?)]; [by left|right].
    exists 0, s'. rewrite Nat.add_1_r, !app_nil_r. split_and!; [lia|done..].
  - destruct (IH (S i) _ _ s' r Hr Hrun) as [?|(n & s'' & Hn & ? & ? & ? & Hs')]; [by left|right].
    exists (S n), s''. rewrite <-!app_assoc in Hs'. rewrite Nat.add_succ_comm in Hs'.
    split_and!; [lia|done..].
Qed.

Lemma initial_so_far : run_so_far 0 [] [] initial_run.
Proof.
  split; [|split|by constructor|by constructor].
  - apply fate_running; [done..|]. intros j Hj. lia.
  - done.
  - symmetry. apply bool_decide_eq_false_2. simpl. lia.
Qed.

(** C34: A tool's answer is exactly what it said: the call succeeds only when the tool ended by
    itself with status 0 and no deadline had passed in any round before, its standard output and
    its standard error were both read to the end of the file, and what was read from the output
    up to there - all of it, at most 64 KiB - is one JSON object, the answer. *)
Theorem tool_answer_exact fuel output :
  run_loop fuel 0 obs initial_run = Some (Value output) →
  let out := run_reads round_stdout fuel 0 initial_run in
  let err := run_reads round_stderr fuel 0 initial_run in
  drained out ∧ drained err ∧
  String.length (bytes_of out) ≤ 64 * 1024 ∧ json_parse (bytes_of out) = Value output ∧
  is_object output = true ∧
  ∃ k, k < fuel ∧ ob_wait (obs k) = Ended (ExitedWith 0) ∧ ∀ j, j < k → uneventful j.
Proof.
  intros Hrun. cbv zeta. change (64 * 1024) with kMaxStdoutBytes.
  destruct (run_cases fuel 0 [] [] _ _ initial_so_far Hrun)
    as [[m Hm]|(n & s & Hn & Hfin & Ho & He & [Hfate [Hd Ht] Hout Herr])]; [done|].
  rewrite Ho in Hout. rewrite He in Herr. cbn [app] in *.
  symmetry in Hfin. revert Hfin. unfold ToolRun.finish.
  destruct (timed_out s) eqn:Hto; [done|]. rewrite Ht. case_bool_decide as Hlen; [done|]. clear Ht.
  destruct (waited s) as [[code|sig|]|] eqn:Hw; try done.
  case_bool_decide as Hcode; [done|]. apply Nat.nlt_ge in Hlen. rewrite Hd, substring_0_all by done.
  destruct (json_parse _) as [j|m] eqn:Hparse; [|done]. destruct (is_object j) eqn:Hobj; [|done].
  intros [= <-]. split_and!; [done|done|exact Hlen|done|done|].
  subst code.
  destruct Hfate as [Hw' _ _|k st Hk Hw' _ Hend Hall|k _ _ Hto' _ _ _]; [congruence| |congruence].
  exists k. split_and!; [lia| |done]. congruence.
Qed.

(** A timeout is reported only for a tool that was still running when its deadline had passed, in
    the first such round; the error says so, and reaches the agent as a tool failure with the
    context that the timeout metric counts. *)
Theorem tool_timeout_exact fuel e :
  run_loop fuel 0 obs initial_run = Some (Unexpected e) → cre_timed_out e = true →
  cre_message e = "Tool command timed out after " +:+ pretty timeout_ms +:+ " ms" ∧
  invoke_result (Unexpected e) = Unexpected {| re_code := ToolExecutionFailed;
    re_message := cre_message e; re_context := Some "timeout" |} ∧
  ∃ k, k < fuel ∧ (deadline ≤ ob_now (obs k))%Z ∧ ob_wait (obs k) = StillRunning ∧
       ∀ j, j < k → uneventful j.
Proof.
  intros Hrun He.
  destruct (run_cases fuel 0 [] [] _ _ initial_so_far Hrun)
    as [[m [= ->]]|(n & s & Hn & Hfin & _ & _ & [Hfate _ _ _])]; [done|].
  destruct (timed_out s) eqn:Hto.
  - unfold ToolRun.finish in Hfin. rewrite Hto in Hfin. injection Hfin as ->. cbn.
    do 2 (split; [done|]).
    destruct Hfate as [_ Hto' _|k st _ _ Hto' _ _|k Hk _ _ Hdl Hst Hall]; [congruence..|].
    exists k. split_and!; [lia|done..].
  - exfalso. revert Hfin. unfold ToolRun.finish. rewrite Hto.
    repeat case_match; intros [= ->]; done.
Qed.

(** Both pipes are at their end and [poll] says so; nothing goes wrong on the input. *)
Definition pipes_at_end (r : PollResult) : Prop :=
  match r with
  | PollReady closed _ true true _ out err =>
      closed = true ∧ ends_with_eof out = true ∧ ends_with_eof err = true
  | _ => False
  end.

Lemma read_to_eof t c max_bytes : ends_with_eof t = true → snd (read_available t c max_bytes) = Value false.
Proof. revert c. induction t; simpl; try done; auto. Qed.

Lemma round_waited i s0 s st :
  round_wait deadline (obs i) s0 = Value s → waited s = Some st → pipes_at_end (ob_poll (obs i)) →
  match round (obs i) s0 with
  | Return _ => True
  | Continue s' => waited s' = Some st ∧ stdout_open s' = false ∧ stderr_open s' = false
  end.
Proof.
  intros Hwait Hw Hp. unfold ToolRun.round, ToolRun.round_head. rewrite Hwait.
  unfold round_gate. rewrite Hw. cbn [is_some andb].
  destruct (negb (stdout_open s) && negb (stderr_open s)) eqn:Hclosed; [done|].
  rewrite <-andb_assoc, Hclosed, andb_false_r. unfold round_poll.
  destruct (ob_poll (obs i)) as [| |closed writable [] [] w out err]; try done.
  destruct Hp as (-> & Hout & Herr).
  destruct (poll_stdin payload_size true writable w s) as [s2|m] eqn:H2; cbn [expected_bind]; [|done].
  apply poll_stdin_keeps in H2 as (Hw2 & _). rewrite Hw in Hw2.
  unfold poll_stdout. rewrite andb_true_r.
  pose proof (read_to_eof out (stdout_capture s2) kMaxStdoutBytes Hout) as Ho.
  destruct (read_available out _ _) as [co ro]. cbn in Ho. subst ro.
  destruct (stdout_open s2) eqn:Hos; cbn [expected_bind]; unfold poll_stderr; rewrite andb_true_r.
  - cbn [with_stdout stderr_open stderr_capture].
    pose proof (read_to_eof err (stderr_capture s2) kMaxCapturedStderrBytes Herr) as He.
    destruct (read_available err _ _) as [ce re]. cbn in He. subst re.
    destruct (stderr_open s2) eqn:Hes; cbn; by rewrite ?Hes.
  - pose proof (read_to_eof err (stderr_capture s2) kMaxCapturedStderrBytes Herr) as He.
    destruct (read_available err _ _) as [ce re]. cbn in He. subst re.
    destruct (stderr_open s2) eqn:Hes; cbn; by rewrite ?Hes.
Qed.

Lemma wait_waited i s st : waited s = Some st → round_wait deadline (obs i) s = Value s.
Proof. intros Hw. unfold round_wait. rewrite Hw. cbn. by rewrite Hw. Qed.

(** A round that is not uneventful leaves no running child. *)
Lemma wait_eventful i s :
  child_fate i s → (∃ k, k ≤ i ∧ ¬ uneventful k) →
  match round_wait deadline (obs i) s with Value s' => is_Some (waited s') | Unexpected _ => True end.
Proof.
  intros [Hw _ Hall|k st _ Hw _ _ _|k _ [st Hw] _ _ _ _] (k' & Hk & Hev).
  - assert (k' = i) as -> by (destruct (decide (k' < i)); [by destruct Hev; apply Hall|lia]).
    unfold round_wait. rewrite Hw. destruct (ob_wait (obs i)) eqn:Hob; cbn; [|by eexists|done].
    rewrite Hw. cbn. case_bool_decide as Hnow; [by eexists|]. destruct Hev. split; [done|lia].
  - rewrite (wait_waited i s st Hw). by eexists.
  - rewrite (wait_waited i s st Hw). by eexists.
Qed.

Lemma run_ends n : ∀ i out err s,
  run_so_far i out err s → (∃ k, k ≤ i + n ∧ ¬ uneventful k) → pipes_at_end (ob_poll (obs (i + n))) →
  is_Some (run_loop (S (S n)) i obs s).
Proof.
  induction n as [|n IH]; intros i out err s Hs Hev Hend; cbn [ToolRun.run_loop].
  - rewrite Nat.add_0_r in *. pose proof (wait_eventful i s (sofar_fate _ _ _ _ Hs) Hev) as Hw.
    destruct (round_wait deadline (obs i) s) as [s1|m] eqn:Hwait.
    + destruct Hw as [st Hw]. pose proof (round_waited i s s1 st Hwait Hw Hend) as Hround.
      destruct (round (obs i) s) as [r|s']; [by eexists|]. destruct Hround as (Hw' & Ho & He).
      unfold ToolRun.round, ToolRun.round_head. rewrite (wait_waited (S i) s' st Hw').
      unfold round_gate. rewrite Hw', Ho, He. by eexists.
    + unfold ToolRun.round, ToolRun.round_head. rewrite Hwait. by eexists.
  - rewrite <-Nat.add_succ_comm in *. pose proof (round_so_far i out err s Hs) as Hround.
    destruct (round (obs i) s) as [r|s']; [by eexists|]. by eapply IH.
Qed.

(** C36: A run ends: once the tool has ended or its deadline has passed, the call returns at the
    latest one round after the round in which both output pipes are found at their end. *)
Theorem tool_run_terminates n :
  (∃ k, k ≤ n ∧ ¬ uneventful k) → pipes_at_end (ob_poll (obs n)) →
  ∃ r, run_loop (S (S n)) 0 obs initial_run = Some r.
Proof. intros Hev Hend. by apply (run_ends n 0 [] [] initial_run initial_so_far). Qed.
(** The state before round [i + n], when the call has not returned. *)
Fixpoint after_rounds (n i : nat) (s : RunState) : option RunState :=
  match n with
  | O => Some s
  | S n => match round (obs i) s with Return _ => None | Continue s' => after_rounds n (S i) s' end
  end.

Lemma after_rounds_running n : ∀ i s, is_Some (after_rounds n i s) → run_loop n i obs s = None.
Proof.
  induction n as [|n IH]; intros i s; [done|]. cbn. destruct (round (obs i) s) as [r|s']; [by intros []|apply IH].
Qed.

(** No call of the round fails. *)
Fixpoint read_fails (t : ReadTrace) : bool :=
  match t with
  | ReadError _ => true
  | ReadEof | ReadAgain => false
  | ReadInterrupted t | ReadChunk _ t => read_fails t
  end.

Fixpoint write_fails (w : WriteTrace) : bool :=
  match w with
  | WriteError _ => true
  | WriteBlocked => false
  | WriteInterrupted w | WriteSome _ w => write_fails w
  end.

Definition no_failure (ob : Observation) : Prop :=
  (∀ m, ob_wait ob ≠ WaitFailed m) ∧
  match ob_poll ob with
  | PollFailed _ => False
  | PollNothing => True
  | PollReady _ _ _ _ w out err => write_fails w = false ∧ read_fails out = false ∧ read_fails err = false
  end.

(** Some process holds the other end of the pipe: what is read, if anything, has no end. *)
Definition holds_stdout (ob : Observation) : Prop :=
  match ob_poll ob with PollReady _ _ _ _ _ out _ => ends_with_eof out = false | _ => True end.

Definition holds_stderr (ob : Observation) : Prop :=
  match ob_poll ob with PollReady _ _ _ _ _ _ err => ends_with_eof err = false | _ => True end.

Lemma read_succeeds t c max_bytes :
  read_fails t = false → snd (read_available t c max_bytes) = Value (negb (ends_with_eof t)).
Proof. revert c. induction t; cbn; intros c; try done; auto. Qed.

Lemma write_succeeds w size : ∀ n, write_fails w = false → ∃ n', write_loop w size n = Value n'.
Proof.
  induction w as [|m|w IH|k w IH]; intros n Hw; cbn in *; case_bool_decide; eauto; done.
Qed.

Lemma poll_stdin_succeeds closed writable w s :
  write_fails w = false → ∃ s', poll_stdin payload_size closed writable w s = Value s'.
Proof.
  intros Hw. unfold poll_stdin. destruct (negb _), closed, writable; try (by eexists).
  destruct (write_succeeds w payload_size (offset s) Hw) as [n ->]. by eexists.
Qed.

Lemma poll_stdout_succeeds ready t s :
  read_fails t = false →
  ∃ s', poll_stdout ready t s = Value s' ∧
        stdout_open s' = stdout_open s && (negb ready || negb (ends_with_eof t)).
Proof.
  intros Ht. unfold poll_stdout. pose proof (read_succeeds t (stdout_capture s) kMaxStdoutBytes Ht) as Hr.
  destruct (stdout_open s) eqn:Ho, ready; cbn [andb orb negb]; try (by exists s).
  destruct (read_available _ _ _) as [c r]. cbn [snd] in Hr. subst r. by eexists.
Qed.

Lemma poll_stderr_succeeds ready t s :
  read_fails t = false →
  ∃ s', poll_stderr ready t s = Value s' ∧
        stderr_open s' = stderr_open s && (negb ready || negb (ends_with_eof t)).
Proof.
  intros Ht. unfold poll_stderr. pose proof (read_succeeds t (stderr_capture s) kMaxCapturedStderrBytes Ht) as Hr.
  destruct (stderr_open s) eqn:Ho, ready; cbn [andb orb negb]; try (by exists s).
  destruct (read_available _ _ _) as [c r]. cbn [snd] in Hr. subst r. by eexists.
Qed.

(** What follows [poll] keeps the child's fate and the pipes that are held. *)
Lemma poll_held i s1 :
  no_failure (obs i) →
  ∃ s', round_poll payload_size (ob_poll (obs i)) s1 = Continue s' ∧
    waited s' = waited s1 ∧ timed_out s' = timed_out s1 ∧
    (holds_stdout (obs i) → stdout_open s1 = true → stdout_open s' = true) ∧
    (holds_stderr (obs i) → stderr_open s1 = true → stderr_open s' = true).
Proof.
  intros [_ Hp]. unfold holds_stdout, holds_stderr, round_poll.
  destruct (ob_poll (obs i)) as [m| |closed writable oready eready w out err]; [done|by eexists|].
  destruct Hp as (Hw & Hout & Herr).
  destruct (poll_stdin_succeeds closed writable w s1 Hw) as [s2 H2]. rewrite H2.
  destruct (poll_stdout_succeeds oready out s2 Hout) as (s3 & H3 & Ho3).
  destruct (poll_stderr_succeeds eready err s3 Herr) as (s4 & H4 & He4).
  cbn [expected_bind]. rewrite H3. cbn [expected_bind]. rewrite H4.
  apply poll_stdin_keeps in H2 as (Hw2 & Ht2 & _ & Ho2 & He2).
  apply poll_stdout_keeps in H3 as (Hw3 & Ht3 & He3). apply poll_stderr_keeps in H4 as (Hw4 & Ht4 & _ & Ho4).
  exists s4. split; [done|]. split; [congruence|]. split; [congruence|]. split; intros Hend Hopen.
  - rewrite Ho4, Ho3, Ho2, Hopen, Hend. by destruct oready.
  - rewrite He4, He3, He2, Hopen, Hend. by destruct eready.
Qed.

Lemma wait_succeeds i s : no_failure (obs i) → ∃ s', round_wait deadline (obs i) s = Value s'.
Proof.
  intros [Hw _]. unfold round_wait. destruct (waited s), (ob_wait (obs i)) as [|st|m]; try (by eexists).
  by destruct (Hw m).
Qed.

(** A round in which nothing fails, while a pipe is open, goes on. *)
Lemma round_held i s :
  no_failure (obs i) → stdout_open s = true ∨ stderr_open s = true →
  ∃ s1 s', round_wait deadline (obs i) s = Value s1 ∧ round (obs i) s = Continue s' ∧
    waited s' = waited s1 ∧ timed_out s' = timed_out s1 ∧
    (holds_stdout (obs i) → stdout_open s = true → stdout_open s' = true) ∧
    (holds_stderr (obs i) → stderr_open s = true → stderr_open s' = true).
Proof.
  intros Hn Hopen. destruct (wait_succeeds i s Hn) as [s1 Hw].
  assert (stdout_open s1 = stdout_open s ∧ stderr_open s1 = stderr_open s) as [Ho He].
  { revert Hw. unfold round_wait. destruct (waited s), (ob_wait (obs i)); cbn; try done;
      repeat case_match; by intros [= <-]. }
  destruct (poll_held i s1 Hn) as (s' & Hp & Hw' & Ht' & Ho' & He'). exists s1, s'.
  split; [done|]. split; [|by rewrite <-Ho, <-He].
  unfold ToolRun.round, ToolRun.round_head. rewrite Hw. unfold round_gate.
  assert (∀ b, b && negb (stdout_open s1) && negb (stderr_open s1) = false) as Hgate.
  { intros b. rewrite Ho, He. destruct b, Hopen as [-> | ->]; cbn; try done. by rewrite andb_false_r. }
  by rewrite !Hgate.
Qed.

Lemma round_poll_keeps r s1 s' :
  round_poll payload_size r s1 = Continue s' → waited s' = waited s1 ∧ timed_out s' = timed_out s1.
Proof.
  unfold round_poll. destruct r as [m| |closed writable oready eready w out err]; [done|by intros [= <-]|].
  destruct (expected_bind _ _) as [s2|m] eqn:Hp; [|done]. intros [= <-].
  apply try_ok in Hp as (s3 & H3 & Hp). apply try_ok in Hp as (s4 & H4 & H5).
  apply poll_stdin_keeps in H3 as (Hw3 & Ht3 & _). apply poll_stdout_keeps in H4 as (Hw4 & Ht4 & _).
  apply poll_stderr_keeps in H5 as (Hw5 & Ht5 & _). split; congruence.
Qed.

(** The first round that finds the tool running at the deadline kills it. *)
Lemma killed_round k : ∀ i out err s s',
  run_so_far i out err s → (∀ j, j < i + k → uneventful j) →
  ob_wait (obs (i + k)) = StillRunning → (deadline ≤ ob_now (obs (i + k)))%Z →
  after_rounds (S k) i s = Some s' → waited s' = Some (ob_killed (obs (i + k))) ∧ timed_out s' = true.
Proof.
  induction k as [|k IH]; intros i out err s s' Hs Hquiet Hrun Hlate; cbn [after_rounds].
  - rewrite Nat.add_0_r in *. intros Hafter.
    assert (waited s = None) as Hw.
    { destruct (sofar_fate _ _ _ _ Hs) as [|k st Hk _ _ Hend _|k Hk _ _ Hdl _ _]; [done| |];
        destruct (Hquiet k Hk); [congruence|lia]. }
    revert Hafter. unfold ToolRun.round, ToolRun.round_head, round_wait. rewrite Hw, Hrun. cbn [expected_bind].
    rewrite Hw, bool_decide_true by done. cbn [is_some negb andb]. unfold round_gate.
    destruct (is_some _ && _ && _); [done|]. destruct (_ && _ && _); [by intros [= <-]|].
    destruct (round_poll _ _ _) as [r|s2] eqn:Hp; [done|]. intros [= <-].
    by apply round_poll_keeps in Hp as [-> ->].
  - rewrite <-Nat.add_succ_comm in *. pose proof (round_so_far i out err s Hs) as Hr. intros Hafter.
    destruct (round (obs i) s) as [r|s1]; [done|]. by eapply IH.
Qed.

(** One pipe is held in every round. *)
Definition held_open : Prop :=
  (∀ i, no_failure (obs i)) ∧ ((∀ i, holds_stdout (obs i)) ∨ (∀ i, holds_stderr (obs i))).

Lemma held_goes_on : held_open →
  ∀ n i s, stdout_open s = true → stderr_open s = true → is_Some (after_rounds n i s).
Proof.
  intros [Hn Hheld]. intros n i s Ho He.
  assert ((∀ i, holds_stdout (obs i)) ∧ stdout_open s = true ∨
          (∀ i, holds_stderr (obs i)) ∧ stderr_open s = true) as Hinv by (destruct Hheld; auto).
  clear Hheld Ho He. revert i s Hinv. induction n as [|n IH]; intros i s Hinv; [by eexists|].
  cbn. destruct (round_held i s (Hn i)) as (s1 & s' & _ & -> & _ & _ & Ho & He);
    [destruct Hinv as [[_ ?]|[_ ?]]; auto|].
  apply IH. destruct Hinv as [[Hheld ?]|[Hheld ?]]; [left|right]; auto.
Qed.

(** C37: The deadline does not bound the call.  Suppose that no system call fails and that, whatever
    the tool does and whatever the clock says, another process keeps the write end of one output
    pipe (a process the tool left behind, for instance), so that no read of it finds the end of
    the file.  Then the call does not return, however many rounds the loop makes and however
    late it is: every round is reached, whatever the time in it.  In the first round that finds
    the tool running at the deadline the tool is killed, and the loop goes on. *)
Theorem deadline_does_not_bound_run :
  held_open →
  (∀ n, run_loop n 0 obs initial_run = None) ∧
  (∀ now, (∃ k, (now ≤ ob_now (obs k))%Z) →
     ∃ k s, after_rounds k 0 initial_run = Some s ∧ (now ≤ ob_now (obs k))%Z) ∧
  (∀ k, (∀ j, j < k → uneventful j) → ob_wait (obs k) = StillRunning → (deadline ≤ ob_now (obs k))%Z →
     ∃ s, after_rounds (S k) 0 initial_run = Some s ∧
          waited s = Some (ob_killed (obs k)) ∧ timed_out s = true).
Proof.
  intros Hheld.
  assert (∀ n, is_Some (after_rounds n 0 initial_run)) as Hgo by (intros n; by apply held_goes_on).
  split; [intros n; by apply after_rounds_running|]. split.
  - intros now [k Hk]. destruct (Hgo k) as [s Hs]. by exists k, s.
  - intros k Hquiet Hrun Hlate.
    destruct (Hgo (S k)) as [s Hs]. exists s. split; [done|].
    by apply (killed_round k 0 [] [] initial_run s initial_so_far).
Qed.
End RunProofs.

(** ** Witnesses *)

Module Witness.

#[local] Instance lib : JsonLib :=
  {| json_parse s := if decide (s = "{}") then Value (JObject []) else Unexpected "syntax error";
     json_dump _ := Value "{}" |}.

(** The tool answers "{}" in the first round and exits in the second. *)
Definition good (i : nat) : Observation :=
  match i with
  | 0 => {| ob_wait := StillRunning; ob_now := 5; ob_killed := OtherEnd; ob_now_poll := 5;
            ob_poll := PollReady false true true false (WriteSome 3 WriteBlocked)
                         (ReadChunk "{}" ReadAgain) ReadAgain |}
  | _ => {| ob_wait := Ended (ExitedWith 0); ob_now := 20; ob_killed := OtherEnd; ob_now_poll := 20;
            ob_poll := PollReady true false true true WriteBlocked ReadEof ReadEof |}
  end.

(** The tool never ends by itself; killed, it closes its pipes. *)
Definition slow (i : nat) : Observation :=
  {| ob_wait := StillRunning; ob_now := 600 * Z.of_nat i; ob_killed := KilledBy 9;
     ob_now_poll := 600 * Z.of_nat i;
     ob_poll := if bool_decide (i < 2) then PollNothing
                else PollReady true false true true WriteBlocked ReadEof ReadEof |}.

Definition said : list ReadTrace := run_reads 1000 3 1000 good (round_stdout 1000 3 1000) 3 0 initial_run.

Lemma said_reads : said = [ReadChunk "{}" ReadAgain; ReadEof].
Proof. vm_compute. reflexivity. Qed.

Lemma tool_answer_exact_witness :
  run_loop 1000 3 1000 3 0 good initial_run = Some (Value (JObject [])) ∧
  drained said ∧ json_parse (bytes_of said) = Value (JObject []).
Proof.
  assert (run_loop 1000 3 1000 3 0 good initial_run = Some (Value (JObject []))) as Hrun
    by (vm_compute; reflexivity).
  split; [exact Hrun|].
  destruct (tool_answer_exact 1000 3 1000 good 3 _ Hrun) as (Hout & _ & _ & Hparse & _).
  split; [exact Hout|exact Hparse].
Defined.

(** The tool is still running at its deadline, and a process it left behind goes on writing to
    its standard output, a byte every second round; a round takes 10 ms. *)
Definition left_behind (i : nat) : Observation :=
  {| ob_wait := StillRunning; ob_now := 10 * Z.of_nat i; ob_killed := KilledBy 9; ob_now_poll := 10 * Z.of_nat i;
     ob_poll := if Nat.even i then PollNothing
                else PollReady true false true true WriteBlocked (ReadChunk "." ReadAgain) ReadEof |}.

Lemma left_behind_holds : held_open left_behind.
Proof. split; [|left]; intros i; unfold no_failure, holds_stdout; cbn; by destruct (Nat.even i). Qed.

Lemma deadline_does_not_bound_run_witness :
  run_loop 1000 3 1000 500 0 left_behind initial_run = None ∧ ob_now (left_behind 499) = 4990%Z ∧
  ∃ s, after_rounds 1000 3 1000 left_behind 101 0 initial_run = Some s ∧ waited s = Some (KilledBy 9).
Proof.
  destruct (deadline_does_not_bound_run 1000 3 1000 left_behind left_behind_holds) as (Hloop & _ & Hkill).
  split; [exact (Hloop 500)|]. split; [reflexivity|].
  destruct (Hkill 100) as (s & Hs & Hw & _); [|reflexivity|vm_compute; discriminate|].
  - intros j Hj. split; [reflexivity|]. unfold left_behind. cbn [ob_now]. lia.
  - exists s. split; [exact Hs|exact Hw].
Defined.

Lemma tool_timeout_exact_witness :
  ∃ e, run_loop 1000 3 1000 4 0 slow initial_run = Some (Unexpected e) ∧
       cre_message e = "Tool command timed out after 1000 ms".
Proof.
  eexists. split; [vm_compute; reflexivity|].
  refine (proj1 (tool_timeout_exact 1000 3 1000 slow 4 _ _ _)); vm_compute; reflexivity.
Defined.

Lemma tool_run_terminates_witness : ∃ r, run_loop 1000 3 1000 4 0 slow initial_run = Some r.
Proof.
  apply (tool_run_terminates 1000 3 1000 slow 2).
  - exists 2. split; [lia|]. intros [_ Hnow]. vm_compute in Hnow. discriminate.
  - vm_compute. repeat split.
Defined.
End Witness.
