(* ===== verification/ToolResources.v ===== *)
(** * command_tools.cpp: the resources of a tool run

    ToolRun.v models what [run_prepared_command_tool] answers, with the pipes as
    flags.  Here the same function is modelled with the objects that own the
    resources - [ScopedFd], [ScopedPipe], [ScopedSpawnFileActions],
    [ScopedSpawnAttr], [ScopedChildProcess] - and the system calls they make, their
    destructors included, on every way out of the function.  The answers are shown
    to be those of ToolRun.v, and the system calls to leave nothing behind. *)

From S2P Require Import Prelude ApiTypes Json ApiJson ToolSchema CommandTools ToolRun.

(** ** System calls and what they do *)

Inductive Syscall : Type :=
| SysPipe (read_end write_end : Z)
| SysClose (fd : Z)
| SysUse (fd : Z)                  (* fcntl, poll, read, write *)
| SysActionsInit | SysActionsDestroy
| SysAttrInit | SysAttrDestroy
| SysSpawn (pid : Z)
| SysKill (pid : Z)
| SysWaited (pid : Z).             (* waitpid for the child is over *)

(** What the process holds. *)
Record Held : Type := {
  open_fds : gset Z;
  actions_live : bool;
  attr_live : bool;
  child_live : option Z;
}.

Definition with_fds (s : gset Z) (k : Held) : Held :=
  {| open_fds := s; actions_live := actions_live k; attr_live := attr_live k; child_live := child_live k |}.

Definition with_spawn (actions attr : bool) (c : option Z) (k : Held) : Held :=
  {| open_fds := open_fds k; actions_live := actions; attr_live := attr; child_live := c |}.

(** [None] is misuse: a descriptor that is not open is closed or used, an object is
    initialised or destroyed twice, a process that is not ours is signalled. *)
Definition sys_step (c : Syscall) (k : Held) : option Held :=
  match c with
  | SysPipe r w =>
      if decide (r ∈ open_fds k ∨ w ∈ open_fds k ∨ r = w) then None
      else Some (with_fds ({[r; w]} ∪ open_fds k) k)
  | SysClose fd => if decide (fd ∈ open_fds k) then Some (with_fds (open_fds k ∖ {[fd]}) k) else None
  | SysUse fd => if decide (fd ∈ open_fds k) then Some k else None
  | SysActionsInit => if actions_live k then None else Some (with_spawn true (attr_live k) (child_live k) k)
  | SysActionsDestroy => if actions_live k then Some (with_spawn false (attr_live k) (child_live k) k) else None
  | SysAttrInit => if attr_live k then None else Some (with_spawn (actions_live k) true (child_live k) k)
  | SysAttrDestroy => if attr_live k then Some (with_spawn (actions_live k) false (child_live k) k) else None
  | SysSpawn pid =>
      match child_live k with
      | Some _ => None
      | None => Some (with_spawn (actions_live k) (attr_live k) (Some pid) k)
      end
  | SysKill pid => if decide (child_live k = Some pid) then Some k else None
  | SysWaited pid =>
      if decide (child_live k = Some pid) then Some (with_spawn (actions_live k) (attr_live k) None k) else None
  end.

Fixpoint sys_steps (cs : list Syscall) (k : Held) : option Held :=
  match cs with
  | [] => Some k
  | c :: cs => match sys_step c k with Some k => sys_steps cs k | None => None end
  end.

(** ** The owners *)

Inductive Slot : Type :=
| StdinRead | StdinWrite | StdoutRead | StdoutWrite | StderrRead | StderrWrite.

#[export] Instance Slot_eq_dec : EqDecision Slot.
Proof. solve_decision. Defined.

(** The members of the scoped objects: [fd_] of each end, -1 when it owns nothing,
    [initialized_], [pid_] and [waited_]. *)
Record Handles : Type := {
  fd_ : Slot → Z;
  actions_initialized : bool;
  attr_initialized : bool;
  pid_ : Z;
  waited_ : bool;
}.

Definition no_handles : Handles :=
  {| fd_ _ := (-1)%Z; actions_initialized := false; attr_initialized := false; pid_ := -1; waited_ := false |}.

Definition set_fd (s : Slot) (fd : Z) (h : Handles) : Handles :=
  {| fd_ s' := if decide (s' = s) then fd else fd_ h s'; actions_initialized := actions_initialized h;
     attr_initialized := attr_initialized h; pid_ := pid_ h; waited_ := waited_ h |}.

Definition set_spawn (actions attr : bool) (h : Handles) : Handles :=
  {| fd_ := fd_ h; actions_initialized := actions; attr_initialized := attr; pid_ := pid_ h;
     waited_ := waited_ h |}.

Definition set_child (pid : Z) (w : bool) (h : Handles) : Handles :=
  {| fd_ := fd_ h; actions_initialized := actions_initialized h; attr_initialized := attr_initialized h;
     pid_ := pid; waited_ := w |}.

(** [valid()]. *)
Definition valid (s : Slot) (h : Handles) : bool := bool_decide (0 ≤ fd_ h s)%Z.

(** [reset()]. *)
Definition reset (s : Slot) (h : Handles) : list Syscall * Handles :=
  (if valid s h then [SysClose (fd_ h s)] else [], set_fd s (-1) h).

(** [kill_and_wait()]. The source sets [waited_] whatever its last [waitpid] answers, and so does
    the model, which takes the child it has just killed as waited for. *)
Definition kill_and_wait (h : Handles) : list Syscall * Handles :=
  if waited_ h || bool_decide (pid_ h < 0)%Z then ([], h)
  else ([SysKill (pid_ h); SysWaited (pid_ h)], set_child (pid_ h) true h).

(** Calls one after the other. *)
Definition and_then (m : list Syscall * Handles) (f : Handles → list Syscall * Handles)
    : list Syscall * Handles :=
  let '(t, h) := m in let '(t', h) := f h in (t ++ t', h).

(** The destructors, in the reverse order of the declarations: the child, the
    attributes, the actions, the pipes (the write end of a pipe before its read end). *)
Definition destroy_attr (h : Handles) : list Syscall * Handles :=
  (if attr_initialized h then [SysAttrDestroy] else [], set_spawn (actions_initialized h) false h).

Definition destroy_actions (h : Handles) : list Syscall * Handles :=
  (if actions_initialized h then [SysActionsDestroy] else [], set_spawn false (attr_initialized h) h).

Fixpoint reset_all (l : list Slot) (h : Handles) : list Syscall * Handles :=
  match l with
  | [] => ([], h)
  | s :: l => and_then (reset s h) (reset_all l)
  end.

Definition destroy_all (h : Handles) : list Syscall * Handles :=
  and_then (and_then (and_then (kill_and_wait h) destroy_attr) destroy_actions)
    (reset_all [StderrWrite; StderrRead; StdoutWrite; StdoutRead; StdinWrite; StdinRead]).

(** ** Setting up *)

Section Resources.
Context `{JsonLib}.
(** What [pipe] and [posix_spawn] return. *)
Variable pipe_fds : Slot → Z.
Variable pid : Z.

Definition open_pipe (r w : Slot) (h : Handles) : list Syscall * Handles :=
  ([SysPipe (pipe_fds r) (pipe_fds w)], set_fd w (pipe_fds w) (set_fd r (pipe_fds r) h)).

Definition use (s : Slot) (h : Handles) : list Syscall * Handles := ([SysUse (fd_ h s)], h).

Definition labelled (label : string) : Slot :=
  if decide (label = "tool stdin") then StdinWrite
  else if decide (label = "tool stdout") then StdoutRead else StderrRead.

(** What a step of the setup does when it succeeds. *)
Definition setup_effect (step : SetupStep) (h : Handles) : list Syscall * Handles :=
  match step with
  | StdinPipe => open_pipe StdinRead StdinWrite h
  | StdoutPipe => open_pipe StdoutRead StdoutWrite h
  | StderrPipe => open_pipe StderrRead StderrWrite h
  | InitActions => ([SysActionsInit], set_spawn true (attr_initialized h) h)
  | InitAttributes => ([SysAttrInit], set_spawn (actions_initialized h) true h)
  | Spawn =>
      and_then ([SysSpawn pid], set_child pid false h) (reset_all [StdinRead; StdoutWrite; StderrWrite])
  | GetFlags label | SetFlags label => use (labelled label) h
  | _ => ([], h)
  end.

Fixpoint setup (os_error : SetupStep → option string) (steps : list SetupStep) (h : Handles)
    : list Syscall * Handles * Result unit :=
  match steps with
  | [] => ([], h, Value ())
  | step :: steps =>
      match os_error step with
      | Some e => ([], h, Unexpected (setup_message step e))
      | None =>
          let '(t, h) := setup_effect step h in
          let '(t', h, r) := setup os_error steps h in (t ++ t', h, r)
      end
  end.

(** ** The loop *)

(** The locals, and the owners. *)
Record Live : Type := {
  lv_status : option ExitStatus;
  lv_timed_out : bool;
  lv_offset : nat;
  lv_stdout : CapturedStream;
  lv_stderr : CapturedStream;
  lv_handles : Handles;
}.

Definition with_handles (h : Handles) (l : Live) : Live :=
  {| lv_status := lv_status l; lv_timed_out := lv_timed_out l; lv_offset := lv_offset l;
     lv_stdout := lv_stdout l; lv_stderr := lv_stderr l; lv_handles := h |}.

Definition with_status (st : option ExitStatus) (late : bool) (h : Handles) (l : Live) : Live :=
  {| lv_status := st; lv_timed_out := late; lv_offset := lv_offset l;
     lv_stdout := lv_stdout l; lv_stderr := lv_stderr l; lv_handles := h |}.

Definition with_captured (n : nat) (out err : CapturedStream) (h : Handles) (l : Live) : Live :=
  {| lv_status := lv_status l; lv_timed_out := lv_timed_out l; lv_offset := n;
     lv_stdout := out; lv_stderr := err; lv_handles := h |}.

(** The state of ToolRun.v: a pipe is open when its owner is valid. *)
Definition flags (l : Live) : RunState :=
  let h := lv_handles l in
  {| waited := if waited_ h then lv_status l else None; timed_out := lv_timed_out l;
     stdin_open := valid StdinWrite h; stdout_open := valid StdoutRead h;
     stderr_open := valid StderrRead h; offset := lv_offset l;
     stdout_capture := lv_stdout l; stderr_capture := lv_stderr l |}.

(** A step of the loop: the calls it made, then a message if the function must
    return, and the state. *)
Definition Step : Type := list Syscall * Live * Result unit.

Definition step_then (m : Step) (k : Live → Step) : Step :=
  let '(t, l, r) := m in
  match r with
  | Unexpected e => (t, l, Unexpected e)
  | Value _ => let '(t', l, r) := k l in (t ++ t', l, r)
  end.

Variable payload_size : nat.
Variable deadline : Z.

Definition wants_stdin (l : Live) : bool :=
  valid StdinWrite (lv_handles l) && bool_decide (lv_offset l < payload_size).

(** [try_wait], then [kill_and_wait] when it fails: the child is still taken to be the one that was
    spawned, although after ECHILD the pid may be another process's. *)
Definition io_try_wait (ob : Observation) (l : Live) : Step :=
  let h := lv_handles l in
  if waited_ h then ([], l, Value ())
  else match ob_wait ob with
  | StillRunning => ([], l, Value ())
  | Ended st => ([SysWaited (pid_ h)], with_status (Some st) (lv_timed_out l) (set_child (pid_ h) true h) l, Value ())
  | WaitFailed m =>
      let '(t, h) := kill_and_wait h in
      (t, with_handles h l, Unexpected ("Failed while waiting on tool process: " +:+ m))
  end.

Definition io_deadline (ob : Observation) (l : Live) : Step :=
  let h := lv_handles l in
  if negb (waited_ h) && bool_decide (deadline ≤ ob_now ob)%Z then
    let '(t, h) := and_then (reset StdinWrite h) kill_and_wait in
    (t, with_status (Some (ob_killed ob)) true h l, Value ())
  else ([], l, Value ()).

(** The descriptors given to [poll]. *)
Definition polled (l : Live) : list Syscall :=
  let h := lv_handles l in
  (if wants_stdin l then [SysUse (fd_ h StdinWrite)] else []) ++
  (if valid StdoutRead h then [SysUse (fd_ h StdoutRead)] else []) ++
  (if valid StderrRead h then [SysUse (fd_ h StderrRead)] else []).

(** The ends are polled together: what each was is known before the first is served. *)
Definition io_stdin (wanted closed writable : bool) (w : WriteTrace) (l : Live) : Step :=
  let h := lv_handles l in
  if negb wanted then ([], l, Value ())
  else if closed then let '(t, h) := reset StdinWrite h in (t, with_handles h l, Value ())
  else if writable then
    let used := [SysUse (fd_ h StdinWrite)] in
    match write_loop w payload_size (lv_offset l) with
    | Unexpected m => (used, l, Unexpected m)
    | Value n =>
        let '(t, h) := if bool_decide (payload_size ≤ n) then reset StdinWrite h else ([], h) in
        (used ++ t, with_captured n (lv_stdout l) (lv_stderr l) h l, Value ())
    end
  else ([], l, Value ()).

Definition io_stdout (polled ready : bool) (r : ReadTrace) (l : Live) : Step :=
  let h := lv_handles l in
  if polled && ready then
    let used := [SysUse (fd_ h StdoutRead)] in
    match read_available r (lv_stdout l) kMaxStdoutBytes with
    | (c, Unexpected m) =>
        (used, with_captured (lv_offset l) c (lv_stderr l) h l, Unexpected ("Failed to read tool stdout: " +:+ m))
    | (c, Value more) =>
        let '(t, h) := if negb more then reset StdoutRead h else ([], h) in
        (used ++ t, with_captured (lv_offset l) c (lv_stderr l) h l, Value ())
    end
  else ([], l, Value ()).

Definition io_stderr (polled ready : bool) (r : ReadTrace) (l : Live) : Step :=
  let h := lv_handles l in
  if polled && ready then
    let used := [SysUse (fd_ h StderrRead)] in
    match read_available r (lv_stderr l) kMaxCapturedStderrBytes with
    | (c, Unexpected m) =>
        (used, with_captured (lv_offset l) (lv_stdout l) c h l, Unexpected ("Failed to read tool stderr: " +:+ m))
    | (c, Value more) =>
        let '(t, h) := if negb more then reset StderrRead h else ([], h) in
        (used ++ t, with_captured (lv_offset l) (lv_stdout l) c h l, Value ())
    end
  else ([], l, Value ()).

Definition io_poll (r : PollResult) (l : Live) : Step :=
  let h := lv_handles l in
  match r with
  | PollFailed m => (polled l, l, Unexpected ("Failed while polling tool pipes: " +:+ m))
  | PollNothing => (polled l, l, Value ())
  | PollReady closed writable out_ready err_ready w out err =>
      let wanted := wants_stdin l in
      let out_polled := valid StdoutRead h in
      let err_polled := valid StderrRead h in
      step_then (step_then (step_then (polled l, l, Value ())
        (io_stdin wanted closed writable w))
        (io_stdout out_polled out_ready out))
        (io_stderr err_polled err_ready err)
  end.

(** One round: [Some] answer when the function returns. *)
Definition io_round (timeout_ms : Z) (ob : Observation) (l : Live)
    : list Syscall * Live * option CommandToolRunResult :=
  match step_then (io_try_wait ob l) (io_deadline ob) with
  | (t, l, Unexpected m) => (t, l, Some (make_runtime_error m))
  | (t, l, Value _) =>
      let h := lv_handles l in
      if waited_ h && negb (valid StdoutRead h) && negb (valid StderrRead h)
      then (t, l, Some (finish timeout_ms (flags l)))
      else if negb (wants_stdin l) && negb (valid StdoutRead h) && negb (valid StderrRead h)
      then (t, l, None)
      else
        let '(t', l, r) := io_poll (ob_poll ob) l in
        (t ++ t', l, match r with Unexpected m => Some (make_runtime_error m) | Value _ => None end)
  end.

Fixpoint io_loop (timeout_ms : Z) (fuel i : nat) (obs : nat → Observation) (l : Live)
    : option (list Syscall * Live * CommandToolRunResult) :=
  match fuel with
  | O => None
  | S fuel =>
      match io_round timeout_ms (obs i) l with
      | (t, l, Some r) => Some (t, l, r)
      | (t, l, None) =>
          match io_loop timeout_ms fuel (S i) obs l with
          | Some (t', l, r) => Some (t ++ t', l, r)
          | None => None
          end
      end
  end.
End Resources.

(** ** The whole function *)

Definition live_start (h : Handles) : Live :=
  {| lv_status := None; lv_timed_out := false; lv_offset := 0; lv_stdout := no_output;
     lv_stderr := no_output; lv_handles := h |}.

Definition run_with_resources `{JsonLib} (pipe_fds : Slot → Z) (pid : Z) (fuel : nat)
    (os_error : SetupStep → option string) (started_at : Z) (obs : nat → Observation)
    (prepared : PreparedCommandTool) (arguments : json)
    : option (list Syscall * Result CommandToolRunResult) :=
  let tool := prepared_config prepared in
  let leave t h (r : Result CommandToolRunResult) := (t ++ fst (destroy_all h), r) in
  match setup pipe_fds pid os_error (setup_steps (tool_working_directory tool)) no_handles with
  | (t, h, Unexpected m) => Some (leave t h (Value (make_runtime_error m)))
  | (t, h, Value _) =>
      match json_dump arguments with
      | Unexpected m => Some (leave t h (Unexpected m))
      | Value text =>
          let stdin_payload := text +:+ String "010"%char "" in
          match io_loop (String.length stdin_payload) (started_at + tool_timeout_ms tool)
                  (tool_timeout_ms tool) fuel 0 obs (live_start h) with
          | Some (t', l, r) => Some (leave (t ++ t') (lv_handles l) (Value r))
          | None => None
          end
      end
  end.

(** ** The answers are those of ToolRun.v *)

Section Answers.
Context `{JsonLib}.
Variable payload_size : nat.
Variable deadline : Z.

(** A started child, with its status once it was waited for. *)
Definition started (l : Live) : Prop :=
  (0 ≤ pid_ (lv_handles l))%Z ∧ (waited_ (lv_handles l) = true → is_Some (lv_status l)).

Lemma waited_flags l : started l → is_some (waited (flags l)) = waited_ (lv_handles l).
Proof.
  intros [_ Hs]. cbn. destruct (waited_ (lv_handles l)); [|done]. by destruct (Hs eq_refl) as [? ->].
Qed.

Lemma wants_stdin_flags l : wants_stdin payload_size l = stdin_wanted payload_size (flags l).
Proof. done. Qed.

Lemma valid_reset s s' h : valid s (snd (reset s' h)) = if decide (s = s') then false else valid s h.
Proof. unfold valid, reset. cbn. by case_decide. Qed.

(** [flags] after each step of the round, and that the child is still accounted for. *)
Definition answers_as (m : Step) (r : Result RunState) : Prop :=
  let '(_, l, o) := m in
  match o with
  | Unexpected e => r = Unexpected e
  | Value _ => r = Value (flags l) ∧ started l
  end.

Lemma answers_then m k r f :
  answers_as m r → (∀ l, started l → answers_as (k l) (f (flags l))) →
  answers_as (step_then m k) (expected_bind r f).
Proof.
  destruct m as [[t l] [[]|e]]; cbn [answers_as step_then].
  - intros [-> Hl] Hk. specialize (Hk l Hl). cbn [expected_bind]. by destruct (k l) as [[t' l'] r'].
  - by intros ->.
Qed.

Lemma answers_try_wait ob l :
  started l →
  answers_as (io_try_wait ob l)
    (match waited (flags l), ob_wait ob with
     | Some _, _ | None, StillRunning => Value (flags l)
     | None, Ended st => Value (with_waited (Some st) (flags l))
     | None, WaitFailed m => Unexpected ("Failed while waiting on tool process: " +:+ m)
     end).
Proof.
  intros Hl. pose proof (waited_flags l Hl) as Hw. unfold io_try_wait. rewrite <-Hw.
  destruct (waited (flags l)) as [st|] eqn:Hst; cbn [is_some]; [by split|].
  destruct (ob_wait ob) as [|st|m]; [by split| |by destruct (kill_and_wait (lv_handles l))].
  split; [done|]. split; [apply Hl|by eexists].
Qed.

Lemma answers_deadline ob l :
  started l →
  answers_as (io_deadline deadline ob l)
    (Value (if negb (is_some (waited (flags l))) && bool_decide (deadline ≤ ob_now ob)%Z
            then kill_at_deadline (ob_killed ob) (flags l) else flags l)).
Proof.
  intros Hl. rewrite (waited_flags l Hl). unfold io_deadline. pose proof Hl as [Hpid _].
  destruct (waited_ (lv_handles l)) eqn:Hw; cbn [negb andb]; [by split|].
  case_bool_decide; [|by split].
  unfold and_then, reset, kill_and_wait. cbn [waited_ set_fd pid_]. rewrite Hw.
  rewrite bool_decide_eq_false_2 by lia. split; [|split; [done|by eexists]]. done.
Qed.

Lemma answers_wait ob l :
  started l →
  answers_as (step_then (io_try_wait ob l) (io_deadline deadline ob)) (round_wait deadline ob (flags l)).
Proof. intros Hl. apply answers_then; [by apply answers_try_wait|apply answers_deadline]. Qed.

Lemma answers_stdin closed writable w l :
  started l →
  answers_as (io_stdin payload_size (wants_stdin payload_size l) closed writable w l)
    (poll_stdin payload_size closed writable w (flags l)).
Proof.
  intros Hl. unfold io_stdin, poll_stdin. rewrite wants_stdin_flags.
  destruct (stdin_wanted payload_size (flags l)) eqn:Hwant; cbn [negb]; [|by split].
  unfold stdin_wanted in Hwant. apply andb_true_iff in Hwant as [Hopen _]. cbn in Hopen.
  destruct closed; [by split|]. destruct writable; [|by split].
  change (offset (flags l)) with (lv_offset l).
  destruct (write_loop w payload_size (lv_offset l)) as [n|m]; cbn [expected_bind]; [|done].
  destruct (decide (payload_size ≤ n)) as [Hle|Hlt].
  - rewrite (bool_decide_eq_true_2 (payload_size ≤ n)), (bool_decide_eq_false_2 (n < payload_size)) by lia. by split.
  - rewrite (bool_decide_eq_false_2 (payload_size ≤ n)), (bool_decide_eq_true_2 (n < payload_size)) by lia.
    cbn [app]. split; [|done]. unfold flags, with_stdin. cbn. by rewrite Hopen.
Qed.

Lemma answers_stdout ready r l :
  started l →
  answers_as (io_stdout (valid StdoutRead (lv_handles l)) ready r l) (poll_stdout ready r (flags l)).
Proof.
  intros Hl. unfold io_stdout, poll_stdout. change (stdout_open (flags l)) with (valid StdoutRead (lv_handles l)).
  destruct (valid StdoutRead (lv_handles l)) eqn:Hopen; cbn [andb]; [|by split].
  destruct ready; [|by split]. change (stdout_capture (flags l)) with (lv_stdout l).
  destruct (read_available r (lv_stdout l) kMaxStdoutBytes) as [c [[|]|m]]; cbn [negb]; [|by split|done].
  split; [|done]. unfold flags, with_stdout. cbn. by rewrite Hopen.
Qed.

Lemma answers_stderr ready r l :
  started l →
  answers_as (io_stderr (valid StderrRead (lv_handles l)) ready r l) (poll_stderr ready r (flags l)).
Proof.
  intros Hl. unfold io_stderr, poll_stderr. change (stderr_open (flags l)) with (valid StderrRead (lv_handles l)).
  destruct (valid StderrRead (lv_handles l)) eqn:Hopen; cbn [andb]; [|by split].
  destruct ready; [|by split]. change (stderr_capture (flags l)) with (lv_stderr l).
  destruct (read_available r (lv_stderr l) kMaxCapturedStderrBytes) as [c [[|]|m]]; cbn [negb]; [|by split|done].
  split; [|done]. unfold flags, with_stderr. cbn. by rewrite Hopen.
Qed.

(** Serving one end leaves the owners of the others alone. *)
Lemma stdin_frame wanted closed writable w l :
  let '(_, l', _) := io_stdin payload_size wanted closed writable w l in
  valid StdoutRead (lv_handles l') = valid StdoutRead (lv_handles l) ∧
  valid StderrRead (lv_handles l') = valid StderrRead (lv_handles l).
Proof.
  unfold io_stdin. destruct wanted, closed, writable; cbn; try done.
  destruct (write_loop _ _ _); [|done]. by case_bool_decide.
Qed.

Lemma stdout_frame polled ready r l :
  let '(_, l', _) := io_stdout polled ready r l in
  valid StderrRead (lv_handles l') = valid StderrRead (lv_handles l).
Proof.
  unfold io_stdout. destruct polled, ready; cbn [andb]; try done.
  by destruct (read_available _ _ _) as [c [[|]|m]].
Qed.

Lemma answers_poll r l :
  started l →
  match round_poll payload_size r (flags l) with
  | Return a => ∃ m, snd (io_poll payload_size r l) = Unexpected m ∧ a = make_runtime_error m
  | Continue s => answers_as (io_poll payload_size r l) (Value s)
  end.
Proof.
  intros Hl. destruct r as [m| |closed writable out_ready err_ready w out err]; cbn [round_poll io_poll].
  { by eexists. } { by split. }
  set (q := try! s := poll_stdin _ _ _ _ _ in _).
  assert (answers_as (io_poll payload_size (PollReady closed writable out_ready err_ready w out err) l) q) as Hall.
  { cbn [io_poll]. unfold q.
    pose proof (stdin_frame (wants_stdin payload_size l) closed writable w l) as Hframe.
    pose proof (answers_stdin closed writable w l Hl) as Hin. cbn [step_then].
    destruct (io_stdin _ _ _ _ _ _) as [[t1 l1] [[]|e1]]; cbn [answers_as] in Hin; [|by rewrite Hin].
    destruct Hin as [-> Hl1], Hframe as [<- <-]. cbn [step_then expected_bind].
    pose proof (stdout_frame (valid StdoutRead (lv_handles l1)) out_ready out l1) as Hframe.
    pose proof (answers_stdout out_ready out l1 Hl1) as Hout.
    destruct (io_stdout _ _ _ _) as [[t2 l2] [[]|e2]]; cbn [answers_as] in Hout; [|by rewrite Hout].
    destruct Hout as [-> Hl2]. rewrite <-Hframe. cbn [step_then expected_bind].
    pose proof (answers_stderr err_ready err l2 Hl2) as Herr.
    by destruct (io_stderr _ _ _ _) as [[t3 l3] r3]. }
  clearbody q. cbn [io_poll] in Hall. cbv zeta in *.
  destruct (step_then _ _) as [[t l'] [[]|e]]; cbn [answers_as] in Hall.
  - destruct Hall as [-> Hl']. by split.
  - rewrite Hall. by eexists.
Qed.

Lemma answers_round timeout_ms ob l :
  started l →
  let '(_, l', o) := io_round payload_size deadline timeout_ms ob l in
  match o with
  | Some r => round timeout_ms payload_size deadline ob (flags l) = Return r
  | None => round timeout_ms payload_size deadline ob (flags l) = Continue (flags l') ∧ started l'
  end.
Proof.
  intros Hl. unfold io_round, round, round_head. pose proof (answers_wait ob l Hl) as Hwait.
  destruct (step_then _ _) as [[t l1] [[]|e]]; cbn [answers_as] in Hwait; [|by rewrite Hwait].
  destruct Hwait as [-> Hl1]. unfold round_gate. rewrite (waited_flags l1 Hl1), wants_stdin_flags.
  change (stdout_open (flags l1)) with (valid StdoutRead (lv_handles l1)).
  change (stderr_open (flags l1)) with (valid StderrRead (lv_handles l1)).
  destruct (waited_ _ && _ && _); [done|]. destruct (negb _ && _ && _); [done|].
  pose proof (answers_poll (ob_poll ob) l1 Hl1) as Hpoll.
  destruct (round_poll _ _ _) as [a|s].
  - destruct Hpoll as (m & Hm & ->). destruct (io_poll _ _ _) as [[t' l'] r']. cbn in Hm. by rewrite Hm.
  - destruct (io_poll _ _ _) as [[t' l'] [[]|e]]; cbn in Hpoll; [|done].
    destruct Hpoll as [[= ->] Hl']. by split.
Qed.

Lemma answers_loop timeout_ms fuel : ∀ i obs l,
  started l →
  run_loop timeout_ms payload_size deadline fuel i obs (flags l) =
  snd <$> io_loop payload_size deadline timeout_ms fuel i obs l.
Proof.
  induction fuel as [|fuel IH]; intros i obs l Hl; [done|]. cbn [run_loop io_loop].
  pose proof (answers_round timeout_ms (obs i) l Hl) as Hround.
  destruct (io_round _ _ _ _ _) as [[t l'] [r|]]; [by rewrite Hround|].
  destruct Hround as [-> Hl']. rewrite (IH (S i) obs l' Hl').
  by destruct (io_loop _ _ _ _ _ _) as [[[t' l''] r]|].
Qed.
End Answers.

(** ** Nothing is left behind *)

Section Release.
Context `{JsonLib}.
Variable pipe_fds : Slot → Z.
Variable pid : Z.
(** The descriptors the process has open for other purposes. *)
Variable others : gset Z.
(** [pipe] returns descriptors that are not in use, [posix_spawn] a process id. *)
Hypothesis fds_distinct : Inj (=) (=) pipe_fds.
Hypothesis fds_valid : ∀ s, (0 ≤ pipe_fds s)%Z ∧ pipe_fds s ∉ others.
Hypothesis pid_valid : (0 ≤ pid)%Z.

Definition before : Held :=
  {| open_fds := others; actions_live := false; attr_live := false; child_live := None |}.

(** The process holds what the owners say. *)
Record owns_all (k : Held) (h : Handles) : Prop := {
  oa_slots s : fd_ h s = (-1)%Z ∨ fd_ h s = pipe_fds s;
  oa_fds fd : fd ∈ open_fds k ↔ fd ∈ others ∨ ∃ s, fd_ h s = fd ∧ fd = pipe_fds s;
  oa_actions : actions_live k = actions_initialized h;
  oa_attr : attr_live k = attr_initialized h;
  oa_child : child_live k = if waited_ h || bool_decide (pid_ h < 0)%Z then None else Some (pid_ h);
}.

(** The calls of [m] are legal, and the owners still say what is held. *)
Definition legal (h : Handles) (m : list Syscall * Handles) : Prop :=
  ∀ k, owns_all k h → ∃ k', sys_steps (fst m) k = Some k' ∧ owns_all k' (snd m).

Lemma sys_steps_app t t' k :
  sys_steps (t ++ t') k = match sys_steps t k with Some k => sys_steps t' k | None => None end.
Proof. revert k. induction t as [|c t IH]; intros k; cbn; [done|]. destruct (sys_step c k); [apply IH|done]. Qed.

Lemma legal_none h : legal h ([], h).
Proof. intros k Hk. by exists k. Qed.

Lemma legal_then h m f : legal h m → legal (snd m) (f (snd m)) → legal h (and_then m f).
Proof.
  intros Hm Hf k Hk. destruct m as [t h1]. destruct (Hm k Hk) as (k1 & Ht & Hk1). cbn [fst snd] in *.
  unfold and_then. destruct (f h1) as [t' h2]. destruct (Hf k1 Hk1) as (k2 & Ht2 & Hk2). exists k2. cbn [fst snd] in *. by rewrite sys_steps_app, Ht.
Qed.

Lemma slot_fd k h s : owns_all k h → valid s h = true → fd_ h s = pipe_fds s.
Proof.
  intros Hk Hv. apply bool_decide_eq_true in Hv. destruct (oa_slots _ _ Hk s); lia.
Qed.

Lemma slot_open k h s : owns_all k h → valid s h = true → fd_ h s ∈ open_fds k.
Proof. intros Hk Hv. apply (oa_fds _ _ Hk). right. exists s. split; [done|]. by eapply slot_fd. Qed.

Lemma legal_use s h : valid s h = true → legal h (use s h).
Proof.
  intros Hv k Hk. exists k. split; [|done]. cbn. by rewrite decide_True by by eapply slot_open.
Qed.

Lemma legal_reset s h : legal h (reset s h).
Proof.
  intros k Hk. unfold reset. cbn [fst snd]. destruct (valid s h) eqn:Hv; cbn [sys_steps sys_step].
  - rewrite decide_True by by eapply slot_open. eexists. split; [done|].
    pose proof (slot_fd k h s Hk Hv) as Hs. split; cbn; try apply Hk.
    + intros s'. case_decide; [by left|apply Hk].
    + intros fd. rewrite elem_of_difference, elem_of_singleton, (oa_fds _ _ Hk). split.
      * intros [[Ho|(s' & <- & Hs')] Hne]; [by left|]. right. exists s'. case_decide; [by subst|done].
      * intros [Ho|(s' & Hfd & ->)].
        -- split; [by left|]. rewrite Hs. intros ->. by apply (fds_valid s).
        -- destruct (decide (s' = s)) as [->|Hne]; [by pose proof (fds_valid s); lia|].
           split; [right; by exists s'|]. rewrite Hs. by intros ?%fds_distinct.
  - exists k. split; [done|]. split; cbn; try apply Hk.
    + intros s'. case_decide; [by left|apply Hk].
    + intros fd. rewrite (oa_fds _ _ Hk). apply bool_decide_eq_false in Hv.
      split; (intros [Ho|(s' & Hs' & Hfd)]; [by left|right; exists s']).
      * case_decide; [|done]. subst s'. pose proof (fds_valid s). lia.
      * case_decide; [|done]. pose proof (fds_valid s'). lia.
Qed.

Lemma legal_kill h : legal h (kill_and_wait h).
Proof.
  intros k Hk. unfold kill_and_wait. pose proof (oa_child _ _ Hk) as Hc.
  destruct (waited_ h || bool_decide (pid_ h < 0)%Z) eqn:Hw; [by exists k|].
  cbn. rewrite decide_True by done. cbn. rewrite decide_True by done.
  eexists. split; [done|]. split; cbn; try apply Hk. done.
Qed.

Lemma legal_destroy_attr h : legal h (destroy_attr h).
Proof.
  intros k Hk. unfold destroy_attr. pose proof (oa_attr _ _ Hk) as Ha.
  destruct (attr_initialized h) eqn:Hi; cbn; rewrite ?Ha; (eexists; split; [done|]); split; cbn; by first [done|apply Hk].
Qed.

Lemma legal_destroy_actions h : legal h (destroy_actions h).
Proof.
  intros k Hk. unfold destroy_actions. pose proof (oa_actions _ _ Hk) as Ha.
  destruct (actions_initialized h) eqn:Hi; cbn; rewrite ?Ha; (eexists; split; [done|]); split; cbn; by first [done|apply Hk].
Qed.

Lemma legal_reset_all l : ∀ h, legal h (reset_all l h).
Proof.
  induction l as [|s l IH]; intros h; [apply legal_none|]. by apply legal_then; [apply legal_reset|].
Qed.

(** After the destructors the process holds what it held before. *)
Lemma destroy_all_clean h k :
  owns_all k h → sys_steps (fst (destroy_all h)) k = Some before.
Proof.
  intros Hk. assert (legal h (destroy_all h)) as Hlegal.
  { apply legal_then; [|apply legal_reset_all]. apply legal_then; [|apply legal_destroy_actions].
    apply legal_then; [apply legal_kill|apply legal_destroy_attr]. }
  destruct (Hlegal k Hk) as (k' & Ht & Hk'). rewrite Ht. f_equal.
  assert (∀ s, fd_ (snd (destroy_all h)) s = (-1)%Z) as Hfd.
  { intros s. unfold destroy_all, kill_and_wait. destruct (_ || _); by destruct s. }
  assert (actions_initialized (snd (destroy_all h)) = false ∧ attr_initialized (snd (destroy_all h)) = false ∧
    waited_ (snd (destroy_all h)) || bool_decide (pid_ (snd (destroy_all h)) < 0)%Z = true) as (Ha & Hat & Hw).
  { unfold destroy_all, kill_and_wait. destruct (waited_ h || _) eqn:Hw; by split_and!. }
  destruct Hk' as [_ Hfds Hact Hattr Hchild]. rewrite Ha in Hact. rewrite Hat in Hattr. rewrite Hw in Hchild.
  destruct k' as [fds a b c]. cbn in *. subst. unfold before. f_equal. apply set_eq. intros fd.
  rewrite Hfds. split; [|by left]. intros [|(s & Hs & ->)]; [done|]. rewrite Hfd in Hs.
  pose proof (fds_valid s). lia.
Qed.

(** *** Setting up *)

Lemma unused_fd k h s : owns_all k h → fd_ h s = (-1)%Z → pipe_fds s ∉ open_fds k.
Proof.
  intros Hk Hs Hin. apply (oa_fds _ _ Hk) in Hin as [Ho|(s' & Hfd & Heq%fds_distinct)].
  - by apply (fds_valid s).
  - subst s'. pose proof (fds_valid s). lia.
Qed.

Lemma legal_pipe r w h : r ≠ w → fd_ h r = (-1)%Z → fd_ h w = (-1)%Z → legal h (open_pipe pipe_fds r w h).
Proof.
  intros Hne Hr Hw k Hk. pose proof (unused_fd k h r Hk Hr). pose proof (unused_fd k h w Hk Hw).
  cbn. rewrite decide_False by (intros [|[|?%fds_distinct]]; done).
  eexists. split; [done|]. split; cbn; try apply Hk.
  - intros s. repeat case_decide; subst; [by right..|apply Hk].
  - intros fd. rewrite elem_of_union, elem_of_union, !elem_of_singleton, (oa_fds _ _ Hk). split.
    + intros [[->| ->]|[Ho|(s & Hs & Hfd)]]; [right|right|by left|right].
      * exists r. rewrite decide_False, decide_True by done. done.
      * exists w. by rewrite decide_True.
      * exists s. repeat case_decide; subst; [pose proof (fds_valid w); lia|pose proof (fds_valid r); lia|done].
    + intros [Ho|(s & Hs & ->)]; [by right; left|]. repeat case_decide; subst; [by left; right|by left; left|].
      right. right. by exists s.
Qed.

Lemma legal_init_actions h :
  actions_initialized h = false → legal h ([SysActionsInit], set_spawn true (attr_initialized h) h).
Proof.
  intros Hi k Hk. cbn. rewrite (oa_actions _ _ Hk), Hi. eexists. split; [done|]. split; cbn; by first [done|apply Hk].
Qed.

Lemma legal_init_attr h :
  attr_initialized h = false → legal h ([SysAttrInit], set_spawn (actions_initialized h) true h).
Proof.
  intros Hi k Hk. cbn. rewrite (oa_attr _ _ Hk), Hi. eexists. split; [done|]. split; cbn; by first [done|apply Hk].
Qed.

Lemma legal_spawn h : pid_ h = (-1)%Z → legal h ([SysSpawn pid], set_child pid false h).
Proof.
  intros Hp k Hk. cbn. pose proof (oa_child _ _ Hk) as Hc. rewrite Hp in Hc.
  rewrite orb_true_r in Hc. rewrite Hc. eexists. split; [done|]. split; cbn; try apply Hk.
  by rewrite bool_decide_eq_false_2 by lia.
Qed.

Fixpoint all_legal (steps : list SetupStep) (h : Handles) : Prop :=
  match steps with
  | [] => True
  | step :: steps =>
      legal h (setup_effect pipe_fds pid step h) ∧
      all_legal steps (snd (setup_effect pipe_fds pid step h))
  end.

Definition after_setup (steps : list SetupStep) (h : Handles) : Handles :=
  foldl (λ h step, snd (setup_effect pipe_fds pid step h)) h steps.

Lemma setup_legal os_error steps : ∀ h,
  all_legal steps h →
  let '(t, h', r) := setup pipe_fds pid os_error steps h in
  legal h (t, h') ∧ r = run_setup os_error steps ∧ (r = Value () → h' = after_setup steps h).
Proof.
  induction steps as [|step steps IH]; intros h; cbn [setup run_setup all_legal after_setup foldl].
  { intros _. split; [apply legal_none|by split]. }
  intros [Hstep Hrest]. destruct (os_error step) as [e|]; [split; [apply legal_none|by split]|].
  destruct (setup_effect pipe_fds pid step h) as [t h1]. cbn [snd] in *. specialize (IH h1 Hrest).
  destruct (setup pipe_fds pid os_error steps h1) as [[t' h'] r]. destruct IH as (Hl & Hr & Hh).
  split; [|by split]. intros k Hk. destruct (Hstep k Hk) as (k1 & Ht & Hk1).
  destruct (Hl k1 Hk1) as (k2 & Ht2 & Hk2). exists k2. cbn [fst snd] in *. by rewrite sys_steps_app, Ht.
Qed.

Lemma setup_steps_legal wd : all_legal (setup_steps wd) no_handles.
Proof.
  assert (∀ s, 0 ≤ pipe_fds s)%Z as Hpos by (intros s; apply fds_valid).
  destruct wd; cbn [setup_steps is_some app all_legal]; repeat split;
    first [ by apply legal_pipe | by apply legal_init_actions | by apply legal_init_attr
          | apply legal_then; [by apply legal_spawn|apply legal_reset_all]
          | apply legal_use; apply bool_decide_eq_true; cbn; apply Hpos
          | apply legal_none ].
Qed.

Lemma after_setup_started wd : started (live_start (after_setup (setup_steps wd) no_handles)).
Proof. by destruct wd; split. Qed.

(** *** The loop *)

Variable payload_size : nat.
Variable deadline : Z.

Definition step_legal (l : Live) (m : Step) : Prop :=
  let '(t, l', _) := m in legal (lv_handles l) (t, lv_handles l').

Lemma step_legal_then l m k :
  step_legal l m → (∀ t l', m = (t, l', Value ()) → step_legal l' (k l')) →
  step_legal l (step_then m k).
Proof.
  destruct m as [[t l1] [[]|e]]; cbn [step_legal step_then]; [|done].
  intros Hm Hk. specialize (Hk t l1 eq_refl). destruct (k l1) as [[t' l2] r]. cbn [step_legal] in *.
  exact (legal_then _ (t, lv_handles l1) (λ _, (t', lv_handles l2)) Hm Hk).
Qed.

(** Using an end, then maybe closing it. *)
Lemma legal_use_reset s (b : bool) h :
  valid s h = true → legal h (and_then (use s h) (λ h, if b then reset s h else ([], h))).
Proof.
  intros Hv. apply legal_then; [by apply legal_use|]. destruct b; [apply legal_reset|apply legal_none].
Qed.

Lemma step_legal_try_wait ob l : started l → step_legal l (io_try_wait ob l).
Proof.
  intros [Hpid _]. unfold io_try_wait. destruct (waited_ (lv_handles l)) eqn:Hw; [apply legal_none|].
  destruct (ob_wait ob); [apply legal_none| |].
  - intros k Hk. pose proof (oa_child _ _ Hk) as Hc. rewrite Hw, bool_decide_eq_false_2 in Hc by lia.
    cbn in *. rewrite decide_True by done. eexists. split; [done|]. split; cbn; by first [done|apply Hk].
  - pose proof (legal_kill (lv_handles l)) as Hk. by destruct (kill_and_wait (lv_handles l)).
Qed.

Lemma step_legal_deadline ob l : step_legal l (io_deadline deadline ob l).
Proof.
  unfold io_deadline. destruct (negb _ && _); [|apply legal_none].
  assert (legal (lv_handles l) (and_then (reset StdinWrite (lv_handles l)) kill_and_wait)) as Hk
    by (apply legal_then; [apply legal_reset|apply legal_kill]).
  by destruct (and_then _ _).
Qed.

Lemma step_legal_stdin closed writable w l :
  step_legal l (io_stdin payload_size (wants_stdin payload_size l) closed writable w l).
Proof.
  unfold io_stdin, wants_stdin. destruct (valid StdinWrite (lv_handles l)) eqn:Hv; cbn [andb negb]; [|apply legal_none].
  destruct (bool_decide _); cbn [negb]; [|apply legal_none].
  destruct closed; [apply legal_reset|]. destruct writable; [|apply legal_none].
  destruct (write_loop _ _ _) as [n|m]; [|by apply legal_use].
  pose proof (legal_use_reset StdinWrite (bool_decide (payload_size ≤ n)) (lv_handles l) Hv) as Hl.
  by destruct (bool_decide (payload_size ≤ n)).
Qed.

Lemma step_legal_stdout polled ready r l :
  (polled = true → valid StdoutRead (lv_handles l) = true) → step_legal l (io_stdout polled ready r l).
Proof.
  intros Hv. unfold io_stdout. destruct polled; cbn [andb]; [|apply legal_none].
  destruct ready; [|apply legal_none]. specialize (Hv eq_refl).
  destruct (read_available _ _ _) as [c [more|m]]; [|by apply legal_use].
  pose proof (legal_use_reset StdoutRead (negb more) (lv_handles l) Hv) as Hl. by destruct more.
Qed.

Lemma step_legal_stderr polled ready r l :
  (polled = true → valid StderrRead (lv_handles l) = true) → step_legal l (io_stderr polled ready r l).
Proof.
  intros Hv. unfold io_stderr. destruct polled; cbn [andb]; [|apply legal_none].
  destruct ready; [|apply legal_none]. specialize (Hv eq_refl).
  destruct (read_available _ _ _) as [c [more|m]]; [|by apply legal_use].
  pose proof (legal_use_reset StderrRead (negb more) (lv_handles l) Hv) as Hl. by destruct more.
Qed.

Lemma legal_polled l : legal (lv_handles l) (polled payload_size l, lv_handles l).
Proof.
  unfold polled, wants_stdin. set (h := lv_handles l).
  assert (∀ (b : bool) s, (b = true → valid s h = true) →
    legal h (if b then [SysUse (fd_ h s)] else [], h)) as Hone.
  { intros [] s Hv; [by apply (legal_use s), Hv|apply legal_none]. }
  apply (legal_then h (_, h) (λ h, (_ ++ _, h))); [apply Hone; by intros [? _]%andb_true_iff|].
  apply (legal_then h (_, h) (λ h, (_, h))); by apply Hone.
Qed.

Lemma step_legal_poll r l : step_legal l (io_poll payload_size r l).
Proof.
  pose proof (legal_polled l) as Hp. destruct r as [m| |closed writable out_ready err_ready w out err]; [done|done|].
  cbn [io_poll]. apply step_legal_then; [apply step_legal_then|]; [apply step_legal_then; [done|]| |].
  - intros t l' [= <- <-]. apply step_legal_stdin.
  - cbn [step_then]. intros t l' Hin. apply step_legal_stdout.
    pose proof (stdin_frame payload_size (wants_stdin payload_size l) closed writable w l) as Hframe.
    destruct (io_stdin _ _ _ _ _ _) as [[t1 l1] [[]|e]]; [|done]. injection Hin as _ <-.
    destruct Hframe as [-> _]. done.
  - cbn [step_then]. intros t l' Hin. apply step_legal_stderr.
    pose proof (stdin_frame payload_size (wants_stdin payload_size l) closed writable w l) as Hframe.
    destruct (io_stdin _ _ _ _ _ _) as [[t1 l1] [[]|e]]; [|done]. destruct Hframe as [_ <-].
    cbn [step_then] in Hin. pose proof (stdout_frame (valid StdoutRead (lv_handles l)) out_ready out l1) as Hframe.
    destruct (io_stdout _ _ _ _) as [[t2 l2] [[]|e]]; [|done]. injection Hin as _ <-. by rewrite Hframe.
Qed.

Lemma legal_round timeout_ms ob l :
  started l →
  let '(t, l', _) := io_round payload_size deadline timeout_ms ob l in legal (lv_handles l) (t, lv_handles l').
Proof.
  intros Hl. unfold io_round.
  assert (step_legal l (step_then (io_try_wait ob l) (io_deadline deadline ob))) as Hwait
    by (apply step_legal_then; [by apply step_legal_try_wait|intros; apply step_legal_deadline]).
  destruct (step_then _ _) as [[t l1] [[]|e]]; [|done].
  destruct (waited_ _ && _ && _); [done|]. destruct (negb _ && _ && _); [done|].
  pose proof (step_legal_poll (ob_poll ob) l1) as Hpoll. destruct (io_poll _ _ _) as [[t' l2] r].
  exact (legal_then _ (t, lv_handles l1) (λ _, (t', lv_handles l2)) Hwait Hpoll).
Qed.

Lemma legal_loop timeout_ms fuel : ∀ i obs l,
  started l →
  match io_loop payload_size deadline timeout_ms fuel i obs l with
  | Some (t, l', _) => legal (lv_handles l) (t, lv_handles l')
  | None => True
  end.
Proof.
  induction fuel as [|fuel IH]; intros i obs l Hl; [done|]. cbn [io_loop].
  pose proof (legal_round timeout_ms (obs i) l Hl) as Hround.
  pose proof (answers_round payload_size deadline timeout_ms (obs i) l Hl) as Hans.
  destruct (io_round _ _ _ _ _) as [[t l1] [r|]]; [done|]. destruct Hans as [_ Hl1].
  specialize (IH (S i) obs l1 Hl1). destruct (io_loop _ _ _ _ _ _) as [[[t' l2] r]|]; [|done].
  exact (legal_then _ (t, lv_handles l1) (λ _, (t', lv_handles l2)) Hround IH).
Qed.

Lemma no_handles_own : owns_all before no_handles.
Proof.
  split; cbn; try done; [by left|]. intros fd. split; [by left|].
  intros [|(s & <- & Hs)]; [done|]. pose proof (fds_valid s). lia.
Qed.
End Release.

(** C35: A tool call gives back everything it took, on every way out.  Whatever fails - a pipe, the
    spawning, the payload, waiting, polling, reading - and however the run ends, the system calls
    it makes are legal: no descriptor is closed twice or used after it was closed, the spawn
    objects are destroyed once, the child is waited for once and not signalled afterwards; when the
    call returns or throws, exactly the descriptors it found are open and no child is left.  Seen
    without its owners it is [run_prepared_command_tool]: it returns when that does, with that answer. *)
Theorem tool_releases_everything `{JsonLib} (pipe_fds : Slot → Z) (pid : Z) (others : gset Z)
    fuel os_error started_at obs prepared arguments :
  Inj (=) (=) pipe_fds → (∀ s, (0 ≤ pipe_fds s)%Z ∧ pipe_fds s ∉ others) → (0 ≤ pid)%Z →
  let answer := run_prepared_command_tool fuel os_error started_at obs prepared arguments in
  match run_with_resources pipe_fds pid fuel os_error started_at obs prepared arguments with
  | None => answer = None
  | Some (calls, r) => answer = Some r ∧ sys_steps calls (before others) = Some (before others)
  end.
Proof.
  intros Hinj Hfds Hpid. unfold run_with_resources, run_prepared_command_tool.
  set (wd := tool_working_directory (prepared_config prepared)).
  pose proof (setup_legal pipe_fds pid others os_error _ _ (setup_steps_legal pipe_fds pid others Hinj Hfds Hpid wd))
    as Hsetup.
  pose proof (no_handles_own pipe_fds others Hfds) as Hnone.
  assert (∀ t h, legal pipe_fds others no_handles (t, h) →
    sys_steps (t ++ fst (destroy_all h)) (before others) = Some (before others)) as Hleave.
  { intros t h Hl. destruct (Hl _ Hnone) as (k & Ht & Hk). cbn [fst snd] in *.
    rewrite sys_steps_app, Ht. by apply (destroy_all_clean pipe_fds others Hinj Hfds). }
  destruct (setup _ _ _ _ _) as [[t h] r]. destruct Hsetup as (Hl & <- & Hh).
  destruct r as [[]|m]; [|by split; [|apply Hleave]]. rewrite (Hh eq_refl) in *. clear Hh.
  destruct (json_dump arguments) as [text|m]; [|by split; [|apply Hleave]].
  set (size := String.length _). set (deadline := (started_at + _)%Z).
  pose proof (after_setup_started pipe_fds pid Hpid wd) as Hstarted. fold wd.
  set (l := live_start _) in *.
  pose proof (answers_loop size deadline (tool_timeout_ms (prepared_config prepared)) fuel 0 obs l Hstarted) as Hans.
  pose proof (legal_loop pipe_fds others Hinj Hfds size deadline
    (tool_timeout_ms (prepared_config prepared)) fuel 0 obs l Hstarted) as Hloop.
  assert (flags l = initial_run) as Hinit.
  { assert (valid StdinWrite (lv_handles l) = true ∧ valid StdoutRead (lv_handles l) = true ∧
      valid StderrRead (lv_handles l) = true) as (H1 & H2 & H3).
    { unfold l. destruct wd; repeat split; apply bool_decide_eq_true; exact (proj1 (Hfds _)). }
    unfold flags. rewrite H1, H2, H3. unfold l. by destruct wd. }
  rewrite Hinit in Hans. rewrite Hans.
  destruct (io_loop _ _ _ _ _ _) as [[[t' l'] r]|]; [|done]. split; [done|]. apply Hleave.
  exact (legal_then pipe_fds others _ (t, lv_handles l) (λ _, (t', lv_handles l')) Hl Hloop).
Qed.

(** ** Witness *)

Module Witness.
Import ToolRun.Witness.
#[local] Existing Instance lib.

(** Descriptors 3 to 8; 0, 1 and 2 are open before. *)
Definition fds (s : Slot) : Z :=
  match s with
  | StdinRead => 3 | StdinWrite => 4 | StdoutRead => 5 | StdoutWrite => 6 | StderrRead => 7 | StderrWrite => 8
  end.

Definition std_fds : gset Z := {[0%Z; 1%Z; 2%Z]}.

Definition echo_tool : PreparedCommandTool :=
  {| prepared_config :=
       {| tool_name := "echo"; tool_description := ""; tool_parameters_schema := JObject [];
          tool_command := ["cat"]; tool_working_directory := None; tool_inherit_environment := true;
          tool_env := []; tool_timeout_ms := 1000 |};
     executable_path := "/bin/cat"; env_entries := [] |}.

(** The spawn fails after the three pipes were made; the run is killed at its deadline. *)
Definition no_spawn (s : SetupStep) : option string :=
  match s with Spawn => Some "No such file or directory" | _ => None end.

(** Run with [err] and [obs], the calls include [c]; and leave nothing behind. *)
Definition calls_with (P : list Syscall → Prop) (err : SetupStep → option string) (obs : nat → Observation) : Prop :=
  ∃ calls r, run_with_resources fds 42 10 err 0 obs echo_tool JNull = Some (calls, r) ∧ P calls.

Lemma spawn_failure_calls : calls_with (λ calls, SysPipe 7 8 ∈ calls) no_spawn slow.
Proof. eexists _, _. split; [vm_compute; reflexivity|]. apply list_elem_of_In. vm_compute. tauto. Qed.

Lemma timeout_calls : calls_with (λ calls, SysKill 42 ∈ calls) (λ _, None) slow.
Proof. eexists _, _. split; [vm_compute; reflexivity|]. apply list_elem_of_In. vm_compute. tauto. Qed.

Definition clean (calls : list Syscall) : Prop := sys_steps calls (before std_fds) = Some (before std_fds).

Lemma tool_releases_everything_witness :
  calls_with (λ calls, SysPipe 7 8 ∈ calls ∧ clean calls) no_spawn slow ∧
  calls_with (λ calls, SysKill 42 ∈ calls ∧ clean calls) (λ _, None) slow.
Proof.
  assert (Inj (=) (=) fds) as Hinj by (intros [] [] Heq; first [reflexivity|discriminate Heq]).
  assert (∀ s, (0 ≤ fds s)%Z ∧ fds s ∉ std_fds) as Hfds.
  { unfold std_fds. intros s. rewrite !elem_of_union, !elem_of_singleton. destruct s; cbn; lia. }
  assert (0 ≤ 42)%Z as Hpid by lia.
  split; [destruct spawn_failure_calls as (calls & r & Hrun & Hin)|destruct timeout_calls as (calls & r & Hrun & Hin)];
    exists calls, r; (split; [exact Hrun|split; [exact Hin|]]);
    match type of Hrun with run_with_resources _ _ _ ?err _ _ _ _ = _ =>
      pose proof (tool_releases_everything fds 42 std_fds 10 err 0 slow echo_tool JNull Hinj Hfds Hpid) as Hrel
    end; cbv zeta in Hrel; rewrite Hrun in Hrel; exact (proj2 Hrel).
Defined.
End Witness.
