(* ===== verification/Config.v ===== *)
(** * config.hpp, config.cpp: the configuration

    [from_json] of each structure is a function to [Result] whose error is the
    text of the exception it throws.  zoo-keeper's configuration types carry the
    members this code names; their own [from_json] and [validate], and the model
    inspector, are the class [ZooConfigLib]. *)

From S2P Require Import Prelude ApiTypes Json ApiJson SessionStore ZooAdapter ToolSchema.

(** ** nlohmann's conversions *)

Definition json_exception (kind : string) (id : nat) (m : string) : string :=
  "[json.exception." +:+ kind +:+ "." +:+ pretty id +:+ "] " +:+ m.

Definition type_error (id : nat) (m : string) : string := json_exception "type_error" id m.
Definition other_error (id : nat) (m : string) : string := json_exception "other_error" id m.

Definition json_type_name (j : json) : string :=
  match j with
  | JNull => "null" | JBoolean _ => "boolean" | JInteger _ | JFloat _ => "number"
  | JString _ => "string" | JArray _ => "array" | JObject _ => "object"
  end.

Definition must_be (type : string) (j : json) : string :=
  type_error 302 ("type must be " +:+ type +:+ ", but is " +:+ json_type_name j).

Definition get_string (j : json) : Result string :=
  match j with JString s => Value s | _ => Unexpected (must_be "string" j) end.

Definition get_boolean (j : json) : Result bool :=
  match j with JBoolean b => Value b | _ => Unexpected (must_be "boolean" j) end.

(** [static_cast] of a binary64 to an integer type: truncation (undefined in C++
    when the value does not fit; the model then keeps the low bits). *)
Definition truncate (d : double) : Z :=
  match d with
  | S754_finite s m e =>
      let a := Z.shiftl (Zpos m) e in if s then (- a)%Z else a
  | _ => 0%Z
  end.

(** [get_to] of [std::int64_t] and [std::uint64_t]. *)
Definition get_wide (cast : Z → Z) (j : json) : Result Z :=
  match j with
  | JInteger z => Value (cast z)
  | JFloat d => Value (cast (truncate d))
  | _ => Unexpected (must_be "number" j)
  end.

(** [get_to] of the narrower integer types, which takes a boolean too. *)
Definition get_narrow (cast : Z → Z) (j : json) : Result Z :=
  match j with
  | JBoolean b => Value (if b then 1 else 0)%Z
  | _ => get_wide cast j
  end.

Definition to_uint64 (z : Z) : Z := (z mod 2 ^ 64)%Z.

(** [if (auto it = j.find(k); it != j.end()) it->get_to(member)]. *)
Definition field {A} (k : string) (get : json → Result A) (member : A) (j : json) : Result A :=
  match jfind k j with Some v => get v | None => Value member end.

(** [json.at(k).is_...()] followed by [get], with the error thrown otherwise. *)
Definition expect {A} (get : json → option A) (m : string) (j : json) : Result A :=
  match get j with Some a => Value a | None => Unexpected (type_error 302 m) end.

Definition check_unknown_keys (j : json) (context : string) (allowed : list string) : Result unit :=
  match reject_unknown_keys j context allowed with
  | Unexpected e => Unexpected (other_error 501 e)
  | Value _ => Value ()
  end.

(** A loop that collects results and stops at the first error. *)
Fixpoint collect {A B} (f : A → Result B) (l : list A) : Result (list B) :=
  match l with
  | [] => Value []
  | a :: l => try! b := f a in try! bs := collect f l in Value (b :: bs)
  end.

(** ** The structures *)

Record HttpConfig : Type := {
  client_max_body_size_bytes : Z;             (* int64_t *)
  client_max_memory_body_size_bytes : Z;
  idle_connection_timeout_seconds : Z;        (* int32_t *)
  cors_allow_origins : list string;
}.

Record ModelConfig : Type := {
  model_path : string;
  mc_context_size : Z;
  n_gpu_layers : Z;
  use_mmap : bool;
  use_mlock : bool;
}.

(** zoo-keeper's structure: its members are [size_t] and [int]; this code hands them to
    zoo-keeper's [from_json] and only copies what comes back. *)
Record AgentConfig : Type := {
  ac_max_history_messages : Z;
  request_queue_capacity : Z;
  max_tool_iterations : Z;
  max_tool_retries : Z;
}.

Record ServerConfig : Type := {
  bind_address : string;
  port : Z;                                   (* uint16_t *)
  model_id : string;
  api_key : option string;
  http : HttpConfig;
  sessions : SessionConfig;
  tools : list CommandToolConfig;
  model_config : ModelConfig;
  agent_config : AgentConfig;
  default_generation : GenerationOptions;
  auto_configure_model : bool;
  system_prompt : string;
}.

Class ZooConfigLib : Type := {
  default_model_config : ModelConfig;
  default_agent_config : AgentConfig;
  default_generation_options : GenerationOptions;
  agent_from_json : json → Result AgentConfig;
  generation_from_json : json → Result GenerationOptions;
  agent_validate : AgentConfig → Result unit;
  generation_validate : GenerationOptions → Result unit;
  (** [GgufInspector::auto_configure], in a build with the hub. *)
  auto_configure : option (string → Result ModelConfig);
}.

(** ** [validate] *)

Definition validate_sessions (c : SessionConfig) : Result unit :=
  fail_if bool_decide (idle_ttl_seconds c = 0%Z) with "sessions.idle_ttl_seconds must be >= 1" ;;
  Value ().

Definition validate_http (c : HttpConfig) : Result unit :=
  fail_if bool_decide (client_max_body_size_bytes c ≤ 0)%Z with
    "http.client_max_body_size_bytes must be > 0" ;;
  fail_if bool_decide (client_max_memory_body_size_bytes c ≤ 0)%Z with
    "http.client_max_memory_body_size_bytes must be > 0" ;;
  fail_if bool_decide (idle_connection_timeout_seconds c < 0)%Z with
    "http.idle_connection_timeout_seconds must be >= 0" ;;
  for_each (λ origin, fail_if is_empty origin with "http.cors_allow_origins entries must not be empty" ;;
                      Value ()) (cors_allow_origins c).

Definition validate_model_config_for_config_load (c : ModelConfig) : Result unit :=
  fail_if is_empty (model_path c) with "Model path cannot be empty" ;;
  fail_if bool_decide (mc_context_size c ≤ 0)%Z with "Context size must be positive" ;;
  Value ().

Definition validate_tools_entry (tool : CommandToolConfig) : Result unit :=
  match validate_tool tool with
  | Value _ => Value ()
  | Unexpected e => Unexpected ("tools entry " +:+ quoted (tool_name tool) +:+ " is invalid: " +:+ e)
  end.

Section Config.
Context `{ZooConfigLib}.

Definition validate_server (c : ServerConfig) : Result unit :=
  fail_if is_empty (bind_address c) with "bind_address cannot be empty" ;;
  fail_if bool_decide (port c = 0%Z) with "port must be in the range [1, 65535]" ;;
  fail_if is_empty (model_id c) with "model_id cannot be empty" ;;
  fail_if bool_decide (api_key c = Some "") with "api_key must not be empty" ;;
  try! _ := validate_http (http c) in
  try! _ := validate_sessions (sessions c) in
  try! _ := for_each validate_tools_entry (tools c) in
  try! _ := validate_model_config_for_config_load (model_config c) in
  try! _ := agent_validate (agent_config c) in
  generation_validate (default_generation c).

(** ** [from_json] *)

Definition http_from_json (j : json) : Result HttpConfig :=
  try! _ := check_unknown_keys j "http config"
              ["client_max_body_size_bytes"; "client_max_memory_body_size_bytes";
               "idle_connection_timeout_seconds"; "cors_allow_origins"] in
  try! body := field "client_max_body_size_bytes" (get_wide to_int64) 1048576%Z j in
  try! memory := field "client_max_memory_body_size_bytes" (get_wide to_int64) 65536%Z j in
  try! idle := field "idle_connection_timeout_seconds" (get_narrow to_int32) 60%Z j in
  try! origins := field "cors_allow_origins"
    (λ v, try! l := expect as_array "http.cors_allow_origins must be an array" v in
          collect (expect as_string "http.cors_allow_origins entries must be strings") l) [] j in
  Value {| client_max_body_size_bytes := body; client_max_memory_body_size_bytes := memory;
           idle_connection_timeout_seconds := idle; cors_allow_origins := origins |}.

Definition sessions_from_json (j : json) : Result SessionConfig :=
  try! _ := check_unknown_keys j "sessions config" ["max_sessions"; "idle_ttl_seconds"] in
  try! max := field "max_sessions" (get_wide to_uint64) 0%Z j in
  try! ttl := field "idle_ttl_seconds" (get_narrow to_uint32) 900%Z j in
  Value {| max_sessions := Z.to_N max; idle_ttl_seconds := ttl |}.

(** [require_string] and its like: the member must be there. *)
Definition required_field {A} (k : string) (get : json → option A) (m : string) (j : json) : Result A :=
  match jfind k j with
  | Some v => expect get m v
  | None => Unexpected (type_error 302 m)
  end.

Definition optional_field {A} (k : string) (get : json → Result A) (j : json) : Result (option A) :=
  match jfind k j with Some v => try! a := get v in Value (Some a) | None => Value None end.

Definition env_from_json (v : json) : Result (list (string * string)) :=
  match v with
  | JObject entries =>
      collect (λ e, try! s := expect as_string "env values must be strings" (snd e) in
                    Value (fst e, s)) entries
  | _ => Unexpected (type_error 302 "env must be an object")
  end.

(** [is_number_unsigned()] then [get<std::uint32_t>()]. *)
Definition get_timeout (v : json) : Result Z :=
  match v with
  | JInteger z =>
      fail_if bool_decide (z < 0)%Z with type_error 302 "timeout_ms must be a positive integer" ;;
      Value (to_uint32 z)
  | _ => Unexpected (type_error 302 "timeout_ms must be a positive integer")
  end.

Definition tool_from_json (j : json) : Result CommandToolConfig :=
  try! _ := check_unknown_keys j "tool config"
              ["name"; "description"; "parameters"; "command"; "working_directory"; "env";
               "timeout_ms"; "inherit_environment"] in
  try! name := required_field "name" as_string "name must be a string" j in
  try! description := required_field "description" as_string "description must be a string" j in
  try! parameters := required_field "parameters" as_object "parameters must be an object" j in
  try! words := required_field "command" as_array "command must be an array" j in
  try! command := collect (expect as_string "command entries must be strings") words in
  try! working_directory := optional_field "working_directory"
         (expect as_string "working_directory must be a string") j in
  try! env := field "env" env_from_json [] j in
  try! inherit := field "inherit_environment"
         (expect as_boolean "inherit_environment must be a boolean") false j in
  try! timeout := field "timeout_ms" get_timeout 30000%Z j in
  Value {| tool_name := name; tool_description := description; tool_parameters_schema := parameters;
           tool_command := command; tool_working_directory := working_directory;
           tool_inherit_environment := inherit; tool_env := env; tool_timeout_ms := timeout |}.

(** The loop over the tools; an error is wrapped with the tool's index. *)
Fixpoint tools_from_json (i : nat) (l : list json) : Result (list CommandToolConfig) :=
  match l with
  | [] => Value []
  | j :: l =>
      match tool_from_json j with
      | Unexpected e => Unexpected (other_error 501 ("tools[" +:+ pretty i +:+ "]: " +:+ e))
      | Value tool => try! rest := tools_from_json (S i) l in Value (tool :: rest)
      end
  end.

Definition get_port (v : json) : Result Z :=
  try! parsed_port := get_narrow to_uint32 v in
  fail_if bool_decide (parsed_port = 0 ∨ 65535 < parsed_port)%Z with
    json_exception "out_of_range" 401 "port must be in the range [1, 65535]" ;;
  Value parsed_port.

Definition get_api_key (v : json) : Result (option string) :=
  match v with
  | JNull => Value None
  | _ => try! s := expect as_string "api_key must be a string" v in Value (Some s)
  end.

Definition apply_model_config_fields (zoo : json) (c : ModelConfig) : Result ModelConfig :=
  try! path := field "model_path" get_string (model_path c) zoo in
  try! size := field "context_size" (get_narrow to_int32) (mc_context_size c) zoo in
  try! layers := field "n_gpu_layers" (get_narrow to_int32) (n_gpu_layers c) zoo in
  try! mmap := field "use_mmap" get_boolean (use_mmap c) zoo in
  try! mlock := field "use_mlock" get_boolean (use_mlock c) zoo in
  Value {| model_path := path; mc_context_size := size; n_gpu_layers := layers; use_mmap := mmap;
           use_mlock := mlock |}.

Definition configured_model (zoo : json) : Result ModelConfig :=
  match auto_configure with
  | None => Unexpected (other_error 501 "auto_configure_model requires ZKS_ENABLE_ZOO_HUB=ON")
  | Some auto =>
      try! path := required_field "model_path" as_string
        "model_path must be a string when auto_configure_model is true" zoo in
      match auto path with
      | Value c => Value c
      | Unexpected e => Unexpected (other_error 501 ("auto_configure_model failed: " +:+ e))
      end
  end.

(** [target[k] = source.at(k)] for the members that are there. *)
Definition copy_fields (keys : list string) (source target : json) : json :=
  foldl (λ acc k, match jfind k source with Some v => jset k v acc | None => acc end) target keys.

(** [j[k] = v]: a null becomes an object, another value throws. *)
Definition index_set (k : string) (v j : json) : Result json :=
  match j with
  | JNull => Value (JObject [(k, v)])
  | JObject l => Value (JObject (obj_set k v l))
  | _ => Unexpected (type_error 305 ("cannot use operator[] with a string argument with " +:+
                                     json_type_name j))
  end.

Definition agent_json (zoo : json) : json :=
  copy_fields ["max_history_messages"; "request_queue_capacity"; "max_tool_iterations";
               "max_tool_retries"] zoo (JObject []).

Definition gen_json (zoo : json) : Result json :=
  let j := copy_fields ["max_tokens"; "stop_sequences"; "record_tool_trace"] zoo (JObject []) in
  try! sampling :=
    (match jfind "repeat_last_n" zoo with
     | None => Value (jfind "sampling" zoo)
     | Some v => try! s := index_set "repeat_last_n" v (default JNull (jfind "sampling" zoo)) in
                 Value (Some s)
     end) in
  Value (match sampling with Some s => jset "sampling" s j | None => j end).

Definition is_empty_object (j : json) : bool := bool_decide (jkeys j = []).

Definition zoo_keys : list string :=
  ["model_path"; "context_size"; "n_gpu_layers"; "use_mmap"; "use_mlock"; "max_history_messages";
   "request_queue_capacity"; "max_tokens"; "repeat_last_n"; "stop_sequences"; "record_tool_trace";
   "system_prompt"; "sampling"; "max_tool_iterations"; "max_tool_retries"; "auto_configure_model"].

Record ZooSettings : Type := {
  zs_auto : bool;
  zs_model : ModelConfig;
  zs_agent : AgentConfig;
  zs_generation : GenerationOptions;
  zs_system_prompt : string;
}.

(** The block on the member "zoo". *)
Definition zoo_from_json (zoo : json) : Result ZooSettings :=
  try! _ := check_unknown_keys zoo "zoo config" zoo_keys in
  try! auto := field "auto_configure_model"
                 (expect as_boolean "auto_configure_model must be a boolean") false zoo in
  try! base := (if auto then configured_model zoo else Value default_model_config) in
  try! model := apply_model_config_fields zoo base in
  try! agent := (if is_empty_object (agent_json zoo) then Value default_agent_config
                 else agent_from_json (agent_json zoo)) in
  try! gen := gen_json zoo in
  try! generation := (if is_empty_object gen then Value default_generation_options
                      else generation_from_json gen) in
  try! prompt := field "system_prompt" get_string "" zoo in
  Value {| zs_auto := auto; zs_model := model; zs_agent := agent; zs_generation := generation;
           zs_system_prompt := prompt |}.

Definition required_key (k : string) (j : json) : Result json :=
  match jfind k j with
  | Some v => Value v
  | None => Unexpected (other_error 501 ("Server config must contain required key: " +:+ k))
  end.

Definition server_from_json (j : json) : Result ServerConfig :=
  try! _ := check_unknown_keys j "server config"
              ["bind_address"; "port"; "model_id"; "api_key"; "http"; "sessions"; "tools"; "zoo"] in
  try! bind_address := field "bind_address" get_string "127.0.0.1" j in
  try! port := field "port" get_port 8080%Z j in
  try! id_json := required_key "model_id" j in
  try! model_id := get_string id_json in
  try! api_key := field "api_key" get_api_key None j in
  try! http := field "http" http_from_json
    {| client_max_body_size_bytes := 1048576; client_max_memory_body_size_bytes := 65536;
       idle_connection_timeout_seconds := 60; cors_allow_origins := [] |} j in
  try! sessions := field "sessions" sessions_from_json
    {| max_sessions := 0; idle_ttl_seconds := 900 |} j in
  try! tools := field "tools" (λ v, try! l := expect as_array "tools must be an array" v in
                                    tools_from_json 0 l) [] j in
  try! zoo_json := required_key "zoo" j in
  try! zoo := zoo_from_json zoo_json in
  Value {| bind_address := bind_address; port := port; model_id := model_id; api_key := api_key;
           http := http; sessions := sessions; tools := tools; model_config := zs_model zoo;
           agent_config := zs_agent zoo; default_generation := zs_generation zoo;
           auto_configure_model := zs_auto zoo; system_prompt := zs_system_prompt zoo |}.

(** [load_config]; [contents] is what the stream extraction gives, when the file opens. *)
Definition load_config (path : string) (contents : option (Result json)) : Result ServerConfig :=
  let with_path_context m := path +:+ ": " +:+ m in
  match contents with
  | None => Unexpected ("Unable to open config file: " +:+ path)
  | Some (Unexpected e) => Unexpected (with_path_context e)
  | Some (Value j) =>
      match server_from_json j with
      | Unexpected e => Unexpected (with_path_context e)
      | Value c =>
          match validate_server c with
          | Unexpected e => Unexpected (with_path_context e)
          | Value _ => Value c
          end
      end
  end.
End Config.

(** ** [startup_warning] *)

Definition is_trusted_local_bind_address (bind_address : string) : bool :=
  bool_decide (bind_address = "localhost") || bool_decide (bind_address = "::1") ||
  String.prefix "127." bind_address.

Definition startup_warning (c : ServerConfig) : option string :=
  let has_auth := match api_key c with Some k => negb (is_empty k) | None => false end in
  if negb has_auth && negb (is_trusted_local_bind_address (bind_address c))
  then Some ("Warning: binding a non-loopback address without api_key auth enabled. " +:+
             "Use only on a trusted network.")
  else None.

(** ** What an accepted configuration guarantees *)

Record config_ok `{ZooConfigLib} (c : ServerConfig) : Prop := {
  ok_bind_address : bind_address c ≠ "";
  ok_port : (1 ≤ port c ≤ 65535)%Z;
  ok_model_id : model_id c ≠ "";
  ok_api_key : api_key c ≠ Some "";
  ok_body_size : (0 < client_max_body_size_bytes (http c) < 2 ^ 63)%Z;
  ok_memory_size : (0 < client_max_memory_body_size_bytes (http c) < 2 ^ 63)%Z;
  ok_idle : (0 ≤ idle_connection_timeout_seconds (http c) < 2 ^ 31)%Z;
  ok_origins : "" ∉ cors_allow_origins (http c);
  ok_ttl : idle_ttl_seconds (sessions c) ≠ 0%Z;
  ok_tools : Forall (λ t, validate_tool t = Value ()) (tools c);
  ok_model_path : model_path (model_config c) ≠ "";
  ok_context_size : (0 < mc_context_size (model_config c))%Z;
  ok_agent : agent_validate (agent_config c) = Value ();
  ok_generation : generation_validate (default_generation c) = Value ();
}.

(** The last fields of a structure read by a sequence of [try!]. *)
Ltac read_fields H := repeat (apply try_ok in H as (? & ? & H)); injection H as <-; cbn.

Ltac take_field k H :=
  match goal with Hf : field k _ _ _ = _ |- _ => rename Hf into H; unfold field in H end.

Section ConfigProofs.
Context `{ZooConfigLib}.

Lemma get_port_range v z : get_port v = Value z → (1 ≤ z ≤ 65535)%Z.
Proof.
  unfold get_port. intros Hp. apply try_ok in Hp as (n & Hn & Hp). apply fail_if_ok in Hp as [Hr [= <-]].
  apply bool_decide_eq_false in Hr.
  assert (in_uint32 n) as [? ?]; [|lia].
  destruct v as [|b|k|d| | |]; cbn in Hn; try done; injection Hn as <-; auto with server.
  destruct b; unfold in_uint32; lia.
Qed.

Lemma server_port j c : server_from_json j = Value c → (1 ≤ port c ≤ 65535)%Z.
Proof.
  unfold server_from_json. intros Hs. apply try_ok in Hs as (_ & _ & Hs).
  apply try_ok in Hs as (ba & _ & Hs). apply try_ok in Hs as (p & Hp & Hs).
  assert (port c = p) as ->.
  { repeat (apply try_ok in Hs as (? & _ & Hs)). by injection Hs as <-. }
  unfold field in Hp. destruct (jfind "port" j); [by eapply get_port_range|]. injection Hp as <-. lia.
Qed.

Lemma to_int64_range z : in_int64 (to_int64 z).
Proof. unfold in_int64, to_int64. pose proof (Z.mod_pos_bound (z + 2 ^ 63) (2 ^ 64) ltac:(lia)). lia. Qed.

Lemma field_range {A} (P : A → Prop) k get a j x :
  field k get a j = Value x → (∀ v y, get v = Value y → P y) → P a → P x.
Proof. unfold field. destruct (jfind k j); [eauto|]. by intros [= <-]. Qed.

Lemma get_wide_range (P : Z → Prop) cast v z : get_wide cast v = Value z → (∀ x, P (cast x)) → P z.
Proof. destruct v; cbn; try done; by intros [= <-]. Qed.

Lemma get_narrow_int32_range v z : get_narrow to_int32 v = Value z → in_int32 z.
Proof.
  destruct v as [|b| | | | |]; cbn; try done; intros [= <-]; auto with server. unfold in_int32. destruct b; lia.
Qed.

(** The limits of the [http] section are machine integers. *)
Definition http_ranges (c : HttpConfig) : Prop :=
  in_int64 (client_max_body_size_bytes c) ∧ in_int64 (client_max_memory_body_size_bytes c) ∧
  in_int32 (idle_connection_timeout_seconds c).

Lemma http_from_json_ranges j c : http_from_json j = Value c → http_ranges c.
Proof.
  unfold http_from_json. intros Hs. read_fields Hs. unfold http_ranges. cbn. split_and!;
    (eapply field_range; [eassumption| |unfold in_int64, in_int32; lia]); intros v y Hy;
    first [by eapply get_wide_range, to_int64_range|by eapply get_narrow_int32_range].
Qed.

Lemma server_http_ranges j c : server_from_json j = Value c → http_ranges (http c).
Proof.
  unfold server_from_json. intros Hs. read_fields Hs.
  eapply (field_range http_ranges "http"); [eassumption|apply http_from_json_ranges|].
  unfold http_ranges, in_int64, in_int32. cbn. lia.
Qed.

(** What [load_config] accepts was decoded and passed every check. *)
Lemma load_config_ok path contents c :
  load_config path contents = Value c →
  config_ok c ∧ ∃ j, contents = Some (Value j) ∧ server_from_json j = Value c.
Proof.
  unfold load_config. intros Hl. destruct contents as [[j|e]|]; [|done..].
  destruct (server_from_json j) as [c'|e] eqn:Hs; [|done].
  destruct (validate_server c') as [[]|e] eqn:Hv; [|done]. injection Hl as ->.
  split; [|by exists j]. pose proof (server_port j c Hs) as Hport.
  pose proof (server_http_ranges j c Hs) as (Hb & Hm & Hi). unfold in_int64, in_int32 in *.
  unfold validate_server in Hv. rewrite !fail_if_ok, !is_empty_false in Hv.
  destruct Hv as (? & _ & ? & Hkey & Hv). reflect_bools.
  apply try_ok in Hv as ([] & Hhttp & Hv). apply try_ok in Hv as ([] & Hses & Hv).
  apply try_ok in Hv as ([] & Htools & Hv). apply try_ok in Hv as ([] & Hmodel & Hv).
  apply try_ok in Hv as ([] & Hagent & Hgen).
  unfold validate_http in Hhttp. rewrite !fail_if_ok, for_each_ok in Hhttp.
  unfold validate_sessions in Hses. rewrite fail_if_ok in Hses.
  unfold validate_model_config_for_config_load in Hmodel. rewrite !fail_if_ok, is_empty_false in Hmodel.
  destruct_and?. reflect_bools. split; try done; try lia.
  - intros Hin. by apply (proj1 (Forall_forall _ _) ltac:(eassumption)) in Hin.
  - apply for_each_ok in Htools. eapply Forall_impl; [exact Htools|]. intros t Ht.
    unfold validate_tools_entry in Ht. by destruct (validate_tool t) as [[]|].
Qed.

(** The server only starts with a sound configuration: whatever the file holds, an accepted
    configuration has an address, a port in range, a model, no empty key, positive limits, valid
    tools, and settings zoo-keeper accepts; and the start-up warning is silent exactly when a key is
    set or the address is a loopback one. *)
Theorem accepted_config_sound path contents c :
  load_config path contents = Value c →
  config_ok c ∧ (∃ j, contents = Some (Value j) ∧ server_from_json j = Value c) ∧
  (startup_warning c = None ↔
   is_Some (api_key c) ∨ is_trusted_local_bind_address (bind_address c) = true).
Proof.
  intros [Hok Hj]%load_config_ok. split; [done|]. split; [done|].
  pose proof (ok_api_key c Hok) as Hkey.
  unfold startup_warning. destruct (api_key c) as [[|]|] eqn:Ha; [done| |]; cbn.
  - split; [|done]. intros _. left. by eexists.
  - destruct (is_trusted_local_bind_address _); cbn; split; try done; [by right|].
    intros [[? ?]|?]; done.
Qed.

Lemma tools_from_json_lookup n l ts i t :
  tools_from_json n l = Value ts → l !! i = Some t →
  ∃ tool, ts !! i = Some tool ∧ tool_from_json t = Value tool.
Proof.
  revert n ts i. induction l as [|j l IH]; intros n ts i Ht Hi; [done|]. cbn [tools_from_json] in Ht.
  destruct (tool_from_json j) as [tool|e] eqn:Hj; [|done]. apply try_ok in Ht as (rest & Hrest & [= <-]).
  destruct i as [|i]; [injection Hi as ->; by exists tool|]. by apply (IH (S n) rest i).
Qed.

Lemma tool_timeout_wraps j tool z :
  tool_from_json j = Value tool → jfind "timeout_ms" j = Some (JInteger z) →
  tool_timeout_ms tool = to_uint32 z.
Proof.
  unfold tool_from_json. intros Ht Hz. read_fields Ht.
  take_field "timeout_ms" Hfield. rewrite Hz in Hfield. by apply fail_if_ok in Hfield as [_ [= <-]].
Qed.

Lemma sessions_max_wraps j c z :
  sessions_from_json j = Value c → jfind "max_sessions" j = Some (JInteger z) →
  max_sessions c = Z.to_N (to_uint64 z).
Proof.
  unfold sessions_from_json. intros Hs Hz. read_fields Hs.
  take_field "max_sessions" Hfield. rewrite Hz in Hfield. by injection Hfield as <-.
Qed.

(** The integers of an accepted configuration are not range checked: each is the low bits of
    the number in the file.  A port outside 16 bits is accepted when its low 32 bits are a port,
    a negative session limit is a limit of about 2^64, and a tool's timeout wraps at 2^32. *)
Theorem config_integers_wrap j c :
  server_from_json j = Value c →
  (∀ z, jfind "port" j = Some (JInteger z) → port c = (z mod 2 ^ 32)%Z) ∧
  (∀ s z, jfind "sessions" j = Some s → jfind "max_sessions" s = Some (JInteger z) →
          max_sessions (sessions c) = Z.to_N (z mod 2 ^ 64)) ∧
  (∀ i l t z, jfind "tools" j = Some (JArray l) → l !! i = Some t →
          jfind "timeout_ms" t = Some (JInteger z) →
          (tool_timeout_ms <$> tools c !! i) = Some (z mod 2 ^ 32)%Z).
Proof.
  unfold server_from_json. intros Hs. read_fields Hs.
  take_field "tools" Htools. take_field "sessions" Hsessions. take_field "port" Hport. split_and!.
  - intros z Hz. rewrite Hz in Hport. apply try_ok in Hport as (n & [= <-] & Hport).
    by apply fail_if_ok in Hport as [_ [= <-]].
  - intros s z Hj Hz. rewrite Hj in Hsessions. by eapply sessions_max_wraps.
  - intros i l t z Hj Ht Hz. rewrite Hj in Htools. cbn in Htools.
    destruct (tools_from_json_lookup _ _ _ _ _ Htools Ht) as (tool & -> & Htool). cbn.
    f_equal. by eapply tool_timeout_wraps.
Qed.
End ConfigProofs.

(** ** Writing a configuration down *)

Section Encode.
Context `{ZooConfigLib}.
(** How the sampling settings are written; zoo-keeper reads them. *)
Variable sampling_to_json : SamplingParams → json.

Definition jstrings (l : list string) : json := JArray (JString <$> l).

Definition http_to_json (c : HttpConfig) : json :=
  jobject [("client_max_body_size_bytes", JInteger (client_max_body_size_bytes c));
           ("client_max_memory_body_size_bytes", JInteger (client_max_memory_body_size_bytes c));
           ("idle_connection_timeout_seconds", JInteger (idle_connection_timeout_seconds c));
           ("cors_allow_origins", jstrings (cors_allow_origins c))].

Definition sessions_to_json (c : SessionConfig) : json :=
  jobject [("max_sessions", JInteger (Z.of_N (max_sessions c)));
           ("idle_ttl_seconds", JInteger (idle_ttl_seconds c))].

Definition tool_to_json (t : CommandToolConfig) : json :=
  jobject ([("name", JString (tool_name t)); ("description", JString (tool_description t));
            ("parameters", tool_parameters_schema t); ("command", jstrings (tool_command t));
            ("env", JObject (prod_map id JString <$> tool_env t));
            ("inherit_environment", JBoolean (tool_inherit_environment t));
            ("timeout_ms", JInteger (tool_timeout_ms t))] ++
           jopt "working_directory" JString (tool_working_directory t)).

Definition agent_to_json (c : AgentConfig) : json :=
  jobject [("max_history_messages", JInteger (ac_max_history_messages c));
           ("request_queue_capacity", JInteger (request_queue_capacity c));
           ("max_tool_iterations", JInteger (max_tool_iterations c));
           ("max_tool_retries", JInteger (max_tool_retries c))].

Definition generation_to_json (g : GenerationOptions) : json :=
  jobject [("max_tokens", JInteger (go_max_tokens g)); ("stop_sequences", jstrings (stop_sequences g));
           ("record_tool_trace", JBoolean (go_record_tool_trace g));
           ("sampling", sampling_to_json (sampling g))].

Definition zoo_to_json (c : ServerConfig) : json :=
  let m := model_config c in let a := agent_config c in let g := default_generation c in
  jobject [("model_path", JString (model_path m)); ("context_size", JInteger (mc_context_size m));
           ("n_gpu_layers", JInteger (n_gpu_layers m)); ("use_mmap", JBoolean (use_mmap m));
           ("use_mlock", JBoolean (use_mlock m));
           ("max_history_messages", JInteger (ac_max_history_messages a));
           ("request_queue_capacity", JInteger (request_queue_capacity a));
           ("max_tool_iterations", JInteger (max_tool_iterations a));
           ("max_tool_retries", JInteger (max_tool_retries a));
           ("max_tokens", JInteger (go_max_tokens g)); ("stop_sequences", jstrings (stop_sequences g));
           ("record_tool_trace", JBoolean (go_record_tool_trace g));
           ("sampling", sampling_to_json (sampling g));
           ("system_prompt", JString (system_prompt c)); ("auto_configure_model", JBoolean false)].

Definition server_to_json (c : ServerConfig) : json :=
  jobject ([("bind_address", JString (bind_address c)); ("port", JInteger (port c));
            ("model_id", JString (model_id c)); ("http", http_to_json (http c));
            ("sessions", sessions_to_json (sessions c));
            ("tools", JArray (tool_to_json <$> tools c)); ("zoo", zoo_to_json c)] ++
           jopt "api_key" JString (api_key c)).

(** The values the C++ types hold. *)
Record config_fits (c : ServerConfig) : Prop := {
  fits_port : (1 ≤ port c ≤ 65535)%Z;
  fits_body : in_int64 (client_max_body_size_bytes (http c));
  fits_memory : in_int64 (client_max_memory_body_size_bytes (http c));
  fits_idle : in_int32 (idle_connection_timeout_seconds (http c));
  fits_sessions : (max_sessions (sessions c) < 2 ^ 64)%N;
  fits_ttl : in_uint32 (idle_ttl_seconds (sessions c));
  fits_tools : Forall (λ t, in_uint32 (tool_timeout_ms t) ∧
                            is_object (tool_parameters_schema t) = true) (tools c);
  fits_context : in_int32 (mc_context_size (model_config c));
  fits_layers : in_int32 (n_gpu_layers (model_config c));
  fits_auto : auto_configure_model c = false;
}.

Lemma collect_fmap {A B C} (f : A → Result B) (g : C → A) (h : C → B) l :
  (∀ c, f (g c) = Value (h c)) → collect f (g <$> l) = Value (h <$> l).
Proof. intros Hf. induction l as [|c l IH]; [done|]. cbn. by rewrite Hf, IH. Qed.

Lemma collect_strings m l : collect (expect as_string m) (JString <$> l) = Value l.
Proof. rewrite (collect_fmap _ JString id) by done. by rewrite list_fmap_id. Qed.

Lemma expect_jstrings m l : expect as_array m (jstrings l) = Value (JString <$> l).
Proof. done. Qed.

Lemma to_int64_id z : in_int64 z → to_int64 z = z.
Proof. unfold in_int64, to_int64. intros. rewrite Z.mod_small; lia. Qed.

Lemma to_uint32_id z : in_uint32 z → to_uint32 z = z.
Proof. intros [? ?]. by apply Z.mod_small. Qed.

Lemma check_known j context allowed :
  reject_unknown_keys j context allowed = Value () → check_unknown_keys j context allowed = Value ().
Proof. unfold check_unknown_keys. by intros ->. Qed.

Lemma field_found {A} k (get : json → Result A) m j v : jfind k j = Some v → field k get m j = get v.
Proof. unfold field. by intros ->. Qed.

Lemma field_missing {A} k (get : json → Result A) m j : jfind k j = None → field k get m j = Value m.
Proof. unfold field. by intros ->. Qed.

Lemma required_found {A} k (get : json → option A) m j v :
  jfind k j = Some v → required_field k get m j = expect get m v.
Proof. unfold required_field. by intros ->. Qed.

Lemma required_key_found k j v : jfind k j = Some v → required_key k j = Value v.
Proof. unfold required_key. by intros ->. Qed.

Lemma optional_found {A} k (get : json → Result A) j v :
  jfind k j = Some v → optional_field k get j = try! a := get v in Value (Some a).
Proof. unfold optional_field. by intros ->. Qed.

Lemma optional_missing {A} k (get : json → Result A) j :
  jfind k j = None → optional_field k get j = Value None.
Proof. unfold optional_field. by intros ->. Qed.

(** Read the next member of an object whose keys are known. *)
Ltac read_member :=
  first [ erewrite check_known by reflexivity
        | erewrite field_found by reflexivity
        | erewrite field_missing by reflexivity
        | erewrite required_found by reflexivity
        | erewrite required_key_found by reflexivity
        | erewrite optional_found by reflexivity
        | erewrite optional_missing by reflexivity ];
  cbn [snd]; rewrite ?expect_jstrings; cbn [expected_bind get_wide get_narrow get_string get_boolean get_timeout
    expect as_string as_boolean as_object as_array];
  rewrite ?collect_strings; cbn [expected_bind].

Lemma http_roundtrip c :
  in_int64 (client_max_body_size_bytes c) → in_int64 (client_max_memory_body_size_bytes c) →
  in_int32 (idle_connection_timeout_seconds c) → http_from_json (http_to_json c) = Value c.
Proof.
  intros H1 H2 H3. unfold http_from_json. repeat read_member.
  rewrite !to_int64_id, to_int32_id by done. by destruct c.
Qed.

Lemma sessions_roundtrip c :
  (max_sessions c < 2 ^ 64)%N → in_uint32 (idle_ttl_seconds c) →
  sessions_from_json (sessions_to_json c) = Value c.
Proof.
  intros H1 H2. unfold sessions_from_json. repeat read_member.
  rewrite to_uint32_id by done. unfold to_uint64. rewrite Z.mod_small, N2Z.id by lia. by destruct c.
Qed.

Lemma env_roundtrip env : env_from_json (JObject (prod_map id JString <$> env)) = Value env.
Proof.
  unfold env_from_json. rewrite (collect_fmap _ (prod_map id JString) id) by (by intros []).
  by rewrite list_fmap_id.
Qed.

Lemma tool_roundtrip t :
  in_uint32 (tool_timeout_ms t) → is_object (tool_parameters_schema t) = true →
  tool_from_json (tool_to_json t) = Value t.
Proof.
  intros H1 H2. destruct t as [name desc schema cmd wd inherit env timeout]. cbn in H1, H2.
  destruct schema as [| | | | | |schema]; try done. unfold tool_from_json.
  destruct wd; repeat read_member; cbn [tool_parameters_schema expect as_object expected_bind];
    repeat read_member; cbn [tool_env tool_timeout_ms]; rewrite env_roundtrip; cbn [expected_bind];
    rewrite bool_decide_eq_false_2 by (destruct H1; lia); by rewrite to_uint32_id.
Qed.

Lemma tools_roundtrip l n :
  Forall (λ t, in_uint32 (tool_timeout_ms t) ∧ is_object (tool_parameters_schema t) = true) l →
  tools_from_json n (tool_to_json <$> l) = Value l.
Proof.
  intros Hl. revert n. induction Hl as [|t l [H1 H2] _ IH]; intros n; [done|].
  cbn [fmap list_fmap tools_from_json]. rewrite tool_roundtrip by done.
  change (list_fmap _ _ tool_to_json l) with (tool_to_json <$> l). by rewrite IH.
Qed.

(** zoo-keeper reads the agent and the generation settings of [c] back: what its [from_json] does
    with values that its members hold, once they are written down. *)
Record zoo_reads_back (c : ServerConfig) : Prop := {
  agent_read_back : agent_from_json (agent_to_json (agent_config c)) = Value (agent_config c);
  generation_read_back :
    generation_from_json (generation_to_json (default_generation c)) = Value (default_generation c);
}.

Lemma zoo_roundtrip c :
  zoo_reads_back c → in_int32 (mc_context_size (model_config c)) → in_int32 (n_gpu_layers (model_config c)) →
  zoo_from_json (zoo_to_json c) =
  Value {| zs_auto := false; zs_model := model_config c; zs_agent := agent_config c;
           zs_generation := default_generation c; zs_system_prompt := system_prompt c |}.
Proof.
  intros [Hagent Hgen] H1 H2. unfold zoo_from_json, apply_model_config_fields. repeat read_member.
  rewrite !to_int32_id by done.
  change (agent_json (zoo_to_json c)) with (agent_to_json (agent_config c)).
  change (is_empty_object (agent_to_json (agent_config c))) with false.
  change (gen_json (zoo_to_json c)) with (Value (E := string) (generation_to_json (default_generation c))).
  cbn [expected_bind].
  change (is_empty_object (generation_to_json (default_generation c))) with false.
  rewrite Hagent, Hgen. cbn [expected_bind]. by destruct (model_config c).
Qed.

Lemma port_roundtrip z : (1 ≤ z ≤ 65535)%Z → get_port (JInteger z) = Value z.
Proof.
  intros Hz. unfold get_port. cbn [get_narrow get_wide expected_bind].
  rewrite to_uint32_id by (unfold in_uint32; lia). by rewrite bool_decide_eq_false_2 by lia.
Qed.

(** C40: A configuration can be written down: the file with all of its members - address, port,
    limits, tools with their environments, model, agent and generation settings, prompt - is read
    back as that configuration, provided the values fit the types of the members this code reads
    ([config_fits]), the model is not configured automatically (the result of the model inspector
    has no place in the file), and zoo-keeper's own decoders read the agent and generation
    settings of that configuration back ([zoo_reads_back]). *)
Theorem config_roundtrip c :
  config_fits c → zoo_reads_back c → server_from_json (server_to_json c) = Value c.
Proof.
  intros [Hp Hb Hm Hi Hs Ht Htools Hc Hl Ha] Hzoo. unfold server_from_json.
  destruct c as [ba port mid key http ses tools model agent gen auto prompt]. cbn in *. subst auto.
  destruct key as [key|]; repeat read_member; rewrite port_roundtrip by done;
    cbn [expected_bind get_api_key expect as_string];
    rewrite http_roundtrip by done; cbn [expected_bind];
    rewrite sessions_roundtrip by done; cbn [expected_bind];
    rewrite tools_roundtrip by done; cbn [expected_bind];
    by rewrite zoo_roundtrip by done.
Qed.
End Encode.

(** ** Witnesses *)

Module Witness.

(** Decoders of members of the widths zoo-keeper has: [size_t], [int] and [float]. *)
Definition int_member (k : string) (j : json) : Z := match jfind k j with Some (JInteger z) => z | _ => 0%Z end.
Definition bool_member (k : string) (j : json) : bool :=
  match jfind k j with Some (JBoolean b) => b | _ => false end.
Definition float_member (k : string) (j : json) : spec_float :=
  match jfind k j with Some (JFloat d) => round32 d | _ => S754_zero false end.
Definition string_list (j : json) : list string :=
  match j with JArray l => omap as_string l | _ => [] end.

Definition sampling_to_json (s : SamplingParams) : json :=
  jobject [("temperature", JFloat (sp_temperature s)); ("top_p", JFloat (sp_top_p s));
           ("top_k", JInteger (sp_top_k s)); ("repeat_penalty", JFloat (sp_repeat_penalty s));
           ("repeat_last_n", JInteger (sp_repeat_last_n s)); ("seed", JInteger (sp_seed s))].

Definition sampling_of (j : json) : SamplingParams :=
  {| sp_temperature := float_member "temperature" j; sp_top_p := float_member "top_p" j;
     sp_top_k := to_int32 (int_member "top_k" j); sp_repeat_penalty := float_member "repeat_penalty" j;
     sp_repeat_last_n := to_int32 (int_member "repeat_last_n" j); sp_seed := to_int32 (int_member "seed" j) |}.

Definition agent_of (j : json) : AgentConfig :=
  {| ac_max_history_messages := to_uint64 (int_member "max_history_messages" j);
     request_queue_capacity := to_uint64 (int_member "request_queue_capacity" j);
     max_tool_iterations := to_int32 (int_member "max_tool_iterations" j);
     max_tool_retries := to_int32 (int_member "max_tool_retries" j) |}.

Definition generation_of (j : json) : GenerationOptions :=
  {| sampling := sampling_of (default JNull (jfind "sampling" j)); go_max_tokens := to_int32 (int_member "max_tokens" j);
     stop_sequences := string_list (default JNull (jfind "stop_sequences" j));
     go_record_tool_trace := bool_member "record_tool_trace" j |}.

#[local] Instance lib : ZooConfigLib :=
  {| default_model_config := {| model_path := ""; mc_context_size := 8192; n_gpu_layers := 0;
                                use_mmap := true; use_mlock := false |};
     default_agent_config := {| ac_max_history_messages := 64; request_queue_capacity := 16;
                                max_tool_iterations := 4; max_tool_retries := 1 |};
     default_generation_options := generation_of JNull;
     agent_from_json j := Value (agent_of j); generation_from_json j := Value (generation_of j);
     agent_validate _ := Value (); generation_validate _ := Value (); auto_configure := None |}.

Definition sample : ServerConfig :=
  {| bind_address := "0.0.0.0"; port := 8080; model_id := "local-model"; api_key := Some "secret";
     http := {| client_max_body_size_bytes := 1048576; client_max_memory_body_size_bytes := 65536;
                idle_connection_timeout_seconds := 60; cors_allow_origins := ["*"] |};
     sessions := {| max_sessions := 4; idle_ttl_seconds := 900 |};
     tools := [{| tool_name := "greet"; tool_description := "Say hello";
                  tool_parameters_schema :=
                    JObject [("properties", JObject [("who", JObject [("type", JString "string")])]);
                             ("required", JArray [JString "who"]); ("type", JString "object")];
                  tool_command := ["greet"]; tool_working_directory := None;
                  tool_inherit_environment := false; tool_env := [("LANG", "C")];
                  tool_timeout_ms := 5000 |}];
     model_config := {| model_path := "/models/m.gguf"; mc_context_size := 4096; n_gpu_layers := -1;
                        use_mmap := true; use_mlock := false |};
     agent_config := default_agent_config;
     default_generation :=
       {| sampling := {| sp_temperature := S754_finite false 11744051 (-24); sp_top_p := S754_zero false;
                         sp_top_k := 40; sp_repeat_penalty := S754_finite false 8388608 (-23);
                         sp_repeat_last_n := 64; sp_seed := -1 |};
          go_max_tokens := 512; stop_sequences := ["END"]; go_record_tool_trace := true |};
     auto_configure_model := false; system_prompt := "Be brief." |}.

(** The same file with the port 2^32 + 8080. *)
Definition far_port : json := jset "port" (JInteger 4294975376) (server_to_json sampling_to_json sample).

Lemma config_roundtrip_witness : server_from_json (server_to_json sampling_to_json sample) = Value sample.
Proof.
  apply (config_roundtrip sampling_to_json).
  - split; unfold in_int64, in_int32, in_uint32; try reflexivity; cbn -[Z.pow]; try lia.
    apply Forall_singleton. cbn -[Z.pow]. split; [lia|reflexivity].
  - split; vm_compute; reflexivity.
Defined.

Lemma accepted_config_sound_witness : config_ok sample.
Proof.
  refine (proj1 (accepted_config_sound "server.json"
    (Some (Value (server_to_json sampling_to_json sample))) sample _)).
  vm_compute. reflexivity.
Defined.

Lemma config_integers_wrap_witness :
  ∃ c, server_from_json far_port = Value c ∧ port c = (4294975376 mod 2 ^ 32)%Z ∧ port c = 8080%Z.
Proof.
  destruct (server_from_json far_port) as [c|e] eqn:Hc; [|vm_compute in Hc; discriminate].
  exists c. assert (port c = (4294975376 mod 2 ^ 32)%Z) as Hp.
  { refine (proj1 (config_integers_wrap far_port c Hc) _ _). vm_compute. reflexivity. }
  split; [reflexivity|]. split; [exact Hp|]. rewrite Hp. reflexivity.
Defined.
End Witness.
