(* ===== verification/Registry.v ===== *)
(** * api_routes.cpp: the disconnect registry

    [DisconnectRegistry] maps a connection to the callbacks to run when it goes
    away.  Each block under [mutex_] is a function on the state; the callbacks
    taken by a disconnect run after the lock is released. *)

From S2P Require Import Prelude.

Section Registry.
Context {Callback : Type}.

(** A connection is named by a number.  [in_flight] holds the callbacks a
    disconnect took and has yet to run; [invoked] and [cleared] are histories. *)
Record DisconnectRegistry : Type := {
  next_callback_id_ : N;
  callbacks_ : gmap N (gmap N Callback);
  in_flight : list (N * Callback);
  invoked : list N;
  cleared : list N;
}.

Definition new_registry : DisconnectRegistry :=
  {| next_callback_id_ := 1; callbacks_ := ∅; in_flight := []; invoked := []; cleared := [] |}.

Definition track (connection : N) (on_disconnect : Callback) (r : DisconnectRegistry)
    : DisconnectRegistry * N :=
  let callback_id := next_callback_id_ r in
  let inner := default ∅ (callbacks_ r !! connection) in
  (* emplace leaves an existing entry alone *)
  let inner := match inner !! callback_id with Some _ => inner | None => <[callback_id := on_disconnect]> inner end in
  ({| next_callback_id_ := u64_succ callback_id; callbacks_ := <[connection := inner]> (callbacks_ r);
      in_flight := in_flight r; invoked := invoked r; cleared := cleared r |}, callback_id).

Definition clear (connection callback_id : N) (r : DisconnectRegistry) : DisconnectRegistry :=
  match callbacks_ r !! connection with
  | None => r
  | Some inner =>
      let rest := delete callback_id inner in
      {| next_callback_id_ := next_callback_id_ r;
         callbacks_ := if bool_decide (rest = ∅) then delete connection (callbacks_ r)
                       else <[connection := rest]> (callbacks_ r);
         in_flight := in_flight r; invoked := invoked r;
         cleared := if is_some (inner !! callback_id) then cleared r ++ [callback_id] else cleared r |}
  end.

(** The block of [handle_connection_event]. *)
Definition take_section (connection : N) (r : DisconnectRegistry) : DisconnectRegistry :=
  match callbacks_ r !! connection with
  | None => r
  | Some inner =>
      {| next_callback_id_ := next_callback_id_ r; callbacks_ := delete connection (callbacks_ r);
         in_flight := in_flight r ++ map_to_list inner; invoked := invoked r; cleared := cleared r |}
  end.

(** One of the callbacks taken runs. *)
Definition run_callback (n : nat) (r : DisconnectRegistry) : DisconnectRegistry :=
  match in_flight r !! n with
  | None => r
  | Some (callback_id, _) =>
      {| next_callback_id_ := next_callback_id_ r; callbacks_ := callbacks_ r;
         in_flight := delete n (in_flight r); invoked := invoked r ++ [callback_id];
         cleared := cleared r |}
  end.

(** The whole of [handle_connection_event] with nobody else at work. *)
Definition handle_connection_event (disconnected : bool) (connection : N) (r : DisconnectRegistry)
    : DisconnectRegistry :=
  if negb disconnected then r
  else let r := take_section connection r in Nat.iter (length (in_flight r)) (run_callback 0) r.

(** ** Interleavings *)

Inductive registry_step : relation DisconnectRegistry :=
| step_track c f r :
    (next_callback_id_ r + 1 < u64_mod)%N → registry_step r (fst (track c f r))
| step_clear c i r : registry_step r (clear c i r)
| step_take c r : registry_step r (take_section c r)
| step_run n r : registry_step r (run_callback n r).

Definition in_table (r : DisconnectRegistry) (c i : N) : Prop :=
  ∃ inner, callbacks_ r !! c = Some inner ∧ is_Some (inner !! i).

(** The callbacks that left the table. *)
Definition left_table (r : DisconnectRegistry) : list N := (in_flight r).*1 ++ invoked r ++ cleared r.

(** Every id that was given out is in exactly one place. *)
Record registry_wf (r : DisconnectRegistry) : Prop := {
  rw_next : (1 ≤ next_callback_id_ r)%N;
  rw_once : NoDup (left_table r);
  rw_connection c c' i : in_table r c i → in_table r c' i → c = c';
  rw_gone c i : in_table r c i → i ∉ left_table r;
  rw_issued i : (∃ c, in_table r c i) ∨ i ∈ left_table r ↔ (1 ≤ i < next_callback_id_ r)%N;
  rw_inner c inner : callbacks_ r !! c = Some inner → inner ≠ ∅;
}.

Lemma new_registry_wf : registry_wf new_registry.
Proof.
  split; unfold in_table, left_table; simpl.
  - done.
  - constructor.
  - intros c c' i (inner & Hi & _). by rewrite lookup_empty in Hi.
  - intros c i (inner & Hi & _). by rewrite lookup_empty in Hi.
  - intros i. split; [|lia]. intros [(c & inner & Hi & _)|Hi]; [by rewrite lookup_empty in Hi|set_solver].
  - intros c inner Hi. by rewrite lookup_empty in Hi.
Qed.

Lemma in_table_track c f r c' i :
  (∀ c', ¬ in_table r c' (next_callback_id_ r)) →
  in_table (fst (track c f r)) c' i ↔ (c' = c ∧ i = next_callback_id_ r) ∨ in_table r c' i.
Proof.
  intros Hfresh. unfold in_table, track. simpl.
  assert (default ∅ (callbacks_ r !! c) !! next_callback_id_ r = None) as ->.
  { destruct (callbacks_ r !! c) as [inner|] eqn:Hc; [|apply lookup_empty]. simpl.
    destruct (inner !! next_callback_id_ r) eqn:Hi; [|done]. destruct (Hfresh c). exists inner. eauto. }
  split.
  - intros (inner & Hl & [x Hi]). destruct (decide (c' = c)) as [->|Hne].
    + rewrite lookup_insert_eq in Hl. injection Hl as <-.
      destruct (decide (i = next_callback_id_ r)) as [->|]; [by left|right].
      rewrite lookup_insert_ne in Hi by done.
      destruct (callbacks_ r !! c) as [inner|]; [|simpl in Hi; by rewrite lookup_empty in Hi]. eauto.
    + rewrite lookup_insert_ne in Hl by done. right. eauto.
  - intros [[-> ->]|(inner & Hl & [x Hi])].
    + eexists. rewrite lookup_insert_eq. split; [done|]. rewrite lookup_insert_eq. by eexists.
    + destruct (decide (c' = c)) as [->|Hne].
      * eexists. rewrite lookup_insert_eq, Hl. split; [done|]. simpl.
        destruct (decide (i = next_callback_id_ r)) as [->|]; [rewrite lookup_insert_eq|rewrite lookup_insert_ne by done];
          by eexists.
      * exists inner. rewrite lookup_insert_ne by done. eauto.
Qed.

Lemma in_table_clear c id r c' i :
  in_table (clear c id r) c' i ↔ in_table r c' i ∧ ¬ (c' = c ∧ i = id).
Proof.
  unfold in_table, clear. destruct (callbacks_ r !! c) as [inner|] eqn:Hc; cbn.
  - assert (∀ inner', callbacks_ r !! c = Some inner' → inner' = inner) as Huniq by congruence.
    case_bool_decide as Hempty; destruct (decide (c' = c)) as [->|Hne].
    + rewrite lookup_delete_eq. split; [by intros (? & ? & _)|].
      intros [(inner' & Hl & Hi) Hno]. apply Huniq in Hl as ->. exfalso.
      assert (i ≠ id) as Hid by naive_solver.
      rewrite <-(lookup_delete_ne inner id i) in Hi by done. rewrite Hempty, lookup_empty in Hi. by destruct Hi.
    + rewrite lookup_delete_ne by done. naive_solver.
    + rewrite lookup_insert_eq. split.
      * intros (inner' & [= <-] & Hi). destruct (decide (i = id)) as [->|].
        { rewrite lookup_delete_eq in Hi. by destruct Hi. }
        rewrite lookup_delete_ne in Hi by done. naive_solver.
      * intros [(inner' & Hl & Hi) Hno]. apply Huniq in Hl as ->. eexists. split; [done|].
        rewrite lookup_delete_ne by naive_solver. done.
    + rewrite lookup_insert_ne by done. naive_solver.
  - split; [|naive_solver]. intros (inner & Hl & Hi). split; [eauto|]. intros [-> ->]. congruence.
Qed.

Lemma in_table_take c r c' i : in_table (take_section c r) c' i ↔ in_table r c' i ∧ c' ≠ c.
Proof.
  unfold in_table, take_section. destruct (callbacks_ r !! c) as [inner|] eqn:Hc; cbn.
  - destruct (decide (c' = c)) as [->|]; [rewrite lookup_delete_eq|rewrite lookup_delete_ne by done]; naive_solver.
  - split; [|naive_solver]. intros (inner & Hl & Hi). split; [eauto|]. congruence.
Qed.

Lemma track_wf c f r :
  (next_callback_id_ r + 1 < u64_mod)%N → registry_wf r → registry_wf (fst (track c f r)).
Proof.
  intros Hsmall [Hnext Honce Hconn Hgone Hissued Hinner].
  assert (∀ c', ¬ in_table r c' (next_callback_id_ r)) as Hfresh.
  { intros c' Hin. assert (1 ≤ next_callback_id_ r < next_callback_id_ r)%N; [|lia].
    apply Hissued. left. by exists c'. }
  assert (next_callback_id_ r ∉ left_table r) as Hout.
  { intros Hin. assert (1 ≤ next_callback_id_ r < next_callback_id_ r)%N; [|lia]. apply Hissued. by right. }
  pose proof (λ c' i, in_table_track c f r c' i Hfresh) as Htab.
  change (left_table r) with (left_table (fst (track c f r))) in *.
  split; try done.
  - cbn. rewrite u64_succ_small by done. lia.
  - intros c1 c2 i. rewrite !Htab. naive_solver.
  - intros c' i. rewrite Htab. naive_solver.
  - intros i. setoid_rewrite Htab. cbn [fst track next_callback_id_]. rewrite u64_succ_small by done.
    transitivity (i = next_callback_id_ r ∨ (1 ≤ i < next_callback_id_ r)%N); [|lia].
    rewrite <-Hissued. naive_solver.
  - intros c' inner. cbn. destruct (decide (c' = c)) as [->|]; [|rewrite lookup_insert_ne by done; apply Hinner].
    rewrite lookup_insert_eq. intros [= <-]. destruct (_ !! next_callback_id_ r) eqn:Hi.
    + intros He. by rewrite He, lookup_empty in Hi.
    + apply insert_non_empty.
Qed.

Lemma clear_wf c id r : registry_wf r → registry_wf (clear c id r).
Proof.
  intros [Hnext Honce Hconn Hgone Hissued Hinner].
  pose proof (λ c' i, in_table_clear c id r c' i) as Htab.
  assert (left_table (clear c id r) = left_table r ∧ ¬ in_table r c id ∨
          left_table (clear c id r) = left_table r ++ [id] ∧ in_table r c id) as Hleft.
  { unfold left_table, clear, in_table. destruct (callbacks_ r !! c) as [inner|] eqn:Hc; cbn; [|left; naive_solver].
    destruct (inner !! id) eqn:Hi; cbn; [right|left].
    - rewrite !app_assoc. split; [done|]. eauto.
    - split; [done|]. intros (inner' & [= <-] & Hs). rewrite Hi in Hs. by destruct Hs. }
  assert (next_callback_id_ (clear c id r) = next_callback_id_ r) as Hn
    by (unfold clear; by destruct (callbacks_ r !! c)).
  split.
  - by rewrite Hn.
  - destruct Hleft as [[-> _]|[-> Hin]]; [done|]. apply NoDup_app. split; [done|]. split; [|apply NoDup_singleton].
    intros i Hi ->%list_elem_of_singleton. by eapply Hgone.
  - intros c1 c2 i. rewrite !Htab. naive_solver.
  - intros c' i. rewrite Htab. intros [Hin Hne]. destruct Hleft as [[-> _]|[-> Hid]]; [by eapply Hgone|].
    rewrite elem_of_app, list_elem_of_singleton. intros [Hx| ->]; [by eapply Hgone|].
    apply Hne. split; [by eapply Hconn|done].
  - intros i. rewrite Hn, <-Hissued. setoid_rewrite Htab.
    destruct Hleft as [[-> Hno]|[-> Hid]].
    + split; [naive_solver|]. intros [(c' & Hc')|?]; [|by right]. left. exists c'. split; [done|].
      by intros [-> ->].
    + rewrite elem_of_app, list_elem_of_singleton. split; [naive_solver|].
      intros [(c' & Hc')|?]; [|naive_solver]. destruct (decide (i = id)) as [->|]; naive_solver.
  - intros c' inner. unfold clear. destruct (callbacks_ r !! c) as [inner0|] eqn:Hc; cbn; [|apply Hinner].
    case_bool_decide as He; intros Hl.
    + apply lookup_delete_Some in Hl as [_ Hl]. by eapply Hinner.
    + destruct (decide (c' = c)) as [->|]; [rewrite lookup_insert_eq in Hl; by injection Hl as <-|].
      rewrite lookup_insert_ne in Hl by done. by eapply Hinner.
Qed.

Lemma take_wf c r : registry_wf r → registry_wf (take_section c r).
Proof.
  intros [Hnext Honce Hconn Hgone Hissued Hinner].
  destruct (callbacks_ r !! c) as [inner|] eqn:Hc; [|unfold take_section; rewrite Hc; by split].
  pose proof (λ c' i, in_table_take c r c' i) as Htab.
  assert (left_table (take_section c r) ≡ₚ (map_to_list inner).*1 ++ left_table r) as Hleft.
  { unfold left_table, take_section. rewrite Hc. cbn. rewrite fmap_app, (assoc_L (++)), (assoc_L (++)).
    rewrite (Permutation_app_comm (in_flight r).*1). by rewrite <-!(assoc_L (++)). }
  assert (∀ i, i ∈ (map_to_list inner).*1 ↔ in_table r c i) as Hids.
  { intros i. rewrite list_elem_of_fmap. split.
    - intros ([j x] & -> & Hx%elem_of_map_to_list). exists inner. eauto.
    - intros (inner' & Hl & [x Hx]). rewrite Hc in Hl. injection Hl as <-.
      exists (i, x). split; [done|]. by apply elem_of_map_to_list. }
  assert (next_callback_id_ (take_section c r) = next_callback_id_ r) as Hn
    by (unfold take_section; by rewrite Hc).
  split.
  - by rewrite Hn.
  - rewrite Hleft. apply NoDup_app. split; [apply NoDup_fst_map_to_list|]. split; [|done].
    intros i Hi%Hids. by eapply Hgone.
  - intros c1 c2 i. rewrite !Htab. naive_solver.
  - intros c' i. rewrite Htab, Hleft, elem_of_app, Hids. intros [Hin Hne] [Hi|Hi]; [|by eapply Hgone].
    apply Hne. by eapply Hconn.
  - intros i. rewrite Hn, <-Hissued, Hleft, elem_of_app, Hids. setoid_rewrite Htab. split; [naive_solver|].
    intros [(c' & Hc')|?]; [|naive_solver]. destruct (decide (c' = c)) as [->|]; naive_solver.
  - intros c' inner'. unfold take_section. rewrite Hc. cbn. intros [_ Hl]%lookup_delete_Some. by eapply Hinner.
Qed.

Lemma run_wf n r : registry_wf r → registry_wf (run_callback n r).
Proof.
  intros [Hnext Honce Hconn Hgone Hissued Hinner]. unfold run_callback.
  destruct (in_flight r !! n) as [[id f]|] eqn:Hn; [|by split].
  set (r' := {| next_callback_id_ := _ |}).
  assert (left_table r' ≡ₚ left_table r) as Hleft.
  { unfold left_table. cbn. rewrite (delete_Permutation _ _ _ Hn) at 2. cbn.
    rewrite <-(assoc_L (++)). cbn. by rewrite <-Permutation_middle, <-Permutation_middle. }
  split; try done.
  - by rewrite Hleft.
  - intros c i Hi. rewrite Hleft. by eapply Hgone.
  - intros i. rewrite Hleft. apply Hissued.
Qed.

Lemma handle_steps d c r : rtc registry_step r (handle_connection_event d c r).
Proof.
  unfold handle_connection_event. destruct d; [|reflexivity]. cbn [negb].
  apply (rtc_l _ _ (take_section c r)); [apply step_take|]. generalize (take_section c r). intros r'.
  induction (length (in_flight r')) as [|n IH]; [reflexivity|].
  eapply rtc_r; [exact IH|]. apply step_run.
Qed.

(** A disconnect callback runs at most once and never after it was cleared: in every interleaving
    of tracking, clearing and disconnects, each callback id that was given out is in exactly one
    place - still tracked (under one connection), taken by a disconnect and about to run, run, or
    cleared - no id appears twice, and no connection is kept with nothing to call; handling a
    disconnect is a sequence of these steps. *)
Theorem disconnect_callbacks_run_once r :
  rtc registry_step new_registry r →
  NoDup (left_table r) ∧
  (∀ i, (∃ c, in_table r c i) ∨ i ∈ left_table r ↔ (1 ≤ i < next_callback_id_ r)%N) ∧
  (∀ c i, in_table r c i → i ∉ left_table r) ∧
  (∀ c c' i, in_table r c i → in_table r c' i → c' = c) ∧
  (∀ c inner, callbacks_ r !! c = Some inner → inner ≠ ∅) ∧
  (∀ d c, rtc registry_step r (handle_connection_event d c r)).
Proof.
  intros Hsteps. assert (registry_wf r) as [_ Honce Hconn Hgone Hissued Hinner].
  { pose proof new_registry_wf as Hwf. revert Hwf.
    induction Hsteps as [|r1 r2 r3 Hstep _ IH]; [done|]. intros Hwf. apply IH.
    destruct Hstep; auto using track_wf, clear_wf, take_wf, run_wf. }
  split_and!; [exact Honce|exact Hissued|exact Hgone| |exact Hinner|intros d c; apply handle_steps].
  intros c c' i Hc Hc'. by eapply Hconn.
Qed.
End Registry.

Module Witness.
Definition tracked : @DisconnectRegistry nat := fst (track 7 42 new_registry).

Lemma disconnect_callbacks_run_once_witness :
  invoked (handle_connection_event true 7 tracked) = [1%N] ∧
  NoDup (left_table tracked).
Proof.
  split; [vm_compute; reflexivity|].
  refine (proj1 (disconnect_callbacks_run_once tracked _)).
  eapply rtc_once, step_track. vm_compute. reflexivity.
Defined.
End Witness.
