(* ===== verification/Server.v ===== *)
(** * runtime.cpp, completion_controller.cpp, api_routes.cpp: serving requests

    [ServerState] puts the chat service, the metrics, the continuation executor,
    the disconnect registry and the streaming sessions together.  A handler is a
    [prog] over it; an exception is its [Unexpected] result.  A continuation that
    the executor accepted is returned as data, to be run by a worker.  What the
    agent answers, and whether the answer was there at once, are arguments.  Moving
    from a [std::function] leaves it empty, so calling it then throws. *)

From S2P Require Import Prelude Atomic ApiTypes SessionStore Executor Auth Metrics Json ApiJson.
From S2P Require Import Streaming StreamSession ZooAdapter ChatService ToolSchema Config Registry.

(** ** [ServerRuntime] *)

Definition continuation_worker_count (hardware_threads : nat) : nat :=
  if decide (hardware_threads = 0) then 2 else min 4 (max 2 hardware_threads).

(** [size_t] arithmetic; the capacity is an [int] converted to [size_t]. *)
Definition continuation_queue_depth (c : ServerConfig) : N :=
  let request_capacity := N.max 1 (Z.to_N (to_uint64 (request_queue_capacity (agent_config c)))) in
  N.max 32 ((request_capacity * 2) mod u64_mod).

(** What a client receives. *)
Inductive Reply : Type :=
| Respond (r : HttpResponse)
| EventStream (session : nat).           (* the response that attaches to the session *)

Definition reply_status (r : Reply) : Z := match r with Respond r => resp_status r | EventStream _ => 200 end.

Record ServerState : Type := {
  chat_service_ : ChatState;
  server_metrics : ServerMetrics;
  continuation_executor_ : @ExecutorState string;   (* a task is named by its request *)
  runtime_stopping : bool;
  registry : @DisconnectRegistry (nat * N);         (* the session and the agent request *)
  stream_sessions : list StreamState;
  replies : list (nat * Reply);                     (* request number and reply, in order *)
}.

Definition with_chat (x : ChatState) (s : ServerState) : ServerState :=
  {| chat_service_ := x; server_metrics := server_metrics s;
     continuation_executor_ := continuation_executor_ s; runtime_stopping := runtime_stopping s;
     registry := registry s; stream_sessions := stream_sessions s; replies := replies s |}.

Definition with_server_metrics (x : ServerMetrics) (s : ServerState) : ServerState :=
  {| chat_service_ := chat_service_ s; server_metrics := x;
     continuation_executor_ := continuation_executor_ s; runtime_stopping := runtime_stopping s;
     registry := registry s; stream_sessions := stream_sessions s; replies := replies s |}.

Definition with_executor (x : ExecutorState) (stopping : bool) (s : ServerState) : ServerState :=
  {| chat_service_ := chat_service_ s; server_metrics := server_metrics s;
     continuation_executor_ := x; runtime_stopping := stopping;
     registry := registry s; stream_sessions := stream_sessions s; replies := replies s |}.

Definition with_registry (x : DisconnectRegistry) (s : ServerState) : ServerState :=
  {| chat_service_ := chat_service_ s; server_metrics := server_metrics s;
     continuation_executor_ := continuation_executor_ s; runtime_stopping := runtime_stopping s;
     registry := x; stream_sessions := stream_sessions s; replies := replies s |}.

Definition with_sessions (x : list StreamState) (s : ServerState) : ServerState :=
  {| chat_service_ := chat_service_ s; server_metrics := server_metrics s;
     continuation_executor_ := continuation_executor_ s; runtime_stopping := runtime_stopping s;
     registry := registry s; stream_sessions := x; replies := replies s |}.

Definition with_replies (x : list (nat * Reply)) (s : ServerState) : ServerState :=
  {| chat_service_ := chat_service_ s; server_metrics := server_metrics s;
     continuation_executor_ := continuation_executor_ s; runtime_stopping := runtime_stopping s;
     registry := registry s; stream_sessions := stream_sessions s; replies := x |}.

(** Calls on the parts. *)
Definition on_chat {A} (q : prog ChatState A) : prog ServerState A := lift chat_service_ with_chat q.

Definition on_metrics {A} (q : prog ServerMetrics A) : prog ServerState A :=
  lift server_metrics with_server_metrics q.

Definition on_session {A} (i : nat) (q : prog StreamState A) : prog ServerState A :=
  lift (λ s, default new_session (stream_sessions s !! i))
       (λ x s, with_sessions (<[i := x]> (stream_sessions s)) s) q.

(** [submit_background], under [tasks_mutex_]. *)
Definition submit_section (task : string) (s : ServerState) : ServerState * Result unit :=
  if runtime_stopping s then (s, Unexpected "Server runtime is stopping")
  else
    let '(x, r) := submit task (continuation_executor_ s) in
    (with_executor x (runtime_stopping s) s, r).

Definition submit_background (task : string) : prog ServerState (Result unit) :=
  atomically (submit_section task).

(** ** Exceptions *)

(** [q] then [k], unless [q] throws. *)
Definition try_prog {S A B} (q : prog S (Result A)) (k : A → prog S (Result B)) : prog S (Result B) :=
  prog_bind q (λ r, match r with Value a => k a | Unexpected what => Ret (Unexpected what) end).

Notation "'then!' x ':=' q 'in' k" :=
  (try_prog q (λ x, k)) (at level 10, x pattern, q at level 100, k at level 200,
    format "'[' then!  x  :=  q  'in' ']' '/' k") : server_scope.

Definition bad_function_call : string := "bad_function_call".

(** The closure handed to the executor: what it captured. *)
Inductive Continuation (R : Type) : Type :=
| AnswerTask (pending : Pending) (result : RuntimeResult R)
| StreamTask (session : nat) (callback : option (N * N)) (pending : Pending) (result : RuntimeResult R).
Arguments AnswerTask {R}.
Arguments StreamTask {R}.

(** How a handler returns: done, or with a continuation the executor accepted. *)
Inductive Handled (R : Type) : Type :=
| Done
| Continued (task : Continuation R).
Arguments Done {R}.
Arguments Continued {R}.

Section Server.
Context `{ZooCore} `{JsonLib}.
Variable p : StoreConfig.
Variable gen : GenerationOptions.
Variable context_size : Z.
Variable agent_id : nat → N.
Variable now_seconds : nat → Z.
Variable status_to_string : ToolInvocationStatus → string.
(** Whether the client takes the [n]-th frame of a stream. *)
Variable client_takes : nat → bool.
(** The number of the request being served. *)
Variable rq : nat.

(** The reply callback; [with_metrics] wraps it. *)
Definition send_reply (r : Reply) : prog ServerState unit :=
  atomically (λ s, (with_replies (replies s ++ [(rq, r)]) s, ())).

Definition reply (r : Reply) : prog ServerState unit :=
  do! _ := on_metrics (with_metrics (reply_status r)) in send_reply r.

(** [cb(make_..._response(...))]: building the response may throw. *)
Definition respond (r : expected string HttpResponse) : prog ServerState (Result unit) :=
  match r with
  | Unexpected what => Ret (Unexpected what)
  | Value r => do! _ := reply (Respond r) in Ret (Value ())
  end.

Definition respond_error (e : ApiError) : prog ServerState (Result unit) := respond (make_error_response e).

(** ** The three kinds of generation requests *)

Record Endpoint (R : Type) : Type := {
  ep_start : prog ChatState (ApiResult Pending);
  ep_text : R → string;
  ep_invocations : R → list ToolInvocationRecord;
  ep_response : string → Z → string → R → expected string HttpResponse;
  ep_frontend : Frontend R;
}.
Arguments ep_start {R}.
Arguments ep_text {R}.
Arguments ep_invocations {R}.
Arguments ep_response {R}.
Arguments ep_frontend {R}.

Definition completion_endpoint (start : prog ChatState (ApiResult Pending)) : Endpoint CompletionResult :=
  {| ep_start := start; ep_text := cr_text; ep_invocations := cr_tool_invocations;
     ep_response := make_chat_completion_response status_to_string; ep_frontend := chat_frontend |}.

Definition chat_endpoint (request : ChatCompletionRequest) : Endpoint CompletionResult :=
  completion_endpoint (start_completion p gen agent_id now_seconds request).

Definition agent_chat_endpoint (request : AgentChatRequest) : Endpoint CompletionResult :=
  completion_endpoint (start_agent_chat p gen agent_id now_seconds request).

Definition extraction_endpoint (request : ExtractionRequest) : Endpoint ExtractionResult :=
  {| ep_start := start_extraction p gen agent_id now_seconds request; ep_text := ex_text;
     ep_invocations := ex_tool_invocations; ep_response := make_extraction_response status_to_string;
     ep_frontend := extraction_frontend status_to_string |}.

Section Flow.
Context {R : Type}.
Variable ep : Endpoint R.

Definition result_text (result : RuntimeResult R) : RuntimeResult string :=
  match result with Value r => Value (ep_text ep r) | Unexpected e => Unexpected e end.

(** [start_...] on the service; a refusal is answered, and counted when the queue was full. *)
Definition refuse (e : ApiError) : prog ServerState (Result (Handled R)) :=
  do! _ := (if bool_decide (code e = Some "queue_full") then on_metrics (increment QueueRejected)
            else Ret ()) in
  then! _ := respond_error e in Ret (Value Done).

Definition count_result (result : RuntimeResult R) : prog ServerState unit :=
  on_metrics (match result with
              | Value r => increment_tool_metrics (ep_invocations ep r)
              | Unexpected e => increment_runtime_error_metrics e
              end).

(** The result is there: count, finalize, answer. *)
Definition answer (pending : Pending) (result : RuntimeResult R) : prog ServerState (Result unit) :=
  do! _ := count_result result in
  do! _ := on_chat (finalize_completion p pending (result_text result)) in
  match result with
  | Unexpected e => respond_error (map_runtime_error_to_api_error e)
  | Value r => respond (ep_response ep (pending_id pending) (pending_created pending)
                          (pending_model pending) r)
  end.

(** The executor refused: the closure, which owns the request now, is destroyed
    with its lease. *)
Definition destroy_closure (pending : Pending) : prog ServerState unit :=
  on_chat (release_completion p pending).

(** [pending->cancel()] then calls a moved-from function. *)
Definition moved_from_call {A} : prog ServerState (Result A) := Ret (Unexpected bad_function_call).

(** [start_non_stream_completion], [start_non_stream_extraction], [start_agent_chat]. *)
Definition start_non_stream (ready : bool) (result : RuntimeResult R)
    : prog ServerState (Result (Handled R)) :=
  do! pending := on_chat (ep_start ep) in
  match pending with
  | Unexpected e => refuse e
  | Value pending =>
      if ready then then! _ := answer pending result in Ret (Value Done)
      else
        do! submitted := submit_background (pending_id pending) in
        match submitted with
        | Value _ => Ret (Value (Continued (AnswerTask pending result)))
        | Unexpected _ => do! _ := destroy_closure pending in moved_from_call
        end
  end.

(** An exception while the request is not finalized: its lease is destroyed. *)
Definition or_release {A} (pending : Pending) (q : prog ServerState (Result A))
    : prog ServerState (Result A) :=
  do! r := q in
  match r with
  | Value a => Ret (Value a)
  | Unexpected what => do! _ := destroy_closure pending in Ret (Unexpected what)
  end.

Definition new_stream : prog ServerState nat :=
  atomically (λ s, (with_sessions (stream_sessions s ++ [new_session]) s, length (stream_sessions s))).

Definition track_disconnect (connection : option N) (i : nat) (request : N)
    : prog ServerState (option (N * N)) :=
  match connection with
  | None => Ret None
  | Some c =>
      atomically (λ s, let '(x, id) := track c (i, request) (registry s) in
                       (with_registry x s, Some (c, id)))
  end.

(** The registry's key keeps the connection alive while it has callbacks; without
    the entry [clear] does nothing. *)
Definition clear_disconnect (callback : option (N * N)) : prog ServerState unit :=
  match callback with
  | None => Ret ()
  | Some (c, id) => atomically (λ s, (with_registry (clear c id (registry s)) s, ()))
  end.

(** The continuation of a streamed request. *)
Definition finish_stream (i : nat) (callback : option (N * N)) (pending : Pending)
    (result : RuntimeResult R) : prog ServerState (Result unit) :=
  do! _ := clear_disconnect callback in
  do! _ := count_result result in
  then! _ := or_release pending
    (on_session i (match result with
                   | Unexpected e => finish_error (ep_frontend ep) client_takes (map_runtime_error_to_api_error e)
                   | Value r => finish_success (ep_frontend ep) client_takes r
                   end)) in
  do! _ := on_chat (finalize_completion p pending (result_text result)) in Ret (Value ()).

(** [start_stream_completion], [start_stream_extraction]; the connection is the
    one the request came on, if it is still there. *)
Definition start_stream (connection : option N) (ready : bool) (result : RuntimeResult R)
    : prog ServerState (Result (Handled R)) :=
  do! i := new_stream in
  do! pending := on_chat (ep_start ep) in
  match pending with
  | Unexpected e => refuse e
  | Value pending =>
      then! _ := or_release pending (on_session i (set_metadata (ep_frontend ep) client_takes
        {| meta_id := pending_id pending; meta_created := pending_created pending;
           meta_model := pending_model pending |})) in
      then! _ := on_session i set_cancel_callback in
      if ready then
        match result with
        | Unexpected e => then! _ := answer pending result in Ret (Value Done)
        | Value r =>
            do! _ := count_result result in
            then! _ := or_release pending (on_session i (finish_success (ep_frontend ep) client_takes r)) in
            do! _ := on_chat (finalize_completion p pending (result_text result)) in
            do! _ := reply (EventStream i) in Ret (Value Done)
        end
      else
        do! callback := track_disconnect connection i (pending_request pending) in
        do! submitted := submit_background (pending_id pending) in
        match submitted with
        | Unexpected _ =>
            do! _ := destroy_closure pending in
            do! _ := clear_disconnect callback in moved_from_call
        | Value _ =>
            do! _ := reply (EventStream i) in
            Ret (Value (Continued (StreamTask i callback pending result)))
        end
  end.

(** The closure's body. *)
Definition run_continuation (task : Continuation R) : prog ServerState (Result unit) :=
  match task with
  | AnswerTask pending result => answer pending result
  | StreamTask i callback pending result => finish_stream i callback pending result
  end.
End Flow.

(** ** The entry points *)

Definition start_non_stream_completion (request : ChatCompletionRequest) (ready : bool)
    (result : RuntimeResult CompletionResult) : prog ServerState (Result (Handled CompletionResult)) :=
  start_non_stream (chat_endpoint request) ready result.

Definition start_stream_completion (connection : option N) (request : ChatCompletionRequest) (ready : bool)
    (result : RuntimeResult CompletionResult) : prog ServerState (Result (Handled CompletionResult)) :=
  start_stream (chat_endpoint request) connection ready result.

Definition start_non_stream_extraction (request : ExtractionRequest) (ready : bool)
    (result : RuntimeResult ExtractionResult) : prog ServerState (Result (Handled ExtractionResult)) :=
  start_non_stream (extraction_endpoint request) ready result.

Definition start_stream_extraction (connection : option N) (request : ExtractionRequest) (ready : bool)
    (result : RuntimeResult ExtractionResult) : prog ServerState (Result (Handled ExtractionResult)) :=
  start_stream (extraction_endpoint request) connection ready result.

(** [start_agent_chat] of api_routes.cpp. *)
Definition serve_agent_chat (request : AgentChatRequest) (ready : bool)
    (result : RuntimeResult CompletionResult) : prog ServerState (Result (Handled CompletionResult)) :=
  start_non_stream (agent_chat_endpoint request) ready result.
End Server.

(** ** A connection goes away *)

(** The callback [track_disconnect] registered. *)
Definition on_disconnect (callback : nat * N) : prog ServerState unit :=
  do! _ := on_session (fst callback) close in
  do! _ := on_chat (agent_call (AgentCancel (snd callback))) in
  on_metrics (increment StreamDisconnects).

(** The callback left [in_flight]. *)
Definition mark_run (id : N) (r : @DisconnectRegistry (nat * N)) : DisconnectRegistry :=
  match list_find (λ x, x.1 = id) (in_flight r) with
  | Some (n, _) => run_callback n r
  | None => r
  end.

Fixpoint run_callbacks (callbacks : list (N * (nat * N))) : prog ServerState unit :=
  match callbacks with
  | [] => Ret ()
  | (id, callback) :: callbacks =>
      do! _ := on_disconnect callback in
      do! _ := atomically (λ s, (with_registry (mark_run id (registry s)) s, ())) in
      run_callbacks callbacks
  end.

(** [handle_connection_event] of a connection that is gone. *)
Definition handle_disconnect (connection : N) : prog ServerState unit :=
  do! callbacks := atomically (λ s,
    (with_registry (take_section connection (registry s)) s,
     map_to_list (default ∅ (callbacks_ (registry s) !! connection)))) in
  run_callbacks callbacks.
Arguments ep_start {R}.
Arguments ep_text {R}.
Arguments ep_invocations {R}.
Arguments ep_response {R}.
Arguments ep_frontend {R}.
