(* ===== verification/ServerProofs.v ===== *)
(** * Properties of the request flows *)

From S2P Require Import Prelude Atomic ApiTypes SessionStore Executor Auth Metrics Json ApiJson.
From S2P Require Import Streaming StreamSession ZooAdapter ChatService ChatServiceProofs ToolSchema Config Registry Server.

(** ** Running a part inside the whole *)

Lemma run_lift_keeps {S T A B} (get : T → S) (put : S → T → T) (proj : T → B) (q : prog S A) t :
  (∀ x t, proj (put x t) = proj t) → proj (fst (run (lift get put q) t)) = proj t.
Proof.
  intros Hput. revert t. induction q as [r|C sec k IH]; intros t; cbn [lift run]; [done|].
  rewrite IH. apply Hput.
Qed.

Lemma run_on_chat {A} (q : prog ChatState A) s :
  run (on_chat q) s = (with_chat (fst (run q (chat_service_ s))) s, snd (run q (chat_service_ s))).
Proof. apply run_lift; [done|done|]. by intros []. Qed.

Lemma run_on_metrics {A} (q : prog ServerMetrics A) s :
  run (on_metrics q) s =
  (with_server_metrics (fst (run q (server_metrics s))) s, snd (run q (server_metrics s))).
Proof. apply run_lift; [done|done|]. by intros []. Qed.

Lemma run_on_session {A} i (q : prog StreamState A) : ∀ s st,
  stream_sessions s !! i = Some st →
  run (on_session i q) s =
  (with_sessions (<[i := fst (run q st)]> (stream_sessions s)) s, snd (run q st)).
Proof.
  induction q as [r|C sec k IH]; intros s st Hi; cbn [on_session lift run fst snd].
  - rewrite list_insert_id by done. by destruct s.
  - unfold lift_section. cbn [fst snd]. rewrite Hi. cbn [default from_option id]. cbv beta.
    set (s1 := with_sessions _ s). assert (stream_sessions s1 !! i = Some (fst (sec st))) as Hi1.
    { apply list_lookup_insert_eq. by eapply lookup_lt_Some. }
    pose proof (IH (snd (sec st)) s1 _ Hi1) as Hrun. unfold on_session in Hrun. rewrite Hrun. cbn.
    by rewrite list_insert_insert_eq.
Qed.

Lemma on_session_keeps {A B} (proj : ServerState → B) i (q : prog StreamState A) s :
  (∀ x s, proj (with_sessions x s) = proj s) → proj (fst (run (on_session i q) s)) = proj s.
Proof. intros Hproj. apply run_lift_keeps. intros x t. apply Hproj. Qed.

(** The executor takes no more tasks. *)
Definition refuses (s : ServerState) : Prop :=
  runtime_stopping s = true ∨ exec_stopping (continuation_executor_ s) = true ∨
  max_pending_tasks_ (continuation_executor_ s) ≤ length (tasks_ (continuation_executor_ s)).

Lemma run_submit task s :
  if runtime_stopping s || exec_stopping (continuation_executor_ s) ||
     bool_decide (max_pending_tasks_ (continuation_executor_ s) ≤ length (tasks_ (continuation_executor_ s)))
  then fst (run (submit_background task) s) = s ∧ ∃ m, snd (run (submit_background task) s) = Unexpected m
  else snd (run (submit_background task) s) = Value () ∧
       replies (fst (run (submit_background task) s)) = replies s ∧
       tasks_ (continuation_executor_ (fst (run (submit_background task) s))) =
         tasks_ (continuation_executor_ s) ++ [task].
Proof.
  unfold submit_background. rewrite run_atomically. unfold submit_section, submit.
  destruct (runtime_stopping s) eqn:Hr; [by split; [|eexists]|].
  destruct (exec_stopping _) eqn:He; cbn.
  { split; [|by eexists]. rewrite <-Hr. by destruct s. }
  case_bool_decide; cbn; [|done]. split; [|by eexists]. rewrite <-Hr. by destruct s.
Qed.

Lemma refuses_spec s :
  refuses s ↔ runtime_stopping s || exec_stopping (continuation_executor_ s) ||
    bool_decide (max_pending_tasks_ (continuation_executor_ s) ≤ length (tasks_ (continuation_executor_ s)))
    = true.
Proof. unfold refuses. rewrite !orb_true_iff, bool_decide_eq_true. tauto. Qed.

Lemma run_submit_refused task s : refuses s → ∃ m, run (submit_background task) s = (s, Unexpected m).
Proof.
  intros Href%refuses_spec. pose proof (run_submit task s) as Hsub. rewrite Href in Hsub.
  destruct Hsub as (Hs & m & Hm). exists m. destruct (run _ _) as [s1 o]. cbn in *. by subst.
Qed.

Section Flows.
Context `{ZooCore} `{JsonLib}.
Variable p : StoreConfig.
Variable client_takes : nat → bool.
Variable rq : nat.
Context {R : Type}.
Variable ep : Endpoint R.

(** [respond]: the client has the response, or nothing when building it threw. *)
Definition answered {A} (response : expected string HttpResponse) (a : A) (s s' : ServerState)
    (h : Result A) : Prop :=
  match response with
  | Value r => h = Value a ∧ replies s' = replies s ++ [(rq, Respond r)]
  | Unexpected what => h = Unexpected what ∧ replies s' = replies s
  end.

(** The response to the result of a request. *)
Definition response_to (pending : Pending) (result : RuntimeResult R) : expected string HttpResponse :=
  match result with
  | Unexpected e => make_error_response (map_runtime_error_to_api_error e)
  | Value r => ep_response ep (pending_id pending) (pending_created pending) (pending_model pending) r
  end.

Lemma run_respond response s :
  answered response () s (fst (run (respond rq response) s)) (snd (run (respond rq response) s)).
Proof.
  destruct response as [r|what]; [|by split]. unfold respond, reply.
  rewrite run_bind, run_bind, run_on_metrics. by split.
Qed.

Lemma answered_from {A} response (a : A) s0 s s' h :
  replies s = replies s0 → answered response a s s' h → answered response a s0 s' h.
Proof. unfold answered. intros Hr. by destruct response; rewrite Hr. Qed.

(** [respond] and then a value: the exception, if any, passes. *)
Lemma run_then_value {A} (response : expected string HttpResponse) (q : prog ServerState (Result unit)) (a : A) s :
  answered response () s (fst (run q s)) (snd (run q s)) →
  answered response a s (fst (run (then! _ := q in Ret (Value a)) s)) (snd (run (then! _ := q in Ret (Value a)) s)).
Proof.
  unfold try_prog. rewrite run_bind. unfold answered.
  destruct response; intros [Hh Hr]; rewrite Hh; by split.
Qed.

Lemma run_answer pending result s :
  answered (response_to pending result) () s (fst (run (answer p rq ep pending result) s))
    (snd (run (answer p rq ep pending result) s)).
Proof.
  unfold answer, count_result. rewrite run_bind, run_on_metrics, run_bind, run_on_chat. cbn [fst snd].
  unfold response_to, respond_error. by destruct result; (eapply answered_from; [|apply run_respond]).
Qed.

Lemma run_refuse e s :
  answered (make_error_response e) Done s (fst (run (refuse (R := R) rq e) s)) (snd (run (refuse (R := R) rq e) s)).
Proof.
  unfold refuse. rewrite run_bind. case_bool_decide; rewrite ?run_on_metrics; cbn [run fst snd].
  all: eapply answered_from; [|apply run_then_value, run_respond]; done.
Qed.

(** C9: Every request that is answered in one piece gets exactly one answer, unless the executor is
    full.  A request the service refuses is answered with that error; one whose result is there is
    answered with it; otherwise it is handed to the executor, nothing is sent, and the worker that
    runs the continuation, whatever happened in between, sends the answer.  The one answer that can
    be missing is one whose text cannot be built.  But when the executor refuses the continuation,
    the handler fails with a call of an empty function before it sends anything. *)
Theorem request_answered_once ready result s :
  let '(s', h) := run (start_non_stream p rq ep ready result) s in
  match snd (run (ep_start ep) (chat_service_ s)) with
  | Unexpected e => answered (make_error_response e) Done s s' h
  | Value pending =>
      if ready then answered (response_to pending result) Done s s' h
      else if decide (refuses s) then h = Unexpected bad_function_call ∧ replies s' = replies s
      else h = Value (Continued (AnswerTask pending result)) ∧ replies s' = replies s ∧
           ∀ later, let '(s'', h') := run (run_continuation p client_takes rq ep (AnswerTask pending result)) later in
                    answered (response_to pending result) () later s'' h'
  end.
Proof.
  unfold start_non_stream. rewrite run_bind, run_on_chat. cbn [fst snd].
  destruct (run (ep_start ep) (chat_service_ s)) as [c [pending|e]]; cbn [fst snd]; cycle 1.
  { pose proof (run_refuse e (with_chat c s)) as Hr.
    destruct (run _ _) as [s' h]. by eapply answered_from; [|exact Hr]. }
  destruct ready.
  { pose proof (run_then_value _ _ (Done (R := R)) _ (run_answer pending result (with_chat c s))) as Hr.
    destruct (run _ _) as [s' h]. by eapply answered_from; [|exact Hr]. }
  rewrite run_bind. pose proof (run_submit (pending_id pending) (with_chat c s)) as Hsub.
  destruct (run (submit_background _) _) as [s1 o] eqn:Hrun. cbn [fst snd] in *.
  destruct (decide (refuses s)) as [Href|Hacc].
  - assert (refuses (with_chat c s)) as Hyes by exact Href. apply refuses_spec in Hyes.
    rewrite Hyes in Hsub. destruct Hsub as (-> & m & ->).
    unfold destroy_closure, moved_from_call. rewrite run_bind, run_on_chat. by split.
  - assert (¬ refuses (with_chat c s)) as Hno by exact Hacc. rewrite refuses_spec in Hno.
    apply not_true_is_false in Hno. rewrite Hno in Hsub. destruct Hsub as (-> & Hrep & _).
    cbn [run]. split_and!; [done|done|]. intros later.
    pose proof (run_answer pending result later) as Hr. cbn [run_continuation].
    by destruct (run (answer p rq ep pending result) later).
Qed.

Lemma run_set_metadata m :
  snd (run (set_metadata (ep_frontend ep) client_takes m) new_session) = Value ().
Proof. done. Qed.

(** C18: When the executor is full, a request that was started is lost: for one-piece and streamed
    requests alike, the handler ends with an exception and sends nothing - in particular not the
    documented 503 "server_busy" - and the agent is not told to cancel the request, which goes on
    running for nobody; the session and the public id are released. *)
Theorem saturation_loses_request connection result s pending :
  snd (run (ep_start ep) (chat_service_ s)) = Value pending → refuses s →
  let started := fst (run (ep_start ep) (chat_service_ s)) in
  let released := fst (run (release_completion p pending) started) in
  agent_log released = agent_log started ∧
  (let '(s', h) := run (start_non_stream p rq ep false result) s in
   h = Unexpected bad_function_call ∧ replies s' = replies s ∧ chat_service_ s' = released) ∧
  (let '(s', h) := run (start_stream p client_takes rq ep connection false result) s in
   h = Unexpected bad_function_call ∧ replies s' = replies s ∧ chat_service_ s' = released).
Proof.
  intros Hstart Href. cbv zeta. split_and!.
  - unfold release_completion. rewrite run_bind. destruct (lease pending); [done|].
    rewrite run_bind. by rewrite ChatServiceProofs.run_on_store.
  - unfold start_non_stream. rewrite run_bind, run_on_chat. cbn [fst snd]. rewrite Hstart, run_bind.
    destruct (run_submit_refused (pending_id pending)
      (with_chat (fst (run (ep_start ep) (chat_service_ s))) s) Href) as [m ->].
    cbn [fst snd]. unfold destroy_closure, moved_from_call. by rewrite run_bind, run_on_chat.
  - unfold start_stream, new_stream. rewrite run_bind, run_atomically. cbn [fst snd].
    rewrite run_bind, run_on_chat. cbn [fst snd].
    change (chat_service_ (with_sessions _ s)) with (chat_service_ s). rewrite Hstart.
    set (s1 := with_chat _ _).
    assert (stream_sessions s1 !! length (stream_sessions s) = Some new_session) as Hnew
      by (cbn; by rewrite lookup_app_r, Nat.sub_diag by done).
    unfold try_prog, or_release. rewrite run_bind, run_bind, (run_on_session _ _ _ _ Hnew).
    cbn [fst snd]. rewrite run_set_metadata. cbn [run fst snd].
    rewrite run_bind. unfold set_cancel_callback.
    erewrite run_on_session by (cbn; by rewrite list_lookup_insert_eq
      by (rewrite length_app; cbn; lia)).
    cbn [prog_bind atomically run fst snd].
    match goal with |- context [run _ ?st] => set (s2 := st) end.
    assert (∃ s3 callback, run (track_disconnect connection (length (stream_sessions s))
      (pending_request pending)) s2 = (s3, callback) ∧ refuses s3 ∧ replies s3 = replies s ∧
      chat_service_ s3 = fst (run (ep_start ep) (chat_service_ s))) as (s3 & cb & Htrack & Href3 & Hrep & Hchat).
    { destruct connection as [c|]; cbn; (do 2 eexists); (split; [reflexivity|]);
        (split; [exact Href|by split]). }
    rewrite run_bind, Htrack, run_bind. cbn [fst snd].
    destruct (run_submit_refused (pending_id pending) s3 Href3) as [m ->]. cbn [fst snd].
    unfold destroy_closure, moved_from_call. rewrite run_bind, run_on_chat, Hchat. cbn [fst].
    rewrite run_bind. destruct cb as [[c id]|]; by cbn.
Qed.
End Flows.

(** ** A connection goes away *)

Definition closed (st : StreamState) : Prop := closing_ st = true ∧ stream_ st = false.

(** Every session still exists; those that were closed are, and so are those of [is]; nothing was
    sent on any. *)
Definition sessions_closed (ids : list nat) (s s' : ServerState) : Prop :=
  length (stream_sessions s') = length (stream_sessions s) ∧
  ∀ i st, stream_sessions s !! i = Some st →
    ∃ st', stream_sessions s' !! i = Some st' ∧ wire st' = wire st ∧ sends st' = sends st ∧
           (i ∈ ids ∨ closed st → closed st').

Lemma run_close st :
  let st' := fst (run close st) in closed st' ∧ wire st' = wire st ∧ sends st' = sends st.
Proof.
  unfold close. rewrite run_bind, run_atomically. unfold close_section, closed.
  destruct (closing_ st) eqn:Hc, (stream_ st) eqn:Hs; cbn; by rewrite ?Hc, ?Hs.
Qed.

Lemma sessions_closed_one i s s' :
  stream_sessions s' = stream_sessions (fst (run (on_session i close) s)) → is_Some (stream_sessions s !! i) →
  sessions_closed [i] s s'.
Proof.
  intros Hs' [st Hi]. rewrite (run_on_session _ _ _ _ Hi) in Hs'. cbn in Hs'.
  destruct (run_close st) as (Hc & Hw & Hn). unfold sessions_closed. rewrite Hs', length_insert.
  split; [done|]. intros j st' Hj. destruct (decide (j = i)) as [->|Hne].
  - simplify_eq. eexists. rewrite list_lookup_insert_eq by (by eapply lookup_lt_Some). by split_and!.
  - exists st'. rewrite list_lookup_insert_ne by done. split_and!; [done..|].
    intros [Hin%list_elem_of_singleton|]; done.
Qed.

Lemma sessions_closed_app ids ids' s s' s'' :
  sessions_closed ids s s' → sessions_closed ids' s' s'' → sessions_closed (ids ++ ids') s s''.
Proof.
  intros [Hl H1] [Hl' H2]. split; [by rewrite Hl'|]. intros i st Hi.
  destruct (H1 i st Hi) as (st' & Hi' & Hw & Hn & Hc). destruct (H2 i st' Hi') as (st'' & Hi'' & Hw' & Hn' & Hc').
  exists st''. split_and!; [done|congruence|congruence|]. rewrite elem_of_app. tauto.
Qed.

Lemma run_on_disconnect i request s :
  let s' := fst (run (on_disconnect (i, request)) s) in
  registry s' = registry s ∧ replies s' = replies s ∧
  agent_log (chat_service_ s') = agent_log (chat_service_ s) ++ [AgentCancel request] ∧
  server_metrics s' = bump StreamDisconnects (server_metrics s) ∧
  stream_sessions s' = stream_sessions (fst (run (on_session i close) s)).
Proof.
  unfold on_disconnect. cbn [fst snd].
  rewrite !run_bind, run_on_metrics, run_on_chat. cbn [fst snd registry replies with_server_metrics with_chat
    chat_service_ server_metrics stream_sessions agent_call atomically run increment agent_log with_agent].
  rewrite (on_session_keeps registry), (on_session_keeps replies), (on_session_keeps chat_service_),
    (on_session_keeps server_metrics) by done. done.
Qed.

Lemma callbacks_mark_run id r : callbacks_ (mark_run id r) = callbacks_ r.
Proof.
  unfold mark_run, run_callback. destruct (list_find _ _) as [[n x]|]; [|done].
  by destruct (in_flight r !! n) as [[]|].
Qed.

Lemma run_run_callbacks l : ∀ s,
  Forall (λ x : N * (nat * N), is_Some (stream_sessions s !! x.2.1)) l →
  let s' := fst (run (run_callbacks l) s) in
  callbacks_ (registry s') = callbacks_ (registry s) ∧ replies s' = replies s ∧
  agent_log (chat_service_ s') = agent_log (chat_service_ s) ++ ((λ x, AgentCancel x.2.2) <$> l) ∧
  server_metrics s' = Nat.iter (length l) (bump StreamDisconnects) (server_metrics s) ∧
  sessions_closed ((λ x, x.2.1) <$> l) s s'.
Proof.
  induction l as [|[id [i request]] l IH]; intros s Hl; cbn [run_callbacks].
  { split_and!; try done; [by rewrite app_nil_r|]. split; [done|]. intros j st Hj. exists st. split_and!; try done.
    intros [Hin|]; [by apply elem_of_nil in Hin|done]. }
  apply Forall_cons in Hl as [Hi Hl]. rewrite run_bind, run_bind.
  destruct (run_on_disconnect i request s) as (Hreg & Hrep & Hlog & Hmet & Hses).
  set (s1 := fst (run (on_disconnect _) s)) in *. cbn [run atomically fst snd].
  set (s2 := with_registry _ s1).
  assert (sessions_closed [i] s s2) as Hone by (by apply sessions_closed_one).
  destruct (IH s2) as (Hc' & Hr' & Hlog' & Hm' & Hs').
  { eapply Forall_impl; [exact Hl|]. intros x [st Hx]. destruct Hone as [_ Hone].
    destruct (Hone _ _ Hx) as (st' & ? & _). by exists st'. }
  cbv zeta. split_and!.
  - rewrite Hc'. cbn. by rewrite callbacks_mark_run, Hreg.
  - by rewrite Hr'.
  - rewrite Hlog'. cbn [chat_service_ s2 with_registry]. by rewrite Hlog, <-app_assoc.
  - rewrite Hm'. cbn [server_metrics s2 with_registry]. rewrite Hmet. cbn [length].
    by rewrite Nat.iter_succ_r.
  - exact (sessions_closed_app [i] _ _ _ _ Hone Hs').
Qed.

(** C19: When a client goes away, every stream it still had is stopped: the connection leaves the
    registry, each of its sessions is closed without a further frame, the agent is told to cancel
    each of their requests, once each, and the disconnects are counted; nothing is answered, and
    the other sessions are as closed as before. *)
Theorem disconnect_stops_streams connection inner s :
  callbacks_ (registry s) !! connection = Some inner →
  map_Forall (λ _ x, is_Some (stream_sessions s !! fst x)) inner →
  let s' := fst (run (handle_disconnect connection) s) in
  callbacks_ (registry s') = delete connection (callbacks_ (registry s)) ∧
  agent_log (chat_service_ s') =
    agent_log (chat_service_ s) ++ ((λ x, AgentCancel x.2.2) <$> map_to_list inner) ∧
  load StreamDisconnects (server_metrics s') =
    Nat.iter (size inner) u64_succ (load StreamDisconnects (server_metrics s)) ∧
  replies s' = replies s ∧
  sessions_closed ((λ x, x.2.1) <$> map_to_list inner) s s'.
Proof.
  intros Hinner Hall. unfold handle_disconnect. rewrite run_bind, run_atomically. cbn [fst snd].
  rewrite Hinner. cbn [default from_option id].
  set (s1 := with_registry _ s).
  destruct (run_run_callbacks (map_to_list inner) s1) as (Hc & Hr & Hlog & Hm & Hs).
  { by apply map_Forall_to_list in Hall; eapply Forall_impl; [exact Hall|]; intros []. }
  cbv zeta. split_and!; [|exact Hlog| |exact Hr|exact Hs].
  - rewrite Hc. cbn. unfold take_section. by rewrite Hinner.
  - rewrite Hm, length_map_to_list. cbn [server_metrics s1 with_registry].
    clear. induction (size inner) as [|n IH]; [done|]. by rewrite !Nat.iter_succ, <-IH.
Qed.

(** ** Witness *)

Module Witness.
Import ZooDemo SessionStoreProofs.Witness ChatServiceProofs.Race ChatServiceProofs.Witness.

#[local] Instance lib : JsonLib := {| json_parse _ := Unexpected "syntax error"; json_dump _ := Value "{}" |}.

(** One worker, and a queue of one that is full. *)
Definition full_executor : @ExecutorState string := fst (submit "chatcmpl-0" (new_executor 1 1)).

Definition saturated : ServerState :=
  {| chat_service_ := s0; server_metrics := new_metrics; continuation_executor_ := full_executor;
     runtime_stopping := false; registry := new_registry; stream_sessions := []; replies := [] |}.

Definition once_endpoint : Endpoint CompletionResult :=
  chat_endpoint cfg gen0 ids times (λ _, "succeeded") ask_once.

Definition once_pending : Pending :=
  {| pending_id := "chatcmpl-1"; pending_created := 0; pending_model := "local-model";
     pending_request := 1; on_result := NoObserver; lease := PublicOnly |}.

Lemma saturation_loses_request_witness :
  replies (fst (run (start_non_stream cfg 5 once_endpoint false (Unexpected (runtime_error RequestTimeout "late"))) saturated)) = [] ∧
  length (agent_log (chat_service_ (fst (run (start_non_stream cfg 5 once_endpoint false
    (Unexpected (runtime_error RequestTimeout "late"))) saturated)))) = 1.
Proof.
  pose proof (saturation_loses_request cfg (λ _, true) 5 once_endpoint None
    (Unexpected (runtime_error RequestTimeout "late")) saturated once_pending) as Hlost.
  destruct Hlost as (Hlog & Hone & _); [vm_compute; reflexivity|right; right; vm_compute; lia|].
  destruct (run (start_non_stream _ _ _ _ _) _) as [s' h]. destruct Hone as (_ & Hr & Hc).
  cbn [fst]. split; [exact Hr|]. rewrite Hc, Hlog. vm_compute. reflexivity.
Defined.

(** A client with one stream. *)
Definition streaming : ServerState :=
  {| chat_service_ := s0; server_metrics := new_metrics; continuation_executor_ := new_executor 1 1;
     runtime_stopping := false; registry := fst (track 7 (0, 1%N) new_registry);
     stream_sessions := [new_session]; replies := [] |}.

Lemma disconnect_stops_streams_witness :
  load StreamDisconnects (server_metrics (fst (run (handle_disconnect 7) streaming))) = 1%N.
Proof.
  pose proof (disconnect_stops_streams 7 {[1%N := (0, 1%N)]} streaming) as Hgone.
  destruct Hgone as (_ & _ & Hm & _); [vm_compute; reflexivity| |].
  - apply map_Forall_singleton. by eexists.
  - rewrite Hm. vm_compute. reflexivity.
Defined.
End Witness.
