(* ===== verification/RequestLife.v ===== *)
(** * What a generation request leaves behind

    A request that was started holds its public id, perhaps a session, and, when it
    is streamed, an entry of the disconnect registry.  Whatever way it ends - an
    answer, an error of the agent, an exception while a body or a frame is built, a
    full executor - nothing of that is left; while it is under way, what is held is
    what its continuation gives back, whenever that runs. *)

From S2P Require Import Prelude Atomic ApiTypes SessionStore Executor Metrics Json ApiJson.
From S2P Require Import SessionStoreProofs StreamSession ChatService ChatServiceProofs Config Registry Server ServerProofs.

(** Request [n] has the session [id]. *)
Definition holds_session (st : SessionStore) (id : string) (n : N) : Prop :=
  ∃ loc ss, sessions_ st !! id = Some loc ∧ heap st !! loc = Some ss ∧ ss_active_request ss = Some n.

(** Nothing of the request is left in the service. *)
Definition freed (pending : Pending) (s : ChatState) : Prop :=
  public_request_cancellers_ s !! pending_id pending = None ∧
  match lease pending with
  | PublicOnly => True
  | ReleaseSession id n => active_session_requests_ s !! id = None ∧ ¬ holds_session (session_store_ s) id n
  end.

Definition task_pending {R} (task : Continuation R) : Pending :=
  match task with AnswerTask pending _ => pending | StreamTask _ _ pending _ => pending end.

(** The entry of the disconnect registry that a task owns. *)
Definition task_callback {R} (task : Continuation R) : option (N * N) :=
  match task with AnswerTask _ _ => None | StreamTask _ callback _ _ => callback end.

(** The stream of a task is over. *)
Definition stream_over {R} (task : Continuation R) (s : ServerState) : Prop :=
  match task with
  | AnswerTask _ _ => True
  | StreamTask i _ _ _ => ∀ st, stream_sessions s !! i = Some st → closed st
  end.

Section Release.
Context `{ZooCore} `{JsonLib}.
Variable p : StoreConfig.

Lemma release_request_frees st id n : ¬ holds_session (fst (run (release_request p id n) st)) id n.
Proof.
  unfold release_request, find_section. cbn. intros (loc & ss & Hid & Hs & Ha).
  destruct (sessions_ st !! id) as [loc'|] eqn:Hl; cbn in *; [|congruence].
  unfold release_section, owns in *. destruct (heap st !! loc') as [ss'|] eqn:Hs'; cbn in *; [|congruence].
  case_bool_decide as Hn; cbn in *; [|congruence].
  assert (loc = loc') as -> by congruence.
  rewrite !list_lookup_alter_eq, Hs' in Hs. cbn in Hs. by simplify_eq.
Qed.

Lemma release_frees pending s : freed pending (fst (run (release_completion p pending) s)).
Proof.
  unfold release_completion, freed. rewrite run_bind. destruct (lease pending) as [|id n].
  - cbn. by rewrite lookup_delete_eq.
  - rewrite run_bind, run_on_store. cbn. rewrite !lookup_delete_eq. split; [done|]. split; [done|].
    apply release_request_frees.
Qed.

Lemma finalize_frees pending text s : freed pending (fst (run (finalize_completion p pending text) s)).
Proof. unfold finalize_completion. rewrite run_bind. apply release_frees. Qed.

Lemma destroy_frees pending s : freed pending (chat_service_ (fst (run (destroy_closure p pending) s))).
Proof. unfold destroy_closure. rewrite run_on_chat. apply release_frees. Qed.

Section Flow.
Variable client_takes : nat → bool.
Variable rq : nat.
Context {R : Type}.
Variable ep : Endpoint R.

(** [s'] has the service, the registry and the streams of [s]. *)
Definition same_parts (s s' : ServerState) : Prop :=
  chat_service_ s' = chat_service_ s ∧ registry s' = registry s ∧ stream_sessions s' = stream_sessions s.

Lemma respond_same response s : same_parts s (fst (run (respond rq response) s)).
Proof. destruct response as [r|what]; [|done]. unfold respond, reply. by rewrite !run_bind, run_on_metrics. Qed.

Lemma respond_error_same e s : same_parts s (fst (run (respond_error rq e) s)).
Proof. apply respond_same. Qed.

Lemma count_same result s : same_parts s (fst (run (count_result ep result) s)).
Proof. unfold count_result. by rewrite run_on_metrics. Qed.

Lemma answer_frees pending result s :
  let s' := fst (run (answer p rq ep pending result) s) in
  freed pending (chat_service_ s') ∧ registry s' = registry s ∧ stream_sessions s' = stream_sessions s.
Proof.
  cbv zeta. unfold answer. rewrite run_bind, run_bind, run_on_chat. cbn [fst snd].
  destruct (count_same result s) as (_ & Hr & Hs). set (s1 := fst (run (count_result ep result) s)) in *.
  set (s2 := with_chat _ s1).
  assert (freed pending (chat_service_ s2)) as Hf by apply finalize_frees.
  destruct result as [r|e].
  - destruct (respond_same (ep_response ep (pending_id pending) (pending_created pending) (pending_model pending) r) s2)
      as (-> & -> & ->). by split_and!.
  - destruct (respond_error_same (map_runtime_error_to_api_error e) s2) as (-> & -> & ->). by split_and!.
Qed.

Lemma clear_removes callback s :
  let s' := fst (run (clear_disconnect callback) s) in
  (∀ c id, callback = Some (c, id) → ¬ in_table (registry s') c id) ∧
  (∀ c id, in_table (registry s') c id → in_table (registry s) c id) ∧
  chat_service_ s' = chat_service_ s ∧ stream_sessions s' = stream_sessions s.
Proof.
  destruct callback as [[c id]|]; [|by split_and!]. cbn. split_and!; [| |done|done].
  - intros c' id' [= -> ->]. rewrite in_table_clear. tauto.
  - intros c' id'. rewrite in_table_clear. tauto.
Qed.

(** A session finished without an exception is closed. *)
Lemma finish_closes result st u :
  let q := match result with
           | Unexpected e => finish_error (ep_frontend ep) client_takes (map_runtime_error_to_api_error e)
           | Value r => finish_success (ep_frontend ep) client_takes r
           end in
  snd (run q st) = Value u → closed (fst (run q st)).
Proof.
  cbv zeta. destruct result as [r|e]; unfold finish_success, finish_error;
    rewrite run_bind, run_atomically;
    [destruct (success_section _ _ _ _) as [st1 [ds|what]]|destruct (error_section _ _ _ _) as [st1 [ds|what]]];
    cbn [fst snd run]; try done;
    intros _; rewrite run_bind, run_bind; cbn [run fst]; apply run_close.
Qed.

Lemma on_session_length {A} i (q : prog StreamState A) s :
  length (stream_sessions (fst (run (on_session i q) s))) = length (stream_sessions s).
Proof. apply (run_lift_keeps _ _ (λ s, length (stream_sessions s))). intros x t. apply length_insert. Qed.

(** ... wherever it lives. *)
Lemma closed_after i result s u s' st :
  run (on_session i (match result with
                     | Unexpected e => finish_error (ep_frontend ep) client_takes (map_runtime_error_to_api_error e)
                     | Value r => finish_success (ep_frontend ep) client_takes r
                     end)) s = (s', Value u) →
  stream_sessions s' !! i = Some st → closed st.
Proof.
  intros Hrun Hst. set (q := match result with Value _ => _ | Unexpected _ => _ end) in *.
  destruct (stream_sessions s !! i) as [st0|] eqn:Hi.
  - rewrite (run_on_session _ _ _ _ Hi) in Hrun. injection Hrun as <- Hu. cbn in Hst.
    rewrite list_lookup_insert_eq in Hst by (by eapply lookup_lt_Some). injection Hst as <-.
    by eapply finish_closes.
  - assert (length (stream_sessions s') = length (stream_sessions s)) as Hlen.
    { change s' with (fst (s', Value (E := string) u)). rewrite <-Hrun. apply on_session_length. }
    apply lookup_ge_None in Hi. apply lookup_lt_Some in Hst. lia.
Qed.

Lemma on_session_same i (q : prog StreamState (Result unit)) s :
  let s' := fst (run (on_session i q) s) in chat_service_ s' = chat_service_ s ∧ registry s' = registry s.
Proof. split; by apply on_session_keeps. Qed.

(** How a task ends, in whatever state it runs. *)
Record task_done (task : Continuation R) (later s' : ServerState) (r : Result unit) : Prop := {
  td_freed : freed (task_pending task) (chat_service_ s');
  td_callback c id : task_callback task = Some (c, id) → ¬ in_table (registry s') c id;
  td_others c id : in_table (registry s') c id → in_table (registry later) c id;
  td_stream : r = Value () → stream_over task s';
}.

Lemma or_release_parts {A} pending (q : prog ServerState (Result A)) s :
  registry (fst (run q s)) = registry s →
  let '(s', r) := run (or_release p pending q) s in
  registry s' = registry s ∧
  match r with Value a => run q s = (s', Value a) | Unexpected _ => freed pending (chat_service_ s') end.
Proof.
  intros Hq. unfold or_release. rewrite run_bind. destruct (run q s) as [s1 [a|what]] eqn:Hrun; cbn [fst snd run] in *; [done|].
  rewrite run_bind. cbn [run]. split; [|apply destroy_frees]. unfold destroy_closure. by rewrite run_on_chat.
Qed.

Lemma task_ends task later :
  task_done task later (fst (run (run_continuation p client_takes rq ep task) later))
    (snd (run (run_continuation p client_takes rq ep task) later)).
Proof.
  destruct task as [pending result|i callback pending result]; cbn [run_continuation].
  { destruct (answer_frees pending result later) as (Hf & Hr & _). split; [done|done| |done].
    intros c id. by rewrite Hr. }
  unfold finish_stream. rewrite run_bind.
  destruct (clear_removes callback later) as (Hgone & Hsub & _ & Hses).
  set (s1 := fst (run (clear_disconnect callback) later)) in *.
  rewrite run_bind. destruct (count_same result s1) as (_ & Hr2 & Hs2).
  set (s2 := fst (run (count_result ep result) s1)) in *. unfold try_prog. rewrite run_bind.
  set (q := on_session i _). assert (registry (fst (run q s2)) = registry s2) as Hq by apply on_session_same.
  pose proof (or_release_parts pending q s2 Hq) as Hor.
  destruct (run (or_release p pending q) s2) as [s3 [u|what]]; cbn [fst snd run]; destruct Hor as [Hr3 Hend].
  - rewrite run_bind, run_on_chat. cbn [run fst snd]. rewrite Hr2 in Hr3. split; cbn.
    + apply finalize_frees.
    + intros c id. rewrite Hr3. apply Hgone.
    + intros c id. rewrite Hr3. apply Hsub.
    + intros _ st Hst. eapply closed_after; [exact Hend|exact Hst].
  - rewrite Hr2 in Hr3. split; cbn; [done| | |done]; intros c id; rewrite Hr3; [apply Hgone|apply Hsub].
Qed.

(** What a handler leaves, having started [pending]. *)
Definition settled (pending : Pending) (s s' : ServerState) (h : Result (Handled R)) : Prop :=
  match h with
  | Value (Continued task) =>
      task_pending task = pending ∧
      ∀ c id, in_table (registry s') c id → in_table (registry s) c id ∨ task_callback task = Some (c, id)
  | _ => freed pending (chat_service_ s') ∧ ∀ c id, in_table (registry s') c id → in_table (registry s) c id
  end.

Lemma in_table_track_only c (f : nat * N) r c' id :
  in_table (fst (track c f r)) c' id → in_table r c' id ∨ (c, snd (track c f r)) = (c', id).
Proof.
  unfold in_table, track. cbn. intros (inner & Hl & Hi). destruct (decide (c' = c)) as [->|Hne].
  - rewrite lookup_insert_eq in Hl. injection Hl as <-.
    destruct (decide (id = next_callback_id_ r)) as [->|Hid]; [by right|left].
    assert (is_Some (default ∅ (callbacks_ r !! c) !! id)) as Hold.
    { destruct (default ∅ (callbacks_ r !! c) !! next_callback_id_ r); [done|]. by rewrite lookup_insert_ne in Hi. }
    destruct (callbacks_ r !! c) as [inner|]; [by exists inner|].
    destruct Hold as [x Hx]. by destruct (lookup_empty_Some id x).
  - rewrite lookup_insert_ne in Hl by done. left. by exists inner.
Qed.

Lemma then_done_settles pending (q : prog ServerState (Result unit)) s0 s :
  registry s = registry s0 →
  (let s' := fst (run q s) in freed pending (chat_service_ s') ∧ registry s' = registry s) →
  let q' : prog ServerState (Result (Handled R)) := then! _ := q in Ret (Value Done) in
  settled pending s0 (fst (run q' s)) (snd (run q' s)).
Proof.
  intros Hs0 [Hf Hr]. cbv zeta. unfold try_prog. rewrite run_bind. rewrite Hs0 in Hr.
  destruct (run q s) as [s' [u|what]]; cbn in *; (split; [done|]; intros c id; by rewrite Hr).
Qed.

Lemma submit_registry task s : registry (fst (run (submit_background task) s)) = registry s.
Proof.
  unfold submit_background. rewrite run_atomically. unfold submit_section. destruct (runtime_stopping s); [done|].
  by destruct (submit task _).
Qed.

Lemma non_stream_settles ready result s pending :
  snd (run (ep_start ep) (chat_service_ s)) = Value pending →
  settled pending s (fst (run (start_non_stream p rq ep ready result) s))
    (snd (run (start_non_stream p rq ep ready result) s)).
Proof.
  intros Hstart. unfold start_non_stream. rewrite run_bind, run_on_chat. cbn [fst snd]. rewrite Hstart.
  set (s1 := with_chat _ s). destruct ready.
  - apply then_done_settles; [done|]. by destruct (answer_frees pending result s1) as (? & ? & _).
  - rewrite run_bind. pose proof (submit_registry (pending_id pending) s1) as Hr.
    destruct (run (submit_background _) s1) as [s2 [u|e]]; cbn [fst snd] in *.
    + split; [done|]. intros c id. cbn [fst run]. rewrite Hr. by left.
    + rewrite run_bind. unfold moved_from_call. cbn [run fst snd]. split; [apply destroy_frees|].
      intros c id. unfold destroy_closure. rewrite run_on_chat. cbn. by rewrite Hr.
Qed.

(** The part of a stream after its metadata is set; [i] is its session. *)
Lemma stream_later_settles i connection result pending s :
  let q := do! callback := track_disconnect connection i (pending_request pending) in
           do! submitted := submit_background (pending_id pending) in
           match submitted with
           | Unexpected _ =>
               do! _ := destroy_closure p pending in
               do! _ := clear_disconnect callback in moved_from_call
           | Value _ =>
               do! _ := reply rq (EventStream i) in
               Ret (Value (Continued (StreamTask i callback pending result)))
           end in
  settled pending s (fst (run q s)) (snd (run q s)).
Proof.
  cbv zeta. rewrite run_bind.
  assert (∀ c id, in_table (registry (fst (run (track_disconnect connection i (pending_request pending)) s))) c id →
    in_table (registry s) c id ∨ snd (run (track_disconnect connection i (pending_request pending)) s) = Some (c, id)) as Htrack.
  { destruct connection as [c|]; [|by left]. intros c' id. cbn.
    intros [Hin|Heq]%(in_table_track_only c (i, pending_request pending)); [by left|right]. by rewrite <-Heq. }
  destruct (run (track_disconnect _ _ _) s) as [s1 callback]. cbn [fst snd] in *. rewrite run_bind.
  pose proof (submit_registry (pending_id pending) s1) as Hr.
  destruct (run (submit_background _) s1) as [s2 [u|e]]; cbn [fst snd] in *.
  - rewrite run_bind. unfold reply. rewrite run_bind, run_on_metrics. cbn [run fst snd].
    split; [done|]. intros c id. cbn. rewrite Hr. apply Htrack.
  - rewrite run_bind, run_bind. unfold moved_from_call. cbn [run fst snd].
    pose proof (destroy_frees pending s2) as Hf. set (s3 := fst (run (destroy_closure p pending) s2)) in *.
    assert (registry s3 = registry s1) as Hr3 by (unfold s3, destroy_closure; rewrite run_on_chat; exact Hr).
    destruct (clear_removes callback s3) as (Hgone & Hsub & Hchat & _).
    split; [by rewrite Hchat|]. intros c id Hin. pose proof (Hsub c id Hin) as H3. rewrite Hr3 in H3.
    destruct (Htrack c id H3) as [|Hcb]; [done|]. by destruct (Hgone c id Hcb).
Qed.

Lemma settled_from pending s0 s s' h : registry s = registry s0 → settled pending s s' h → settled pending s0 s' h.
Proof. intros Hr. unfold settled. by rewrite Hr. Qed.

Lemma try_settles {A} pending (q : prog ServerState (Result A)) (k : A → prog ServerState (Result (Handled R))) s :
  registry (fst (run q s)) = registry s →
  (∀ s1 a, registry s1 = registry s → settled pending s (fst (run (k a) s1)) (snd (run (k a) s1))) →
  let q' := then! a := or_release p pending q in k a in settled pending s (fst (run q' s)) (snd (run q' s)).
Proof.
  intros Hq Hk. cbv zeta. unfold try_prog. rewrite run_bind.
  pose proof (or_release_parts pending q s Hq) as Hor.
  destruct (run (or_release p pending q) s) as [s1 [a|what]]; cbn [fst snd run]; destruct Hor as [Hr Hend].
  - by apply Hk.
  - split; [done|]. intros c id. by rewrite Hr.
Qed.

Lemma run_set_cancel {B} i (k : prog ServerState (Result B)) s :
  run (then! _ := on_session i set_cancel_callback in k) s = run k (fst (run (on_session i set_cancel_callback) s)).
Proof. unfold try_prog. by rewrite run_bind. Qed.

Lemma stream_settles connection ready result s pending :
  snd (run (ep_start ep) (chat_service_ s)) = Value pending →
  settled pending s (fst (run (start_stream p client_takes rq ep connection ready result) s))
    (snd (run (start_stream p client_takes rq ep connection ready result) s)).
Proof.
  intros Hstart. unfold start_stream, new_stream. rewrite run_bind, run_atomically. cbn [fst snd].
  rewrite run_bind, run_on_chat. cbn [fst snd].
  change (chat_service_ (with_sessions _ s)) with (chat_service_ s). rewrite Hstart.
  set (i := length (stream_sessions s)). set (s1 := with_chat _ _). apply (settled_from _ _ s1); [done|].
  apply try_settles; [by apply on_session_same|]. intros s2 _ Hr2. apply (settled_from _ _ s2); [done|].
  rewrite run_set_cancel. set (s3 := fst (run (on_session i set_cancel_callback) s2)). apply (settled_from _ _ s3); [by apply on_session_same|].
  destruct ready; [destruct result as [r|e]|apply stream_later_settles].
  - rewrite run_bind. destruct (count_same (Value r) s3) as (_ & Hr4 & _).
    set (s4 := fst (run (count_result ep (Value r)) s3)) in *. apply (settled_from _ _ s4); [done|].
    apply try_settles; [by apply on_session_same|]. intros s5 _ Hr5.
    rewrite run_bind, run_on_chat, run_bind. unfold reply. rewrite run_bind, run_on_metrics. cbn [run fst snd].
    split; [apply finalize_frees|]. intros c id. cbn. by rewrite Hr5.
  - apply then_done_settles; [done|]. by destruct (answer_frees pending (Unexpected e) s3) as (? & ? & _).
Qed.
End Flow.

(** C11: No generation request leaves anything behind.  A handler that started a request, one-piece
    or streamed, either leaves it to a continuation, or has given back the public id, the session
    and its entry of the disconnect registry - after an answer, an error of the agent, an exception
    while a body or a frame is built, a full executor alike.  The continuation, run in whatever
    state the server is then - its client gone, the request cancelled, the session deleted -
    gives back all of it, and unless it threw the stream is closed; neither adds an entry for
    another connection. *)
Theorem generation_request_leaves_nothing {R} (client_takes : nat → bool) (rq : nat) (ep : Endpoint R)
    connection ready result s pending (streamed : bool) :
  snd (run (ep_start ep) (chat_service_ s)) = Value pending →
  let handler := if streamed then start_stream p client_takes rq ep connection ready result
                 else start_non_stream p rq ep ready result in
  let continuation task := run_continuation p client_takes rq ep task in
  settled pending s (fst (run handler s)) (snd (run handler s)) ∧
  ∀ task later, task_done task later (fst (run (continuation task) later)) (snd (run (continuation task) later)).
Proof.
  intros Hstart handler continuation. split; [|intros task later; apply task_ends].
  unfold handler. destruct streamed; [by apply stream_settles|by apply non_stream_settles].
Qed.
End Release.

(** ** Witness *)

Module Witness.
Import ServerProofs.Witness ZooDemo SessionStoreProofs.Witness ChatServiceProofs.Race ChatServiceProofs.Witness.
#[local] Existing Instance lib.

(** A streamed request on an idle server; the worker runs its continuation at once. *)
Definition flow : prog ServerState (Result (Handled CompletionResult)) :=
  start_stream cfg (λ _, true) 5 once_endpoint (Some 7%N) false (Unexpected (runtime_error RequestTimeout "late")).

Definition once_task : Continuation CompletionResult :=
  StreamTask 1 (Some (7%N, 2%N)) once_pending (Unexpected (runtime_error RequestTimeout "late")).

Lemma flow_run : snd (run flow streaming) = Value (Continued once_task).
Proof. vm_compute. reflexivity. Qed.

Definition later : ServerState := fst (run flow streaming).

Definition continuation : prog ServerState (Result unit) :=
  run_continuation cfg (λ _, true) 5 once_endpoint once_task.

Lemma once_started : snd (run (ep_start once_endpoint) (chat_service_ streaming)) = Value once_pending.
Proof. vm_compute. reflexivity. Qed.

Lemma generation_request_leaves_nothing_witness :
  snd (run flow streaming) = Value (Continued once_task) ∧
  task_done once_task later (fst (run continuation later)) (snd (run continuation later)).
Proof.
  destruct (generation_request_leaves_nothing cfg (λ _, true) 5 once_endpoint (Some 7%N) false
    (Unexpected (runtime_error RequestTimeout "late")) streaming once_pending true once_started) as [_ H].
  split; [exact flow_run|exact (H once_task later)].
Defined.
End Witness.
