(* ===== verification/Runtime.v ===== *)
(** * runtime.cpp, chat_service.cpp: creating and stopping the server

    [ServerRuntime::create] builds the command tools, the agent and the chat
    service; the agent is library code, known by what [create] and [register_tool]
    answer.  [Lifecycle] is the running server seen from [stop]: the reaper thread,
    the executor, the thread that stops them in order, as a step relation. *)

From S2P Require Import Prelude Atomic ApiTypes SessionStore Executor Metrics Json ApiJson.
From S2P Require Import ZooAdapter ChatService ToolSchema CommandTools Config Registry StreamSession Server.

(** ** Creation *)

(** [Agent::create] and [register_tool]: the text of the error, if any; a
    registration may depend on the tools the agent has. *)
Class ZooAgentLib : Type := {
  agent_create : ModelConfig → AgentConfig → GenerationOptions → option string;
  agent_register_tool : list ToolDefinition → ToolDefinition → option string;
}.

(** The agent remembers its prompt, when one was set, and its tools. *)
Record ConfiguredAgent : Type := {
  ca_agent_prompt : option string;
  ca_registered : list ToolDefinition;
  ca_request_system_prompt : string;
  ca_tool_definitions : list ToolDefinition;
}.

Section Create.
Context `{ZooCore} `{Filesystem} `{ZooAgentLib}.
(** [environ], at start-up. *)
Variable environ : list string.
Variable hardware_threads : nat.
Variable clock : nat → Z.

Fixpoint configure_tools (configured : ConfiguredAgent) (tools : list ToolDefinition)
    : Result ConfiguredAgent :=
  match tools with
  | [] => Value configured
  | tool :: tools =>
      match agent_register_tool (ca_registered configured) tool with
      | Some e => Unexpected ("Failed to register tool '" +:+ td_name tool +:+ "': " +:+ e)
      | None =>
          configure_tools
            {| ca_agent_prompt := ca_agent_prompt configured;
               ca_registered := ca_registered configured ++ [tool];
               ca_request_system_prompt := ca_request_system_prompt configured;
               ca_tool_definitions := ca_tool_definitions configured ++ [tool] |} tools
      end
  end.

Definition create_configured_agent (model : ModelConfig) (agent : AgentConfig) (gen : GenerationOptions)
    (prompt : string) (tools : list ToolDefinition) : Result ConfiguredAgent :=
  match agent_create model agent gen with
  | Some e => Unexpected ("Failed to create zoo::Agent: " +:+ e)
  | None =>
      configure_tools
        {| ca_agent_prompt := if is_empty prompt then None else Some prompt; ca_registered := [];
           ca_request_system_prompt := prompt; ca_tool_definitions := [] |} tools
  end.

(** [record_tool_trace = true] when there are tools. *)
Definition traced (gen : GenerationOptions) (has_tools : bool) : GenerationOptions :=
  if has_tools then {| sampling := sampling gen; go_max_tokens := go_max_tokens gen;
                       stop_sequences := stop_sequences gen; go_record_tool_trace := true |}
  else gen.

(** The members of [ZooChatService] that its constructor fixes, and its state. *)
Record ChatServiceParts : Type := {
  cs_store_config : StoreConfig;
  cs_generation : GenerationOptions;
  cs_tools : list ToolDefinition;
  cs_agent : ConfiguredAgent;
  cs_state : ChatState;
}.

(** [SessionStore]'s [max_history_messages] is a [size_t]. *)
Definition store_config (c : ServerConfig) : StoreConfig :=
  {| model_id_ := model_id c; config_ := sessions c;
     max_history_messages_ := Z.to_nat (to_uint64 (ac_max_history_messages (agent_config c)));
     clock_ := clock |}.

(** [ZooChatService::create]. *)
Definition create_chat_service (c : ServerConfig) (tools : list ToolDefinition) : Result ChatServiceParts :=
  let gen := traced (default_generation c) (negb (bool_decide (tools = []))) in
  try! shared := create_configured_agent (model_config c) (agent_config c) gen (system_prompt c) tools in
  Value {| cs_store_config := store_config c; cs_generation := gen;
           cs_tools := ca_tool_definitions shared; cs_agent := shared;
           cs_state := new_service (ca_request_system_prompt shared) |}.

Record ServerRuntime : Type := {
  rt_config : ServerConfig;
  rt_chat : ChatServiceParts;
  rt_commands : list PreparedCommandTool;
  rt_reaper : bool;               (* the reaper thread is started *)
  rt_state : ServerState;
}.

(** The constructor. *)
Definition new_runtime (c : ServerConfig) (chat : ChatServiceParts) (commands : list PreparedCommandTool)
    : ServerRuntime :=
  {| rt_config := c; rt_chat := chat; rt_commands := commands; rt_reaper := enabled (sessions c);
     rt_state :=
       {| chat_service_ := cs_state chat; server_metrics := new_metrics;
          continuation_executor_ :=
            new_executor (continuation_worker_count hardware_threads) (N.to_nat (continuation_queue_depth c));
          runtime_stopping := false; registry := new_registry; stream_sessions := []; replies := [] |} |}.

(** [ServerRuntime::create]. *)
Definition create_runtime (c : ServerConfig) : Result ServerRuntime :=
  try! provider := make_command_tool_provider environ (Config.tools c) in
  try! chat := create_chat_service c provider.*1 in
  Value (new_runtime c chat provider.*2).
End Create.

(** ** [stop] and the reaper thread *)

(** Where the reaper is in [run_session_reaper]. *)
Inductive Reaper : Type :=
| NoReaper                 (* sessions are disabled *)
| ReaperChecking           (* holds the lock, tests [stopping_] *)
| ReaperParked             (* in [reaper_cv_.wait_for] *)
| ReaperReaping            (* in [reap_sessions] *)
| ReaperExited.

(** Where the caller of [stop] is that set [stopping_]. *)
Inductive Stopper : Type :=
| Notifying | JoiningReaper | StoppingExecutor | JoiningWorkers | StoppingChat | StopReturned.

Inductive LifeEvent : Type := SessionsReaped | ChatStopped.

#[export] Instance LifeEvent_eq_dec : EqDecision LifeEvent.
Proof. solve_decision. Defined.

Section Lifecycle.
Context {Task : Type}.

Record Lifecycle : Type := {
  lc_stopping : bool;
  lc_reaper : Reaper;
  lc_executor : @ExecutorState Task;
  lc_stopper : option Stopper;
  lc_log : list LifeEvent;
}.

Definition with_reaper (r : Reaper) (s : Lifecycle) : Lifecycle :=
  {| lc_stopping := lc_stopping s; lc_reaper := r; lc_executor := lc_executor s;
     lc_stopper := lc_stopper s; lc_log := lc_log s |}.

Definition with_pool (e : ExecutorState) (s : Lifecycle) : Lifecycle :=
  {| lc_stopping := lc_stopping s; lc_reaper := lc_reaper s; lc_executor := e;
     lc_stopper := lc_stopper s; lc_log := lc_log s |}.

Definition with_stopper (p : Stopper) (s : Lifecycle) : Lifecycle :=
  {| lc_stopping := lc_stopping s; lc_reaper := lc_reaper s; lc_executor := lc_executor s;
     lc_stopper := Some p; lc_log := lc_log s |}.

Definition logged (e : LifeEvent) (s : Lifecycle) : Lifecycle :=
  {| lc_stopping := lc_stopping s; lc_reaper := lc_reaper s; lc_executor := lc_executor s;
     lc_stopper := lc_stopper s; lc_log := lc_log s ++ [e] |}.

Definition new_lifecycle (sessions_enabled : bool) (workers depth : nat) : Lifecycle :=
  {| lc_stopping := false; lc_reaper := if sessions_enabled then ReaperChecking else NoReaper;
     lc_executor := new_executor workers depth; lc_stopper := None; lc_log := [] |}.

(** The reaper holds the lock and tests the predicate of [wait_for]: true, the loop
    breaks; false, it waits. *)
Definition reaper_check (s : Lifecycle) : Lifecycle :=
  with_reaper (if lc_stopping s then ReaperExited else ReaperParked) s.

(** The minute is over: [wait_for] returns the predicate. *)
Definition reaper_timeout (s : Lifecycle) : Lifecycle :=
  with_reaper (if lc_stopping s then ReaperExited else ReaperReaping) s.

Definition reaper_reap (s : Lifecycle) : Lifecycle := logged SessionsReaped (with_reaper ReaperChecking s).

(** [stop]'s block: the second call returns at once. *)
Definition call_stop (s : Lifecycle) : Lifecycle :=
  if lc_stopping s then s
  else {| lc_stopping := true; lc_reaper := lc_reaper s; lc_executor := lc_executor s;
          lc_stopper := Some Notifying; lc_log := lc_log s |}.

Definition unpark_reaper (r : Reaper) : Reaper := match r with ReaperParked => ReaperChecking | _ => r end.

Definition reaper_gone (r : Reaper) : Prop := r = NoReaper ∨ r = ReaperExited.

(** [submit_background]. *)
Definition lifecycle_submit (task : Task) (s : Lifecycle) : Lifecycle * Result unit :=
  if lc_stopping s then (s, Unexpected "Server runtime is stopping")
  else let '(e, r) := submit task (lc_executor s) in (with_pool e s, r).

(** The threads of the server. *)
Inductive life_step : relation Lifecycle :=
| ls_check s : lc_reaper s = ReaperChecking → life_step s (reaper_check s)
| ls_reap s : lc_reaper s = ReaperReaping → life_step s (reaper_reap s)
| ls_pool s e : internal_step (lc_executor s) e → life_step s (with_pool e s)
| ls_notify s :
    lc_stopper s = Some Notifying →
    life_step s (with_stopper JoiningReaper (with_reaper (unpark_reaper (lc_reaper s)) s))
| ls_joined_reaper s :
    lc_stopper s = Some JoiningReaper → reaper_gone (lc_reaper s) →
    life_step s (with_stopper StoppingExecutor s)
| ls_stop_executor s :
    lc_stopper s = Some StoppingExecutor →
    life_step s (with_stopper JoiningWorkers (with_pool (stop_begin (lc_executor s)) s))
| ls_joined_workers s :
    lc_stopper s = Some JoiningWorkers → all_exited (lc_executor s) →
    life_step s (with_stopper StoppingChat s)
| ls_stop_chat s :
    lc_stopper s = Some StoppingChat → life_step s (with_stopper StopReturned (logged ChatStopped s)).

(** The clock, spurious wake-ups, requests, and the callers of [stop]. *)
Inductive world_step : relation Lifecycle :=
| ws_timeout s : lc_reaper s = ReaperParked → world_step s (reaper_timeout s)
| ws_spurious s : lc_reaper s = ReaperParked → world_step s (with_reaper ReaperChecking s)
| ws_worker s i :
    workers_ (lc_executor s) !! i = Some Parked →
    world_step s (with_pool (with_workers (<[i := Ready]> (workers_ (lc_executor s))) (lc_executor s)) s)
| ws_submit s task : world_step s (fst (lifecycle_submit task s))
| ws_stop s : world_step s (call_stop s).

Definition lifecycle_step : relation Lifecycle := λ s s', life_step s s' ∨ world_step s s'.

Definition lifecycle_reachable (enabled : bool) (workers depth : nat) : Lifecycle → Prop :=
  rtc lifecycle_step (new_lifecycle enabled workers depth).

(** ** Invariant *)

(** How far [stop] is. *)
Definition stage (s : Lifecycle) : nat :=
  match lc_stopper s with
  | None => 0 | Some Notifying => 1 | Some JoiningReaper => 2 | Some StoppingExecutor => 3
  | Some JoiningWorkers => 4 | Some StoppingChat => 5 | Some StopReturned => 6
  end.

Record lifecycle_wf (s : Lifecycle) : Prop := {
  lw_pool : exec_wf (lc_executor s);
  lw_stopping : lc_stopping s = bool_decide (1 ≤ stage s);
  lw_notified : 2 ≤ stage s → lc_reaper s ≠ ReaperParked;
  lw_reaper : 3 ≤ stage s → reaper_gone (lc_reaper s);
  lw_executor : exec_stopping (lc_executor s) = bool_decide (4 ≤ stage s);
  lw_workers : 5 ≤ stage s → all_exited (lc_executor s);
  lw_log : if decide (stage s = 6) then ∃ l, lc_log s = l ++ [ChatStopped] ∧ ChatStopped ∉ l
           else ChatStopped ∉ lc_log s;
}.

Lemma all_exited_no_step (e e' : @ExecutorState Task) :
  internal_step e e' → all_exited e → all_exited e'.
Proof.
  unfold all_exited. intros Hstep Hall.
  assert (∀ i w, workers_ e !! i = Some w → w = Exited) as Hex
    by (intros i w Hi; symmetry; by eapply Forall_lookup_1 in Hall).
  destruct Hstep as [e i Hi|e i task Hi|e i n _ Hi|e n _ _|e _]; try (by apply Hex in Hi); [done|].
  cbn. apply Forall_fmap. eapply Forall_impl; [exact Hall|]. by intros w <-.
Qed.

Lemma new_lifecycle_wf enabled workers depth : lifecycle_wf (new_lifecycle enabled workers depth).
Proof.
  split; cbn; try done; try lia; [apply new_executor_wf|]. by intros []%elem_of_nil.
Qed.

Ltac wf_fields Hwf := destruct Hwf as [Hpool Hstopping Hnotified Hreaper Hexec Hworkers Hlog].

(** A step of the pool or of its clients. *)
Lemma with_pool_wf s e :
  lifecycle_wf s → exec_wf e → exec_stopping e = exec_stopping (lc_executor s) →
  (5 ≤ stage s → all_exited e) → lifecycle_wf (with_pool e s).
Proof. intros Hwf He Hs Hall. wf_fields Hwf. split; try done. cbn. by rewrite Hs. Qed.

(** A move of the reaper while it is not gone. *)
Lemma with_reaper_wf s r :
  lifecycle_wf s → ¬ reaper_gone (lc_reaper s) → (r = ReaperParked → lc_stopping s = false) →
  lifecycle_wf (with_reaper r s).
Proof.
  intros Hwf Hr Hp. wf_fields Hwf. split; try done.
  - intros Hst Heq. change (2 ≤ stage s) in Hst. specialize (Hp Heq). rewrite Hstopping in Hp.
    apply bool_decide_eq_false in Hp. lia.
  - intros Hst. by destruct (Hr (Hreaper Hst)).
Qed.

Lemma logged_wf s : lifecycle_wf s → stage s ≠ 6 → lifecycle_wf (logged SessionsReaped s).
Proof.
  intros Hwf Hne. wf_fields Hwf. split; try done. change (stage (logged _ s)) with (stage s).
  rewrite decide_False in Hlog |- * by done. cbn. rewrite elem_of_app, list_elem_of_singleton. by intros [|].
Qed.

Lemma reaper_present_stage s : lifecycle_wf s → ¬ reaper_gone (lc_reaper s) → stage s < 3.
Proof. intros Hwf Hr. wf_fields Hwf. destruct (decide (3 ≤ stage s)) as [Hst|]; [|lia]. by destruct (Hr (Hreaper Hst)). Qed.

Lemma life_step_wf s s' : life_step s s' → lifecycle_wf s → lifecycle_wf s'.
Proof.
  intros Hstep Hwf. destruct Hstep as [s Hr|s Hr|s e He|s Hst|s Hst Hr|s Hst|s Hst Hall|s Hst].
  - apply with_reaper_wf; [done| |by destruct (lc_stopping s)]. rewrite Hr. by intros [|].
  - assert (¬ reaper_gone (lc_reaper s)) as Hn by (rewrite Hr; by intros [|]).
    pose proof (reaper_present_stage s Hwf Hn). apply logged_wf; [by apply with_reaper_wf|].
    change (stage (with_reaper _ s)) with (stage s). lia.
  - destruct (internal_step_accepted _ _ He) as [_ Hs].
    apply with_pool_wf; [done|by eapply internal_step_wf, lw_pool|done|].
    intros Hst. eapply all_exited_no_step; [done|by apply lw_workers].
  - wf_fields Hwf. unfold stage in *. rewrite Hst in *. split; cbn; try done; try lia.
    intros _. by destruct (lc_reaper s).
  - wf_fields Hwf. unfold stage in *. rewrite Hst in *. split; cbn; try done; try lia.
    intros _. apply Hnotified. lia.
  - wf_fields Hwf. unfold stage in *. rewrite Hst in *. split; cbn; try done; try lia.
    + by eapply external_step_wf; [apply xs_stop|].
    + intros _. apply Hnotified. lia.
    + intros _. apply Hreaper. lia.
    + unfold stop_begin. by destruct (exec_stopping _) eqn:?.
  - wf_fields Hwf. unfold stage in *. rewrite Hst in *. split; cbn; try done; try lia.
    + intros _. apply Hnotified. lia.
    + intros _. apply Hreaper. lia.
  - wf_fields Hwf. unfold stage in *. rewrite Hst in *. split; cbn; try done; try lia.
    + intros _. apply Hnotified. lia.
    + intros _. apply Hreaper. lia.
    + intros _. apply Hworkers. lia.
    + by eexists.
Qed.

Lemma world_step_wf s s' : world_step s s' → lifecycle_wf s → lifecycle_wf s'.
Proof.
  intros Hstep Hwf. destruct Hstep as [s Hr|s Hr|s i Hi|s task|s].
  - apply with_reaper_wf; [done| |by destruct (lc_stopping s)]. rewrite Hr. by intros [|].
  - apply with_reaper_wf; [done| |by intros ?]. rewrite Hr. by intros [|].
  - apply with_pool_wf; [done|by eapply external_step_wf; [apply xs_spurious|apply lw_pool]|done|].
    intros Hst. pose proof (lw_workers s Hwf Hst) as Hall.
    eapply Forall_lookup_1 in Hi; [|exact Hall]. done.
  - unfold lifecycle_submit. destruct (lc_stopping s) eqn:Hs; [done|].
    pose proof (lw_stopping s Hwf) as Hst. rewrite Hs in Hst. symmetry in Hst. apply bool_decide_eq_false in Hst.
    destruct (submit task (lc_executor s)) as [e r] eqn:He. cbn [fst].
    change e with (fst (e, r)). rewrite <-He. apply with_pool_wf; [done| | |lia].
    + by eapply external_step_wf; [apply xs_submit|apply lw_pool].
    + unfold submit. destruct (exec_stopping (lc_executor s)) eqn:Hes; [done|]. by case_bool_decide; rewrite ?Hes.
  - unfold call_stop. destruct (lc_stopping s) eqn:Hs; [done|]. wf_fields Hwf.
    rewrite Hs in Hstopping. symmetry in Hstopping. apply bool_decide_eq_false in Hstopping.
    assert (stage s = 0) as H0 by lia. rewrite H0 in *. split; cbn; try done; try lia.
Qed.

Lemma lifecycle_reachable_wf enabled workers depth s :
  lifecycle_reachable enabled workers depth s → lifecycle_wf s.
Proof.
  unfold lifecycle_reachable. intros H.
  assert (∀ s s', rtc lifecycle_step s s' → lifecycle_wf s → lifecycle_wf s') as Hsteps.
  { induction 1 as [|s1 s2 s3 [Hl|Hw] _ IH]; eauto using life_step_wf, world_step_wf. }
  eapply Hsteps; [exact H|apply new_lifecycle_wf].
Qed.

(** ** Progress of [stop] *)

Definition reaper_weight (r : Reaper) : nat :=
  match r with ReaperReaping => 2 | ReaperChecking => 1 | _ => 0 end.

(** [n] workers are woken when the executor is stopped. *)
Definition stop_weight (n : nat) (p : option Stopper) : nat :=
  match p with
  | None | Some StopReturned => 0
  | Some StoppingChat => 1 | Some JoiningWorkers => 2 | Some StoppingExecutor => 4 + n
  | Some JoiningReaper => 5 + n | Some Notifying => 7 + n
  end.

(** Bounds the steps the threads can make without the world. *)
Definition life_measure (s : Lifecycle) : nat :=
  exec_measure (lc_executor s) + reaper_weight (lc_reaper s) +
  stop_weight (length (workers_ (lc_executor s))) (lc_stopper s).

Lemma stop_begin_measure (e : @ExecutorState Task) :
  exec_measure (stop_begin e) ≤ exec_measure e + S (length (workers_ e)) ∧
  length (workers_ (stop_begin e)) = length (workers_ e).
Proof.
  unfold stop_begin, exec_measure. destruct (exec_stopping e); cbn; [lia|].
  destruct (notify_all_pending e); lia.
Qed.

Lemma life_step_measure s s' : life_step s s' → life_measure s' < life_measure s.
Proof.
  intros Hstep. unfold life_measure. destruct Hstep as [s Hr|s Hr|s e He|s Hst|s Hst Hr|s Hst|s Hst Hall|s Hst];
    cbn [lc_executor lc_reaper lc_stopper reaper_check reaper_reap logged with_reaper with_pool with_stopper].
  - rewrite Hr. destruct (lc_stopping s); cbn; lia.
  - rewrite Hr. cbn. lia.
  - pose proof (internal_step_measure _ _ He). destruct (exec_step_sizes _ _ (or_introl He)) as [-> _]. lia.
  - rewrite Hst. destruct (lc_reaper s); cbn; lia.
  - rewrite Hst. cbn. lia.
  - rewrite Hst. destruct (stop_begin_measure (lc_executor s)) as [? ->]. cbn [stop_weight]. lia.
  - rewrite Hst. cbn. lia.
  - rewrite Hst. cbn. lia.
Qed.

Lemma life_nsteps_measure n s s' : nsteps life_step n s s' → n + life_measure s' ≤ life_measure s.
Proof.
  induction 1 as [|n s1 s2 s3 Hstep _ IH]; [lia|]. pose proof (life_step_measure _ _ Hstep). lia.
Qed.

(** While [stop] is under way some thread can move. *)
Lemma stop_not_stuck s :
  lifecycle_wf s → 1 ≤ stage s → stage s ≠ 6 → ∃ s', life_step s s'.
Proof.
  intros Hwf H1 H6. unfold stage in *. destruct (lc_stopper s) as [p|] eqn:Hst; [|lia].
  destruct p; try (eexists; first [by apply ls_notify|by apply ls_stop_executor|by apply ls_stop_chat]); try lia.
  - destruct (lc_reaper s) eqn:Hr.
    + eexists. apply ls_joined_reaper; [done|by left].
    + eexists. by apply ls_check.
    + destruct (lw_notified s Hwf); [unfold stage; rewrite Hst; lia|done].
    + eexists. by apply ls_reap.
    + eexists. apply ls_joined_reaper; [done|by right].
  - destruct (decide (all_exited (lc_executor s))); [eexists; by apply ls_joined_workers|].
    destruct (exec_not_stuck (lc_executor s)) as [e He]; [apply Hwf| |eexists; by apply ls_pool].
    right. right. split; [|done]. rewrite (lw_executor s Hwf). apply bool_decide_eq_true.
    unfold stage. rewrite Hst. lia.
Qed.

Lemma life_step_stopping s s' : life_step s s' → lc_stopping s' = lc_stopping s.
Proof. by destruct 1. Qed.

Lemma life_step_accepted s s' : life_step s s' → accepted (lc_executor s') = accepted (lc_executor s).
Proof.
  destruct 1 as [| |s e He| | |s _| |]; try done; [by apply internal_step_accepted|].
  cbn. unfold stop_begin. by destruct (exec_stopping _).
Qed.
End Lifecycle.

(** ** Theorems *)

Section CreateTheorems.
Context `{ZooCore} `{Filesystem} `{ZooAgentLib}.

(** The tools are registered in order, each with the earlier ones in place; the first
    that is refused ends the configuration. *)
Lemma configure_tools_spec (tools : list ToolDefinition) (configured : ConfiguredAgent) :
  match configure_tools configured tools with
  | Value a =>
      (∀ i d, tools !! i = Some d → agent_register_tool (ca_registered configured ++ take i tools) d = None) ∧
      ca_registered a = ca_registered configured ++ tools ∧
      ca_tool_definitions a = ca_tool_definitions configured ++ tools ∧
      ca_agent_prompt a = ca_agent_prompt configured ∧
      ca_request_system_prompt a = ca_request_system_prompt configured
  | Unexpected msg =>
      ∃ i d e, tools !! i = Some d ∧ agent_register_tool (ca_registered configured ++ take i tools) d = Some e ∧
        (∀ j d', j < i → tools !! j = Some d' →
           agent_register_tool (ca_registered configured ++ take j tools) d' = None) ∧
        msg = "Failed to register tool '" +:+ td_name d +:+ "': " +:+ e
  end.
Proof.
  revert configured. induction tools as [|tool tools IH]; intros configured; cbn [configure_tools].
  { by rewrite !app_nil_r. }
  destruct (agent_register_tool (ca_registered configured) tool) as [e|] eqn:Hreg.
  { exists 0, tool, e. cbn. rewrite app_nil_r. split; [done|]. split; [done|]. split; [lia|done]. }
  match goal with |- context [configure_tools ?c tools] => specialize (IH c) end.
  destruct (configure_tools _ tools) as [a|msg]; cbn in IH.
  - destruct IH as (Hall & -> & -> & -> & ->). rewrite <-!app_assoc. split; [|done].
    intros [|i] d Hd; cbn in *; [simplify_eq; by rewrite app_nil_r|].
    specialize (Hall i d Hd). by rewrite <-app_assoc in Hall.
  - destruct IH as (i & d & e & Hd & He & Hall & ->). rewrite <-app_assoc in He.
    exists (S i), d, e. split; [done|]. split; [done|]. split; [|done].
    intros [|j] d' Hj Hd'; cbn in *; [simplify_eq; by rewrite app_nil_r|].
    specialize (Hall j d' ltac:(lia) Hd'). by rewrite <-app_assoc in Hall.
Qed.

Lemma worker_count_bounds hardware_threads : 2 ≤ continuation_worker_count hardware_threads ≤ 4.
Proof. unfold continuation_worker_count. case_decide; lia. Qed.

Lemma queue_depth_bound c : 32 ≤ N.to_nat (continuation_queue_depth c).
Proof. unfold continuation_queue_depth. lia. Qed.

(** C17: The server starts exactly when every command tool can be prepared, the agent can be
    created and accepts the tools one after the other; otherwise the message is that of the
    first failure. A server that started publishes, and its agent has, exactly the configured
    tools in their order, traces tool calls when it has any, uses the configured prompt, runs
    2 to 4 workers over a queue of at least 32 places and reaps sessions exactly when sessions
    are enabled; its history is the prompt, and no session, request or stream exists yet. *)
Theorem runtime_created_exact environ hardware_threads clock c :
  match create_runtime environ hardware_threads clock c with
  | Value r =>
      (∃ provider,
        make_command_tool_provider environ (Config.tools c) = Value provider ∧
        agent_create (model_config c) (agent_config c) (cs_generation (rt_chat r)) = None ∧
        (∀ i d, provider.*1 !! i = Some d → agent_register_tool (take i provider.*1) d = None) ∧
        rt_commands r = provider.*2 ∧
        cs_tools (rt_chat r) = provider.*1 ∧
        ca_registered (cs_agent (rt_chat r)) = provider.*1 ∧
        go_record_tool_trace (cs_generation (rt_chat r)) =
          go_record_tool_trace (default_generation c) || negb (bool_decide (provider = []))) ∧
      (if decide (system_prompt c = "")
       then ca_agent_prompt (cs_agent (rt_chat r)) = None ∧ agent_history_ (chat_service_ (rt_state r)) = []
       else ca_agent_prompt (cs_agent (rt_chat r)) = Some (system_prompt c) ∧
            agent_history_ (chat_service_ (rt_state r)) = [msg_system (system_prompt c)]) ∧
      2 ≤ length (workers_ (continuation_executor_ (rt_state r))) ≤ 4 ∧
      32 ≤ max_pending_tasks_ (continuation_executor_ (rt_state r)) ∧
      tasks_ (continuation_executor_ (rt_state r)) = [] ∧
      rt_reaper r = enabled (sessions c) ∧
      sessions_ (session_store_ (chat_service_ (rt_state r))) = ∅ ∧
      stream_sessions (rt_state r) = [] ∧ replies (rt_state r) = []
  | Unexpected e =>
      make_command_tool_provider environ (Config.tools c) = Unexpected e ∨
      ∃ provider gen, make_command_tool_provider environ (Config.tools c) = Value provider ∧
        gen = traced (default_generation c) (negb (bool_decide (provider.*1 = []))) ∧
        ((∃ e', agent_create (model_config c) (agent_config c) gen = Some e' ∧
                e = "Failed to create zoo::Agent: " +:+ e') ∨
         (agent_create (model_config c) (agent_config c) gen = None ∧
          ∃ i d e', provider.*1 !! i = Some d ∧ agent_register_tool (take i provider.*1) d = Some e' ∧
            e = "Failed to register tool '" +:+ td_name d +:+ "': " +:+ e'))
  end.
Proof.
  unfold create_runtime, create_chat_service, create_configured_agent.
  destruct (make_command_tool_provider environ _) as [provider|e] eqn:Hp; [cbn|by left].
  destruct (agent_create _ _ _) as [e|] eqn:Hc; cbn.
  { right. eexists provider, _. split; [done|]. split; [done|]. left. by exists e. }
  match goal with |- context [configure_tools ?a ?l] => pose proof (configure_tools_spec l a) as Ht;
    destruct (configure_tools a l) as [ag|msg] end; cbn in Ht |- *.
  - destruct Ht as (Hall & Hr & Ht & Hprompt & Hreq). split.
    + exists provider. split_and!; try done. unfold traced.
      destruct provider; [by rewrite orb_false_r|by rewrite orb_true_r].
    + rewrite Hprompt, Hreq. split; [by destruct (system_prompt c)|].
      rewrite length_replicate. pose proof (worker_count_bounds hardware_threads).
      pose proof (queue_depth_bound c). repeat case_decide; split_and!; try done; lia.
  - destruct Ht as (i & d & e & Hd & He & _ & ->). right. eexists provider, _.
    split; [done|]. split; [done|]. right. split; [done|]. by exists i, d, e.
Qed.
End CreateTheorems.

Section LifecycleTheorems.
Context {Task : Type}.
Implicit Types (s : @Lifecycle Task).

Lemma chat_stopped_stage s : lifecycle_wf s → ChatStopped ∈ lc_log s → stage s = 6.
Proof. intros Hwf Hin. pose proof (lw_log s Hwf) as Hlog. by case_decide. Qed.

(** Nothing moves once [stop] has returned, a second call included. *)
Lemma stopped_step s s' :
  lifecycle_wf s → stage s = 6 → lifecycle_step s s' →
  stage s' = 6 ∧ lc_log s' = lc_log s ∧ accepted (lc_executor s') = accepted (lc_executor s).
Proof.
  intros Hwf H6 Hstep.
  assert (lc_stopping s = true) as Hs
    by (rewrite (lw_stopping s Hwf); apply bool_decide_eq_true; lia).
  assert (lc_reaper s ≠ ReaperChecking ∧ lc_reaper s ≠ ReaperReaping ∧ lc_reaper s ≠ ReaperParked)
    as (? & ? & ?) by (destruct (lw_reaper s Hwf ltac:(lia)) as [-> | ->]; done).
  destruct Hstep as [Hl|Hw].
  - pose proof (life_step_accepted _ _ Hl) as Hacc.
    destruct Hl; unfold stage in *; try done; by destruct (lc_stopper _); simplify_eq.
  - destruct Hw; unfold lifecycle_submit, call_stop; rewrite ?Hs; try done.
Qed.

Lemma stopped_steps s s' :
  lifecycle_wf s → stage s = 6 → rtc lifecycle_step s s' →
  stage s' = 6 ∧ lc_log s' = lc_log s ∧ accepted (lc_executor s') = accepted (lc_executor s).
Proof.
  intros Hwf H6 H. induction H as [|s1 s2 s3 Hstep _ IH]; [done|].
  destruct (stopped_step s1 s2 Hwf H6 Hstep) as (H2 & Hl & Ha).
  assert (lifecycle_wf s2) as Hwf2 by (destruct Hstep; eauto using life_step_wf, world_step_wf).
  destruct (IH Hwf2 H2) as (? & -> & ->). by split_and!.
Qed.

(** C14: The order of a shutdown: in every interleaving of the reaper, the workers, the clients
    and any number of callers of [stop], when the chat service is stopped the reaper thread is
    gone and every worker has exited, every task that was ever accepted has been run, exactly
    once, and further tasks are refused; the chat service is stopped once, and sessions are
    never reaped and tasks never accepted afterwards. *)
Theorem runtime_stop_orderly sessions_enabled workers depth s :
  lifecycle_reachable sessions_enabled workers depth s → ChatStopped ∈ lc_log s →
  reaper_gone (lc_reaper s) ∧ all_exited (lc_executor s) ∧
  tasks_ (lc_executor s) = [] ∧ finished (lc_executor s) ≡ₚ accepted (lc_executor s) ∧
  (∀ task, lifecycle_submit task s = (s, Unexpected "Server runtime is stopping")) ∧
  (∃ l, lc_log s = l ++ [ChatStopped] ∧ ChatStopped ∉ l) ∧
  (∀ s', rtc lifecycle_step s s' →
     lc_log s' = lc_log s ∧ accepted (lc_executor s') = accepted (lc_executor s)).
Proof.
  intros Hwf%lifecycle_reachable_wf Hin. pose proof (chat_stopped_stage s Hwf Hin) as H6.
  pose proof (lw_workers s Hwf ltac:(lia)) as Hall.
  destruct (all_exited_drained _ (lw_pool s Hwf) Hall) as (Ht & Hr & _).
  split_and!; [apply lw_reaper; [done|lia]|done|done| | | |].
  - rewrite (exec_fifo _ (lw_pool s Hwf)), (exec_conserved _ (lw_pool s Hwf)), Ht, Hr.
    by rewrite !app_nil_r.
  - intros task. unfold lifecycle_submit. rewrite (lw_stopping s Hwf).
    by rewrite bool_decide_eq_true_2 by lia.
  - pose proof (lw_log s Hwf) as Hlog. by case_decide.
  - intros s' (_ & ? & ?)%stopped_steps; done.
Qed.

Lemma life_steps_stopping s s' :
  rtc life_step s s' →
  lc_stopping s' = lc_stopping s ∧ accepted (lc_executor s') = accepted (lc_executor s) ∧
  rtc lifecycle_step s s'.
Proof.
  induction 1 as [|s1 s2 s3 Hstep _ (-> & -> & IH)]; [split_and!; [done..|apply rtc_refl]|].
  split_and!; [by apply life_step_stopping|by apply life_step_accepted|].
  eapply rtc_l; [by left|exact IH].
Qed.

(** C15: [stop] terminates: once it has been called, in any reachable state, the threads of the
    server make at most [life_measure] steps of their own, none of them waits for another one
    forever, and where they come to rest [stop] has returned, with every task accepted before
    the call run.  A task that runs is taken to end, that is, the agent to answer the request
    that its continuation waits for. *)
Theorem runtime_stop_completes sessions_enabled workers depth s :
  lifecycle_reachable sessions_enabled workers depth s → lc_stopping s = true →
  (∀ k s', nsteps life_step k s s' → k ≤ life_measure s) ∧
  (∀ s', rtc life_step s s' → nf life_step s' →
     lc_stopper s' = Some StopReturned ∧ reaper_gone (lc_reaper s') ∧
     finished (lc_executor s') ≡ₚ accepted (lc_executor s)).
Proof.
  intros Hreach Hs. split; [intros k s' Hk%life_nsteps_measure; lia|].
  intros s' Hst Hnf. destruct (life_steps_stopping s s' Hst) as (Hs' & Hacc & Hrtc).
  assert (lifecycle_wf s') as Hwf.
  { eapply lifecycle_reachable_wf. unfold lifecycle_reachable in *. by etrans. }
  assert (stage s' = 6) as H6.
  { destruct (decide (stage s' = 6)) as [|Hne]; [done|]. destruct Hnf. apply stop_not_stuck; [done| |done].
    pose proof (lw_stopping s' Hwf) as H1. rewrite Hs', Hs in H1. symmetry in H1.
    by apply bool_decide_eq_true in H1. }
  destruct (all_exited_drained _ (lw_pool s' Hwf) (lw_workers s' Hwf ltac:(lia))) as (Ht & Hr & _).
  split_and!; [|apply lw_reaper; [done|lia]|].
  - unfold stage in H6. by repeat case_match.
  - rewrite <-Hacc, (exec_fifo _ (lw_pool s' Hwf)), (exec_conserved _ (lw_pool s' Hwf)), Ht, Hr.
    by rewrite !app_nil_r.
Qed.
End LifecycleTheorems.

(** ** Witnesses *)

Module Witness.

(** One worker; a task is accepted, [stop] is called while the reaper is parked. *)
Definition submitted : @Lifecycle nat := fst (lifecycle_submit 7 (reaper_check (new_lifecycle true 1 4))).
Definition stop_called : @Lifecycle nat := call_stop submitted.

Definition notified : @Lifecycle nat :=
  with_stopper JoiningReaper (with_reaper (unpark_reaper (lc_reaper stop_called)) stop_called).
Definition executor_told : @Lifecycle nat :=
  with_stopper JoiningWorkers
    (with_pool (stop_begin (lc_executor (with_stopper StoppingExecutor (reaper_check notified))))
       (with_stopper StoppingExecutor (reaper_check notified))).

Definition run_worker (s : @Lifecycle nat) : Lifecycle := with_pool (worker_check 0 (lc_executor s)) s.

Definition all_run : @Lifecycle nat :=
  run_worker (with_pool (worker_finish 0 7 (lc_executor (run_worker executor_told))) (run_worker executor_told)).

Definition chat_stopped : @Lifecycle nat :=
  with_stopper StopReturned (logged ChatStopped (with_stopper StoppingChat all_run)).

Lemma stop_called_reachable : lifecycle_reachable true 1 4 stop_called.
Proof.
  eapply rtc_l; [left; by apply ls_check|].
  eapply rtc_l; [right; apply (ws_submit _ 7)|].
  eapply rtc_l; [right; apply ws_stop|apply rtc_refl].
Qed.

Lemma chat_stopped_reachable : lifecycle_reachable true 1 4 chat_stopped.
Proof.
  unfold lifecycle_reachable. etrans; [exact stop_called_reachable|].
  eapply rtc_l; [left; by apply ls_notify|].
  eapply rtc_l; [left; by apply ls_check|].
  eapply rtc_l; [left; apply ls_joined_reaper; [done|by right]|].
  eapply rtc_l; [left; by apply ls_stop_executor|].
  eapply rtc_l; [left; apply ls_pool, (is_check _ 0); done|].
  eapply rtc_l; [left; apply ls_pool, (is_finish _ 0 7); done|].
  eapply rtc_l; [left; apply ls_pool, (is_check _ 0); done|].
  eapply rtc_l; [left; apply ls_joined_workers; [done|by repeat constructor]|].
  eapply rtc_l; [left; by apply ls_stop_chat|apply rtc_refl].
Qed.

Lemma runtime_stop_orderly_witness :
  finished (lc_executor chat_stopped) = [7] ∧
  reaper_gone (lc_reaper chat_stopped) ∧ all_exited (lc_executor chat_stopped).
Proof.
  destruct (runtime_stop_orderly true 1 4 chat_stopped chat_stopped_reachable) as (Hr & Hx & _).
  { by left. }
  split; [reflexivity|]. split; [exact Hr|exact Hx].
Defined.

Lemma runtime_stop_completes_witness :
  life_measure stop_called = 14 ∧
  (∀ s', rtc life_step stop_called s' → nf life_step s' →
     lc_stopper s' = Some StopReturned ∧ finished (lc_executor s') ≡ₚ [7]).
Proof.
  destruct (runtime_stop_completes true 1 4 stop_called stop_called_reachable eq_refl) as [_ H].
  split; [reflexivity|]. intros s' Hst Hnf. destruct (H s' Hst Hnf) as (Hret & _ & Hfin).
  split; [exact Hret|exact Hfin].
Defined.
End Witness.
