(* ===== verification/Routes.v ===== *)
(** * api_routes.cpp, health.cpp, metrics.cpp: the routes

    Every handler has the same frame: the runtime must be alive, the key must
    match, the reply is counted; the frame is [serve], the rest of each handler is
    a case of [route_body].  Matching a URL to a handler is Drogon's part. *)

From S2P Require Import Prelude Atomic ApiTypes SessionStore Executor Auth Metrics Json ApiJson.
From S2P Require Import Streaming StreamSession ZooAdapter ChatService ToolSchema Config Registry Server.

(** ** Bodies *)

Section Bodies.
Context `{ZooCore}.

Definition tool_call_body (call : OwnedToolCall) : json :=
  jobject [("id", JString (tc_id call)); ("type", JString "function");
           ("function", jobject [("name", JString (tc_name call));
                                 ("arguments", JString (tc_arguments_json call))])].

Definition make_message_body (m : ChatMessage) : json :=
  jobject ([("role", JString (role_to_string (role m))); ("content", JString (content m))] ++
           (if is_empty (tool_call_id m) then [] else [("tool_call_id", JString (tool_call_id m))]) ++
           (if bool_decide (tool_calls m = []) then []
            else [("tool_calls", JArray (tool_call_body <$> tool_calls m))])).

Definition make_agent_history_body (h : AgentHistorySnapshot) : json :=
  jobject [("messages", JArray (make_message_body <$> ahs_messages h));
           ("estimated_tokens", JInteger (ahs_estimated_tokens h));
           ("context_size", JInteger (ahs_context_size h));
           ("context_exceeded", JBoolean (ahs_context_exceeded h))].

(** Drogon's default content type is left out. *)
Definition make_no_content_response : HttpResponse :=
  {| resp_status := 204; resp_content_type := ""; resp_body := "" |}.

Definition sampling_body (s : SamplingParams) : json :=
  jobject [("temperature", JFloat (sp_temperature s)); ("top_p", JFloat (sp_top_p s));
           ("top_k", JInteger (sp_top_k s)); ("repeat_penalty", JFloat (sp_repeat_penalty s));
           ("repeat_last_n", JInteger (sp_repeat_last_n s)); ("seed", JInteger (sp_seed s))].

(** [make_runtime_body]; the service's accessors return the configuration's parts. *)
Definition make_runtime_body (c : ServerConfig) (gen : GenerationOptions) (tool_list : list ToolDefinition)
    (ready : bool) (active : nat) : json :=
  let m := model_config c in let a := agent_config c in
  jobject
    [("ready", JBoolean ready); ("model_id", JString (model_id c));
     ("model_config", jobject
        [("model_path", JString (model_path m)); ("context_size", JInteger (mc_context_size m));
         ("n_gpu_layers", JInteger (n_gpu_layers m)); ("use_mmap", JBoolean (use_mmap m));
         ("use_mlock", JBoolean (use_mlock m));
         ("auto_configure_model", JBoolean (auto_configure_model c))]);
     ("agent_config", jobject
        [("max_history_messages", JInteger (ac_max_history_messages a));
         ("request_queue_capacity", JInteger (request_queue_capacity a));
         ("max_tool_iterations", JInteger (max_tool_iterations a));
         ("max_tool_retries", JInteger (max_tool_retries a))]);
     ("default_generation", jobject
        [("max_tokens", JInteger (go_max_tokens gen));
         ("stop_sequences", JArray (JString <$> stop_sequences gen));
         ("record_tool_trace", JBoolean (go_record_tool_trace gen));
         ("sampling", sampling_body (sampling gen))]);
     ("tool_count", JInteger (Z.of_nat (length tool_list)));
     ("tools", JArray (make_tool_schema <$> tool_list));
     ("sessions", jobject
        [("enabled", JBoolean (enabled (sessions c)));
         ("max_sessions", JInteger (Z.of_N (max_sessions (sessions c))));
         ("idle_ttl_seconds", JInteger (idle_ttl_seconds (sessions c)));
         ("active", JInteger (Z.of_nat active))])].

Record MetricsSnapshot : Type := {
  ms_counters : Counter → N;
  ms_active_sessions : nat;
  ms_model_id : string;
  ms_uptime_seconds : Z;
}.

Definition snapshot_json (m : MetricsSnapshot) : json :=
  let n c := JInteger (Z.of_N (ms_counters m c)) in
  jobject
    [("requests_total", n Requests); ("requests_errors", n Errors);
     ("requests_cancelled_total", n Cancelled); ("requests_queue_rejected_total", n QueueRejected);
     ("stream_disconnects_total", n StreamDisconnects); ("tool_invocations_total", n ToolInvocations);
     ("tool_failures_total", n ToolFailures); ("tool_timeouts_total", n ToolTimeouts);
     ("active_sessions", JInteger (Z.of_nat (ms_active_sessions m)));
     ("model_id", JString (ms_model_id m)); ("uptime_seconds", JInteger (ms_uptime_seconds m))].

(** [make_health_response]. *)
Definition health_json (ready : bool) (id : string) (h : SessionHealth) (version : string) : json :=
  jobject
    [("status", JString (if ready then "ok" else "starting")); ("ready", JBoolean ready);
     ("model", jobject [("id", JString id)]);
     ("sessions", jobject
        [("enabled", JBoolean (sh_enabled h)); ("active", JInteger (Z.of_nat (sh_active h)));
         ("max_sessions", JInteger (Z.of_N (sh_max_sessions h)));
         ("idle_ttl_seconds", JInteger (sh_idle_ttl_seconds h))]);
     ("version", JString version)].

Definition make_health_response `{JsonLib} (ready : bool) (id : string) (h : SessionHealth)
    (version : string) : expected string HttpResponse :=
  make_json_response (health_json ready id h version) (if ready then 200 else 503).
End Bodies.

(** ** The handlers *)

Inductive Route : Type :=
| GetModels
| GetTools
| PostSessions (body : string)
| GetSessionById (session_id : string)
| DeleteSessionById (session_id : string)
| PostChatCompletions (body : string)
| PostExtractions (body : string)
| PostAgentChat (body : string)
| PostCancel (request_id : string)
| GetAgentHistory
| PutAgentHistory (body : string)
| DeleteAgentHistory
| PostHistorySwap (body : string)
| PostHistoryMessages (body : string)
| GetSystemPrompt
| PutSystemPrompt (body : string)
| GetRuntime
| GetMetrics.

(** What the agent answers to a generation request, whether at once, and the
    connection of the request. *)
Record AgentAnswer : Type := {
  answer_ready : bool;
  completion_result : RuntimeResult CompletionResult;
  extraction_result : RuntimeResult ExtractionResult;
  request_connection : option N;
}.

(** How a handler returned. *)
Inductive Outcome : Type :=
| Finished
| ChatContinues (task : Continuation CompletionResult)
| ExtractionContinues (task : Continuation ExtractionResult).

Definition chat_outcome (h : Handled CompletionResult) : Outcome :=
  match h with Done => Finished | Continued t => ChatContinues t end.

Definition extraction_outcome (h : Handled ExtractionResult) : Outcome :=
  match h with Done => Finished | Continued t => ExtractionContinues t end.

Section Routes.
Context `{ZooCore} `{JsonLib}.
Variable config : ServerConfig.
Variable p : StoreConfig.
Variable gen : GenerationOptions.
Variable tool_list : list ToolDefinition.
Variable agent_id : nat → N.
Variable now_seconds : nat → Z.
Variable status_to_string : ToolInvocationStatus → string.
Variable client_takes : nat → bool.
Variable uptime_seconds : Z.
Variable rq : nat.

Local Abbreviation respond := (respond rq).
Local Abbreviation respond_error := (respond_error rq).

(** A parser or service call, then the reply to its value or to its error. *)
Definition reply_with {A} (r : ApiResult A) (k : A → expected string HttpResponse)
    : prog ServerState (Result Outcome) :=
  then! _ := (match r with Unexpected e => respond_error e | Value a => respond (k a) end) in
  Ret (Value Finished).

Definition call_service {A} (q : prog ChatState (ApiResult A)) (k : A → expected string HttpResponse)
    : prog ServerState (Result Outcome) :=
  do! r := on_chat q in reply_with r k.

(** The parser runs first; its error is the answer. *)
Definition with_parsed {A} (parsed : ApiResult A) (k : A → prog ServerState (Result Outcome))
    : prog ServerState (Result Outcome) :=
  match parsed with
  | Unexpected e => then! _ := respond_error e in Ret (Value Finished)
  | Value a => k a
  end.

Definition json_response (body : json) : expected string HttpResponse := make_json_response body 200.

Definition history_response (h : AgentHistorySnapshot) : expected string HttpResponse :=
  json_response (make_agent_history_body h).

Definition prompt_response (prompt : string) : expected string HttpResponse :=
  json_response (jobject [("system_prompt", JString prompt)]).

(** [populate_snapshot]: the counters are loaded one by one. *)
Definition load_counter (c : Counter) : prog ServerState N :=
  on_metrics (atomically (λ m, (m, load c m))).

Fixpoint load_counters (cs : list Counter) (acc : Counter → N) : prog ServerState (Counter → N) :=
  match cs with
  | [] => Ret acc
  | c :: cs => do! n := load_counter c in load_counters cs (λ c', if decide (c' = c) then n else acc c')
  end.

Definition all_counters : list Counter :=
  [Requests; Errors; Cancelled; QueueRejected; StreamDisconnects; ToolInvocations; ToolFailures; ToolTimeouts].

Definition session_health : prog ServerState SessionHealth := on_chat (on_store (health p)).

Definition metrics_snapshot : prog ServerState MetricsSnapshot :=
  do! counters := load_counters all_counters (λ _, 0%N) in
  do! h := session_health in
  Ret {| ms_counters := counters; ms_active_sessions := sh_active h; ms_model_id := model_id config;
         ms_uptime_seconds := uptime_seconds |}.

(** The part of each handler that is its own: the generation requests... *)
Definition chat_completions (a : AgentAnswer) (request : ChatCompletionRequest)
    : prog ServerState (Result Outcome) :=
  then! h := (if negb (ccr_stream request)
              then start_non_stream_completion p gen agent_id now_seconds status_to_string rq request
                     (answer_ready a) (completion_result a)
              else start_stream_completion p gen agent_id now_seconds status_to_string client_takes rq
                     (request_connection a) request (answer_ready a) (completion_result a)) in
  Ret (Value (chat_outcome h)).

Definition post_chat_completions (a : AgentAnswer) (body : string) : prog ServerState (Result Outcome) :=
  with_parsed (parse_chat_completion_request body) (chat_completions a).

Definition extractions (a : AgentAnswer) (request : ExtractionRequest)
    : prog ServerState (Result Outcome) :=
  then! h := (if negb (er_stream request)
              then start_non_stream_extraction p gen agent_id now_seconds status_to_string rq request
                     (answer_ready a) (extraction_result a)
              else start_stream_extraction p gen agent_id now_seconds status_to_string client_takes rq
                     (request_connection a) request (answer_ready a) (extraction_result a)) in
  Ret (Value (extraction_outcome h)).

Definition post_extractions (a : AgentAnswer) (body : string) : prog ServerState (Result Outcome) :=
  with_parsed (parse_extraction_request body) (extractions a).

Definition agent_chat (a : AgentAnswer) (request : AgentChatRequest)
    : prog ServerState (Result Outcome) :=
  then! h := serve_agent_chat p gen agent_id now_seconds status_to_string rq request
               (answer_ready a) (completion_result a) in
  Ret (Value (chat_outcome h)).

Definition post_agent_chat (a : AgentAnswer) (body : string) : prog ServerState (Result Outcome) :=
  with_parsed (parse_agent_chat_request body) (agent_chat a).

Definition post_cancel (id : string) : prog ServerState (Result Outcome) :=
  call_service (cancel_request id) (λ _, make_json_response
    (jobject [("id", JString id); ("cancelled", JBoolean true)]) 202).

(** ... the lists ... *)
Definition get_models : prog ServerState (Result Outcome) :=
  reply_with (Value (model_id config)) make_models_response.

Definition get_tools : prog ServerState (Result Outcome) :=
  reply_with (Value tool_list) make_tools_response.

(** ... the sessions ... *)
Definition post_sessions (body : string) : prog ServerState (Result Outcome) :=
  with_parsed (parse_session_create_request body) (λ request,
    call_service (chat_create_session p request) (λ s, make_session_response s 201)).

Definition get_session_by_id (id : string) : prog ServerState (Result Outcome) :=
  call_service (chat_get_session p id) (λ s, make_session_response s 200).

Definition delete_session_by_id (id : string) : prog ServerState (Result Outcome) :=
  call_service (chat_delete_session p id) (λ _, Value make_no_content_response).

(** ... the agent's history and prompt ... *)
Definition agent_context_size : Z := mc_context_size (model_config config).

Definition get_history : prog ServerState (Result Outcome) :=
  call_service (get_agent_history agent_context_size) history_response.

Definition put_history (body : string) : prog ServerState (Result Outcome) :=
  with_parsed (parse_agent_history_request body) (λ messages,
    call_service (replace_agent_history agent_context_size messages) history_response).

Definition delete_history : prog ServerState (Result Outcome) :=
  call_service clear_agent_history (λ _, Value make_no_content_response).

Definition post_history_swap (body : string) : prog ServerState (Result Outcome) :=
  with_parsed (parse_agent_history_request body) (λ messages,
    call_service (swap_agent_history agent_context_size messages) history_response).

Definition post_history_message (body : string) : prog ServerState (Result Outcome) :=
  with_parsed (parse_agent_history_message_request body) (λ m,
    call_service (append_agent_history_message agent_context_size m) history_response).

Definition get_prompt : prog ServerState (Result Outcome) := call_service get_system_prompt prompt_response.

Definition put_prompt (body : string) : prog ServerState (Result Outcome) :=
  with_parsed (parse_system_prompt_request body) (λ prompt,
    call_service (chat_set_system_prompt prompt) prompt_response).

(** ... and the state of the server. *)
Definition get_runtime : prog ServerState (Result Outcome) :=
  do! ready := on_chat is_ready in
  do! h := session_health in
  reply_with (Value (make_runtime_body config gen tool_list ready (sh_active h))) json_response.

Definition get_metrics : prog ServerState (Result Outcome) :=
  do! m := metrics_snapshot in reply_with (Value (snapshot_json m)) json_response.

Definition route_body (a : AgentAnswer) (r : Route) : prog ServerState (Result Outcome) :=
  match r with
  | GetModels => get_models
  | GetTools => get_tools
  | PostSessions body => post_sessions body
  | GetSessionById id => get_session_by_id id
  | DeleteSessionById id => delete_session_by_id id
  | PostChatCompletions body => post_chat_completions a body
  | PostExtractions body => post_extractions a body
  | PostAgentChat body => post_agent_chat a body
  | PostCancel id => post_cancel id
  | GetAgentHistory => get_history
  | PutAgentHistory body => put_history body
  | DeleteAgentHistory => delete_history
  | PostHistorySwap body => post_history_swap body
  | PostHistoryMessages body => post_history_message body
  | GetSystemPrompt => get_prompt
  | PutSystemPrompt body => put_prompt body
  | GetRuntime => get_runtime
  | GetMetrics => get_metrics
  end.

(** A reply past [with_metrics]. *)
Definition reply_uncounted (r : expected string HttpResponse) : prog ServerState (Result Outcome) :=
  match r with
  | Unexpected what => Ret (Unexpected what)
  | Value response => do! _ := send_reply rq (Respond response) in Ret (Value Finished)
  end.

(** The frame of every handler: the runtime may be gone (its weak pointer is
    empty; that reply is not counted), the key may be wrong. *)
Definition framed (alive : bool) (auth_header : string) (body : prog ServerState (Result Outcome))
    : prog ServerState (Result Outcome) :=
  if negb alive then
    reply_uncounted (make_error_response
      (service_unavailable_error "Server runtime is not ready" (Some "not_ready")))
  else
    match check_auth (api_key config) auth_header with
    | Some e => then! _ := respond_error e in Ret (Value Finished)
    | None => body
    end.

Section Handlers.
Variable alive : bool.
Variable auth_header : string.

Local Abbreviation framed := (framed alive auth_header).

(** The lambdas given to [registerHandler], in their order; the method and the
    path are [api_routes] of App.v. *)
Definition handle_models : prog ServerState (Result Outcome) := framed get_models.
Definition handle_tools : prog ServerState (Result Outcome) := framed get_tools.
Definition handle_create_session (body : string) : prog ServerState (Result Outcome) := framed (post_sessions body).
Definition handle_get_session (id : string) : prog ServerState (Result Outcome) := framed (get_session_by_id id).
Definition handle_delete_session (id : string) : prog ServerState (Result Outcome) := framed (delete_session_by_id id).
Definition handle_chat_completion (a : AgentAnswer) (body : string) : prog ServerState (Result Outcome) := framed (post_chat_completions a body).
Definition handle_extraction (a : AgentAnswer) (body : string) : prog ServerState (Result Outcome) := framed (post_extractions a body).
Definition handle_agent_chat (a : AgentAnswer) (body : string) : prog ServerState (Result Outcome) := framed (post_agent_chat a body).
Definition handle_cancel (id : string) : prog ServerState (Result Outcome) := framed (post_cancel id).
Definition handle_get_history : prog ServerState (Result Outcome) := framed get_history.
Definition handle_put_history (body : string) : prog ServerState (Result Outcome) := framed (put_history body).
Definition handle_delete_history : prog ServerState (Result Outcome) := framed delete_history.
Definition handle_swap_history (body : string) : prog ServerState (Result Outcome) := framed (post_history_swap body).
Definition handle_append_history (body : string) : prog ServerState (Result Outcome) := framed (post_history_message body).
Definition handle_get_prompt : prog ServerState (Result Outcome) := framed get_prompt.
Definition handle_put_prompt (body : string) : prog ServerState (Result Outcome) := framed (put_prompt body).
Definition handle_runtime : prog ServerState (Result Outcome) := framed get_runtime.
Definition handle_metrics : prog ServerState (Result Outcome) := framed get_metrics.
End Handlers.

(** The request as Drogon dispatches it. *)
Definition serve (alive : bool) (auth_header : string) (a : AgentAnswer) (r : Route)
    : prog ServerState (Result Outcome) :=
  match r with
  | GetModels => handle_models alive auth_header
  | GetTools => handle_tools alive auth_header
  | PostSessions body => handle_create_session alive auth_header body
  | GetSessionById id => handle_get_session alive auth_header id
  | DeleteSessionById id => handle_delete_session alive auth_header id
  | PostChatCompletions body => handle_chat_completion alive auth_header a body
  | PostExtractions body => handle_extraction alive auth_header a body
  | PostAgentChat body => handle_agent_chat alive auth_header a body
  | PostCancel id => handle_cancel alive auth_header id
  | GetAgentHistory => handle_get_history alive auth_header
  | PutAgentHistory body => handle_put_history alive auth_header body
  | DeleteAgentHistory => handle_delete_history alive auth_header
  | PostHistorySwap body => handle_swap_history alive auth_header body
  | PostHistoryMessages body => handle_append_history alive auth_header body
  | GetSystemPrompt => handle_get_prompt alive auth_header
  | PutSystemPrompt body => handle_put_prompt alive auth_header body
  | GetRuntime => handle_runtime alive auth_header
  | GetMetrics => handle_metrics alive auth_header
  end.

Lemma serve_framed alive auth_header a r :
  serve alive auth_header a r = framed alive auth_header (route_body a r).
Proof. by destruct r. Qed.

(** The handler of [/healthz] needs no key and is not counted. *)
Definition serve_health (version : string) (alive : bool) : prog ServerState (Result Outcome) :=
  do! response := (if negb alive
    then Ret (make_health_response false "" {| sh_enabled := false; sh_active := 0; sh_max_sessions := 0;
                                               sh_idle_ttl_seconds := 0 |} version)
    else do! ready := on_chat is_ready in
         do! h := session_health in
         Ret (make_health_response ready (model_id config) h version)) in
  reply_uncounted response.
End Routes.
