(* ===== verification/RoutesProofs.v ===== *)
(** * Properties of the routes *)

From S2P Require Import Prelude Atomic ApiTypes SessionStore Executor Auth Metrics Json ApiJson.
From S2P Require Import Streaming StreamSession ZooAdapter ChatService ToolSchema Config Registry.
From S2P Require Import Server ServerProofs Routes.

(** ** Counting replies *)

Section Tally.
Variable rq : nat.

(** The replies [l] were sent to the request between [s] and [s'], and counted. *)
Record tally (s s' : ServerState) (l : list Reply) : Prop := {
  tally_replies : replies s' = replies s ++ ((λ r, (rq, r)) <$> l);
  tally_requests : load Requests (server_metrics s') =
    Nat.iter (length l) u64_succ (load Requests (server_metrics s));
  tally_errors : load Errors (server_metrics s') =
    Nat.iter (length (filter (λ r, 400 ≤ reply_status r)%Z l)) u64_succ (load Errors (server_metrics s));
}.

Lemma tally_nil s s' :
  replies s' = replies s → load Requests (server_metrics s') = load Requests (server_metrics s) →
  load Errors (server_metrics s') = load Errors (server_metrics s) → tally s s' [].
Proof. intros Hr H1 H2. split; [by rewrite app_nil_r|done|done]. Qed.

Lemma tally_app s s' s'' l l' : tally s s' l → tally s' s'' l' → tally s s'' (l ++ l').
Proof.
  intros [H1 H2 H3] [H1' H2' H3']. split.
  - by rewrite H1', H1, fmap_app, app_assoc.
  - by rewrite H2', H2, length_app, Nat.add_comm, Nat.iter_add.
  - by rewrite H3', H3, filter_app, length_app, Nat.add_comm, Nat.iter_add.
Qed.

(** A program that sends nothing. *)
Definition quiet {A} (q : prog ServerState A) : Prop := ∀ s, tally s (fst (run q s)) [].

(** A program that sends [n r] replies when it returns [r]. *)
Definition sends {A} (n : A → nat) (q : prog ServerState A) : Prop :=
  ∀ s, ∃ l, tally s (fst (run q s)) l ∧ length l = n (snd (run q s)).

Lemma quiet_ret {A} (a : A) : quiet (Ret a).
Proof. intros s. by apply tally_nil. Qed.

Lemma quiet_bind {A B} (q : prog ServerState A) (k : A → prog ServerState B) :
  quiet q → (∀ a, quiet (k a)) → quiet (prog_bind q k).
Proof.
  intros Hq Hk s. rewrite run_bind. pose proof (Hq s) as H1. pose proof (Hk (snd (run q s)) (fst (run q s))) as H2.
  exact (tally_app _ _ _ _ _ H1 H2).
Qed.

Lemma quiet_atomically {A} (f : ServerState → ServerState * A) :
  (∀ s, replies (fst (f s)) = replies s ∧ server_metrics (fst (f s)) = server_metrics s) →
  quiet (atomically f).
Proof.
  intros Hf s. rewrite run_atomically. destruct (Hf s) as [Hr Hm]. by apply tally_nil; rewrite ?Hm.
Qed.

Lemma quiet_on_chat {A} (q : prog ChatState A) : quiet (on_chat q).
Proof. intros s. rewrite run_on_chat. by apply tally_nil. Qed.

Lemma quiet_on_session {A} i (q : prog StreamState A) : quiet (on_session i q).
Proof.
  intros s. apply tally_nil; [by rewrite (on_session_keeps replies)|..];
    by rewrite (on_session_keeps server_metrics).
Qed.

(** Increments of the other counters. *)
Definition other_counters {A} (q : prog ServerMetrics A) : Prop :=
  ∀ m, load Requests (fst (run q m)) = load Requests m ∧ load Errors (fst (run q m)) = load Errors m.

Lemma other_bind {A B} (q : prog ServerMetrics A) (k : A → prog ServerMetrics B) :
  other_counters q → (∀ a, other_counters (k a)) → other_counters (prog_bind q k).
Proof.
  intros Hq Hk m. rewrite run_bind. destruct (Hq m) as [<- <-]. apply Hk.
Qed.

Lemma other_increment c : c ≠ Requests → c ≠ Errors → other_counters (increment c).
Proof. intros H1 H2 m. by destruct c. Qed.

Lemma quiet_on_metrics {A} (q : prog ServerMetrics A) : other_counters q → quiet (on_metrics q).
Proof. intros Hq s. rewrite run_on_metrics. by apply tally_nil; [|apply Hq..]. Qed.

Lemma other_tool_metrics l : other_counters (increment_tool_metrics l).
Proof.
  induction l as [|i l IH]; cbn [increment_tool_metrics]; [done|].
  apply other_bind; [by apply other_increment|]. intros _. destruct (invocation_succeeded i); [done|].
  apply other_bind; [by apply other_increment|]. intros _. apply other_bind; [|done].
  destruct (invocation_timed_out i); [by apply other_increment|done].
Qed.

Lemma other_runtime_error e : other_counters (increment_runtime_error_metrics e).
Proof.
  unfold increment_runtime_error_metrics. repeat case_decide; [by apply other_increment..|done].
Qed.

Lemma tally_reply r s : tally s (fst (run (reply rq r) s)) [r].
Proof.
  unfold reply. rewrite run_bind, run_on_metrics. unfold with_metrics. rewrite run_bind.
  split; [done|..]; cbn [run fst snd server_metrics send_reply atomically].
  - by case_bool_decide.
  - rewrite filter_cons. case_bool_decide; case_decide; done.
Qed.

Lemma sends_quiet_bind {A B} (n : B → nat) (q : prog ServerState A) (k : A → prog ServerState B) :
  quiet q → (∀ a, sends n (k a)) → sends n (prog_bind q k).
Proof.
  intros Hq Hk s. rewrite run_bind. pose proof (Hq s) as H1.
  destruct (Hk (snd (run q s)) (fst (run q s))) as (l & H2 & Hl). exists l. split; [|done].
  exact (tally_app _ _ _ _ _ H1 H2).
Qed.

Lemma sends_ret {A} (n : A → nat) (a : A) : n a = 0 → sends n (Ret a).
Proof. intros Hn s. exists []. split; [by apply tally_nil|done]. Qed.

Lemma sends_quiet {A} (q : prog ServerState A) : quiet q → sends (λ _, 0) q.
Proof. intros Hq s. exists []. by split. Qed.

Lemma quiet_sends {A} (q : prog ServerState A) : sends (λ _, 0) q → quiet q.
Proof. intros Hq s. destruct (Hq s) as ([] & Ht & Hl); [exact Ht|discriminate Hl]. Qed.

(** Returning sends one reply, throwing none. *)
Definition once {A} (r : Result A) : nat := match r with Value _ => 1 | Unexpected _ => 0 end.

Lemma sends_reply {A} (n : A → nat) r (a : A) : n a = 1 → sends n (do! _ := reply rq r in Ret a).
Proof.
  intros Hn s. exists [r]. rewrite run_bind. cbn [run fst snd]. split; [apply tally_reply|done].
Qed.

Lemma sends_respond r : sends once (respond rq r).
Proof. destruct r as [r|what]; [by apply sends_reply|by apply sends_ret]. Qed.

Lemma sends_try {A B} (n : Result B → nat) (q : prog ServerState (Result A)) (k : A → prog ServerState (Result B)) :
  (∀ what, n (Unexpected what) = 0) → quiet q → (∀ a, sends n (k a)) → sends n (try_prog q k).
Proof.
  intros Hn Hq Hk. apply sends_quiet_bind; [done|]. intros [a|what]; [apply Hk|by apply sends_ret].
Qed.

Lemma sends_then {A B} (n : Result B → nat) (m : Result A → nat) (q : prog ServerState (Result A)) (f : A → B) :
  (∀ what, n (Unexpected what) = m (Unexpected what)) → (∀ a, n (Value (f a)) = m (Value a)) →
  sends m q → sends n (then! a := q in Ret (Value (f a))).
Proof.
  intros Hu Hv Hq s. destruct (Hq s) as (l & Ht & Hl). exists l. unfold try_prog. rewrite run_bind.
  destruct (snd (run q s)) as [a|what]; cbn [run fst snd]; rewrite ?Hv, ?Hu; by split.
Qed.

(** ** The handlers of the generation requests *)

Section Generation.
Context `{ZooCore} `{JsonLib}.
Variable p : StoreConfig.
Variable client_takes : nat → bool.
Context {R : Type}.
Variable ep : Endpoint R.

(** What was sent when a handler returned: nothing yet when the answer is the
    continuation's, nothing at all when it threw. *)
Definition sent_so_far (h : Result (Handled R)) : nat :=
  match h with
  | Value Done | Value (Continued (StreamTask _ _ _ _)) => 1
  | Value (Continued (AnswerTask _ _)) | Unexpected _ => 0
  end.

Lemma quiet_count result : quiet (count_result ep result).
Proof. destruct result; apply quiet_on_metrics; [apply other_tool_metrics|apply other_runtime_error]. Qed.

Lemma quiet_submit task : quiet (submit_background task).
Proof.
  apply quiet_atomically. intros s. unfold submit_section. destruct (runtime_stopping s); [done|].
  by destruct (submit _ _).
Qed.

Lemma quiet_track connection i request : quiet (track_disconnect connection i request).
Proof. destruct connection as [c|]; [by apply quiet_atomically|apply quiet_ret]. Qed.

Lemma quiet_clear callback : quiet (clear_disconnect callback).
Proof. destruct callback as [[c id]|]; [by apply quiet_atomically|apply quiet_ret]. Qed.

Lemma quiet_or_release {A} pending (q : prog ServerState (Result A)) :
  quiet q → quiet (or_release p pending q).
Proof.
  intros Hq. apply quiet_bind; [done|]. intros [a|what]; [apply quiet_ret|].
  apply quiet_bind; [apply quiet_on_chat|]. intros _. apply quiet_ret.
Qed.

Lemma sends_answer pending result : sends once (answer p rq ep pending result).
Proof.
  unfold answer. apply sends_quiet_bind; [apply quiet_count|]. intros _.
  apply sends_quiet_bind; [apply quiet_on_chat|]. intros _. destruct result; apply sends_respond.
Qed.

Lemma sends_refuse e : sends sent_so_far (refuse (R := R) rq e).
Proof.
  apply sends_quiet_bind.
  { case_bool_decide; [by apply quiet_on_metrics, other_increment|apply quiet_ret]. }
  intros _. by apply (sends_then _ once); [..|apply sends_respond].
Qed.

Lemma sends_start_non_stream ready result : sends sent_so_far (start_non_stream p rq ep ready result).
Proof.
  apply sends_quiet_bind; [apply quiet_on_chat|]. intros [pending|e]; [|apply sends_refuse].
  destruct ready; [by apply (sends_then _ once); [..|apply sends_answer]|].
  apply sends_quiet_bind; [apply quiet_submit|]. intros [_|what]; [by apply sends_ret|].
  apply sends_quiet_bind; [apply quiet_on_chat|]. intros _. by apply sends_ret.
Qed.

Lemma sends_start_stream connection ready result :
  sends sent_so_far (start_stream p client_takes rq ep connection ready result).
Proof.
  apply sends_quiet_bind; [by apply quiet_atomically|]. intros i.
  apply sends_quiet_bind; [apply quiet_on_chat|]. intros [pending|e]; [|apply sends_refuse].
  apply sends_try; [done|apply quiet_or_release, quiet_on_session|]. intros _.
  apply sends_try; [done|apply quiet_on_session|]. intros _. destruct ready.
  - destruct result as [r|e]; [|by apply (sends_then _ once); [..|apply sends_answer]].
    apply sends_quiet_bind; [apply quiet_count|]. intros _.
    apply sends_try; [done|apply quiet_or_release, quiet_on_session|]. intros _.
    apply sends_quiet_bind; [apply quiet_on_chat|]. intros _. by apply sends_reply.
  - apply sends_quiet_bind; [apply quiet_track|]. intros callback.
    apply sends_quiet_bind; [apply quiet_submit|]. intros [_|what]; [by apply sends_reply|].
    apply sends_quiet_bind; [apply quiet_on_chat|]. intros _.
    apply sends_quiet_bind; [apply quiet_clear|]. intros _. by apply sends_ret.
Qed.

Lemma quiet_finish_stream i callback pending result :
  quiet (finish_stream p client_takes ep i callback pending result).
Proof.
  apply quiet_sends. apply sends_quiet_bind; [apply quiet_clear|]. intros _.
  apply sends_quiet_bind; [apply quiet_count|]. intros _.
  apply sends_try; [done|apply quiet_or_release; destruct result; apply quiet_on_session|]. intros _.
  apply sends_quiet_bind; [apply quiet_on_chat|]. intros _. by apply sends_ret.
Qed.

(** What the continuation still sends. *)
Lemma sends_continuation task :
  sends (λ h, once h * (1 - sent_so_far (Value (Continued task)))) (run_continuation p client_takes rq ep task).
Proof.
  destruct task as [pending result|i callback pending result]; cbn [run_continuation sent_so_far].
  - intros s. destruct (sends_answer pending result s) as (l & Ht & Hl). exists l. split; [done|].
    rewrite Hl. lia.
  - intros s. exists []. split; [apply quiet_finish_stream|]. cbn. lia.
Qed.
End Generation.
End Tally.

(** ** The frame of the handlers *)

Section Serve.
Context `{ZooCore} `{JsonLib}.
Variable config : ServerConfig.
Variable p : StoreConfig.
Variable gen : GenerationOptions.
Variable tool_list : list ToolDefinition.
Variable agent_id : nat → N.
Variable now_seconds : nat → Z.
Variable status_to_string : ToolInvocationStatus → string.
Variable client_takes : nat → bool.
Variable uptime_seconds : Z.
Variable rq : nat.

Local Abbreviation route_body :=
  (route_body config p gen tool_list agent_id now_seconds status_to_string client_takes uptime_seconds rq).
Local Abbreviation serve :=
  (serve config p gen tool_list agent_id now_seconds status_to_string client_takes uptime_seconds rq).

(** What was sent when a handler returned. *)
Definition route_sent (h : Result Outcome) : nat :=
  match h with
  | Value Finished => 1
  | Value (ChatContinues t) => sent_so_far (Value (Continued t))
  | Value (ExtractionContinues t) => sent_so_far (Value (Continued t))
  | Unexpected _ => 0
  end.

Lemma sends_finish r : sends rq route_sent (then! _ := respond rq r in Ret (Value Finished)).
Proof. by apply (sends_then rq _ once); [..|apply sends_respond]. Qed.

Lemma sends_reply_with {A} (r : ApiResult A) k : sends rq route_sent (reply_with rq r k).
Proof. destruct r; apply sends_finish. Qed.

Lemma sends_call_service {A} (q : prog ChatState (ApiResult A)) k : sends rq route_sent (call_service rq q k).
Proof. apply sends_quiet_bind; [apply quiet_on_chat|]. intros r. apply sends_reply_with. Qed.

Lemma sends_with_parsed {A} (parsed : ApiResult A) k :
  (∀ a, sends rq route_sent (k a)) → sends rq route_sent (with_parsed rq parsed k).
Proof. intros Hk. destruct parsed; [apply Hk|apply sends_finish]. Qed.

Lemma quiet_load_counters cs acc : quiet rq (load_counters cs acc).
Proof.
  revert acc. induction cs as [|c cs IH]; intros acc; [apply quiet_ret|].
  apply quiet_bind; [by apply quiet_on_metrics|]. intros n. apply IH.
Qed.

Lemma sends_chat_outcome q : sends rq sent_so_far q → sends rq route_sent (then! h := q in Ret (Value (chat_outcome h))).
Proof. by apply sends_then; [|intros []]. Qed.

Lemma sends_extraction_outcome q :
  sends rq sent_so_far q → sends rq route_sent (then! h := q in Ret (Value (extraction_outcome h))).
Proof. by apply sends_then; [|intros []]. Qed.

Lemma sends_route_body a r : sends rq route_sent (route_body a r).
Proof.
  destruct r; cbn [Routes.route_body]; try apply sends_reply_with; try apply sends_call_service;
    try (apply sends_with_parsed; intros request); try apply sends_call_service.
  - apply sends_chat_outcome. destruct (negb _); [apply sends_start_non_stream|apply sends_start_stream].
  - apply sends_extraction_outcome. destruct (negb _); [apply sends_start_non_stream|apply sends_start_stream].
  - apply sends_chat_outcome, sends_start_non_stream.
  - apply sends_quiet_bind; [apply quiet_on_chat|]. intros ready.
    apply sends_quiet_bind; [apply quiet_on_chat|]. intros h. apply sends_reply_with.
  - apply sends_quiet_bind; [|intros m; apply sends_reply_with].
    apply quiet_bind; [apply quiet_load_counters|]. intros c.
    apply quiet_bind; [apply quiet_on_chat|]. intros h. apply quiet_ret.
Qed.

Lemma sends_serve header a r : sends rq route_sent (serve true header a r).
Proof.
  rewrite serve_framed. unfold framed. cbn [negb]. destruct (check_auth _ _); [apply sends_finish|apply sends_route_body].
Qed.

(** The worker that runs the continuation sends what is missing, whenever it runs. *)
Definition completes {R} (sent : nat) (q : prog ServerState (Result R)) : Prop :=
  ∀ later, ∃ l, tally rq later (fst (run q later)) l ∧
    length l = match snd (run q later) with Value _ => 1 - sent | Unexpected _ => 0 end.

Lemma continuation_completes {R} (ep : Endpoint R) task :
  completes (sent_so_far (Value (Continued task))) (run_continuation p client_takes rq ep task).
Proof.
  intros later. destruct (sends_continuation rq p client_takes ep task later) as (l & Ht & Hl).
  exists l. split; [done|]. rewrite Hl. destruct (snd _); cbn [once]; lia.
Qed.

(** C10: Every request on a live runtime is counted as often as it is answered, and it is answered
    once.  Whatever the route, the body, the key and the state, the handler sends at most one reply;
    it has sent one when it is finished, or when it left a stream to a worker, and none when it
    left the answer to a worker or threw; the worker, whenever it runs, then sends exactly what is
    missing, unless the answer cannot be built.  For each reply the request counter moved by one,
    and the error counter by one exactly when its status is at least 400. *)
Theorem every_request_counted header a r s :
  let '(s', h) := run (serve true header a r) s in
  ∃ l, tally rq s s' l ∧
    match h with
    | Value Finished => length l = 1
    | Value (ChatContinues t) => length l <= 1 ∧ ∀ start,
        completes (length l) (run_continuation p client_takes rq (completion_endpoint status_to_string start) t)
    | Value (ExtractionContinues t) => length l <= 1 ∧ ∀ request,
        completes (length l) (run_continuation p client_takes rq
          (extraction_endpoint p gen agent_id now_seconds status_to_string request) t)
    | Unexpected _ => l = []
    end.
Proof.
  destruct (sends_serve header a r s) as (l & Ht & Hl).
  destruct (run (serve true header a r) s) as [s' h]. exists l. split; [done|]. cbn [fst snd] in Hl.
  destruct h as [[|t|t]|what]; cbn [route_sent] in Hl.
  - done.
  - rewrite Hl. split; [destruct t; cbn; lia|]. intros start. apply continuation_completes.
  - rewrite Hl. split; [destruct t; cbn; lia|]. intros request. apply continuation_completes.
  - by destruct l.
Qed.

(** Nothing but the replies and their counters moved. *)
Definition untouched (s s' : ServerState) : Prop :=
  chat_service_ s' = chat_service_ s ∧ continuation_executor_ s' = continuation_executor_ s ∧
  registry s' = registry s ∧ stream_sessions s' = stream_sessions s.

Lemma respond_untouched response s :
  untouched s (fst (run (then! _ := respond rq response in Ret (Value Finished)) s)).
Proof.
  destruct response as [r|what]; [|done]. unfold try_prog, respond, reply.
  by rewrite !run_bind, run_on_metrics.
Qed.

(** C13: Authentication guards every route except /healthz.  With no key configured, or with the
    header "Bearer " and the key, the handler of the route runs; with any other header the request
    is answered with 401 [invalid_api_key], and the handler does not run: the chat service, the
    sessions, the executor and the disconnect registry are as they were. *)
Theorem unauthorized_requests_rejected header a r s :
  let rejected :=
    let '(s', h) := run (serve true header a r) s in
    answered rq (make_error_response (auth_error "Invalid API key" (Some "invalid_api_key"))) Finished s s' h ∧
    untouched s s' in
  match api_key config with
  | None => serve true header a r = route_body a r
  | Some key => if decide (header = "Bearer " +:+ key) then serve true header a r = route_body a r
                else rejected
  end.
Proof.
  rewrite serve_framed. unfold framed. cbn [negb]. destruct (api_key config) as [key|]; [|done].
  destruct (check_auth_spec key header) as [_ ->]. case_decide; [done|].
  set (response := make_error_response _).
  pose proof (run_then_value rq response _ Finished s (run_respond rq response s)) as Hanswered.
  pose proof (respond_untouched response s) as Hkeep. unfold respond_error. fold response.
  destruct (run _ s) as [s' h]. by split.
Qed.
End Serve.
