(* ===== verification/Replies.v ===== *)
(** * Which replies a client can get

    [known_error] of ErrorReference.v is docs/error-reference.md with the listed
    differences; [openapi_statuses] the table of docs/openapi.yaml, and
    [undocumented_statuses] what the code can also answer.
    [meets] of Atomic.v carries, section by section, that a handler only sends
    replies of its route, so the theorem holds for any number of requests and
    continuations, interleaved in any order. *)

From S2P Require Import Prelude Atomic ApiTypes ErrorReference SessionStore Executor Metrics Json ApiJson ApiJsonProofs.
From S2P Require Import ZooAdapter ChatService ToolSchema Config Auth Registry StreamSession Server Routes.
From S2P Require Import SessionStoreProofs ChatServiceProofs.

(** ** The documentation *)

(** docs/openapi.yaml: the statuses of each operation. *)
Definition openapi_statuses (r : Route) : list Z :=
  match r with
  | GetModels | GetTools | GetAgentHistory | GetSystemPrompt | GetRuntime | GetMetrics => [200; 401]
  | PostSessions _ => [201; 400; 401; 503]
  | GetSessionById _ => [200; 401; 404]
  | DeleteSessionById _ => [204; 401; 404]
  | PostChatCompletions _ | PostExtractions _ => [200; 400; 401; 409; 503]
  | PostAgentChat _ => [200; 400; 401; 503]
  | PostCancel _ => [202; 401; 404]
  | DeleteAgentHistory => [204; 401]
  | PutAgentHistory _ | PostHistorySwap _ | PostHistoryMessages _ | PutSystemPrompt _ => [200; 400; 401]
  end%Z.

(** What the handlers answer beyond it: every one when the runtime is gone, the
    sessions when they are disabled, the generation requests the agent's failures. *)
Definition undocumented_statuses (r : Route) : list Z :=
  match r with
  | PostSessions _ => []
  | GetSessionById _ | DeleteSessionById _ => [400; 503]
  | PostChatCompletions _ | PostExtractions _ => [404; 500]
  | PostAgentChat _ => [404; 409; 500]
  | _ => [503]
  end%Z.

Definition may_answer (r : Route) (status : Z) : Prop :=
  status ∈ openapi_statuses r ∨ status ∈ undocumented_statuses r.

Definition streams (r : Route) : bool :=
  match r with PostChatCompletions _ | PostExtractions _ => true | _ => false end.

(** A refusal that [r] may answer. *)
Definition error_of (r : Route) (e : ApiError) : Prop := known_error e ∧ may_answer r (http_status e).

(** A reply of [r]: a stream, the body of an error, or another body below 400. *)
Definition reply_of `{JsonLib} (r : Route) (reply : Reply) : Prop :=
  match reply with
  | EventStream _ => streams r = true
  | Respond response =>
      may_answer r (resp_status response) ∧
      ((resp_status response < 400)%Z ∨
       ∃ e, make_error_response e = Value response ∧ known_error e ∧ resp_status response = http_status e)
  end.

Definition refuses {A} (P : ApiError → Prop) (r : ApiResult A) : Prop :=
  match r with Value _ => True | Unexpected e => P e end.

(** ** What the service refuses with *)

Ltac refusal :=
  split; [in_reference|first [left; apply (bool_decide_unpack _); reflexivity|right; apply (bool_decide_unpack _); reflexivity]].

(** Walk down a program section by section; what is left are its refusals, and the
    calls whose own refusals matter. *)
Ltac walk_step :=
  match goal with
  | |- True => exact I
  | |- meets _ _ (Ret _) => cbn [meets refuses]
  | |- meets _ _ (if ?b then _ else _) => destruct b
  | |- meets _ _ (match ?x with _ => _ end) => destruct x
  | |- meets _ _ (@prog_bind _ (ApiResult _) _ _ _) => fail 1
  | |- meets _ _ (prog_bind _ _) => eapply meets_bind; [apply returns_any|intros ? _]
  end.

Ltac walk := unfold returns; repeat walk_step.

Section Refusals.
Context `{ZooCore} `{JsonLib}.
Variable p : StoreConfig.
Variable gen : GenerationOptions.
Variable context_size : Z.
Variable agent_id : nat → N.
Variable now_seconds : nat → Z.

Lemma returns_on_store {A} (Q : A → Prop) (q : prog SessionStore A) : returns Q q → returns Q (on_store q).
Proof. intros Hq. by apply meets_lift. Qed.

Lemma create_session_refusals body request :
  returns (refuses (error_of (PostSessions body))) (chat_create_session p request).
Proof.
  unfold chat_create_session, is_ready, create_session. walk; try refusal.
  apply returns_on_store. walk; refusal.
Qed.

Lemma get_session_refusals id : returns (refuses (error_of (GetSessionById id))) (chat_get_session p id).
Proof. apply returns_on_store. unfold get_session. walk; refusal. Qed.

Lemma delete_session_refusals id : returns (refuses (error_of (DeleteSessionById id))) (chat_delete_session p id).
Proof.
  unfold chat_delete_session. eapply meets_bind.
  - apply returns_on_store. instantiate (1 := refuses (error_of (DeleteSessionById id))).
    unfold delete_session. walk; refusal.
  - intros [u|e] He; [|exact He]. walk.
Qed.

(** The generation requests of a route that takes them. *)
Definition generates (r : Route) : bool :=
  match r with PostChatCompletions _ | PostExtractions _ | PostAgentChat _ => true | _ => false end.

Ltac by_route r := destruct r; try discriminate; refusal.

Lemma start_stateless_refusals r prefix model messages overrides submit :
  generates r = true →
  returns (refuses (error_of r)) (start_stateless p gen agent_id now_seconds prefix model messages overrides submit).
Proof.
  intros Hr. unfold start_stateless, is_ready, prepare_messages, agent_submit, fetch_completion_id.
  walk; try by_route r.
Qed.

(** The one refusal against the reference is [begin_request]'s. *)
Lemma one_user_message_refusal r : streams r = true → error_of r one_user_message_error.
Proof.
  intros Hr. split; [by right; right|]. destruct r; try discriminate; left; by apply (bool_decide_unpack _).
Qed.

(** It is what a session request with other messages than one user message gets: the error
    that the reference lists without a code. *)
Lemma session_messages_refused_with_code request id :
  enabled (config_ p) = true → is_Some (ccr_session_id request) → ccr_model request = model_id_ p →
  one_user_message (ccr_messages request) = None →
  begin_request p request id = Ret (Unexpected one_user_message_error) ∧
  lists one_user_message_error one_user_message_line = true ∧ one_user_message_line ∈ without_code ∧
  is_Some (code one_user_message_error).
Proof.
  intros He [session_id Hs] Hm Ho. split; [|exact one_user_message_contradicts].
  unfold begin_request. by rewrite He, Hs, Ho, bool_decide_true.
Qed.

Lemma begin_request_refusals r request id :
  streams r = true → is_Some (ccr_session_id request) →
  returns (refuses (error_of r)) (begin_request p request id).
Proof.
  intros Hr [session_id Hs]. unfold begin_request. rewrite Hs.
  walk; try solve [by_route r | by apply one_user_message_refusal].
  eapply meets_bind.
  - apply returns_atomically with (Q := refuses (error_of r)). intros st. unfold admit_section.
    repeat case_match; try done; by_route r.
  - by intros [messages|e].
Qed.

Lemma start_session_refusals r prefix request id overrides submit :
  streams r = true → is_Some (ccr_session_id request) →
  returns (refuses (error_of r)) (start_session p gen agent_id now_seconds prefix request id overrides submit).
Proof.
  intros Hr Hs. unfold start_session, is_ready. walk; try by_route r.
  eapply meets_bind; [by apply returns_on_store, (begin_request_refusals r)|].
  intros [begin|e] He; [|exact He]. walk.
Qed.

Lemma start_completion_refusals body request :
  returns (refuses (error_of (PostChatCompletions body))) (start_completion p gen agent_id now_seconds request).
Proof.
  unfold start_completion. destruct (ccr_session_id request) eqn:Hs;
    [apply start_session_refusals; [done|by rewrite Hs]|by apply start_stateless_refusals].
Qed.

Lemma start_extraction_refusals body request :
  returns (refuses (error_of (PostExtractions body))) (start_extraction p gen agent_id now_seconds request).
Proof.
  unfold start_extraction. destruct (er_session_id request);
    [by apply start_session_refusals; [|eexists]|by apply start_stateless_refusals].
Qed.

Lemma start_agent_chat_refusals body request :
  returns (refuses (error_of (PostAgentChat body))) (start_agent_chat p gen agent_id now_seconds request).
Proof.
  unfold start_agent_chat, is_ready. walk; try refusal. eapply meets_bind.
  - apply returns_atomically with (Q := refuses (error_of (PostAgentChat body))). intros s.
    unfold agent_chat_section. cbn. destruct (validate_message_sequence _ _); [done|refusal].
  - intros [messages|e] He; [|exact He]. walk.
Qed.

Lemma cancel_request_refusals id : returns (refuses (error_of (PostCancel id))) (cancel_request id).
Proof. unfold cancel_request. walk. refusal. Qed.

(** The calls on the agent's history and prompt. *)
Lemma guarded_refusals {A} r (q : prog ChatState (ApiResult A)) :
  may_answer r 503 → returns (refuses (error_of r)) q → returns (refuses (error_of r)) (guarded q).
Proof. intros Hr Hq. unfold guarded, is_ready. walk; [split; [in_reference|done]|done]. Qed.

Lemma append_refusals body m :
  returns (refuses (error_of (PostHistoryMessages body))) (append_agent_history_message context_size m).
Proof.
  apply guarded_refusals; [right; by left|]. eapply meets_bind.
  - apply returns_atomically with (Q := refuses (error_of (PostHistoryMessages body))). intros s.
    unfold append_section. destruct (validate_message_sequence _ _); [done|refusal].
  - intros [u|e] He; [|exact He]. walk.
Qed.

Lemma agent_refusals {A} r (q : prog ChatState A) :
  may_answer r 503 → returns (refuses (error_of r)) (guarded (do! h := q in Ret (Value h))).
Proof. intros Hr. apply guarded_refusals; [done|]. walk. Qed.

Lemma get_history_refusals : returns (refuses (error_of GetAgentHistory)) (get_agent_history context_size).
Proof. apply agent_refusals. right. by left. Qed.

Lemma clear_history_refusals : returns (refuses (error_of DeleteAgentHistory)) clear_agent_history.
Proof. apply guarded_refusals; [right; by left|walk]. Qed.

Lemma replace_history_refusals body messages :
  returns (refuses (error_of (PutAgentHistory body))) (replace_agent_history context_size messages).
Proof. apply guarded_refusals; [right; by left|walk]. Qed.

Lemma swap_history_refusals body messages :
  returns (refuses (error_of (PostHistorySwap body))) (swap_agent_history context_size messages).
Proof. apply agent_refusals. right. by left. Qed.

Lemma get_prompt_refusals : returns (refuses (error_of GetSystemPrompt)) get_system_prompt.
Proof. by apply returns_atomically. Qed.

Lemma set_prompt_refusals body prompt :
  returns (refuses (error_of (PutSystemPrompt body))) (chat_set_system_prompt prompt).
Proof. unfold chat_set_system_prompt. walk. Qed.
End Refusals.

Create HintDb refusals.
#[export] Hint Resolve create_session_refusals get_session_refusals delete_session_refusals
  cancel_request_refusals append_refusals get_history_refusals clear_history_refusals
  replace_history_refusals swap_history_refusals get_prompt_refusals set_prompt_refusals : refusals.

(** ** What the handlers send *)

Lemma check_auth_error key header e : check_auth key header = Some e → e = invalid_api_key.
Proof.
  destruct key as [key|]; [|done]. destruct (check_auth_spec key header) as [_ ->]. case_decide; [done|]. by intros [= <-].
Qed.

Section Sends.
Context `{ZooCore} `{JsonLib}.
Variable config : ServerConfig.
Variable p : StoreConfig.
Variable gen : GenerationOptions.
Variable tool_list : list ToolDefinition.
Variable agent_id : nat → N.
Variable now_seconds : nat → Z.
Variable status_to_string : ToolInvocationStatus → string.
Variable client_takes : nat → bool.
Variable uptime_seconds : Z.
(** The route of each request. *)
Variable route_of : nat → Route.

(** Every reply so far is one of its route. *)
Definition replies_fit (s : ServerState) : Prop :=
  ∀ rq reply, (rq, reply) ∈ replies s → reply_of (route_of rq) reply.

Definition keeps (s s' : ServerState) : Prop := replies_fit s → replies_fit s'.

(** A program that only sends replies of their routes. *)
Definition sends_fit {A} (q : prog ServerState A) : Prop := meets keeps (λ _, True) q.

Lemma fit_bind {A B} (q : prog ServerState A) (k : A → prog ServerState B) :
  sends_fit q → (∀ a, sends_fit (k a)) → sends_fit (prog_bind q k).
Proof. intros Hq Hk. eapply meets_bind; [exact Hq|]. intros a _. apply Hk. Qed.

Lemma fit_ret {A} (a : A) : sends_fit (Ret a).
Proof. exact I. Qed.

Lemma fit_atomically {A} (sec : ServerState → ServerState * A) :
  (∀ s, replies (fst (sec s)) = replies s) → sends_fit (atomically sec).
Proof. intros Hr. apply meets_atomically. intros s. split; [|done]. unfold keeps, replies_fit. by rewrite Hr. Qed.

Lemma fit_on_chat {A} (q : prog ChatState A) : sends_fit (on_chat q).
Proof. apply meets_lift; [intros x s Hs; exact Hs|apply returns_any]. Qed.

Lemma fit_on_metrics {A} (q : prog ServerMetrics A) : sends_fit (on_metrics q).
Proof. apply meets_lift; [intros x s Hs; exact Hs|apply returns_any]. Qed.

Lemma fit_on_session {A} i (q : prog StreamState A) : sends_fit (on_session i q).
Proof. apply meets_lift; [intros x s Hs; exact Hs|apply returns_any]. Qed.

Lemma fit_try {A B} (q : prog ServerState (Result A)) (k : A → prog ServerState (Result B)) :
  sends_fit q → (∀ a, sends_fit (k a)) → sends_fit (try_prog q k).
Proof. intros Hq Hk. apply fit_bind; [done|]. intros [a|e]; [apply Hk|exact I]. Qed.

Lemma fit_submit task : sends_fit (submit_background task).
Proof.
  apply fit_atomically. intros s. unfold submit_section. destruct (runtime_stopping s); [done|].
  by destruct (submit task _).
Qed.

(** A call on the service, with what it refuses with. *)
Lemma fit_call {A B} r (q : prog ChatState (ApiResult A)) (k : ApiResult A → prog ServerState B) :
  returns (refuses (error_of r)) q → (∀ res, refuses (error_of r) res → sends_fit (k res)) →
  sends_fit (prog_bind (on_chat q) k).
Proof. intros Hq Hk. eapply meets_bind; [apply meets_lift; [intros x s Hs; exact Hs|exact Hq]|exact Hk]. Qed.

Create HintDb fit.
Hint Resolve fit_bind fit_ret fit_on_chat fit_on_metrics fit_on_session fit_try fit_submit : fit.

Section Route.
Variable rq : nat.

Lemma fit_send_reply reply : reply_of (route_of rq) reply → sends_fit (send_reply rq reply).
Proof.
  intros Hr. apply meets_atomically. intros s. split; [|done]. intros Hs q rep. cbn.
  rewrite elem_of_app, list_elem_of_singleton. intros [Hin|[= -> ->]]; [by apply Hs|done].
Qed.

Lemma fit_reply reply : reply_of (route_of rq) reply → sends_fit (Server.reply rq reply).
Proof. intros Hr. apply fit_bind; [apply fit_on_metrics|intros _; by apply fit_send_reply]. Qed.

Lemma fit_respond response :
  (∀ r, response = Value r → reply_of (route_of rq) (Respond r)) → sends_fit (respond rq response).
Proof.
  intros Hr. destruct response as [r|what]; [|exact I]. apply fit_bind; [by apply fit_reply, Hr|intros _; exact I].
Qed.

Lemma json_response_status body status r : make_json_response body status = Value r → resp_status r = status.
Proof. unfold make_json_response. destruct (json_dump body); cbn; [|done]. by intros [= <-]. Qed.

Lemma fit_respond_error e : error_of (route_of rq) e → sends_fit (respond_error rq e).
Proof.
  intros [Hd Hs]. apply fit_respond. intros r Hr. split.
  - by rewrite (json_response_status _ _ _ Hr).
  - right. exists e. by rewrite (json_response_status _ _ _ Hr).
Qed.

(** A body below 400. *)
Lemma fit_respond_ok status (response : Result HttpResponse) :
  (∀ r, response = Value r → resp_status r = status) → may_answer (route_of rq) status → (status < 400)%Z →
  sends_fit (respond rq response).
Proof. intros Hs Hm Hl. apply fit_respond. intros r Hr. rewrite <-(Hs r Hr) in *. split; [done|by left]. Qed.

Lemma fit_respond_json body status :
  may_answer (route_of rq) status → (status < 400)%Z → sends_fit (respond rq (make_json_response body status)).
Proof. apply fit_respond_ok. intros r. apply json_response_status. Qed.

Lemma runtime_error_fits r e : generates r = true → error_of r (map_runtime_error_to_api_error e).
Proof. intros Hr. unfold map_runtime_error_to_api_error. destruct r; try discriminate; destruct (re_code e); refusal. Qed.

Section Flow.
Context {R : Type}.
Variable ep : Endpoint R.
Hypothesis Hgen : generates (route_of rq) = true.
Hypothesis Hstart : returns (refuses (error_of (route_of rq))) (ep_start ep).
Hypothesis Hok : ∀ id t m r response, ep_response ep id t m r = Value response → resp_status response = 200%Z.

Lemma generates_200 : may_answer (route_of rq) 200.
Proof. clear -Hgen. destruct (route_of rq); try discriminate; left; by left. Qed.

Lemma fit_refuse e : error_of (route_of rq) e → sends_fit (refuse (R := R) rq e).
Proof.
  intros He. apply fit_bind; [destruct (bool_decide _); auto with fit|]. intros _.
  apply fit_try; [by apply fit_respond_error|auto with fit].
Qed.

Lemma fit_answer pending result : sends_fit (answer p rq ep pending result).
Proof.
  apply fit_bind; [apply fit_on_metrics|]. intros _. apply fit_bind; [apply fit_on_chat|]. intros _.
  destruct result as [r|e]; [|by apply fit_respond_error, runtime_error_fits].
  apply (fit_respond_ok 200); [apply Hok|apply generates_200|done].
Qed.

Lemma fit_start_non_stream ready result : sends_fit (start_non_stream p rq ep ready result).
Proof.
  eapply fit_call; [exact Hstart|]. intros [pending|e] He; [|by apply fit_refuse].
  destruct ready; [apply fit_try; [apply fit_answer|auto with fit]|].
  apply fit_bind; [apply fit_submit|]. intros [u|e]; [auto with fit|].
  apply fit_bind; [apply fit_on_chat|intros _; exact I].
Qed.

Lemma fit_or_release {A} pending (q : prog ServerState (Result A)) : sends_fit q → sends_fit (or_release p pending q).
Proof.
  intros Hq. apply fit_bind; [done|]. intros [a|e]; [exact I|].
  apply fit_bind; [apply fit_on_chat|intros _; exact I].
Qed.

Lemma fit_clear callback : sends_fit (clear_disconnect callback).
Proof. destruct callback as [[c id]|]; [by apply fit_atomically|exact I]. Qed.

Lemma fit_track connection i request : sends_fit (track_disconnect connection i request).
Proof.
  destruct connection as [c|]; [|exact I]. apply fit_atomically. intros s. by destruct (track c _ _).
Qed.

Lemma fit_start_stream connection ready result :
  streams (route_of rq) = true → sends_fit (start_stream p client_takes rq ep connection ready result).
Proof.
  intros Hs. apply fit_bind; [by apply fit_atomically|]. intros i.
  eapply fit_call; [exact Hstart|]. intros [pending|e] He; [|by apply fit_refuse].
  apply fit_try; [apply fit_or_release, fit_on_session|]. intros _.
  apply fit_try; [apply fit_on_session|]. intros _. destruct ready.
  - destruct result as [r|e]; [|apply fit_try; [apply fit_answer|auto with fit]].
    apply fit_bind; [apply fit_on_metrics|]. intros _.
    apply fit_try; [apply fit_or_release, fit_on_session|]. intros _.
    apply fit_bind; [apply fit_on_chat|]. intros _. apply fit_bind; [by apply fit_reply|auto with fit].
  - apply fit_bind; [apply fit_track|]. intros callback. apply fit_bind; [apply fit_submit|]. intros [u|e].
    + apply fit_bind; [by apply fit_reply|auto with fit].
    + apply fit_bind; [apply fit_on_chat|]. intros _. apply fit_bind; [apply fit_clear|intros _; exact I].
Qed.

Lemma fit_run_continuation task : sends_fit (run_continuation p client_takes rq ep task).
Proof.
  destruct task as [pending result|i callback pending result]; [apply fit_answer|].
  apply fit_bind; [apply fit_clear|]. intros _. apply fit_bind; [apply fit_on_metrics|]. intros _.
  apply fit_try; [apply fit_or_release, fit_on_session|]. intros _.
  apply fit_bind; [apply fit_on_chat|auto with fit].
Qed.
End Flow.

(** The parts of a handler. *)
Lemma fit_finish (q : prog ServerState (Result unit)) :
  sends_fit q → sends_fit (then! _ := q in Ret (Value Finished)).
Proof. intros Hq. apply fit_try; [done|auto with fit]. Qed.

Lemma fit_reply_with {A} (r : ApiResult A) k :
  refuses (error_of (route_of rq)) r → (∀ a, sends_fit (respond rq (k a))) → sends_fit (reply_with rq r k).
Proof. intros Hr Hk. apply fit_finish. destruct r as [a|e]; [apply Hk|by apply fit_respond_error]. Qed.

Lemma fit_call_service {A} (q : prog ChatState (ApiResult A)) k :
  returns (refuses (error_of (route_of rq))) q → (∀ a, sends_fit (respond rq (k a))) →
  sends_fit (call_service rq q k).
Proof. intros Hq Hk. eapply fit_call; [exact Hq|]. intros r Hr. by apply fit_reply_with. Qed.

Lemma client_errors_fit {A} (r : ApiResult A) :
  client_errors r → may_answer (route_of rq) 400 → refuses (error_of (route_of rq)) r.
Proof.
  intros He Hm. destruct r as [a|e]; [done|]. cbn in *. destruct He as [Hs Hk]. split; [done|by rewrite Hs].
Qed.

Lemma fit_with_parsed {A} (parsed : ApiResult A) k :
  client_errors parsed → may_answer (route_of rq) 400 → (∀ a, sends_fit (k a)) →
  sends_fit (with_parsed rq parsed k).
Proof.
  intros He Hm Hk. pose proof (client_errors_fit parsed He Hm) as Hr. unfold with_parsed.
  destruct parsed as [a|e]; [apply Hk|]. by apply fit_finish, fit_respond_error.
Qed.
End Route.

Ltac answers Hr := rewrite Hr; first [left; apply (bool_decide_unpack _); reflexivity|right; apply (bool_decide_unpack _); reflexivity].

(** A handler: parse, call the service, reply. *)
Ltac handler Hr :=
  repeat first
    [ apply fit_with_parsed; [apply parsers_refuse_with_400|answers Hr|intros ?]
    | apply fit_call_service; [rewrite Hr; solve [auto with refusals]|intros ?]
    | apply fit_reply_with; [exact I|intros ?]
    | apply fit_respond_json; [answers Hr|done]
    | eapply fit_respond_ok; [by intros ? [= <-]|answers Hr|done] ].

Lemma fit_load_counters cs acc : sends_fit (load_counters cs acc).
Proof.
  revert acc. induction cs as [|c cs IH]; intros acc; [exact I|].
  apply fit_bind; [apply fit_on_metrics|]. intros n. apply IH.
Qed.

(** The endpoint of a generation route, its hypotheses discharged. *)
Ltac endpoint Hr lem :=
  apply lem; [by rewrite Hr|rewrite Hr; first [apply start_completion_refusals|apply start_extraction_refusals
    |apply start_agent_chat_refusals]|by intros ?????; apply json_response_status|..].

Lemma fit_route_body rq a :
  sends_fit (route_body config p gen tool_list agent_id now_seconds status_to_string client_takes
               uptime_seconds rq a (route_of rq)).
Proof.
  destruct (route_of rq) as [ | |body|id|id|body|body|body|id| |body| |body|body| |body| | ] eqn:Hr;
    cbn [route_body]; try solve [handler Hr].
  - apply fit_with_parsed; [apply parsers_refuse_with_400|answers Hr|]. intros request.
    apply fit_try; [|auto with fit]. destruct (negb _); [endpoint Hr fit_start_non_stream|].
    endpoint Hr fit_start_stream. by rewrite Hr.
  - apply fit_with_parsed; [apply parsers_refuse_with_400|answers Hr|]. intros request.
    apply fit_try; [|auto with fit]. destruct (negb _); [endpoint Hr fit_start_non_stream|].
    endpoint Hr fit_start_stream. by rewrite Hr.
  - apply fit_with_parsed; [apply parsers_refuse_with_400|answers Hr|]. intros request.
    apply fit_try; [|auto with fit]. endpoint Hr fit_start_non_stream.
  - apply fit_bind; [apply fit_on_chat|]. intros ready. apply fit_bind; [apply fit_on_chat|]. intros h. handler Hr.
  - apply fit_bind; [|intros m; handler Hr]. apply fit_bind; [apply fit_load_counters|]. intros c.
    apply fit_bind; [apply fit_on_chat|auto with fit].
Qed.

Lemma fit_serve rq alive header a :
  sends_fit (serve config p gen tool_list agent_id now_seconds status_to_string client_takes
               uptime_seconds rq alive header a (route_of rq)).
Proof.
  rewrite serve_framed. unfold framed. destruct alive; cbn [negb].
  - destruct (check_auth _ _) as [e|] eqn:He; [|apply fit_route_body].
    apply fit_finish, fit_respond_error. rewrite (check_auth_error _ _ _ He).
    destruct (route_of rq); refusal.
  - unfold reply_uncounted.
    destruct (make_error_response _) as [response|what] eqn:Hresp; [|exact I].
    apply fit_bind; [|intros _; exact I]. apply fit_send_reply. split.
    + rewrite (json_response_status _ _ _ Hresp). destruct (route_of rq); first [left; apply (bool_decide_unpack _); reflexivity|right; apply (bool_decide_unpack _); reflexivity].
    + right. eexists. split; [exact Hresp|]. split; [in_reference|apply (json_response_status _ _ _ Hresp)].
Qed.
End Sends.

(** ** Any number of requests *)

Section Replies.
Context `{ZooCore} `{JsonLib}.
Variable config : ServerConfig.
Variable p : StoreConfig.
Variable gen : GenerationOptions.
Variable tool_list : list ToolDefinition.
Variable agent_id : nat → N.
Variable now_seconds : nat → Z.
Variable status_to_string : ToolInvocationStatus → string.
Variable client_takes : nat → bool.
Variable uptime_seconds : Z.
Variable route_of : nat → Route.

Definition handle (rq : nat) (alive : bool) (header : string) (a : AgentAnswer) : prog ServerState unit :=
  do! _ := serve config p gen tool_list agent_id now_seconds status_to_string client_takes uptime_seconds
             rq alive header a (route_of rq) in Ret ().

Definition continue {R} (rq : nat) (ep : Endpoint R) (task : Continuation R) : prog ServerState unit :=
  do! _ := run_continuation p client_takes rq ep task in Ret ().

Definition completes_chat (r : Route) : bool :=
  match r with PostChatCompletions _ | PostAgentChat _ => true | _ => false end.

Definition completes_extraction (r : Route) : bool :=
  match r with PostExtractions _ => true | _ => false end.

(** What the threads of the server run: handlers, continuations of the generation
    requests, and what follows a connection that goes away. *)
Inductive server_op : prog ServerState unit → Prop :=
| op_handler rq alive header a : server_op (handle rq alive header a)
| op_completion rq start task :
    completes_chat (route_of rq) = true →
    server_op (continue rq (completion_endpoint status_to_string start) task)
| op_extraction rq request task :
    completes_extraction (route_of rq) = true →
    server_op (continue rq (extraction_endpoint p gen agent_id now_seconds status_to_string request) task)
| op_disconnect connection : server_op (handle_disconnect connection).

Lemma fit_disconnect connection : sends_fit route_of (handle_disconnect connection).
Proof.
  unfold handle_disconnect. apply fit_bind; [by apply fit_atomically|]. intros callbacks.
  induction callbacks as [|[id callback] l IH]; [exact I|]. cbn [run_callbacks].
  apply fit_bind; [|intros _; apply fit_bind; [by apply fit_atomically|intros _; exact IH]].
  apply fit_bind; [apply fit_on_session|]. intros _. apply fit_bind; [apply fit_on_chat|].
  intros _. apply fit_on_metrics.
Qed.

Lemma server_op_fits q : server_op q → sends_fit route_of q.
Proof.
  intros [rq alive header a|rq start task Hr|rq request task Hr|connection].
  - apply fit_bind; [apply fit_serve|intros _; exact I].
  - apply fit_bind; [|intros _; exact I]. apply fit_run_continuation.
    + by destruct (route_of rq).
    + by intros ?????; apply json_response_status.
  - apply fit_bind; [|intros _; exact I]. apply fit_run_continuation.
    + by destruct (route_of rq).
    + by intros ?????; apply json_response_status.
  - apply fit_disconnect.
Qed.

End Replies.

(** ** Witness *)

Module Witness.
Import ZooDemo ApiJsonProofs.Witness SessionStoreProofs.Witness ChatServiceProofs.Race ChatServiceProofs.Witness.

(** The first request has no key, the second a body that is not JSON. *)
Definition routes (rq : nat) : Route := match rq with 0 => GetMetrics | _ => PostChatCompletions "not json" end.

Definition idle : ServerState :=
  {| chat_service_ := s0; server_metrics := new_metrics; continuation_executor_ := new_executor 1 1;
     runtime_stopping := false; registry := new_registry; stream_sessions := []; replies := [] |}.

Definition agent_answer : AgentAnswer :=
  {| answer_ready := false; completion_result := Unexpected (runtime_error RequestTimeout "late");
     extraction_result := Unexpected (runtime_error RequestTimeout "late"); request_connection := None |}.

Definition request (rq : nat) (header : string) : prog ServerState unit :=
  handle Config.Witness.sample cfg gen0 [] ids times (λ _, "succeeded") (λ _, true) 0 routes rq true header agent_answer.

Definition served : ServerState * list (prog ServerState unit) :=
  run_schedule [0; 1; 0; 1; 0; 1; 0; 1] (idle, [request 0 ""; request 1 "Bearer secret"]).

Definition statuses (s : ServerState) : list (nat * Z) := (λ x, (x.1, reply_status x.2)) <$> replies s.

Lemma served_statuses : statuses (fst served) = [(0, 401%Z); (1, 400%Z)].
Proof. vm_compute. reflexivity. Qed.

End Witness.
