(* ===== verification/App.v ===== *)
(** * main.cpp, http_server.cpp, test_ui.cpp: the process

    [TestUi] is the page of the test build, whose boot data is JSON inside a
    script element; [HttpServer] the configuration given to Drogon and the CORS
    advice, a pure function of the request's [Origin]; [Main] the program: its
    output, in order, and its exit code. *)

From S2P Require Import Prelude Atomic ApiTypes SessionStore Json ApiJson ZooAdapter ChatService ToolSchema.
From S2P Require Import CommandTools Config Server Routes Runtime.

(** ** test_ui.cpp *)

Module TestUi.

(** [json.replace(pos, len, w)]. *)
Definition replace_at (pos len : nat) (w s : string) : string :=
  String.substring 0 pos s +:+ w +:+ String.substring (pos + len) (String.length s - (pos + len)) s.

(** The loop of [escape_script_json], [String.index] being [find]. *)
Fixpoint escape_loop (fuel pos : nat) (s : string) : string :=
  match fuel with
  | O => s
  | S fuel =>
      match String.index pos "</" s with
      | None => s
      | Some at_ => escape_loop fuel (at_ + 3) (replace_at at_ 2 "<\/" s)
      end
  end.

Definition escape_script_json (s : string) : string := escape_loop (S (String.length s)) 0 s.

Section Page.
Context `{JsonLib}.
(** The two files embedded by the build. *)
Variable html_prefix html_suffix : string.

Definition boot_json (ready : bool) (id : string) (h : SessionHealth) : json :=
  jobject [("health", jobject [("ready", JBoolean ready); ("model", jobject [("id", JString id)]);
    ("sessions", jobject [("enabled", JBoolean (sh_enabled h)); ("active", JInteger (Z.of_nat (sh_active h)));
                          ("max_sessions", JInteger (Z.of_N (sh_max_sessions h)));
                          ("idle_ttl_seconds", JInteger (sh_idle_ttl_seconds h))])])].

(** The header [Cache-Control: no-store] is left out, as all headers of responses are. *)
Definition make_test_ui_response (ready : bool) (id : string) (h : SessionHealth) : Result HttpResponse :=
  try! text := json_dump (boot_json ready id h) in
  Value {| resp_status := 200; resp_content_type := "text/html; charset=utf-8";
           resp_body := html_prefix +:+ escape_script_json text +:+ html_suffix |}.

(** The handler of [/_test]: no key, no counter. *)
Definition serve_test_ui `{ZooCore} (config : ServerConfig) (p : StoreConfig) (rq : nat) (alive : bool)
    : prog ServerState (Result Outcome) :=
  do! response := (if negb alive
    then Ret (make_test_ui_response false "" {| sh_enabled := false; sh_active := 0; sh_max_sessions := 0;
                                                sh_idle_ttl_seconds := 0 |})
    else do! ready := on_chat is_ready in
         do! h := session_health p in
         Ret (make_test_ui_response ready (model_id config) h)) in
  reply_uncounted rq response.
End Page.

(** The reference: one pass over the characters. *)
Fixpoint escaped (s : string) : string :=
  match s with
  | EmptyString => EmptyString
  | String c rest =>
      match rest with
      | String d rest' =>
          if decide (c = "<"%char ∧ d = "/"%char) then "<\/" +:+ escaped rest' else String c (escaped rest)
      | EmptyString => String c EmptyString
      end
  end.

Lemma index_skip a t s :
  String.index (String.length a) t (a +:+ s) = (λ n, String.length a + n) <$> String.index 0 t s.
Proof.
  induction a as [|c a IH]; cbn [String.append String.length].
  { change ("" +:+ s) with s. by destruct (String.index 0 t s). }
  change (String c a +:+ s) with (String c (a +:+ s)). cbn [String.index]. rewrite IH.
  by destruct (String.index 0 t s).
Qed.
Lemma replace_at_spec a m w r :
  replace_at (String.length a) (String.length m) w (a +:+ m +:+ r) = a +:+ w +:+ r.
Proof.
  unfold replace_at. rewrite substring_app, <-string_length_app, <-!string_app_assoc, (string_length_app (a +:+ m) r).
  by rewrite Nat.add_comm, Nat.add_sub, substring_skip.
Qed.

Definition closes (c : Ascii.ascii) (s : string) : Prop := c = "<"%char ∧ ∃ r, s = String "/" r.

Lemma escaped_cons c s : ¬ closes c s → escaped (String c s) = String c (escaped s).
Proof.
  intros Hc. destruct s as [|d r]; [done|]. cbn [escaped]. rewrite decide_False; [done|].
  intros [-> ->]. apply Hc. split; [done|by exists r].
Qed.

Lemma closes_cases c s : (c = "<"%char ∧ ∃ r, s = String "/" r) ∨ ¬ closes c s.
Proof.
  destruct (decide (c = "<"%char)) as [->|Hc]; [|right; by intros [? _]].
  destruct s as [|d r]; [right; by intros [_ [? ?]]|].
  destruct (decide (d = "/"%char)) as [->|Hd]; [left; eauto|]. right. intros [_ [? [= ? _]]]. done.
Qed.

Lemma index_cons c s :
  ¬ closes c s → String.index 0 "</" (String c s) = S <$> String.index 0 "</" s.
Proof.
  intros Hc. cbn [String.index String.prefix].
  destruct (Ascii.ascii_dec "<" c) as [<-|]; [|by destruct (String.index 0 "</" s)].
  destruct s as [|d r]; [done|]. cbn [String.prefix].
  destruct (Ascii.ascii_dec "/" d) as [<-|]; [|by destruct (String.index 0 "</" (String d r))].
  destruct Hc. split; [done|by exists r].
Qed.

Lemma index_here r : String.index 0 "</" (String "<" (String "/" r)) = Some 0.
Proof. by destruct r. Qed.

(** The first occurrence that [find] reports is the first one that [escaped] rewrites. *)
Lemma escaped_index s :
  match String.index 0 "</" s with
  | None => escaped s = s
  | Some n => ∃ b r, s = b +:+ "</" +:+ r ∧ n = String.length b ∧ escaped s = b +:+ "<\/" +:+ escaped r
  end.
Proof.
  induction s as [|c s IH]; [done|]. destruct (closes_cases c s) as [(-> & r & ->)|Hc].
  { rewrite index_here. by exists "", r. }
  rewrite index_cons, escaped_cons by done. destruct (String.index 0 "</" s) as [n|]; cbn.
  - destruct IH as (b & r & -> & -> & ->). by exists (String c b), r.
  - by rewrite IH.
Qed.

(** The fuel is the number of characters left. *)
Lemma escape_loop_spec fuel a s :
  String.length s < fuel → escape_loop fuel (String.length a) (a +:+ s) = a +:+ escaped s.
Proof.
  revert a s. induction fuel as [|fuel IH]; intros a s Hs; [lia|]. cbn [escape_loop].
  rewrite index_skip. pose proof (escaped_index s) as He. destruct (String.index 0 "</" s) as [n|]; cbn [fmap option_fmap option_map].
  - destruct He as (b & r & -> & -> & ->). rewrite !string_length_app in Hs. cbn in Hs.
    rewrite <-string_length_app, <-string_app_assoc.
    pose proof (replace_at_spec (a +:+ b) "</" "<\/" r) as Hr. cbn [String.length] in Hr. rewrite Hr.
    change 3 with (String.length "<\/"). rewrite <-string_length_app, <-string_app_assoc, IH by lia.
    by rewrite !string_app_assoc.
  - by rewrite He.
Qed.

Lemma escaped_head s r : escaped s = String "/" r → ∃ r', s = String "/" r'.
Proof.
  destruct s as [|c s]; [done|]. destruct (closes_cases c s) as [(-> & r' & ->)|Hc]; [done|].
  rewrite escaped_cons by done. intros [= -> _]. by exists s.
Qed.

Lemma escaped_safe s : String.index 0 "</" (escaped s) = None.
Proof.
  remember (String.length s) as n eqn:Hn. revert s Hn.
  induction (lt_wf n) as [n _ IH]. intros s ->.
  destruct s as [|c s]; [done|]. destruct (closes_cases c s) as [(-> & r & ->)|Hc].
  - change (escaped (String "<" (String "/" r))) with (String "<" (String "\" (String "/" (escaped r)))).
    rewrite !index_cons; [|by intros [? _]|by intros [? _]|by intros [_ [? ?]]].
    by rewrite (IH (String.length r)) by (cbn; lia).
  - rewrite escaped_cons by done. rewrite index_cons; [by rewrite (IH (String.length s)) by (cbn; lia)|].
    intros [-> [r Hr]]. apply Hc. split; [done|]. by eapply escaped_head.
Qed.

(** The text as a JSON reader sees it: a backslash and the next character are one
    escape, and the escape of a slash is the slash. *)
Fixpoint unescaped (s : string) : string :=
  match s with
  | EmptyString => EmptyString
  | String c rest =>
      match rest with
      | String d rest' =>
          if decide (c = "\"%char)
          then if decide (d = "/"%char) then String "/" (unescaped rest') else String c (String d (unescaped rest'))
          else String c (unescaped rest)
      | EmptyString => String c EmptyString
      end
  end.

Lemma unescaped_cons c s : c ≠ "\"%char → unescaped (String c s) = String c (unescaped s).
Proof. intros Hc. destruct s as [|d s]; [done|]. cbn [unescaped]. by rewrite decide_False. Qed.

Lemma unescaped_slash s : unescaped (String "\" (String "/" s)) = String "/" (unescaped s).
Proof. done. Qed.

Lemma unescaped_pair d s :
  d ≠ "/"%char → unescaped (String "\" (String d s)) = String "\" (String d (unescaped s)).
Proof. intros Hd. cbn [unescaped]. by rewrite decide_True, decide_False. Qed.

Lemma unescaped_escaped s : unescaped (escaped s) = unescaped s.
Proof.
  remember (String.length s) as n eqn:Hn. revert s Hn.
  induction (lt_wf n) as [n _ IH]. intros s ->.
  assert (∀ s', String.length s' < String.length s → unescaped (escaped s') = unescaped s') as Hs by eauto. clear IH.
  destruct s as [|c s]; [done|]. destruct (closes_cases c s) as [(-> & r & ->)|Hc].
  { change (escaped (String "<" (String "/" r))) with (String "<" (String "\" (String "/" (escaped r)))).
    rewrite !(unescaped_cons "<"), (unescaped_cons "/"), unescaped_slash, Hs by first [done|cbn; lia]. done. }
  rewrite escaped_cons by done. destruct (decide (c = "\"%char)) as [->|Hb].
  2: { rewrite !unescaped_cons by done. by rewrite Hs by (cbn; lia). }
  destruct s as [|d s]; [done|]. destruct (closes_cases d s) as [(-> & r & ->)|Hd].
  - change (escaped (String "<" (String "/" r))) with (String "<" (String "\" (String "/" (escaped r)))).
    rewrite !(unescaped_pair "<"), unescaped_slash, (unescaped_cons "/"), Hs by first [done|cbn; lia]. done.
  - rewrite escaped_cons by done. destruct (decide (d = "/"%char)) as [->|].
    + rewrite unescaped_slash, Hs by (cbn; lia). done.
    + rewrite !(unescaped_pair d), Hs by first [done|cbn; lia]. done.
Qed.

(** The test page keeps its boot data inside the script element: whatever the model's name
    holds, the text inserted between the two halves of the page has no closing tag in it, and it
    reads as the JSON text that was dumped. *)
Theorem test_ui_boot_confined `{JsonLib} html_prefix html_suffix ready id h :
  match json_dump (boot_json ready id h), make_test_ui_response html_prefix html_suffix ready id h with
  | Value text, Value page =>
      resp_status page = 200%Z ∧ resp_body page = html_prefix +:+ escaped text +:+ html_suffix ∧
      String.index 0 "</" (escaped text) = None ∧ unescaped (escaped text) = unescaped text
  | Unexpected e, Unexpected e' => e = e'
  | _, _ => False
  end.
Proof.
  unfold make_test_ui_response. destruct (json_dump _) as [text|e]; cbn [expected_bind]; [|done].
  split; [done|]. split; [|by split; [apply escaped_safe|apply unescaped_escaped]]. cbn [resp_body].
  pose proof (escape_loop_spec (S (String.length text)) "" text ltac:(lia)) as He.
  change ("" +:+ text) with text in He. unfold escape_script_json. cbn [String.length] in He. by rewrite He.
Qed.
End TestUi.

(** ** http_server.cpp *)

Module HttpServer.

(** The advice: the header added to the response of a request with this [Origin]. *)
Fixpoint allow_origin (cors_origins : list string) (origin : string) : option string :=
  match cors_origins with
  | [] => None
  | allowed :: rest =>
      if decide (allowed = "*") then Some "*"
      else if decide (allowed = origin) then Some origin
      else allow_origin rest origin
  end.

Definition cors_advice (cors_origins : list string) (origin : string) : option string :=
  if is_empty origin then None else allow_origin cors_origins origin.

(** What a response carries: the advice is registered when there are origins. *)
Definition cors_header (c : ServerConfig) (origin : string) : option string :=
  match cors_allow_origins (http c) with
  | [] => None
  | origins => cors_advice origins origin
  end.

Inductive Method : Type := Get | Post | Put | Delete | Options.

#[global] Instance Method_eq_dec : EqDecision Method.
Proof. solve_decision. Defined.

(** [register_health_routes]; [register_api_routes], in the order of the calls;
    [register_test_ui_routes]. *)
Definition health_routes : list (Method * string) := [(Get, "/healthz")].

Definition api_routes (c : ServerConfig) : list (Method * string) :=
  (if decide (cors_allow_origins (http c) = []) then [] else [(Options, "/{path}")]) ++
  [(Get, "/v1/models"); (Get, "/v1/tools"); (Post, "/v1/sessions");
   (Get, "/v1/sessions/{session-id}"); (Delete, "/v1/sessions/{session-id}");
   (Post, "/v1/chat/completions"); (Post, "/v1/extractions"); (Post, "/v1/agent/chat");
   (Post, "/v1/requests/{request-id}/cancel");
   (Get, "/v1/agent/history"); (Put, "/v1/agent/history"); (Delete, "/v1/agent/history");
   (Post, "/v1/agent/history:swap"); (Post, "/v1/agent/history/messages");
   (Get, "/v1/agent/system-prompt"); (Put, "/v1/agent/system-prompt");
   (Get, "/v1/runtime"); (Get, "/metrics")].

(** The registration that a handler of Routes.v comes from. *)
Definition registration (r : Route) : Method * string :=
  match r with
  | GetModels => (Get, "/v1/models")
  | GetTools => (Get, "/v1/tools")
  | PostSessions _ => (Post, "/v1/sessions")
  | GetSessionById _ => (Get, "/v1/sessions/{session-id}")
  | DeleteSessionById _ => (Delete, "/v1/sessions/{session-id}")
  | PostChatCompletions _ => (Post, "/v1/chat/completions")
  | PostExtractions _ => (Post, "/v1/extractions")
  | PostAgentChat _ => (Post, "/v1/agent/chat")
  | PostCancel _ => (Post, "/v1/requests/{request-id}/cancel")
  | GetAgentHistory => (Get, "/v1/agent/history")
  | PutAgentHistory _ => (Put, "/v1/agent/history")
  | DeleteAgentHistory => (Delete, "/v1/agent/history")
  | PostHistorySwap _ => (Post, "/v1/agent/history:swap")
  | PostHistoryMessages _ => (Post, "/v1/agent/history/messages")
  | GetSystemPrompt => (Get, "/v1/agent/system-prompt")
  | PutSystemPrompt _ => (Put, "/v1/agent/system-prompt")
  | GetRuntime => (Get, "/v1/runtime")
  | GetMetrics => (Get, "/metrics")
  end.

Definition test_ui_routes : list (Method * string) := [(Get, "/_test")].

(** The preflight handler adds these to a response without content. *)
Definition preflight_headers : list (string * string) :=
  [("Access-Control-Allow-Methods", "GET, POST, DELETE, OPTIONS");
   ("Access-Control-Allow-Headers", "Authorization, Content-Type");
   ("Access-Control-Max-Age", "86400")].

(** What [drogon::app()] is given before [run]. *)
Record DrogonSetup : Type := {
  ds_routes : list (Method * string);
  ds_cors_origins : list string;
  ds_address : string;
  ds_port : Z;
  ds_max_body_size : Z;               (* size_t *)
  ds_max_memory_body_size : Z;        (* size_t *)
  ds_idle_timeout : Z;
}.

(** The visible actions of the process, in order; [Serve] is [app.run()], which
    returns when a signal handler quits the application. *)
Inductive AppEvent : Type :=
| Stdout (line : string)
| Stderr (line : string)
| Log (line : string)
| Serve (setup : DrogonSetup)
| StopRuntime.

Definition drogon_setup (c : ServerConfig) (enable_test_ui : bool) : DrogonSetup :=
  {| ds_routes := health_routes ++ api_routes c ++ (if enable_test_ui then test_ui_routes else []);
     ds_cors_origins := cors_allow_origins (http c);
     ds_address := bind_address c; ds_port := port c;
     ds_max_body_size := to_uint64 (client_max_body_size_bytes (http c));
     ds_max_memory_body_size := to_uint64 (client_max_memory_body_size_bytes (http c));
     ds_idle_timeout := idle_connection_timeout_seconds (http c) |}.

(** [HttpServer::run]; a port prints as a number. *)
Definition run (runtime : option ServerRuntime) (enable_test_ui : bool) : list AppEvent * Z :=
  match runtime with
  | None => ([Stderr "Server runtime is not initialized."], 1%Z)
  | Some runtime =>
      let c := rt_config runtime in
      ([Log ("zoo-keeper-server listening on " +:+ bind_address c +:+ ":" +:+ pretty (port c));
        Serve (drogon_setup c enable_test_ui); StopRuntime; Log "[shutdown] Server stopped."], 0%Z)
  end.

(** A route is registered exactly when a handler is: the health check, every route of the
    interface, the preflight when there are origins, the page when it is built in. *)
Definition registered (c : ServerConfig) (enable_test_ui : bool) (route : Method * string) : Prop :=
  route = (Get, "/healthz") ∨ (∃ r : Route, route = registration r) ∨
  (route = (Options, "/{path}") ∧ cors_allow_origins (http c) ≠ []) ∨
  (route = (Get, "/_test") ∧ enable_test_ui = true).

(** An example of each kind of request, to enumerate the registrations. *)
Definition every_route : list Route :=
  [GetModels; GetTools; PostSessions ""; GetSessionById ""; DeleteSessionById ""; PostChatCompletions "";
   PostExtractions ""; PostAgentChat ""; PostCancel ""; GetAgentHistory; PutAgentHistory ""; DeleteAgentHistory;
   PostHistorySwap ""; PostHistoryMessages ""; GetSystemPrompt; PutSystemPrompt ""; GetRuntime; GetMetrics].

Lemma registration_listed route : (∃ r, route = registration r) ↔ route ∈ registration <$> every_route.
Proof.
  split; [|rewrite list_elem_of_fmap; by intros (r & -> & _); exists r]. intros [r ->].
  destruct r; apply (bool_decide_unpack _); vm_compute; exact I.
Qed.

Lemma api_routes_listed c :
  api_routes c = (if decide (cors_allow_origins (http c) = []) then [] else [(Options, "/{path}")]) ++
                 (registration <$> every_route).
Proof. reflexivity. Qed.

Lemma setup_routes c enable_test_ui route :
  route ∈ ds_routes (drogon_setup c enable_test_ui) ↔ registered c enable_test_ui route.
Proof.
  unfold registered, drogon_setup. rewrite registration_listed. cbn [ds_routes].
  rewrite api_routes_listed, !elem_of_app. unfold health_routes, test_ui_routes.
  case_decide; destruct enable_test_ui; rewrite ?list_elem_of_singleton, ?elem_of_nil; naive_solver.
Qed.

Lemma setup_routes_once c enable_test_ui : NoDup (ds_routes (drogon_setup c enable_test_ui)).
Proof. cbn. unfold api_routes. case_decide; destruct enable_test_ui; cbn [app]; by apply (bool_decide_unpack _). Qed.

(** The first origin of the list that is the star or the request's decides. *)
Lemma allow_origin_spec cors_origins origin h :
  allow_origin cors_origins origin = Some h ↔
  ∃ before after, cors_origins = before ++ h :: after ∧ (h = "*" ∨ h = origin) ∧
    ("*" ∉ before) ∧ (origin ∉ before).
Proof.
  revert h. induction cors_origins as [|a l IH]; intros h; cbn [allow_origin].
  { split; [done|]. intros (before & after & Hl & _). by destruct before. }
  assert (∀ P, (∃ before after, a :: l = before ++ h :: after ∧ P before) ↔
               (h = a ∧ P []) ∨ (∃ before after, l = before ++ h :: after ∧ P (a :: before))) as Hsplit.
  { intros P. split.
    - intros ([|b before] & after & [= -> Hl] & Hp); [by left|right; eauto].
    - intros [[-> Hp]|(before & after & -> & Hp)]; [by exists [], l|by exists (a :: before), after]. }
  rewrite (Hsplit (λ before, (h = "*" ∨ h = origin) ∧ ("*" ∉ before) ∧ (origin ∉ before))).
  setoid_rewrite not_elem_of_cons. repeat case_decide; subst.
  - split; [intros [= <-]; left; set_solver|]. intros [[-> _]|(? & ? & ? & ? & [[? _] _])]; done.
  - split; [intros [= <-]; left; set_solver|]. intros [[-> _]|(? & ? & ? & ? & _ & [? _])]; done.
  - rewrite IH. split.
    + intros (before & after & -> & ? & ? & ?). right. exists before, after. naive_solver.
    + intros [[-> [[?|?] _]]|(before & after & ? & ? & [_ ?] & [_ ?])]; [done..|]. naive_solver.
Qed.

(** CORS answers are exact: a response carries [Access-Control-Allow-Origin] if and only if the
    request has an [Origin] and the configured list holds it or a star; the value is the first of
    the two in the list, so an origin that is not listed is never reflected, and no configured
    origin means no header. *)
Theorem cors_header_exact c origin h :
  cors_header c origin = Some h ↔
  origin ≠ "" ∧
  ∃ before after, cors_allow_origins (http c) = before ++ h :: after ∧ (h = "*" ∨ h = origin) ∧
    ("*" ∉ before) ∧ (origin ∉ before).
Proof.
  assert (cors_header c origin = cors_advice (cors_allow_origins (http c)) origin) as ->.
  { unfold cors_header, cors_advice. destruct (cors_allow_origins (http c)); [by destruct (is_empty origin)|done]. }
  unfold cors_advice. rewrite <-allow_origin_spec. destruct (is_empty origin) eqn:Ho.
  - apply is_empty_true in Ho as ->. split; [done|]. by intros [? _].
  - apply is_empty_false in Ho. naive_solver.
Qed.
End HttpServer.

(** ** main.cpp *)

Module Main.
Export HttpServer.

Section Main.
Context `{ZooCore} `{ZooConfigLib} `{Filesystem} `{ZooAgentLib}.
Variable environ : list string.
Variable hardware_threads : nat.
Variable clock : nat → Z.
(** What reading a configuration file gives, [None] when it does not open. *)
Variable config_file : string → option (Result json).
Variable version : string.
(** [ZKS_ENABLE_TEST_UI]. *)
Variable enable_test_ui : bool.

(** [main]; [args] are [argv[1]], ..., [argv[argc - 1]]. *)
Definition main (args : list string) : list AppEvent * Z :=
  match args with
  | [arg] =>
      if decide (arg = "--version") then ([Stdout ("zoo-keeper-server " +:+ version)], 0%Z)
      else
        match load_config arg (config_file arg) with
        | Unexpected e => ([Stderr ("Config load failed: " +:+ e)], 1%Z)
        | Value c =>
            let warning := match startup_warning c with Some w => [Log w] | None => [] end in
            match create_runtime environ hardware_threads clock c with
            | Unexpected e => (warning ++ [Stderr ("Config bootstrap failed: " +:+ e)], 1%Z)
            | Value runtime =>
                let '(events, code) := run (Some runtime) enable_test_ui in (warning ++ events, code)
            end
        end
  | _ => ([Stderr "Usage: zoo_keeper_server <config.json>"], 1%Z)
  end.

Lemma runtime_keeps_config c r : create_runtime environ hardware_threads clock c = Value r → rt_config r = c.
Proof.
  unfold create_runtime. intros Hr. apply try_ok in Hr as (provider & _ & Hr).
  by apply try_ok in Hr as (chat & _ & [= <-]).
Qed.

Definition warnings (c : ServerConfig) : list AppEvent :=
  match startup_warning c with Some w => [Log w] | None => [] end.

Definition listening (c : ServerConfig) : AppEvent :=
  Log ("zoo-keeper-server listening on " +:+ bind_address c +:+ ":" +:+ pretty (port c)).

Lemma main_serves args setup :
  Serve setup ∈ fst (main args) →
  ∃ path c r, args = [path] ∧ load_config path (config_file path) = Value c ∧
    create_runtime environ hardware_threads clock c = Value r ∧
    main args = (warnings c ++ [listening c; Serve setup; StopRuntime; Log "[shutdown] Server stopped."], 0%Z) ∧
    setup = drogon_setup c enable_test_ui.
Proof.
  unfold main. destruct args as [|arg [|]]; [set_solver| |set_solver].
  case_decide; [set_solver|].
  destruct (load_config arg (config_file arg)) as [c|e] eqn:Hc; [|set_solver].
  destruct (create_runtime environ hardware_threads clock c) as [r|e] eqn:Hr; cbn [fst snd].
  2: { intros Hin. exfalso. destruct (startup_warning c); set_solver. }
  cbn [run]. rewrite (runtime_keeps_config c r Hr). cbn [fst]. intros Hin.
  assert (setup = drogon_setup c enable_test_ui) as -> by (destruct (startup_warning c); set_solver).
  by exists arg, c, r.
Qed.

(** C16: The process listens only with a sound configuration.  If [main] ever runs Drogon, its only
    argument names a file with an accepted configuration, the runtime was created from it, and
    Drogon gets exactly its address, port, body limits and timeout (no conversion to [size_t]
    changes them), its CORS origins, and exactly the routes of the program, each once: the health
    check, the registration of every handler of the interface, the preflight if and only if there
    are origins, the test page if and only if it is built in.  When the address is not a loopback
    one and there is no key, the warning was printed before.  The runtime is stopped after Drogon
    returned, and the exit code is 0. *)
Theorem process_listens_when_sound args setup :
  Serve setup ∈ fst (main args) →
  snd (main args) = 0%Z ∧
  ∃ path c runtime before,
    args = [path] ∧ load_config path (config_file path) = Value c ∧ config_ok c ∧
    create_runtime environ hardware_threads clock c = Value runtime ∧
    fst (main args) = before ++ [Serve setup; StopRuntime; Log "[shutdown] Server stopped."] ∧
    (∀ setup', Serve setup' ∉ before) ∧ (StopRuntime ∉ before) ∧
    (api_key c = None → is_trusted_local_bind_address (bind_address c) = false →
     ∃ w, startup_warning c = Some w ∧ Log w ∈ before) ∧
    ds_address setup = bind_address c ∧ ds_port setup = port c ∧ (1 ≤ port c ≤ 65535)%Z ∧
    ds_max_body_size setup = client_max_body_size_bytes (http c) ∧
    ds_max_memory_body_size setup = client_max_memory_body_size_bytes (http c) ∧
    ds_idle_timeout setup = idle_connection_timeout_seconds (http c) ∧
    ds_cors_origins setup = cors_allow_origins (http c) ∧
    (∀ route, route ∈ ds_routes setup ↔ registered c enable_test_ui route) ∧ NoDup (ds_routes setup).
Proof.
  intros Hserve. destruct (main_serves args setup Hserve) as (path & c & r & -> & Hc & Hr & Hm & ->).
  pose proof (load_config_ok path _ c Hc) as [Hok _]. rewrite Hm. split; [done|]. cbn [fst].
  exists path, c, r, (warnings c ++ [listening c]). rewrite <-app_assoc.
  pose proof (ok_body_size c Hok). pose proof (ok_memory_size c Hok).
  assert (∀ e, e ∈ warnings c ++ [listening c] → ∃ l, e = Log l) as Hlogs.
  { intros e. rewrite elem_of_app, list_elem_of_singleton. unfold warnings.
    intros [He| ->]; [|by eexists]. destruct (startup_warning c); [|by apply elem_of_nil in He].
    apply list_elem_of_singleton in He as ->. by eexists. }
  split_and!; try done.
  - by intros setup' [l ?]%Hlogs.
  - by intros [l ?]%Hlogs.
  - intros Hkey Hlocal. unfold warnings, startup_warning. rewrite Hkey, Hlocal. eexists. split; [done|by left].
  - apply (ok_port c Hok).
  - apply (ok_port c Hok).
  - cbn. unfold to_uint64. rewrite Z.mod_small; lia.
  - cbn. unfold to_uint64. rewrite Z.mod_small; lia.
  - apply setup_routes.
  - apply setup_routes_once.
Qed.
End Main.

(** ** Witness *)

Module Witness.
Import ApiTypes.ZooDemo.
#[local] Existing Instance Config.Witness.lib.
#[local] Existing Instance CommandTools.Witness.fs.

#[local] Instance agent : ZooAgentLib := {| agent_create _ _ _ := None; agent_register_tool _ _ := None |}.

Definition file (path : string) : option (Result json) :=
  if decide (path = "server.json")
  then Some (Value (server_to_json Config.Witness.sampling_to_json Config.Witness.sample))
  else None.

Definition started : list AppEvent * Z :=
  main CommandTools.Witness.environ 8 (λ _, 0%Z) file "0.4.0" false ["server.json"].

Definition sample_setup : DrogonSetup := drogon_setup Config.Witness.sample false.

Lemma started_run :
  fst started = [Log "zoo-keeper-server listening on 0.0.0.0:8080"; Serve sample_setup; StopRuntime;
                 Log "[shutdown] Server stopped."].
Proof. vm_compute. reflexivity. Qed.

Lemma process_listens_when_sound_witness :
  snd started = 0%Z ∧ ds_port sample_setup = 8080%Z ∧ (Get, "/metrics") ∈ ds_routes sample_setup.
Proof.
  destruct (process_listens_when_sound CommandTools.Witness.environ 8 (λ _, 0%Z) file "0.4.0" false
    ["server.json"] sample_setup) as [H (path & c & r & before & Hs)].
  - fold started. rewrite started_run. right. left.
  - split; [exact H|]. split; [reflexivity|].
    destruct Hs as (_ & _ & _ & _ & _ & _ & _ & _ & _ & _ & _ & _ & _ & _ & _ & Hroutes & _).
    apply Hroutes. right. left. by exists GetMetrics.
Defined.
End Witness.
End Main.
